(* ===== verification/_CoqProject ===== *)
-Q . S2P
Prelude.v
Prog.v
Machine.v
GoStd.v
Csi.v
GoTime.v
GoFormat.v
EntryLog.v
Common.v
Locking.v
Serve.v
Liveness.v
Bracket.v
Overlap.v
Driver.v
ZecApi.v
CloudTypes.v
Cloud.v
Ctrl.v
Times.v
Controller.v
CtrlProps.v
Locks.v
CloudProps.v
System.v
Sim.v
CloudSpec.v
CtrlSpec.v
SystemProps.v
WellFormed.v
Bounded.v
Disk.v
CmRefine.v
VolumeSpec.v
VolumeRefine.v
Serial.v
DiskSim.v
RefineSpec.v
Naming.v
NameRefine.v
NamingSpec.v
SerialSpec.v
Waiting.v
Prompt.v
Creating.v
Complete.v
CreateComplete.v
Snap.v
SnapComplete.v
Host.v
Mount.v
MountProps.v
Node.v
NodeProps.v
HostSim.v
NodeSpec.v
NodeVol.v
NodeRefine.v
NodeSerial.v
NodeComplete.v
NodeLife.v
VolHost.v
NodeRefineSpec.v
Life.v
LifeSpec.v
LiveSpec.v
Startup.v
StartupSpec.v
Server.v
