(* ===== verification/Prelude.v ===== *)
(** * The Zenlayer Cloud CSI driver

    A model of the Go program of [src/] (module
    [github.com/zenlayer/zenlayer-cloud-csi-driver]) and proofs about it.  The
    program is a Container Storage Interface driver: a controller plugin that
    creates, attaches, resizes and deletes cloud disks and snapshots through the
    Zenlayer cloud SDK, and a node plugin that formats and mounts them.

    ** The program and the model

    A gRPC request reaches a handler of [pkg/disk/rpcserver]; the controller's
    handlers call the interface [CloudManager] of [pkg/cloud], whose
    implementation [zecCloudManager] calls the SDK and waits; both use the disk
    types and storage classes of [pkg/disk/driver] and the helpers of
    [pkg/common].  Effectful code is a [prog E A] (file [Prog]): a tree of calls
    of the effect signature [E] whose answers are left to the environment.  Pure
    code is a function; a Go [(T, error)] is a [result].  The files:

    - [Prelude]: results, the notations [reject .. when .. ;; ..] (an early
      return) and [try .. <- .. ; ..] (an error check), 64-bit integers;
    - [Prog]: programs, their traces, their executions against an environment,
      and a program logic over protocols; [interp] implements one signature by
      programs of another;
    - [Machine]: abstract specifications as machines on a state, the executions of
      a program on one, and refinement of one by another;
    - [GoStd], [GoTime], [GoFormat]: the parts of Go's standard library the code
      uses ([strings], [strconv], the range of a map, [time.Parse] on the layouts of
      controllerserver.go, [Time.Format] and the calendar);
    - [Csi]: the CSI messages and gRPC status codes;
    - [EntryLog]: [EntryFunction], [ExitFunction], their hash and their table of
      times (common.go), and the statements each handler starts with;
    - [Common]: pkg/common/calculator.go, types.go, lock.go and the volume ids of
      common.go;
    - [Driver]: pkg/disk/driver (disk types, storage and snapshot classes,
      topologies, the driver's capabilities);
    - [ZecApi]: the cloud SDK and the timers as the effects [CloudE];
    - [CloudTypes]: pkg/cloud/types.go, error.go, manager.go; the Go interface
      [CloudManager] is the effect signature [CmE];
    - [Cloud]: pkg/cloud/utils.go and cloud_manager.go; [zec_impl] gives each
      method of [CmE] as a program over [CloudE];
    - [Locking]: the bracket [with_lock] in which every handler works, and the
      discipline of the lock table, for any signature [F] of other calls
      ([Locked F]);
    - [Serve]: a server's requests in goroutines, sharing one [ResourceLocks];
      each step is one lock operation or one other call of one request.  A
      [server] is a record; the class [Disciplined] is all the invariant needs
      of it;
    - [Liveness]: what every schedule of such a server comes to (class [Answering]);
      [Bracket]: machines with locks, and requests that work on one state under one
      lock, serialized answer by answer, for any server, machine, drift and sequential
      specification; [Overlap]: for any server, the execution in which two such
      requests overlap, the instance of the theorems on concurrent requests;
    - [Ctrl], [Controller]: pkg/disk/rpcserver/controllerserver.go, over the lock
      table, the cloud manager and the runtime ([CtrlE]); one definition per
      handler, [cs.CreateVolume] cut at the ends of its blocks; [Times]: the snapshot
      creation times it reads;
    - [System]: the controller as a [server], its handlers implemented down to the
      SDK by a cloud manager;
    - [Host]: the node's system calls, commands and mounter as effects ([HostE]);
      [Mount]: pkg/common/mount.go over them; [Node]:
      pkg/disk/rpcserver/nodeserver.go, one definition per handler over the locks
      and the host; the node as a [server] is at the end of [NodeProps];
    - [Startup]: the environment readers of common.go, identityserver.go, server.go,
      run.go and cmd/main.go; [Server]: the log interceptor, and the goroutines of
      the gRPC server as a step relation (Start, Wait, Stop, ForceStop);
    - [Sim], [HostSim], [DiskSim]: small concrete clouds and a small concrete host, used
      only to evaluate examples;
    - [Disk], [VolumeSpec], [Naming], [NodeVol]: abstract specifications, described
      below; [VolHost]: a concrete host that meets the one of [NodeVol];
    - [Locks], [CloudProps], [CtrlProps], [MountProps], [NodeProps], [CmRefine],
      [VolumeRefine], [Serial], [Waiting], [Prompt], [Creating], [Complete],
      [CreateComplete], [Snap], [SnapComplete], [NameRefine], [NodeRefine], [NodeSerial], [NodeComplete], [NodeLife]: the lemmas on the handlers and on the cloud manager
      (lock discipline, the API calls an operation asks for, number of waits, what each
      call needs and what each success rests on, refinement, serialization);
    - [Life]: the controller and the node server at work on one world, from a
      volume's creation to its deletion;
    - [CloudSpec], [CtrlSpec], [SystemProps], [WellFormed], [Bounded], [RefineSpec],
      [SerialSpec], [NamingSpec], [LiveSpec], [LifeSpec], [NodeSpec],
      [NodeRefineSpec], [StartupSpec] (and the ends of [Common], [Driver], [Times], [EntryLog] and
      [Server]): the properties.

    ** Abstract specifications

    Three layers of specification of one disk, [option disk] ([Disk], [VolumeSpec]):

    - [disk_api v] is what the driver relies on of the cloud's API for the disk [v]:
      tasks that complete by themselves at any time, changes refused on a busy
      disk, statuses, answers that may be lost.  The cloud is not part of the
      repository; [disk_api] is a hypothesis on it ([obeys], or [follows] along a
      log), and [one_cloud] meets it;
    - [disk_manager v] is what the interface [CloudManager] promises: an operation that
      returns no error has happened once and is complete;
    - [csi_apply] and [csi_step] are the volume service a CSI client has in mind.

    [zec_impl] refines the second on any cloud of the first (class
    [RefinesManager]), the handlers refine the third over the second, and the
    concurrent controller is serialized into a run of the third.  [prompt_api] and
    [prompt_manager] ([Prompt]) add that the cloud accepts what it can and is done
    before the driver's timer fires, and that it answers that the machines of a given
    set are running; with them requests succeed ([Complete]), a publication when its
    machine is one of the set ([runs]).
    [creating_api] ([Creating]) adds that it creates: it makes the disk [v] when it is
    asked for one of its name, and its searches show it; [creation_plan]
    ([CreateComplete]) is, as a function of the request, the disk that is made (none when the size that the
    request requires overflows).  Parameters whose keys are the same up to case are
    excluded ([clear_keys]): what the driver takes from them depends on Go's order.
    [snap_api] ([Snap]) is such a cloud for the one snapshot of a name, seen as the
    phase of its life.

    Creations are specified by the name, before there is a disk ([Naming]): the state is
    the live disks of one name with their zones, groups and types; [naming_api] and
    [naming_manager] are the machines, [name_outcome] what a creation does.

    The node is specified by the volume ([NodeVol]): the file system and partition
    table of its disk, whether the file system fills it, and what is mounted at the
    paths that are the volume's.  [host_api] is what
    the driver relies on of the kernel, the mounter and the commands, [node_results]
    and [node_left] what each request may do, [node_step] puts them together; on
    [healthy_host] ([NodeComplete]) the commands do what they can.

    ** What is proved

    - Refinement ([RefineSpec], [SerialSpec]): the cloud manager implements its
      interface; a request to the controller does to its disk what the abstract
      service does, or, on an error, nothing or a part of its own change; concurrent
      requests, interleaved at every call, are a run of the abstract service in the
      order in which they release the disk's lock.
      Concurrent creations of a name make at most one disk of it in a zone, a group and
      a type, each answered as the abstract service answers it in turn ([NamingSpec]).
    - The node ([NodeRefineSpec]): a request does to its volume what the abstract node
      service does, errors at any call included; concurrent requests are a run of
      it, answer by answer; on a healthy host valid requests succeed; and the calls of a
      pod's life format at most an empty disk, show its file system at the target,
      and leave nothing mounted.
    - The whole ([LifeSpec]): a valid creation of a volume or a snapshot succeeds and can
      be repeated; a volume's
      life, created, attached, staged, published and all the way back, succeeds through
      the controller and the node, which share the cloud's disk: the node's host is
      relied on only while the disk is attached to it.
    - Liveness and termination ([LiveSpec], [Bounded]): on a cloud that keeps up,
      valid requests succeed; every execution of a request, down to the SDK, is made of
      at most eleven calls of its handler and starts at most two timers.  That no
      schedule of concurrent requests blocks one or goes on for ever holds of any
      server whose handlers are such finite programs ([Liveness]).
    - Concurrency ([SystemProps], [NodeSpec.node_work_is_exclusive]): in every
      interleaving, whatever the cloud or the host answers, a disk or snapshot is
      changed, and a volume worked on in a node, only by the request that holds its
      lock; locks do not leak on any path; a lock is refused only when held.  The
      controller's handlers follow the lock protocol at the level of [CmE] ([Locks]),
      an implementation of [CmE] that satisfies the class [CloudDiscipline] carries
      it to the SDK calls ([wp_locked_impl]), and [zec_discipline] is the instance.
    - Well-formedness ([WellFormed]): in every execution the changes asked of the SDK
      have sizes, names, categories and ids that the cloud admits.
    - Handlers ([CtrlSpec]): idempotency of creation and deletion, the
      disk that a creation searches for, makes or returns being the one its
      parameters, range and topology ask for, attachment
      only of free disks to running instances, detachment only from the node asked
      for, expansion that only grows, capacities within the requested range.
    - Cloud manager ([CloudSpec]): a success is backed by the cloud's last answer;
      deletion releases at most twice and once from the recycle bin; the waits are
      within the bound utils.go documents; the searches read every page and never
      return a recycled disk; a node's manager makes no call.
    - Node ([NodeSpec]): a disk is formatted only when it holds nothing, is asked for
      writable and did not mount; staging and publishing work on the device with the
      volume's serial, mount only where nothing is mounted, with exactly the options
      the request and the feature gate give, and succeed only when
      mounted; unmounting never depends on the volume id; expansion reports the
      size the device has; the node's topology is the one of the disks it can use.
    - Start and end ([StartupSpec], [Server]): what a driver has checked before it
      serves (the platform, the machine's id and zone, the commands, the cloud), that a node touches neither credentials nor the cloud, and that the
      server's [Wait] never returns.
    - Data ([Common], [Driver], [Times], [EntryLog]): the sizes
      [GetRequiredVolumeSizeByte] computes are the least admissible ones; a storage
      class is the one the keys of its parameters ask for, and does not depend on Go's
      iteration order; volume ids parse exactly when they are made of an id and a serial;
      topologies and creation times round-trip; the hash of a log line has eight
      digits, and a handler's exit line is made when it is entered.

    The properties quantify over all answers of the environment, so they hold
    with other clients changing the cloud and with failures.  Where the
    environment must behave for a property to hold (the refinements, the pages of a
    search, a host that formats and mounts), the behaviour is a hypothesis and the
    property has an example that meets it.

    ** Bounds and modelling choices

    The wait loop runs as many times as the ticker fires before the timer
    ([SelectTicks], an answer of the environment), the page loops as often as
    [page_calls] computes, and [release_loop] [maxReleaseDiskTimes] and [probe_loop]
    [probe_tries] times, as the code does.  Every program is therefore a finite tree
    of calls and each execution ends.  The one fuel is that of [decimal_digits]: 20
    digits, more than an [int64] has ([decimal_spec]).  Integers of type [int] and
    [int64] are [Z] with the wrap-around written where it can occur.  The order
    of a [range] over a map is an explicit list, chosen by the environment.  An
    error keeps its kind, not its text.  The handlers are modelled without their log
    lines, which [EntryLog.logged] adds around a body; contexts and panics of the
    runtime are not modelled, except the nil server that [Stop] may meet.

    Refinement is stated for one disk at a time, and the serialization by disk for
    requests other than creations: the disk of a creation is not known before it
    exists.  Creations are serialized by name, on a cloud where the disks of the name
    in a zone and a group fit on one page of a search (20): pages asked for one after
    the other while disks go may miss one.  On the node the paths and the serial of
    a volume are taken to be its alone and the disk to stay at its device during an
    execution, and an expansion that is serialized comes with the volume's capability
    (without it the handler looks at the path before it takes the lock).

    ** Not modelled

    The messages of errors and the other log lines, the error codes of error.go
    that the code does not compare with, the constructors that only wrap a library
    value ([NewSafeMounter], [NewControllerServiceCapability] and the like: a capability
    is its enumeration value), and [ZecVolume.Check], which nothing calls.  The SDK,
    gRPC, the kubelet, the Kubernetes mount library, the commands it runs and flag
    parsing are not part of the repository: they are effects, or parameters
    ([NewClient], [OnError]). *)

From Stdlib Require Export Ascii.
From stdpp Require Export base tactics gmap sets list strings numbers.

#[export] Set Warnings "-clear-no-such-hyp".

#[global] Arguments String.append : simpl nomatch.

(** ** Results of fallible code

    A Go function that returns [(T, error)] and whose value is the zero value
    when the error is not [nil] returns a [result] here. *)

Inductive result (E T : Type) : Type :=
| Ok (t : T)
| Err (e : E).

Arguments Ok {E T} _.
Arguments Err {E T} _.

Definition is_ok {E T} (r : result E T) : bool := match r with Ok _ => true | Err _ => false end.

Declare Scope csi_scope.
Delimit Scope csi_scope with csi.

(** Early return with an error: [reject e when b ;; k] is
    [if b { return err }] followed by the rest of the function. *)

Notation "'reject' e 'when' b ;; k" := (if b then mret (Err e) else k)
  (at level 100, e at level 0, b at level 99, k at level 200,
   format "'reject'  e  'when'  b  ;; '//' k") : csi_scope.

(** The error check that follows a call: [try x <- c ; k]. *)

Notation "'try' x '<-' c ; k" :=
  (mbind (fun try_res => match try_res with Ok x => k | Err e => mret (Err e) end) c)
  (at level 100, x pattern, c at level 99, k at level 200,
   format "'try'  x  '<-'  c ; '//' k") : csi_scope.

(** ** Machine integers

    Go's [int] and [int64] on the supported 64-bit platforms. *)

Definition MaxInt64 : Z := 2 ^ 63 - 1.

Definition wrap64 (z : Z) : Z := (z + 2 ^ 63) mod 2 ^ 64 - 2 ^ 63.

Definition wrapu64 (z : Z) : Z := z mod 2 ^ 64.

Definition is_int64 (z : Z) : Prop := (- 2 ^ 63 <= z <= MaxInt64)%Z.

(** The length of a Go string, in bytes. *)

Definition len (s : string) : Z := Z.of_nat (String.length s).

Definition is_nil {A} (o : option A) : bool :=
  match o with None => true | Some _ => false end.

(** ** Automation *)

Create HintDb csi.

(** Split on every [match] and [if] of the goal or the context and clear the
    branches that cannot happen. *)

Ltac case_branches :=
  repeat (first [ progress simplify_eq/= | case_match ]); try done.

(** The constant at the head of an application. *)
Ltac head_of t :=
  lazymatch t with
  | ?f _ => head_of f
  | _ => t
  end.

(** ** Generic lemmas *)

Lemma wrap64_id z : is_int64 z → wrap64 z = z.
Proof. unfold is_int64, MaxInt64, wrap64. intros. rewrite Z.mod_small; lia. Qed.

Lemma wrap64_range z : is_int64 (wrap64 z).
Proof.
  unfold is_int64, MaxInt64, wrap64.
  pose proof (Z.mod_pos_bound (z + 2 ^ 63) (2 ^ 64) ltac:(lia)). lia.
Qed.

Lemma len_nonneg s : (0 <= len s)%Z.
Proof. unfold len. lia. Qed.

Lemma len_0 s : len s = 0%Z ↔ s = "".
Proof. unfold len. destruct s; simpl; split; intros; try done; lia. Qed.

Lemma length_append s1 s2 :
  String.length (s1 +:+ s2) = String.length s1 + String.length s2.
Proof. induction s1 as [|c s1 IH]; simpl; [done|]. by rewrite IH. Qed.

#[export] Hint Resolve wrap64_range len_nonneg : csi.

Lemma Ok_inj {E T} (x y : T) : @Ok E T x = Ok y → x = y.
Proof. congruence. Qed.

(** Turn the conditions met on a path through a program into equations; [extra]
    handles the conditions of a component. *)
Ltac conditions_with extra :=
  repeat first [ match goal with
    | H : match ?r with Ok _ => _ | Err _ => _ end = _ |- _ => destruct r; simplify_eq
    | H : is_nil ?o = _ |- _ => is_var o; destruct o; try done
    | H : negb _ = false |- _ => apply negb_false_iff in H
    | H : negb _ = true |- _ => apply negb_true_iff in H
    | H : String.eqb _ _ = true |- _ => apply String.eqb_eq in H
    | H : String.eqb _ _ = false |- _ => apply String.eqb_neq in H
    | H : (len _ =? 0)%Z = true |- _ => apply Z.eqb_eq, len_0 in H
    | H : _ && _ = true |- _ => apply andb_true_iff in H as [? ?]
    end | extra ]; simplify_eq.
