(* ===== verification/Prog.v ===== *)
(** * Effectful programs

    A driver operation is a [prog E A]: a finite tree of calls of the effect
    signature [E] (locks, the cloud API, the clock, the operating system),
    ending in a value of type [A].  The answers of the calls are not part of
    the program.  This file gives two readings of a program:

    - [traces]: the sequences of calls and answers the program can produce when
      the environment answers anything that [ok] allows.  A property proved for
      all traces holds whatever the environment does, other requests included;
    - [run]: the execution against one environment, a function of its state.

    It also gives a program logic, [wp], over a [protocol]: a state that follows
    the calls, an obligation on each call and an assumption on each answer.
    [interp] implements the calls of one signature by programs of another. *)

From S2P Require Import Prelude.

(** ** Syntax *)

Inductive prog (E : Type → Type) (A : Type) : Type :=
| Ret (a : A)
| Vis {R : Type} (e : E R) (k : R → prog E A).

Arguments Ret {E A} _.
Arguments Vis {E A R} _ _.

#[export] Instance prog_ret {E} : MRet (prog E) := fun A a => Ret a.

#[export] Instance prog_bind {E} : MBind (prog E) :=
  fun A B f =>
    fix bind (p : prog E A) : prog E B :=
      match p with
      | Ret a => f a
      | Vis e k => Vis e (fun r => bind (k r))
      end.

#[export] Instance prog_fmap {E} : FMap (prog E) :=
  fun A B f p => p ≫= (fun a => Ret (f a)).

(** One call. *)
Definition call {E R} (e : E R) : prog E R := Vis e (fun r => Ret r).

(** ** Traces *)

Record event (E : Type → Type) : Type := Event {
  ev_type : Type;
  ev_call : E ev_type;
  ev_answer : ev_type
}.
Arguments Event {E ev_type} _ _.
Arguments ev_type {E} _.
Arguments ev_call {E} _.
Arguments ev_answer {E} _.

Definition answers (E : Type → Type) : Type := ∀ R, E R → R → Prop.

Fixpoint traces {E A} (ok : answers E) (p : prog E A) (t : list (event E)) (a : A) : Prop :=
  match p with
  | Ret a' => t = [] ∧ a = a'
  | Vis e k => ∃ r t', t = Event e r :: t' ∧ ok _ e r ∧ traces ok (k r) t' a
  end.

(** ** Execution against an environment *)

Definition env (E : Type → Type) (W : Type) : Type := ∀ R, E R → W → R * W.

Fixpoint run {E A W} (hd : env E W) (p : prog E A) (w : W) : A * W :=
  match p with
  | Ret a => (a, w)
  | Vis e k => let '(r, w') := hd _ e w in run hd (k r) w'
  end.

(** The calls an execution makes. *)
Fixpoint run_log {E A W} (hd : env E W) (p : prog E A) (w : W) : list (event E) :=
  match p with
  | Ret _ => []
  | Vis e k => let '(r, w') := hd _ e w in Event e r :: run_log hd (k r) w'
  end.

(** ** Implementing one signature by another *)

Fixpoint interp {E F A} (h : ∀ R, E R → prog F R) (p : prog E A) : prog F A :=
  match p with
  | Ret a => Ret a
  | Vis e k => h _ e ≫= (fun r => interp h (k r))
  end.

(** ** Protocols and the program logic *)

Record protocol (E : Type → Type) (S : Type) : Type := Protocol {
  pre : ∀ R, S → E R → Prop;
  ans : ∀ R, S → E R → R → Prop;
  next : ∀ R, S → E R → R → S
}.
Arguments Protocol {E S} _ _ _.
Arguments pre {E S} _ {R} _ _.
Arguments ans {E S} _ {R} _ _ _.
Arguments next {E S} _ {R} _ _ _.

Fixpoint wp {E S A} (P : protocol E S) (p : prog E A) (Q : A → S → Prop) (s : S) : Prop :=
  match p with
  | Ret a => Q a s
  | Vis e k => pre P s e ∧ ∀ r, ans P s e r → wp P (k r) Q (next P s e r)
  end.

(** The protocol whose state is the history of the calls so far. *)
Definition hist {E} (ok : answers E) (obl : list (event E) → ∀ R, E R → Prop)
    : protocol E (list (event E)) :=
  Protocol (fun R h e => obl h R e) (fun R h e r => ok R e r)
           (fun R h e r => h ++ [Event e r]).

Definition no_obl {E} (h : list (event E)) (R : Type) (e : E R) : Prop := True.

(** ** Laws *)

Section laws.
Context {E : Type → Type}.

Lemma prog_bind_ret {A B} (a : A) (f : A → prog E B) : (Ret a ≫= f) = f a.
Proof. done. Qed.

Lemma prog_bind_vis {A B R} (e : E R) (k : R → prog E A) (f : A → prog E B) :
  (Vis e k ≫= f) = Vis e (fun r => k r ≫= f).
Proof. done. Qed.

Lemma run_bind {A B W} (hd : env E W) (p : prog E A) (f : A → prog E B) w :
  run hd (p ≫= f) w = let '(a, w') := run hd p w in run hd (f a) w'.
Proof.
  revert w. induction p as [a|R e k IH]; intros w; [done|].
  rewrite prog_bind_vis. simpl. destruct (hd _ e w) as [r w']. apply IH.
Qed.

Lemma traces_bind {A B} ok (p : prog E A) (f : A → prog E B) t b :
  traces ok (p ≫= f) t b ↔
  ∃ t1 t2 a, t = t1 ++ t2 ∧ traces ok p t1 a ∧ traces ok (f a) t2 b.
Proof.
  revert t. induction p as [a|R e k IH]; intros t.
  - rewrite prog_bind_ret. simpl. split.
    + intros Ht. by exists [], t, a.
    + by intros (? & t2 & ? & -> & [-> ->] & Ht).
  - rewrite prog_bind_vis. simpl. split.
    + intros (r & t' & -> & Hok & (t1 & t2 & a & -> & H1 & H2)%IH).
      exists (Event e r :: t1), t2, a. split_and!; eauto 10.
    + intros (t1 & t2 & a & -> & (r & t' & -> & Hok & H1) & H2).
      exists r, (t' ++ t2). split_and!; [done..|]. apply IH. eauto 10.
Qed.

(** The calls and the result of an execution are a trace. *)
Lemma run_log_traces {A W} (ok : answers E) (hd : env E W) (p : prog E A) w :
  (∀ R (e : E R) w, ok R e (hd R e w).1) →
  traces ok p (run_log hd p w) (run hd p w).1.
Proof.
  intros Hok. revert w. induction p as [a|R e k IH]; intros w; [done|]. cbn [run run_log].
  specialize (Hok R e w). destruct (hd _ e w) as [r w']. exists r, (run_log hd (k r) w').
  split_and!; [done|exact Hok|apply IH].
Qed.

Section wp.
Context {S : Type} (P : protocol E S).

Lemma wp_ret {A} (a : A) (Q : A → S → Prop) s : Q a s → wp P (mret a) Q s.
Proof. done. Qed.

Lemma wp_call {R} (e : E R) (Q : R → S → Prop) s :
  pre P s e → (∀ r, ans P s e r → Q r (next P s e r)) → wp P (call e) Q s.
Proof. done. Qed.

Lemma wp_bind {A B} (p : prog E A) (f : A → prog E B) Q s :
  wp P (p ≫= f) Q s ↔ wp P p (fun a s' => wp P (f a) Q s') s.
Proof.
  revert s. induction p as [a|R e k IH]; intros s; [done|].
  rewrite prog_bind_vis. simpl. by setoid_rewrite IH.
Qed.

Lemma wp_mono {A} (p : prog E A) (Q Q' : A → S → Prop) s :
  (∀ a s', Q a s' → Q' a s') → wp P p Q s → wp P p Q' s.
Proof.
  intros HQ. revert s. induction p as [a|R e k IH]; intros s; simpl; [eauto|].
  intros [Hpre Hk]. eauto.
Qed.

Lemma wp_bind_mono {A B} (p : prog E A) (f : A → prog E B) Q1 Q s :
  wp P p Q1 s → (∀ a s', Q1 a s' → wp P (f a) Q s') → wp P (p ≫= f) Q s.
Proof. intros Hp Hf. apply wp_bind. eapply wp_mono; [|exact Hp]. eauto. Qed.

Lemma wp_fmap {A B} (p : prog E A) (f : A → B) Q s :
  wp P (f <$> p) Q s ↔ wp P p (fun a s' => Q (f a) s') s.
Proof. unfold fmap, prog_fmap. by rewrite wp_bind. Qed.

End wp.

(** A proof in the history protocol speaks about every trace: each call met
    its obligation at the point it was made, and the result the postcondition. *)
Lemma wp_hist_sound {A} ok obl (p : prog E A) Q h t a :
  wp (hist ok obl) p Q h → traces ok p t a →
  Q a (h ++ t) ∧ ∀ t1 ev t2, t = t1 ++ ev :: t2 → obl (h ++ t1) _ (ev_call ev).
Proof.
  revert h t. induction p as [a'|R e k IH]; intros h t; simpl.
  - intros HQ [-> ->]. rewrite app_nil_r. split; [done|]. by intros [|??] ??.
  - intros [Hobl Hk] (r & t' & -> & Hok & Ht).
    destruct (IH r _ _ (Hk r Hok) Ht) as [HQ Hobls].
    rewrite <-app_assoc in HQ. split; [done|].
    intros [|ev' t1] ev t2; simpl; intros [= <- Heq].
    + by rewrite app_nil_r.
    + rewrite cons_middle, app_assoc. by eapply Hobls.
Qed.

Lemma wp_hist_trace {A} ok obl (p : prog E A) Q t a :
  wp (hist ok obl) p Q [] → traces ok p t a →
  Q a t ∧ ∀ t1 ev t2, t = t1 ++ ev :: t2 → obl t1 _ (ev_call ev).
Proof. apply wp_hist_sound. Qed.

(** Conversely, a property of every trace is provable in the logic. *)
Lemma wp_hist_complete {A} ok (p : prog E A) (Q : A → list (event E) → Prop) h :
  (∀ t a, traces ok p t a → Q a (h ++ t)) → wp (hist ok no_obl) p Q h.
Proof.
  revert h. induction p as [a|R e k IH]; intros h Ht; simpl.
  - rewrite <-(app_nil_r h). by apply Ht.
  - split; [done|]. intros r Hr. apply IH. intros t a Hta.
    rewrite <-app_assoc. apply Ht. simpl. eauto 10.
Qed.
End laws.

(** The logic follows [interp]: when each call is implemented by a program that
    meets the call's specification, a proof about the calls is a proof about
    the implementation. *)
Lemma wp_interp {E F S A} (P : protocol E S) (P' : protocol F S)
    (h : ∀ R, E R → prog F R) (p : prog E A) Q s :
  (∀ R (e : E R) s, pre P s e →
     wp P' (h R e) (fun r s' => ans P s e r ∧ s' = next P s e r) s) →
  wp P p Q s → wp P' (interp h p) Q s.
Proof.
  intros Hh. revert s. induction p as [a|R e k IH]; intros s; simpl; [done|].
  intros [Hpre Hk]. eapply wp_bind_mono; [by apply Hh|].
  intros r s' [Hans ->]. eauto.
Qed.

(** Running an implementation is running the calls against the environment it
    makes of them. *)
Lemma run_interp {E F A W} (h : ∀ R, E R → prog F R) (hd : env F W) (p : prog E A) w :
  run hd (interp h p) w = run (fun R e w => run hd (h R e) w) p w.
Proof.
  revert w. induction p as [a|R e k IH]; intros w; [done|]. simpl.
  rewrite run_bind. by destruct (run hd (h R e) w) as [r w'].
Qed.

(** ** Programs all of whose calls satisfy a predicate *)

Definition only {E} (φ : ∀ R, E R → Prop) : protocol E unit :=
  Protocol (fun R _ e => φ R e) (fun _ _ _ _ => True) (fun _ s _ _ => s).

Definition all_calls {E A} (φ : ∀ R, E R → Prop) (p : prog E A) : Prop :=
  wp (only φ) p (fun _ _ => True) tt.

Section all_calls.
Context {E : Type → Type} (φ : ∀ R, E R → Prop).

Lemma all_calls_ret {A} (a : A) : all_calls φ (Ret a).
Proof. done. Qed.

Lemma all_calls_call {R} (e : E R) : φ R e → all_calls φ (call e).
Proof. intros. split; [done|]. by intros. Qed.

Lemma all_calls_bind {A B} (p : prog E A) (f : A → prog E B) :
  all_calls φ p → (∀ a, all_calls φ (f a)) → all_calls φ (p ≫= f).
Proof.
  intros Hp Hf. eapply wp_bind_mono; [exact Hp|]. intros a [] _. apply Hf.
Qed.

Lemma all_calls_traces {A} ok (p : prog E A) t a :
  all_calls φ p → traces ok p t a → Forall (fun ev => φ _ (ev_call ev)) t.
Proof.
  unfold all_calls. revert t. induction p as [a'|R e k IH]; intros t; simpl.
  - by intros _ [-> _].
  - intros [He Hk] (r & t' & -> & _ & Ht). constructor; [done|]. by eapply IH; [apply Hk|].
Qed.

(** The state of a protocol that these calls leave alone does not change. *)
Lemma all_calls_wp {S A} (P : protocol E S) (p : prog E A) s :
  (∀ R (e : E R), φ R e → pre P s e ∧ ∀ r, ans P s e r → next P s e r = s) →
  all_calls φ p → wp P p (fun _ s' => s' = s) s.
Proof.
  intros HP. unfold all_calls. induction p as [a|R e k IH]; simpl; [done|].
  intros [He Hk]. destruct (HP R e He) as [Hpre Hnext]. split; [done|].
  intros r Hr. rewrite (Hnext r Hr). apply IH, Hk, I.
Qed.
End all_calls.

(** A program without obligations, in the history protocol. *)
Lemma wp_hist_traces {E A} ok obl (p : prog E A) Q h :
  all_calls (fun R e => ∀ h, obl h R e) p →
  (∀ t a, traces ok p t a → Q a (h ++ t)) → wp (hist ok obl) p Q h.
Proof.
  unfold all_calls. revert h. induction p as [a|R e k IH]; intros h; simpl.
  - intros _ Ht. rewrite <-(app_nil_r h). by apply Ht.
  - intros [He Hk] Ht. split; [done|]. intros r Hr. apply IH; [apply Hk, I|].
    intros t a Hta. rewrite <-app_assoc. apply Ht. simpl. eauto 10.
Qed.

(** Histories only grow. *)
Lemma wp_hist_grow {E A} ok obl (p : prog E A) Q h obl' (Q' : A → list (event E) → Prop) :
  (∀ t R e, obl (h ++ t) R e → obl' (h ++ t) R e) → (∀ a t, Q a (h ++ t) → Q' a (h ++ t)) →
  wp (hist ok obl) p Q h → wp (hist ok obl') p Q' h.
Proof.
  revert h. induction p as [a|R e k IH]; intros h Hobl HQ; simpl.
  - rewrite <-(app_nil_r h). apply HQ.
  - intros [He Hk]. split; [specialize (Hobl [] R e); rewrite app_nil_r in Hobl; auto|].
    intros r Hr. apply IH; [| |by apply Hk]; intros ? ?; rewrite <-app_assoc; auto.
Qed.

Lemma all_calls_any {E A} (φ : ∀ R, E R → Prop) (p : prog E A) :
  (∀ R (e : E R), φ R e) → all_calls φ p.
Proof. intros Hφ. unfold all_calls. induction p as [a|R e k IH]; simpl; [done|]. auto. Qed.

Lemma all_calls_mono {E A} (φ ψ : ∀ R, E R → Prop) (p : prog E A) :
  (∀ R (e : E R), φ R e → ψ R e) → all_calls φ p → all_calls ψ p.
Proof.
  intros Hφ. unfold all_calls. induction p as [a|R e k IH]; simpl; [done|].
  intros [He Hk]. auto.
Qed.

(** The calls of an implementation, from those of what it implements. *)
Lemma all_calls_interp {E F A} (φ : ∀ R, E R → Prop) (ψ : ∀ R, F R → Prop)
    (h : ∀ R, E R → prog F R) (p : prog E A) :
  (∀ R (e : E R), φ R e → all_calls ψ (h R e)) → all_calls φ p → all_calls ψ (interp h p).
Proof.
  intros Hh. unfold all_calls. apply wp_interp. intros R e [] He.
  eapply wp_mono; [|by apply Hh]. by intros r [].
Qed.

(** ** Proof automation *)

Lemma in_snoc {T} (x : T) l : x ∈ l ++ [x].
Proof. apply elem_of_app. right. apply list_elem_of_here. Qed.

Lemma in_snoc_old {T} (x y : T) l : x ∈ l → x ∈ l ++ [y].
Proof. intros. apply elem_of_app. by left. Qed.

Create HintDb history.
#[export] Hint Resolve in_snoc in_snoc_old : history.

(** Walk through a program; [unfolds] rewrites the obligation of a call. *)
Ltac walk_with unfolds :=
  repeat lazymatch goal with
    | |- wp _ (Ret _) _ _ => apply wp_ret; cbn beta iota
    | |- wp _ (mret _) _ _ => apply wp_ret; cbn beta iota
    | |- wp _ (_ ≫= _) _ _ => apply wp_bind
    | |- wp _ (call _) _ _ => apply wp_call; [unfolds|intros ? ?; cbn [next hist]]
    | |- wp _ (let _ := _ in _) _ _ => cbv zeta
    | |- wp _ (match ?x with _ => _ end) _ _ => destruct x eqn:?
    | |- wp _ ?p _ _ => let f := head_of p in progress unfold f
    end.
