(* ===== verification/Machine.v ===== *)
(** * Programs against a machine, and refinement

    A [machine] gives the calls of a signature a meaning on a state, as a
    relation: what a call may answer in a state, and what it may leave.  [exec]
    is the executions of a program on a machine, [sat] the triples about them.
    A signature implemented by programs on one machine [refines] another machine
    when each operation's executions are steps of the other; programs then
    behave on the implementation as they do on the specification
    ([exec_interp], [exec_refines]), and an environment that obeys the machine
    runs programs as the machine does ([run_exec]). *)

From S2P Require Import Prelude Prog.

Definition machine (E : Type → Type) (S : Type) : Type := ∀ R, E R → S → R → S → Prop.

Fixpoint exec {E S A} (M : machine E S) (p : prog E A) (s : S) (a : A) (s' : S) : Prop :=
  match p with
  | Ret b => a = b ∧ s' = s
  | Vis e k => ∃ r s1, M _ e s r s1 ∧ exec M (k r) s1 a s'
  end.

(** Every execution of [p] from [s] ends as [Q] says. *)
Definition sat {E S A} (M : machine E S) (p : prog E A) (s : S) (Q : A → S → Prop) : Prop :=
  ∀ a s', exec M p s a s' → Q a s'.

(** The operations of one signature as programs on the machine of another. *)
Definition implemented {E F S} (M : machine F S) (h : ∀ R, E R → prog F R) : machine E S :=
  fun R e s r s' => exec M (h R e) s r s'.

(** Each step of [M1] is, in the view [α] of its states, a step of [M2]. *)
Definition refines {E S1 S2} (M1 : machine E S1) (M2 : machine E S2) (α : S1 → S2) : Prop :=
  ∀ R (e : E R) s r s', M1 R e s r s' → M2 R e (α s) r (α s').

(** The environment answers and changes as the machine allows. *)
Definition obeys {E W S} (hd : env E W) (α : W → S) (M : machine E S) : Prop :=
  ∀ R (e : E R) w, M R e (α w) (hd R e w).1 (α (hd R e w).2).

Section exec.
Context {E : Type → Type} {S : Type} (M : machine E S).

Lemma exec_bind {A B} (p : prog E A) (f : A → prog E B) s b s' :
  exec M (p ≫= f) s b s' ↔ ∃ a s1, exec M p s a s1 ∧ exec M (f a) s1 b s'.
Proof.
  revert s. induction p as [a|R e k IH]; intros s.
  - rewrite prog_bind_ret. simpl. split; [by exists a, s|]. by intros (? & ? & [-> ->] & ?).
  - rewrite prog_bind_vis. simpl. setoid_rewrite IH. naive_solver.
Qed.

Lemma sat_ret {A} (a : A) s (Q : A → S → Prop) : Q a s → sat M (mret a) s Q.
Proof. by intros HQ ?? [-> ->]. Qed.

Lemma sat_call {R} (e : E R) s (Q : R → S → Prop) :
  (∀ r s', M R e s r s' → Q r s') → sat M (call e) s Q.
Proof. by intros HQ r s' (r' & s1 & He & -> & ->); apply HQ. Qed.

Lemma sat_bind {A B} (p : prog E A) (f : A → prog E B) s Q :
  sat M p s (fun a s1 => sat M (f a) s1 Q) → sat M (p ≫= f) s Q.
Proof. intros Hp b s' (a & s1 & Ha & Hb)%exec_bind. by eapply Hp. Qed.

Lemma sat_mono {A} (p : prog E A) s (Q Q' : A → S → Prop) :
  sat M p s Q → (∀ a s', Q a s' → Q' a s') → sat M p s Q'.
Proof. intros Hp HQ a s' Ha. by apply HQ, Hp. Qed.

Lemma sat_bind_mono {A B} (p : prog E A) (f : A → prog E B) s Q1 Q :
  sat M p s Q1 → (∀ a s1, Q1 a s1 → sat M (f a) s1 Q) → sat M (p ≫= f) s Q.
Proof. intros Hp Hf. eapply sat_bind, sat_mono; eauto. Qed.
End exec.

Lemma exec_interp {E F S A} (M : machine F S) (h : ∀ R, E R → prog F R) (p : prog E A) s a s' :
  exec M (interp h p) s a s' ↔ exec (implemented M h) p s a s'.
Proof.
  revert s. induction p as [b|R e k IH]; intros s; [done|]. simpl.
  rewrite exec_bind. by setoid_rewrite IH.
Qed.

Lemma exec_refines {E S1 S2 A} (M1 : machine E S1) (M2 : machine E S2) (α : S1 → S2)
    (p : prog E A) s a s' :
  refines M1 M2 α → exec M1 p s a s' → exec M2 p (α s) a (α s').
Proof.
  intros HM. revert s. induction p as [b|R e k IH]; intros s; simpl.
  - by intros [-> ->].
  - intros (r & s1 & He & Hk). exists r, (α s1). eauto.
Qed.

Lemma run_exec {E W S A} (hd : env E W) (α : W → S) (M : machine E S) (p : prog E A) w :
  obeys hd α M → exec M p (α w) (run hd p w).1 (α (run hd p w).2).
Proof.
  intros Hhd. revert w. induction p as [a|R e k IH]; intros w; [done|]. simpl.
  pose proof (Hhd R e w) as He. destruct (hd R e w) as [r w1]. exists r, (α w1). eauto.
Qed.

(** A machine that does less keeps the triples. *)
Lemma sat_stronger {E S A} (M1 M2 : machine E S) (p : prog E A) s Q :
  refines M1 M2 id → sat M2 p s Q → sat M1 p s Q.
Proof. intros HM Hp a s' H. apply Hp. by apply (exec_refines M1 M2 id). Qed.

Lemma obeys_stronger {E W S} (hd : env E W) (α : W → S) (M1 M2 : machine E S) :
  refines M1 M2 id → obeys hd α M1 → obeys hd α M2.
Proof. intros HM Hhd R e w. by apply (HM R e (α w)). Qed.

(** Runs in the image of an environment. *)
Lemma run_map {E W1 W2 A} (hd1 : env E W1) (hd2 : env E W2) (f : W1 → W2) (p : prog E A) w :
  (∀ R (e : E R) w, hd2 R e (f w) = ((hd1 R e w).1, f (hd1 R e w).2)) →
  run hd2 p (f w) = ((run hd1 p w).1, f (run hd1 p w).2).
Proof.
  intros Hf. revert w. induction p as [a|R e k IH]; intros w; [done|]. cbn [run].
  rewrite Hf. destruct (hd1 R e w) as [r w1]. apply IH.
Qed.

(** Nothing happens to the state. *)
Definition still {E S} : machine E S := fun R e s r s' => s' = s.

Lemma exec_still {E S A} (p : prog E A) (s : S) a s' : exec still p s a s' → s' = s.
Proof.
  revert s. induction p as [b|R e k IH]; intros s; cbn; [by intros [_ ->]|].
  by intros (r & s1 & -> & Hk%IH).
Qed.

(** A machine on the second part of the state. *)
Definition on_snd {E S T} (M : machine E S) : machine E (T * S) := fun R e x r x' =>
  x'.1 = x.1 ∧ M R e x.2 r x'.2.

Lemma exec_on_snd {E S T A} (M : machine E S) (p : prog E A) (x : T * S) a x' :
  exec (on_snd M) p x a x' ↔ x'.1 = x.1 ∧ exec M p x.2 a x'.2.
Proof.
  revert x. induction p as [b|R e k IH]; intros [t s]; cbn.
  - destruct x' as [t' s']. cbn. naive_solver.
  - split.
    + intros (r & [t1 s1] & [Ht He] & [Ht' Hk]%IH). cbn in *. split; [congruence|eauto].
    + intros (Ht & r & s1 & He & Hk). exists r, (t, s1). split; [done|]. by apply IH.
Qed.

Lemma refines_on_snd {E F S T} (A : machine F S) (B : machine E S) (h : ∀ R, E R → prog F R) :
  refines (implemented A h) B id →
  refines (implemented (on_snd (T:=T) A) h) (on_snd B) id.
Proof. intros HAB R e x r x' [Ht H]%exec_on_snd. split; [done|]. by apply HAB. Qed.
