(* ===== verification/GoStd.v ===== *)
(** * The Go standard library used by the driver

    Strings are byte strings.  [ToLower] and [EqualFold] are exact on ASCII
    bytes and on the few non-ASCII runes that fold to an ASCII letter
    (U+0130 and U+212A for [ToLower], U+212A and U+017F for [EqualFold]); other
    runes are left as they are, which no comparison with an ASCII constant can
    see.  [TrimSpace] trims ASCII white space.  Maps are stdpp's [gmap]; the
    order of a [range] loop over one is unspecified in Go and is an explicit
    list here. *)

From S2P Require Import Prelude.

Abbreviation gostrmap := (gmap string string).

(** ** strings *)

Definition byte_in (lo hi : nat) (c : ascii) : bool :=
  (lo <=? nat_of_ascii c) && (nat_of_ascii c <=? hi).

Definition lower_byte (c : ascii) : ascii :=
  if byte_in 65 90 c then ascii_of_nat (nat_of_ascii c + 32) else c.

Definition is_byte (n : nat) (c : ascii) : bool := nat_of_ascii c =? n.

(** [strings.ToLower]: U+0130 is the bytes C4 B0, U+212A is E2 84 AA. *)
Fixpoint ToLower (s : string) : string :=
  match s with
  | EmptyString => EmptyString
  | String a s1 =>
    match s1 with
    | String b s2 =>
      if is_byte 196 a && is_byte 176 b then String "i"%char (ToLower s2) else
      match s2 with
      | String c s3 =>
        if is_byte 226 a && is_byte 132 b && is_byte 170 c
        then String "k"%char (ToLower s3) else String (lower_byte a) (ToLower s1)
      | EmptyString => String (lower_byte a) (ToLower s1)
      end
    | EmptyString => String (lower_byte a) EmptyString
    end
  end.

(** The representative of a string under simple case folding to ASCII: U+212A
    is E2 84 AA, U+017F is C5 BF. *)
Fixpoint Fold (s : string) : string :=
  match s with
  | EmptyString => EmptyString
  | String a s1 =>
    match s1 with
    | String b s2 =>
      if is_byte 197 a && is_byte 191 b then String "s"%char (Fold s2) else
      match s2 with
      | String c s3 =>
        if is_byte 226 a && is_byte 132 b && is_byte 170 c
        then String "k"%char (Fold s3) else String (lower_byte a) (Fold s1)
      | EmptyString => String (lower_byte a) (Fold s1)
      end
    | EmptyString => String (lower_byte a) EmptyString
    end
  end.

(** [strings.EqualFold], for an ASCII second argument. *)
Definition EqualFold (s t : string) : bool := String.eqb (Fold s) (Fold t).

(** [strings.Cut(s, sep)] for a separator of one byte. *)
Fixpoint Cut (s : string) (sep : ascii) : string * string * bool :=
  match s with
  | EmptyString => (EmptyString, EmptyString, false)
  | String c s' =>
    if (c =? sep)%char then (EmptyString, s', true)
    else let '(before, after, found) := Cut s' sep in (String c before, after, found)
  end.

(** [strings.Split(s, sep)] for a separator of one byte. *)
Fixpoint Split (s : string) (sep : ascii) : list string :=
  match s with
  | EmptyString => [EmptyString]
  | String c s' =>
    if (c =? sep)%char then EmptyString :: Split s' sep
    else match Split s' sep with
         | x :: xs => String c x :: xs
         | [] => [String c EmptyString]
         end
  end.

(** [strings.ReplaceAll(s, c, "")] for one byte. *)
Fixpoint RemoveAll (s : string) (d : ascii) : string :=
  match s with
  | EmptyString => EmptyString
  | String c s' => if (c =? d)%char then RemoveAll s' d else String c (RemoveAll s' d)
  end.

Definition is_space (c : ascii) : bool := byte_in 9 13 c || is_byte 32 c.

Fixpoint TrimLeft (s : string) : string :=
  match s with
  | String c s' => if is_space c then TrimLeft s' else s
  | EmptyString => EmptyString
  end.

Fixpoint TrimRight (s : string) : string :=
  match s with
  | EmptyString => EmptyString
  | String c s' =>
    match TrimRight s' with
    | EmptyString => if is_space c then EmptyString else String c EmptyString
    | t => String c t
    end
  end.

(** [strings.TrimSpace]. *)
Definition TrimSpace (s : string) : string := TrimRight (TrimLeft s).

(** [strings.HasPrefix]. *)
Definition HasPrefix (s p : string) : bool := String.prefix p s.

(** ** strconv *)

Fixpoint digits (acc : Z) (s : string) : option Z :=
  match s with
  | EmptyString => Some acc
  | String c s' =>
    if byte_in 48 57 c
    then digits (acc * 10 + (Z.of_nat (nat_of_ascii c) - 48)) s'
    else None
  end.

Definition unsigned (s : string) : option Z :=
  match s with EmptyString => None | _ => digits 0 s end.

Definition in_range (z : Z) : option Z :=
  if (- 2 ^ 63 <=? z)%Z && (z <=? MaxInt64)%Z then Some z else None.

(** [strconv.ParseInt(s, 10, 64)] and [strconv.Atoi(s)]; [None] is an error. *)
Definition ParseInt (s : string) : option Z :=
  match s with
  | String "-"%char s' => n ← unsigned s'; in_range (- n)
  | String "+"%char s' => n ← unsigned s'; in_range n
  | _ => n ← unsigned s; in_range n
  end.

Definition Atoi (s : string) : option Z := ParseInt s.

(** ** Lemmas *)

Fixpoint has_byte (c : ascii) (s : string) : bool :=
  match s with
  | EmptyString => false
  | String d s' => (d =? c)%char || has_byte c s'
  end.

Lemma Cut_found s sep before after :
  Cut s sep = (before, after, true) ↔
  s = before +:+ String sep after ∧ has_byte sep before = false.
Proof.
  revert before. induction s as [|c s IH]; intros before; simpl.
  - split; [intros [=]|]. intros [Hs _]. by destruct before.
  - destruct (Ascii.eqb_spec c sep) as [->|Hne].
    + split.
      * intros [= <- <-]. done.
      * intros [Hs Hb]. destruct before as [|d before]; simpl in *; [by simplify_eq|].
        injection Hs as -> _. by rewrite Ascii.eqb_refl in Hb.
    + destruct (Cut s sep) as [[b a] f] eqn:HC. split.
      * intros [= <- -> ->]. destruct (proj1 (IH b) eq_refl) as [-> Hb].
        split; [done|]. simpl. rewrite Hb.
        by destruct (Ascii.eqb_spec c sep).
      * intros [Hs Hb]. destruct before as [|d before]; simplify_eq/=.
        apply orb_false_iff in Hb as [_ Hb].
        by injection (proj2 (IH before) (conj eq_refl Hb)) as -> -> ->.
Qed.

Lemma Cut_not_found s sep :
  has_byte sep s = false ↔ (Cut s sep).2 = false.
Proof.
  induction s as [|c s IH]; simpl; [done|].
  destruct (Ascii.eqb_spec c sep) as [->|Hne]; simpl; [done|].
  rewrite IH. by destruct (Cut s sep) as [[??]?].
Qed.

Lemma ParseInt_range s z : ParseInt s = Some z → is_int64 z.
Proof.
  assert (Hr : ∀ n, in_range n = Some z → is_int64 z).
  { intros n. unfold in_range, is_int64. case_match; [|done].
    intros [= <-]. lia. }
  unfold ParseInt. intros H.
  repeat case_match; apply bind_Some in H as (? & _ & ?); eauto.
Qed.

Lemma append_nil_r (s : string) : s +:+ "" = s.
Proof. induction s as [|c s IH]; simpl; [done|]. by rewrite IH. Qed.

Lemma append_assoc (s1 s2 s3 : string) : (s1 +:+ s2) +:+ s3 = s1 +:+ (s2 +:+ s3).
Proof. induction s1 as [|c s1 IH]; simpl; [done|]. by rewrite IH. Qed.

(** The order of a [range] loop over [m]. *)
Definition range_of (m : gostrmap) (l : list (string * string)) : Prop :=
  l ≡ₚ map_to_list m.

Lemma range_of_elem m l k v : range_of m l → (k, v) ∈ l ↔ m !! k = Some v.
Proof. intros ->. apply elem_of_map_to_list. Qed.

Lemma range_of_NoDup m l : range_of m l → NoDup l.*1.
Proof. intros ->. apply NoDup_fst_map_to_list. Qed.
