(* ===== verification/Csi.v ===== *)
(** * CSI messages and gRPC status codes

    The protobuf messages of the CSI specification, with the fields the driver
    reads or fills.  A pointer that the driver compares with [nil] is an
    [option]; a protobuf getter of a nil pointer returns the zero value.  An
    RPC handler returns [result code response]: the text of a gRPC status is
    not modelled, its code is. *)

From S2P Require Import Prelude GoStd.

(** ** google.golang.org/grpc/codes *)

Module codes.
Inductive code : Set :=
| OK | Canceled | Unknown | InvalidArgument | DeadlineExceeded | NotFound
| AlreadyExists | PermissionDenied | ResourceExhausted | FailedPrecondition
| Aborted | OutOfRange | Unimplemented | Internal | Unavailable | DataLoss
| Unauthenticated.

#[export] Instance code_eq_dec : EqDecision code.
Proof. solve_decision. Defined.
End codes.

Abbreviation rpc T := (result codes.code T).

(** ** Enumerations (open in protobuf, hence integers) *)

Module AccessMode.
Definition UNKNOWN : Z := 0.
Definition SINGLE_NODE_WRITER : Z := 1.
Definition SINGLE_NODE_READER_ONLY : Z := 2.
Definition MULTI_NODE_READER_ONLY : Z := 3.
Definition MULTI_NODE_SINGLE_WRITER : Z := 4.
Definition MULTI_NODE_MULTI_WRITER : Z := 5.
Definition SINGLE_NODE_SINGLE_WRITER : Z := 6.
Definition SINGLE_NODE_MULTI_WRITER : Z := 7.
End AccessMode.

Module ControllerRPC.
Definition UNKNOWN : Z := 0.
Definition CREATE_DELETE_VOLUME : Z := 1.
Definition PUBLISH_UNPUBLISH_VOLUME : Z := 2.
Definition CREATE_DELETE_SNAPSHOT : Z := 5.
Definition EXPAND_VOLUME : Z := 9.
End ControllerRPC.

Module NodeRPC.
Definition UNKNOWN : Z := 0.
Definition STAGE_UNSTAGE_VOLUME : Z := 1.
Definition GET_VOLUME_STATS : Z := 2.
Definition EXPAND_VOLUME : Z := 3.
End NodeRPC.

Module PluginService.
Definition UNKNOWN : Z := 0.
Definition CONTROLLER_SERVICE : Z := 1.
Definition VOLUME_ACCESSIBILITY_CONSTRAINTS : Z := 2.
End PluginService.

Module PluginExpansion.
Definition UNKNOWN : Z := 0.
Definition ONLINE : Z := 1.
Definition OFFLINE : Z := 2.
End PluginExpansion.

(** [csi.PluginCapability] is a oneof of a service and a volume expansion. *)
Inductive PluginCapability : Set :=
| PluginService (t : Z)
| PluginVolumeExpansion (t : Z).

(** ** Shared messages *)

Record CapacityRange : Set := {
  RequiredBytes : Z;
  LimitBytes : Z
}.

Inductive AccessType : Set :=
| Block
| Mount (FsType : string) (MountFlags : list string).

Record VolumeCapability : Set := {
  AccessMode_ : option Z;
  AccessType_ : option AccessType
}.

(** [cap.GetAccessMode().GetMode()]. *)
Definition GetMode (c : VolumeCapability) : Z := default AccessMode.UNKNOWN (AccessMode_ c).

(** [cap.GetBlock() != nil]. *)
Definition is_block (c : VolumeCapability) : bool :=
  match AccessType_ c with Some Block => true | _ => false end.

Abbreviation Segments := gostrmap (only parsing).

Record TopologyRequirement : Type := {
  Requisite : list Segments;
  Preferred : list Segments
}.

Inductive VolumeContentSource : Set :=
| SourceSnapshot (SnapshotId : string)
| SourceVolume (VolumeId : string)
| SourceUnset.

Record Volume : Type := {
  VolumeId : string;
  CapacityBytes : Z;
  VolumeContext : gostrmap;
  ContentSource : option VolumeContentSource;
  AccessibleTopology : list Segments
}.

Record Timestamp : Set := { seconds : Z; nanos : Z }.

Record Snapshot : Type := {
  SnapshotId : string;
  SourceVolumeId : string;
  ReadyToUse : bool;
  CreationTime : Timestamp;
  SizeBytes : Z
}.

(** ** Controller requests and responses *)

Record CreateVolumeRequest : Type := {
  cv_Name : string;
  cv_CapacityRange : option CapacityRange;
  cv_VolumeCapabilities : option (list VolumeCapability);
  cv_Parameters : gostrmap;
  cv_VolumeContentSource : option VolumeContentSource;
  cv_AccessibilityRequirements : option TopologyRequirement
}.

Record DeleteVolumeRequest : Type := { dv_VolumeId : string }.

Record ControllerPublishVolumeRequest : Type := {
  cp_VolumeId : string;
  cp_NodeId : string;
  cp_VolumeCapability : option VolumeCapability;
  cp_Readonly : bool
}.

Record ControllerUnpublishVolumeRequest : Type := {
  cu_VolumeId : string;
  cu_NodeId : string
}.

Record ControllerExpandVolumeRequest : Type := {
  ce_VolumeId : string;
  ce_CapacityRange : option CapacityRange;
  ce_VolumeCapability : option VolumeCapability
}.

Record ControllerExpandVolumeResponse : Type := {
  cer_CapacityBytes : Z;
  cer_NodeExpansionRequired : bool
}.

Record CreateSnapshotRequest : Type := {
  cs_SourceVolumeId : string;
  cs_Name : string;
  cs_Parameters : gostrmap
}.

Record DeleteSnapshotRequest : Type := { ds_SnapshotId : string }.

Record ValidateVolumeCapabilitiesRequest : Type := {
  vc_VolumeId : string;
  vc_VolumeContext : gostrmap;
  vc_VolumeCapabilities : list VolumeCapability;
  vc_Parameters : gostrmap
}.

(** [Confirmed] set, or a message that names the unsupported mode. *)
Inductive ValidateVolumeCapabilitiesResponse : Type :=
| Confirmed (ctx : gostrmap) (caps : list VolumeCapability) (params : gostrmap)
| Unsupported (mode : Z).

(** ** Node requests and responses *)

Record NodePublishVolumeRequest : Type := {
  np_VolumeId : string;
  np_StagingTargetPath : string;
  np_TargetPath : string;
  np_VolumeCapability : option VolumeCapability;
  np_Readonly : bool
}.

Record NodeUnpublishVolumeRequest : Type := {
  nu_VolumeId : string;
  nu_TargetPath : string
}.

Record NodeStageVolumeRequest : Type := {
  ns_VolumeId : string;
  ns_StagingTargetPath : string;
  ns_VolumeCapability : option VolumeCapability
}.

Record NodeUnstageVolumeRequest : Type := {
  nt_VolumeId : string;
  nt_StagingTargetPath : string
}.

Record NodeExpandVolumeRequest : Type := {
  ne_VolumeId : string;
  ne_VolumePath : string;
  ne_CapacityRange : option CapacityRange;
  ne_VolumeCapability : option VolumeCapability
}.

Record NodeExpandVolumeResponse : Type := { ner_CapacityBytes : Z }.

Record NodeGetInfoResponse : Type := {
  ni_NodeId : string;
  ni_MaxVolumesPerNode : Z;
  ni_AccessibleTopology : Segments
}.

Record NodeGetVolumeStatsRequest : Type := {
  ng_VolumeId : string;
  ng_VolumePath : string
}.

(** The unit is always [BYTES]. *)
Record VolumeUsage : Type := { Available : Z; Total : Z; Used : Z }.
