(* ===== verification/GoTime.v ===== *)
(** * The part of package [time] used by the driver

    [time.Parse] for the layouts of [snapCreateTimeLayouts]
    (controllerserver.go) and the conversions to [timestamppb.Timestamp].  A
    layout is the list of the chunks that [time.Parse] cuts it into.  A parsed
    time is its Unix seconds and nanoseconds: the location does not reach the
    [Timestamp]. *)

From S2P Require Import Prelude GoStd Csi.

Local Open Scope Z_scope.

(** ** Layouts *)

Inductive chunk : Set :=
| Lit (c : ascii)
| LongYear | ZeroMonth | ZeroDay | Hour | ZeroMinute | ZeroSecond
| FracSecond9
| ISO8601ColonTZ.

Definition date_layout : list chunk := [LongYear; Lit "-"; ZeroMonth; Lit "-"; ZeroDay].
Definition clock_layout : list chunk := [Hour; Lit ":"; ZeroMinute; Lit ":"; ZeroSecond].

(** ** Scanners: a value and the rest of the input, or an error *)

Definition digit (c : ascii) : option Z :=
  if byte_in 48 57 c then Some (Z.of_nat (nat_of_ascii c) - 48) else None.

(** [getnum(s, fixed)]: one digit is enough when [fixed] is false. *)
Definition getnum (fixed : bool) (s : string) : option (Z * string) :=
  match s with
  | EmptyString => None
  | String a s1 =>
    x ← digit a;
    match s1 with
    | EmptyString => if fixed then None else Some (x, s1)
    | String b s2 =>
      match digit b with
      | Some y => Some (x * 10 + y, s2)
      | None => if fixed then None else Some (x, s1)
      end
    end
  end.

Definition getyear (s : string) : option (Z * string) :=
  match s with
  | String a (String b (String c (String d s'))) =>
    w ← digit a; x ← digit b; y ← digit c; z ← digit d;
    Some (w * 1000 + x * 100 + y * 10 + z, s')
  | _ => None
  end.

(** The digits of a fraction: the first nine count, the rest are dropped. *)
Fixpoint fraction (left : nat) (acc : Z) (s : string) : Z * string :=
  match s with
  | String c s' =>
    match digit c with
    | Some x => match left with
                | O => fraction O acc s'
                | S n => fraction n (acc * 10 + x) s'
                end
    | None => (acc * 10 ^ Z.of_nat left, s)
    end
  | EmptyString => (acc * 10 ^ Z.of_nat left, s)
  end.

(** A fractional second, when there is one: a dot or a comma, then a digit. *)
Definition opt_fraction (s : string) : option (Z * string) :=
  match s with
  | String c (String d _ as s') =>
    if (c =? ".")%char || (c =? ",")%char
    then _ ← digit d; Some (fraction 9 0 s')
    else None
  | _ => None
  end.

(** The offset in seconds. *)
Definition getzone (s : string) : option (Z * string) :=
  match s with
  | String "Z" s' => Some (0, s')
  | String sign (String h1 (String h2 (String colon (String m1 (String m2 s'))))) =>
    if negb (colon =? ":")%char then None else
    a ← digit h1; b ← digit h2; c ← digit m1; d ← digit m2;
    if (24 <? a * 10 + b) || (60 <? c * 10 + d) then None else
    let off := ((a * 10 + b) * 60 + (c * 10 + d)) * 60 in
    if (sign =? "+")%char then Some (off, s')
    else if (sign =? "-")%char then Some (- off, s')
    else None
  | _ => None
  end.

Fixpoint cutspace (s : string) : string :=
  match s with
  | String c s' => if (c =? " ")%char then cutspace s' else s
  | EmptyString => s
  end.

(** [skip(value, prefix)] for a prefix of one byte. *)
Definition skip (p : ascii) (s : string) : option string :=
  match s with
  | String c s' =>
    if negb (c =? p)%char then None
    else if (p =? " ")%char then Some (cutspace s') else Some s'
  | EmptyString => if (p =? " ")%char then Some s else None
  end.

(** ** Parsing *)

Record fields : Set := mkFields {
  f_year : Z; f_month : Z; f_day : Z;
  f_hour : Z; f_min : Z; f_sec : Z; f_nsec : Z; f_off : Z
}.

Definition fields0 : fields := mkFields 0 (-1) (-1) 0 0 0 0 0.

Definition set_chunk (c : chunk) (n : Z) (f : fields) : fields :=
  let '(mkFields y mo d h mi s ns z) := f in
  match c with
  | Lit _ => f
  | LongYear => mkFields n mo d h mi s ns z
  | ZeroMonth => mkFields y n d h mi s ns z
  | ZeroDay => mkFields y mo n h mi s ns z
  | Hour => mkFields y mo d n mi s ns z
  | ZeroMinute => mkFields y mo d h n s ns z
  | ZeroSecond => mkFields y mo d h mi n ns z
  | FracSecond9 => mkFields y mo d h mi s n z
  | ISO8601ColonTZ => mkFields y mo d h mi s ns n
  end.

Definition within (lo hi : Z) (x : Z * string) : option (Z * string) :=
  if (lo <=? x.1) && (x.1 <=? hi) then Some x else None.

(** One chunk of the layout: the field it reads. *)
Definition scan (c : chunk) (s : string) : option (Z * string) :=
  match c with
  | Lit p => s' ← skip p s; Some (0, s')
  | LongYear => getyear s
  | ZeroMonth => x ← getnum true s; within 1 12 x
  | ZeroDay => getnum true s
  | Hour => x ← getnum false s; within 0 23 x
  | ZeroMinute | ZeroSecond => x ← getnum true s; within 0 59 x
  | FracSecond9 => Some (default (0, s) (opt_fraction s))
  | ISO8601ColonTZ => getzone s
  end.

(** A fraction that the layout does not mention is read after the seconds. *)
Fixpoint parse (layout : list chunk) (s : string) (f : fields) : option fields :=
  match layout with
  | [] => if String.eqb s "" then Some f else None
  | c :: rest =>
    x ← scan c s;
    let f := set_chunk c x.1 f in
    match c, rest with
    | ZeroSecond, FracSecond9 :: _ => parse rest x.2 f
    | ZeroSecond, _ =>
      match opt_fraction x.2 with
      | Some y => parse rest y.2 (set_chunk FracSecond9 y.1 f)
      | None => parse rest x.2 f
      end
    | _, _ => parse rest x.2 f
    end
  end.

(** ** Calendar *)

Definition is_leap (y : Z) : bool :=
  (y mod 4 =? 0) && (negb (y mod 100 =? 0) || (y mod 400 =? 0)).

Definition daysIn (m y : Z) : Z :=
  if m =? 2 then if is_leap y then 29 else 28
  else if (m =? 4) || (m =? 6) || (m =? 9) || (m =? 11) then 30 else 31.

(** Days since 1970-01-01 in the proleptic Gregorian calendar. *)
Definition days_before_month (m y : Z) : Z :=
  nth (Z.to_nat (m - 1)) [0; 31; 59; 90; 120; 151; 181; 212; 243; 273; 304; 334] 0
  + (if (2 <? m) && is_leap y then 1 else 0).

Definition days_before_year (y : Z) : Z :=
  let z := y - 1 in 365 * y + z / 4 - z / 100 + z / 400.

Definition epoch_days (y m d : Z) : Z :=
  days_before_year y - days_before_year 1970 + days_before_month m y + (d - 1).

Definition unix_of (f : fields) : Z :=
  epoch_days (f_year f) (f_month f) (f_day f) * 86400
  + f_hour f * 3600 + f_min f * 60 + f_sec f - f_off f.

(** [time.Parse], then [timestamppb.New]. *)
Definition Parse (layout : list chunk) (value : string) : option Timestamp :=
  f ← parse layout value fields0;
  if (f_day f <? 1) || (daysIn (f_month f) (f_year f) <? f_day f) then None else
  Some {| seconds := unix_of f; nanos := f_nsec f |}.

(** [timestamppb.New(time.Unix(sec, 0))] and [timestamppb.New(time.UnixMilli(ms))]. *)
Definition Unix (sec : Z) : Timestamp := {| seconds := sec; nanos := 0 |}.
Definition UnixMilli (ms : Z) : Timestamp :=
  {| seconds := ms / 1000; nanos := ms mod 1000 * 1000000 |}.
