(* ===== verification/GoFormat.v ===== *)
(** * Printing times

    [time.Time.Format] for the layouts the driver prints, in UTC, over the
    calendar of [GoTime.v]: the log lines of [common.go] use it, and it is the
    inverse of [time.Parse] on the layouts of snapshot creation times. *)

From S2P Require Import Prelude GoStd Csi GoTime.

Local Open Scope Z_scope.

(** ** The calendar *)

(** The civil date of a number of days since 1970-01-01: years of the era of 400
    years start in March. *)
Definition civil (days : Z) : Z * Z * Z :=
  let z := days + 719468 in
  let era := z / 146097 in
  let doe := z mod 146097 in
  let yoe := (doe - doe / 1460 + doe / 36524 - doe / 146096) / 365 in
  let doy := doe - (365 * yoe + yoe / 4 - yoe / 100) in
  let mp := (5 * doy + 2) / 153 in
  let d := doy - (153 * mp + 2) / 5 + 1 in
  let m := if mp <? 10 then mp + 3 else mp - 9 in
  (yoe + era * 400 + (if m <=? 2 then 1 else 0), m, d).

(** ** Decimal numbers *)

Definition digit_char (n : Z) : ascii := ascii_of_nat (Z.to_nat (48 + n)).

(** The last [width] digits. *)
Fixpoint pad (width : nat) (n : Z) : string :=
  match width with
  | O => EmptyString
  | S w => pad w (n / 10) +:+ String (digit_char (n mod 10)) EmptyString
  end.

(** [%d] of an [int64]. *)
Fixpoint decimal_digits (fuel : nat) (n : Z) : string :=
  match fuel with
  | O => EmptyString
  | S k => (if n <? 10 then EmptyString else decimal_digits k (n / 10))
           +:+ String (digit_char (n mod 10)) EmptyString
  end.

Definition decimal (n : Z) : string :=
  if n <? 0 then "-" +:+ decimal_digits 20 (- n) else decimal_digits 20 n.

Example decimal_1 : (decimal (-1234), decimal 0, decimal 9223372036854775807)
  = ("-1234", "0", "9223372036854775807").
Proof. reflexivity. Qed.

(** ** Layouts *)

(** [2006-01-02] and [15:04:05]; years of four digits. *)
Definition format_date (y m d : Z) : string := pad 4 y +:+ "-" +:+ pad 2 m +:+ "-" +:+ pad 2 d.
Definition format_clock (h mi s : Z) : string := pad 2 h +:+ ":" +:+ pad 2 mi +:+ ":" +:+ pad 2 s.

(** The date and the clock of an instant, with [sep] between them. *)
Definition format_with (sep : string) (t : Timestamp) : string :=
  let '(y, m, d) := civil (seconds t / 86400) in
  let r := seconds t mod 86400 in
  format_date y m d +:+ sep +:+ format_clock (r / 3600) (r mod 3600 / 60) (r mod 60).

(** [t.Format("2006-01-02 15:04:05")]. *)
Definition Format_default (t : Timestamp) : string := format_with " " t.

(** The fraction [.999999999]: nine digits without the zeros at the end. *)
Fixpoint drop_zeros (s : string) : string :=
  match s with
  | EmptyString => EmptyString
  | String c s' =>
    match drop_zeros s' with
    | EmptyString => if (c =? "0")%char then EmptyString else String c EmptyString
    | t => String c t
    end
  end.

Definition format_fraction (ns : Z) : string :=
  if ns =? 0 then "" else "." +:+ drop_zeros (pad 9 ns).

(** [t.String()] of a time in UTC, which has no monotonic reading. *)
Definition Time_String (t : Timestamp) : string :=
  format_with " " t +:+ format_fraction (nanos t) +:+ " +0000 UTC".

(** [t.Format(time.RFC3339)]. *)
Definition Format_RFC3339 (t : Timestamp) : string := format_with "T" t +:+ "Z".

Example Format_default_1 : Format_default {| seconds := 951827696; nanos := 0 |} = "2000-02-29 12:34:56".
Proof. reflexivity. Qed.
Example Time_String_1 :
  Time_String {| seconds := 1735689599; nanos := 120000000 |} = "2024-12-31 23:59:59.12 +0000 UTC".
Proof. reflexivity. Qed.

(** ** The calendar's round trip *)

(** The year of the era and the day of that year, counted from March. *)
Lemma year_of_era doe :
  0 <= doe < 146097 →
  let yoe := (doe - doe / 1460 + doe / 36524 - doe / 146096) / 365 in
  let doy := doe - (365 * yoe + yoe / 4 - yoe / 100) in
  0 <= yoe <= 399 ∧ 0 <= doy <= 365 ∧
  (doy = 365 → (yoe + 1) mod 4 = 0 ∧ ((yoe + 1) mod 100 ≠ 0 ∨ yoe = 399)).
Proof.
  intros H yoe doy.
  assert (H2 : 0 <= doe / 36524 <= 4)
    by (split; [apply Z.div_pos; lia|apply Z.lt_succ_r, Z.div_lt_upper_bound; lia]).
  subst doy yoe. Z.div_mod_to_equations. lia.
Qed.

(** The month and the day of the month of a day of the year. *)
Definition month_day (doy : Z) : Z * Z :=
  let mp := (5 * doy + 2) / 153 in
  (if mp <? 10 then mp + 3 else mp - 9, doy - (153 * mp + 2) / 5 + 1).

(** Days before the month in a year counted from March. *)
Definition march_days (m : Z) : Z :=
  nth (Z.to_nat (m - 1)) [306; 337; 0; 31; 61; 92; 122; 153; 184; 214; 245; 275] 0.

Definition month_ok (doy : Z) : bool :=
  let '(m, d) := month_day doy in
  (march_days m + d - 1 =? doy) && (1 <=? m) && (m <=? 12) && (1 <=? d) &&
  (d <=? (if m =? 2 then if doy =? 365 then 29 else 28
          else if (m =? 4) || (m =? 6) || (m =? 9) || (m =? 11) then 30 else 31)).

Lemma month_of_year doy : 0 <= doy <= 365 → month_ok doy = true.
Proof.
  intros H. assert (Hall : forallb (fun n => month_ok (Z.of_nat n)) (seq 0 366) = true)
    by (vm_compute; reflexivity).
  rewrite forallb_forall in Hall. specialize (Hall (Z.to_nat doy)).
  rewrite Z2Nat.id in Hall by lia. apply Hall, in_seq. lia.
Qed.

(** The days before a month, counted from January and from March. *)
Lemma days_before_month_march m y :
  1 <= m <= 12 →
  days_before_month m y = if m <=? 2 then march_days m - 306
                          else march_days m + 59 + (if is_leap y then 1 else 0).
Proof.
  intros H. assert (Hm : m ∈ [1;2;3;4;5;6;7;8;9;10;11;12]).
  { rewrite !elem_of_cons, elem_of_nil. lia. }
  unfold days_before_month.
  repeat (apply elem_of_cons in Hm as [->|Hm]; [destruct (is_leap y); vm_compute; reflexivity|]).
  by apply elem_of_nil in Hm.
Qed.

Lemma is_leap_spec y :
  is_leap y = true ↔ y mod 4 = 0 ∧ (y mod 100 ≠ 0 ∨ y mod 400 = 0).
Proof.
  unfold is_leap. rewrite andb_true_iff, orb_true_iff, negb_true_iff, !Z.eqb_eq, Z.eqb_neq. tauto.
Qed.

(** [civil] is the inverse of [epoch_days]. *)
Lemma civil_epoch_days days :
  let '(y, m, d) := civil days in
  epoch_days y m d = days ∧ 1 <= m <= 12 ∧ 1 <= d <= daysIn m y.
Proof.
  unfold civil. set (z := days + 719468). set (era := z / 146097). set (doe := z mod 146097).
  assert (Hz : z = 146097 * era + doe) by (apply Z.div_mod; done).
  pose proof (year_of_era doe (Z.mod_pos_bound z 146097 ltac:(lia))) as Hyear. cbv zeta in Hyear.
  set (yoe := (doe - doe / 1460 + doe / 36524 - doe / 146096) / 365) in *.
  set (doy := doe - (365 * yoe + yoe / 4 - yoe / 100)) in *.
  destruct Hyear as (Hyoe & Hdoy & Hleap).
  pose proof (month_of_year doy Hdoy) as Hm. unfold month_ok, month_day in Hm. cbv zeta in Hm.
  set (mp := (5 * doy + 2) / 153) in *.
  set (m := if mp <? 10 then mp + 3 else mp - 9) in *.
  set (d := doy - (153 * mp + 2) / 5 + 1) in *.
  apply andb_true_iff in Hm as [[[[H1%Z.eqb_eq H2%Z.leb_le]%andb_true_iff H3%Z.leb_le]%andb_true_iff
    H4%Z.leb_le]%andb_true_iff H5%Z.leb_le].
  assert (Hdoe : doe = 365 * yoe + yoe / 4 - yoe / 100 + doy) by (subst doy; lia).
  assert (Hdays : days = 146097 * era + doe - 719468) by (subst z; lia).
  clearbody era doe yoe doy mp m d. clear z Hz.
  set (y := yoe + era * 400 + (if m <=? 2 then 1 else 0)).
  assert (Hl := is_leap_spec y). unfold epoch_days.
  rewrite days_before_month_march by lia. unfold days_before_year, daysIn.
  destruct (Z.leb_spec m 2) as [Hm2|Hm2]; subst y; (split_and!; [|lia..|]).
  - Z.div_mod_to_equations. lia.
  - destruct (Z.eqb_spec m 2); [|done]. destruct (Z.eqb_spec doy 365) as [H365|]; [|by case_match; lia].
    destruct (Hleap H365) as [H4' H100]. rewrite (proj2 Hl); [done|].
    clear -H4' H100 Hyoe. Z.div_mod_to_equations. lia.
  - destruct (is_leap _).
    + destruct (proj1 Hl eq_refl) as [? Hor]. clear -Hdays Hdoe H1 Hor H Hyoe. Z.div_mod_to_equations. lia.
    + assert (Hn : ¬ (_ ∧ _)) by (intros H; by apply Hl in H).
      clear -Hdays Hdoe H1 Hn Hyoe. Z.div_mod_to_equations. lia.
  - by destruct (Z.eqb_spec m 2); [lia|].
Qed.

(** ** Digits *)

Lemma digit_char_digit n : 0 <= n <= 9 → digit (digit_char n) = Some n.
Proof.
  intros H. assert (Hn : n ∈ [0;1;2;3;4;5;6;7;8;9]) by (rewrite !elem_of_cons, elem_of_nil; lia).
  repeat (apply elem_of_cons in Hn as [->|Hn]; [reflexivity|]). by apply elem_of_nil in Hn.
Qed.

Lemma digit_mod n : digit (digit_char (n mod 10)) = Some (n mod 10).
Proof. apply digit_char_digit. pose proof (Z.mod_pos_bound n 10). lia. Qed.

Lemma pad_2 n s :
  pad 2 n +:+ s = String (digit_char (n / 10 mod 10)) (String (digit_char (n mod 10)) s).
Proof. done. Qed.

Lemma getnum_pad fixed n s : 0 <= n < 100 → getnum fixed (pad 2 n +:+ s) = Some (n, s).
Proof.
  intros H. rewrite pad_2. cbn [getnum]. rewrite !digit_mod. cbn. do 2 f_equal.
  rewrite Z.mod_small by (split; [apply Z.div_pos; lia|apply Z.div_lt_upper_bound; lia]).
  pose proof (Z.div_mod n 10). lia.
Qed.

Lemma getyear_pad n s : 0 <= n < 10000 → getyear (pad 4 n +:+ s) = Some (n, s).
Proof.
  intros H. cbn. rewrite !digit_mod. cbn. do 2 f_equal. Z.div_mod_to_equations. lia.
Qed.

Lemma fraction_pad w n k acc s :
  fraction (w + k) acc (pad w n +:+ s) = fraction k (acc * 10 ^ Z.of_nat w + n mod 10 ^ Z.of_nat w) s.
Proof.
  revert n k s. induction w as [|w IH]; intros n k s.
  - cbn. rewrite Z.mod_1_r. f_equal. lia.
  - cbn [pad]. rewrite append_assoc. replace (S w + k)%nat with (w + S k)%nat by lia.
    rewrite IH. cbn [String.append fraction]. rewrite digit_mod. f_equal.
    rewrite Nat2Z.inj_succ, Z.pow_succ_r by lia.
    rewrite (Z.rem_mul_r n 10) by lia. ring.
Qed.

(** Zeros at the end of a fraction do not count. *)
Lemma fraction_zeros k acc s rest :
  drop_zeros s = "" → (∀ k acc, fraction k acc rest = (acc * 10 ^ Z.of_nat k, rest)) →
  (String.length s ≤ k)%nat → fraction k acc (s +:+ rest) = (acc * 10 ^ Z.of_nat k, rest).
Proof.
  intros Hs Hrest. revert k acc. induction s as [|c s IH]; intros k acc Hk; [apply Hrest|].
  cbn [drop_zeros] in Hs. destruct (drop_zeros s) eqn:Hd; [|done].
  destruct (Ascii.eqb_spec c "0") as [->|]; [|done]. cbn [String.append String.length] in *.
  destruct k as [|k]; [lia|]. cbn [fraction]. change (digit "0"%char) with (Some 0). cbn match.
  rewrite IH by (done || lia). f_equal. rewrite Nat2Z.inj_succ, Z.pow_succ_r by lia. ring.
Qed.

Fixpoint all_digits (s : string) : Prop :=
  match s with
  | EmptyString => True
  | String c s' => is_Some (digit c) ∧ all_digits s'
  end.

Lemma all_digits_pad w n s : all_digits s → all_digits (pad w n +:+ s).
Proof.
  revert n s. induction w as [|w IH]; intros n s Hs; [done|]. cbn [pad].
  rewrite append_assoc. apply IH. split; [rewrite digit_mod; eauto|done].
Qed.

Lemma fraction_drop_zeros k acc s rest :
  all_digits s →
  (∀ k acc, fraction k acc rest = (acc * 10 ^ Z.of_nat k, rest)) →
  (String.length s ≤ k)%nat →
  fraction k acc (drop_zeros s +:+ rest) = fraction k acc (s +:+ rest).
Proof.
  intros Hs Hrest. revert k acc. induction s as [|c s IH]; intros k acc Hk; [done|].
  destruct Hs as [[x Hx] Hs]. cbn [drop_zeros String.length] in *. destruct (drop_zeros s) as [|c' s'] eqn:Hd.
  - destruct (Ascii.eqb_spec c "0") as [->|Hne].
    + rewrite (fraction_zeros k acc (String "0" s)); [apply Hrest|by cbn; rewrite Hd|done|cbn; lia].
    + cbn [String.append fraction]. destruct k as [|k]; [lia|].
      rewrite Hx, (fraction_zeros k _ s) by (done || lia). apply Hrest.
  - cbn [String.append fraction] in *. destruct k as [|k]; [lia|].
    rewrite Hx. apply IH; [done|lia].
Qed.

Lemma length_pad w n : String.length (pad w n) = w.
Proof. revert n. induction w as [|w IH]; intros n; [done|]. cbn [pad]. rewrite length_append, IH. cbn. lia. Qed.

(** The fraction of a printed time is read back. *)
Lemma opt_fraction_format ns rest :
  0 < ns < 1000000000 → (∀ k acc, fraction k acc rest = (acc * 10 ^ Z.of_nat k, rest)) →
  opt_fraction (format_fraction ns +:+ rest) = Some (ns, rest).
Proof.
  intros Hns Hrest. unfold format_fraction. destruct (Z.eqb_spec ns 0); [lia|].
  assert (Hf : fraction 9 0 (drop_zeros (pad 9 ns) +:+ rest) = (ns, rest)).
  { rewrite fraction_drop_zeros; [|by rewrite <-(append_nil_r (pad 9 ns)); apply all_digits_pad|done
      |by rewrite length_pad].
    pose proof (fraction_pad 9 ns 0 0 rest) as Hp. change (9 + 0)%nat with 9%nat in Hp.
    rewrite Hp, Hrest. f_equal. change (10 ^ Z.of_nat 9) with 1000000000.
    rewrite Z.mod_small by lia. cbn [Z.of_nat]. lia. }
  destruct (drop_zeros (pad 9 ns)) as [|c s] eqn:Hd.
  - exfalso. cbn [String.append] in Hf. rewrite Hrest in Hf. injection Hf as Hf. lia.
  - cbn [String.append opt_fraction].
    assert (Hc : is_Some (digit c)).
    { destruct (digit c) eqn:Hdc; [done|]. cbn [String.append fraction] in Hf. rewrite Hdc in Hf.
      exfalso. injection Hf as Hf. lia. }
    destruct Hc as [x ->]. cbn [String.append] in Hf.
    change (Some (fraction 9 0 (String c (s +:+ rest))) = Some (ns, rest)). by rewrite Hf.
Qed.

(** ** Reading back a printed instant *)

Definition RFC3339Nano : list chunk :=
  date_layout ++ [Lit "T"] ++ clock_layout ++ [FracSecond9; ISO8601ColonTZ].

(** [t.Format(time.RFC3339Nano)]. *)
Definition Format_RFC3339Nano (t : Timestamp) : string :=
  format_with "T" t +:+ format_fraction (nanos t) +:+ "Z".

(** The instants of the years 0 to 9999. *)
Definition printable (t : Timestamp) : Prop :=
  -62167219200 <= seconds t < 253402300800 ∧ 0 <= nanos t < 1000000000.

Lemma scan_lit c s : c ≠ " "%char → scan (Lit c) (String c s) = Some (0, s).
Proof.
  intros Hc. cbn. rewrite Ascii.eqb_refl. cbn. apply Ascii.eqb_neq in Hc. by rewrite Hc.
Qed.

Lemma day_of_year y m d :
  1 <= m <= 12 → 1 <= d <= daysIn m y →
  0 <= days_before_month m y + (d - 1) < 365 + (if is_leap y then 1 else 0).
Proof.
  intros H. assert (Hm : m ∈ [1;2;3;4;5;6;7;8;9;10;11;12]).
  { rewrite !elem_of_cons, elem_of_nil. lia. }
  unfold days_before_month, daysIn.
  repeat (apply elem_of_cons in Hm as [->|Hm]; [destruct (is_leap y); vm_compute nth; cbn; lia|]).
  by apply elem_of_nil in Hm.
Qed.

Lemma year_length y : days_before_year (y + 1) - days_before_year y = 365 + (if is_leap y then 1 else 0).
Proof.
  unfold days_before_year. assert (Hl := is_leap_spec y). destruct (is_leap y).
  - destruct (proj1 Hl eq_refl) as [? Hor]. clear Hl. Z.div_mod_to_equations. lia.
  - assert (Hn : ¬ (_ ∧ _)) by (intros H; by apply Hl in H). clear Hl. Z.div_mod_to_equations. lia.
Qed.

Lemma days_before_year_mono y1 y2 : y1 <= y2 → days_before_year y1 <= days_before_year y2.
Proof. unfold days_before_year. intros. Z.div_mod_to_equations. lia. Qed.

Lemma civil_year s :
  -62167219200 <= s < 253402300800 → let '(y, _, _) := civil (s / 86400) in 0 <= y < 10000.
Proof.
  intros Hs. pose proof (civil_epoch_days (s / 86400)) as H.
  destruct (civil (s / 86400)) as [[y m] d]. destruct H as (He & Hm & Hd).
  assert (Hdays : -719528 <= s / 86400 < 2932897).
  { split; [apply Z.div_le_lower_bound; lia|apply Z.div_lt_upper_bound; lia]. }
  rewrite <-He in Hdays. unfold epoch_days in Hdays.
  pose proof (day_of_year y m d Hm Hd). pose proof (year_length y).
  change (days_before_year 1970) with 719527 in Hdays.
  destruct (Z.lt_ge_cases y 0) as [Hy|Hy]; [exfalso|].
  - pose proof (days_before_year_mono (y + 1) 0 ltac:(lia)) as Hmono.
    change (days_before_year 0) with (-1) in Hmono. lia.
  - split; [done|]. destruct (Z.lt_ge_cases y 10000) as [|Hy']; [done|exfalso].
    pose proof (days_before_year_mono 10000 y Hy') as Hmono.
    change (days_before_year 10000) with 3652424 in Hmono. lia.
Qed.

(** A chunk of the layout and the text it was printed as. *)
Lemma parse_chunk c rest s n s' f :
  scan c s = Some (n, s') → (c ≠ ZeroSecond ∨ ∃ r, rest = FracSecond9 :: r) →
  parse (c :: rest) s f = parse rest s' (set_chunk c n f).
Proof.
  intros Hs Hc. cbn [parse]. rewrite Hs. cbn.
  destruct c; try done. by destruct Hc as [|[r ->]].
Qed.

Lemma scan_pad c n s lo hi :
  (c = ZeroMonth ∧ lo = 1 ∧ hi = 12) ∨ (c = Hour ∧ lo = 0 ∧ hi = 23) ∨
  ((c = ZeroMinute ∨ c = ZeroSecond) ∧ lo = 0 ∧ hi = 59) → lo <= n <= hi →
  scan c (pad 2 n +:+ s) = Some (n, s).
Proof.
  intros Hc Hn.
  assert (Hw : within lo hi (n, s) = Some (n, s)).
  { unfold within. cbn. by rewrite (proj2 (Z.leb_le lo n)), (proj2 (Z.leb_le n hi)) by lia. }
  destruct Hc as [(-> & -> & ->)|[(-> & -> & ->)|([-> | ->] & -> & ->)]]; cbn [scan];
    rewrite getnum_pad by lia; exact Hw.
Qed.

Ltac scan_next lem :=
  rewrite append_assoc; erewrite parse_chunk; [|lem|by left || (right; eauto)].

Ltac scan_sep :=
  cbn [String.append]; erewrite parse_chunk; [|by apply scan_lit|by left]; cbn [set_chunk].

(** The date and the clock, up to the fraction. *)
Lemma parse_printed y m d h mi sec rest s :
  0 <= y < 10000 → 1 <= m <= 12 → 1 <= d < 100 → 0 <= h <= 23 → 0 <= mi <= 59 → 0 <= sec <= 59 →
  parse (date_layout ++ [Lit "T"] ++ clock_layout ++ FracSecond9 :: rest)
    (format_date y m d +:+ "T" +:+ format_clock h mi sec +:+ s) fields0 =
  parse (FracSecond9 :: rest) s (mkFields y m d h mi sec 0 0).
Proof.
  intros Hy Hm Hd Hh Hmi Hsec. unfold format_date, format_clock, date_layout, clock_layout.
  cbn [app]. rewrite !append_assoc.
  erewrite parse_chunk; [|by apply getyear_pad|by left]. scan_sep.
  erewrite parse_chunk; [|by apply (scan_pad ZeroMonth m _ 1 12); auto|by left]. scan_sep.
  erewrite parse_chunk; [|by apply (getnum_pad true); lia|by left]. scan_sep.
  erewrite parse_chunk; [|by apply (scan_pad Hour h _ 0 23); auto|by left]. scan_sep.
  erewrite parse_chunk; [|by apply (scan_pad ZeroMinute mi _ 0 59); auto|by left]. scan_sep.
  erewrite parse_chunk; [|by apply (scan_pad ZeroSecond sec _ 0 59); auto|right; eauto].
  done.
Qed.

(** [time.Parse] of what [Format] printed is the instant, to the nanosecond. *)
Lemma Parse_Format t : printable t → Parse RFC3339Nano (Format_RFC3339Nano t) = Some t.
Proof.
  intros [Hs Hn]. pose proof (civil_year _ Hs) as Hy.
  pose proof (civil_epoch_days (seconds t / 86400)) as Hc.
  unfold Format_RFC3339Nano, format_with.
  destruct (civil (seconds t / 86400)) as [[y m] d]. destruct Hc as (He & Hm & Hd).
  set (r := seconds t mod 86400). pose proof (Z.mod_pos_bound (seconds t) 86400 ltac:(lia)) as Hr.
  fold r in Hr. assert (Hd31 : daysIn m y <= 31) by (unfold daysIn; repeat case_match; lia).
  unfold Parse, RFC3339Nano. rewrite !append_assoc.
  rewrite parse_printed; [|done|done|lia|..];
    [|Z.div_mod_to_equations; lia|Z.div_mod_to_equations; lia|Z.div_mod_to_equations; lia].
  assert (Hfrac : scan FracSecond9 (format_fraction (nanos t) +:+ "Z") = Some (nanos t, "Z")).
  { cbn [scan]. destruct (Z.eqb_spec (nanos t) 0) as [Hz|Hz].
    - unfold format_fraction. by rewrite Hz.
    - rewrite opt_fraction_format; [done|lia|]. intros k acc. by destruct k. }
  erewrite parse_chunk; [|exact Hfrac|by left]. cbn. rewrite (proj2 (Z.ltb_ge d 1)) by lia.
  rewrite (proj2 (Z.ltb_ge (daysIn m y) d)) by lia. cbn. destruct t as [sec ns]. cbn in *.
  do 2 f_equal. unfold unix_of. cbn. rewrite He. subst r. clear. Z.div_mod_to_equations. lia.
Qed.

Lemma TrimRight_last s c : is_space c = false → TrimRight (s +:+ String c "") = s +:+ String c "".
Proof.
  intros Hc. induction s as [|x s IH]; cbn; [by rewrite Hc|]. rewrite IH. by destruct s.
Qed.

Lemma digit_not_space n : is_space (digit_char (n mod 10)) = false.
Proof.
  assert (Hn : n mod 10 ∈ [0;1;2;3;4;5;6;7;8;9])
    by (rewrite !elem_of_cons, elem_of_nil; pose proof (Z.mod_pos_bound n 10); lia).
  repeat (apply elem_of_cons in Hn as [->|Hn]; [reflexivity|]). by apply elem_of_nil in Hn.
Qed.

(** A printed instant has no white space around it. *)
Lemma TrimSpace_Format t : TrimSpace (Format_RFC3339Nano t) = Format_RFC3339Nano t.
Proof.
  unfold TrimSpace, Format_RFC3339Nano, format_with, format_date.
  destruct (civil (seconds t / 86400)) as [[y m] d]. rewrite <-!append_assoc.
  match goal with |- context [TrimLeft ?s] => assert (TrimLeft s = s) as -> end;
    [|by apply TrimRight_last].
  cbn. by rewrite digit_not_space.
Qed.

(** ** Printed integers *)

Lemma digit_byte c x : digit c = Some x → byte_in 48 57 c = true ∧ Z.of_nat (nat_of_ascii c) - 48 = x.
Proof. unfold digit. destruct (byte_in 48 57 c); [|done]. by intros [= <-]. Qed.

(** The digits of [n], then [s]: [10 ^ k <= n < 10 ^ (k + 1)] has [k + 1] digits. *)
Lemma decimal_digits_spec fuel n :
  0 <= n < 10 ^ Z.of_nat fuel → (0 < fuel)%nat →
  ∃ k : nat, String.length (decimal_digits fuel n) = S k ∧
    (0 < n → 10 ^ Z.of_nat k <= n) ∧ n < 10 ^ Z.of_nat (S k) ∧
    all_digits (decimal_digits fuel n) ∧
    ∀ acc s, digits acc (decimal_digits fuel n +:+ s) = digits (acc * 10 ^ Z.of_nat (S k) + n) s.
Proof.
  revert n. induction fuel as [|fuel IH]; intros n Hn Hf; [lia|]. cbn [decimal_digits].
  destruct (digit_byte _ _ (digit_mod n)) as [Hb Hv].
  destruct (Z.ltb_spec n 10) as [Hlt|Hge].
  - pose proof (digit_mod n) as Hdig. exists 0%nat. rewrite Z.mod_small in * by lia.
    cbn. rewrite Hb, Hv. split_and!; try done; try lia; eauto.
  - rewrite Nat2Z.inj_succ, Z.pow_succ_r in Hn by lia.
    assert (Hq : 1 <= n / 10 < 10 ^ Z.of_nat fuel).
    { split; [apply Z.div_le_lower_bound; lia|apply Z.div_lt_upper_bound; lia]. }
    destruct (IH (n / 10)) as (k & Hl & Hlo & Hhi & Hall & Hd); [lia|destruct fuel; cbn in *; lia|].
    pose proof (Z.div_mod n 10 ltac:(lia)) as Hdm. pose proof (Z.mod_pos_bound n 10 ltac:(lia)) as Hm.
    assert (Hpow : 10 ^ Z.of_nat (S k) = 10 * 10 ^ Z.of_nat k) by (rewrite Nat2Z.inj_succ, Z.pow_succ_r; lia).
    assert (Hpow' : 10 ^ Z.of_nat (S (S k)) = 10 * 10 ^ Z.of_nat (S k))
      by (rewrite (Nat2Z.inj_succ (S k)), Z.pow_succ_r; lia).
    exists (S k). rewrite length_append, Hl. split_and!; [cbn; lia|lia|lia|..].
    + revert Hall. generalize (decimal_digits fuel (n / 10)) as s. induction s as [|c s IHs]; intros Hs.
      * split; [rewrite digit_mod; eauto|done].
      * destruct Hs. split; [done|auto].
    + intros acc s. rewrite append_assoc, Hd. cbn -[Z.pow Z.of_nat]. rewrite Hb, Hv. f_equal.
      rewrite Hpow'. lia.
Qed.

Lemma all_digits_trim s : all_digits s → TrimSpace s = s.
Proof.
  intros Hs. assert (Hsp : ∀ c, is_Some (digit c) → is_space c = false).
  { intros c [x Hx]. apply digit_byte in Hx as [Hb _]. unfold is_space, is_byte, byte_in in *.
    apply not_true_iff_false. rewrite orb_true_iff, !andb_true_iff, !Nat.leb_le, Nat.eqb_eq in *. lia. }
  unfold TrimSpace. replace (TrimLeft s) with s.
  - induction s as [|c s IH]; [done|]. destruct Hs as [Hc Hs]. cbn. rewrite IH, Hsp by done. by destruct s.
  - destruct s as [|c s]; [done|]. cbn. by rewrite Hsp by apply Hs.
Qed.

(** An [int64] that is not negative, printed and read. *)
Lemma decimal_spec n :
  0 <= n < 2 ^ 63 →
  all_digits (decimal n) ∧ ParseInt (decimal n) = Some n ∧
  (0 < n → ∃ k : nat, String.length (decimal n) = S k ∧ 10 ^ Z.of_nat k <= n < 10 ^ Z.of_nat (S k)).
Proof.
  intros Hn. unfold decimal. rewrite (proj2 (Z.ltb_ge n 0)) by lia.
  destruct (decimal_digits_spec 20 n) as (k & Hl & Hlo & Hhi & Hall & Hd);
    [change (10 ^ Z.of_nat 20) with 100000000000000000000; lia|lia|].
  split_and!; [done| |intros Hpos; exists k; auto].
  specialize (Hd 0 ""). rewrite append_nil_r in Hd. cbn [digits] in Hd. rewrite Z.mul_0_l, Z.add_0_l in Hd.
  destruct (decimal_digits 20 n) as [|c s]; [done|]. destruct Hall as [[x Hx] _].
  assert (Hr : in_range n = Some n).
  { unfold in_range, MaxInt64. by rewrite (proj2 (Z.leb_le _ _)), (proj2 (Z.leb_le _ _)) by lia. }
  apply digit_byte in Hx as [Hb _].
  transitivity (n' ← unsigned (String c s); in_range n'); [|unfold unsigned; rewrite Hd; exact Hr].
  unfold ParseInt. destruct (Ascii.eqb_spec c "-") as [->|]; [by vm_compute in Hb|].
  destruct (Ascii.eqb_spec c "+") as [->|]; [by vm_compute in Hb|].
  destruct c as [[] [] [] [] [] [] [] []]; congruence || done.
Qed.
