(* ===== verification/EntryLog.v ===== *)
(** * Function entry and exit logs

    [EntryFunction], [ExitFunction] and [GenerateHashInEightBytes] of
    [pkg/common/common.go], with the table of entry times under its mutex, and
    the three statements with which every handler starts.  The effects are the
    clock, the accesses of the table and the lines given to [klog]. *)

From S2P Require Import Prelude Prog GoStd Csi GoTime GoFormat.

Local Open Scope Z_scope.

(** ** FNV-1a, 32 bits (hash/fnv) *)

Definition uint32 : Z := 2 ^ 32.
Definition fnv_offset32 : Z := 2166136261.
Definition fnv_prime32 : Z := 16777619.

Definition byte_value (c : ascii) : Z := Z.of_nat (nat_of_ascii c).

Fixpoint fnv32a (h : Z) (s : string) : Z :=
  match s with
  | EmptyString => h
  | String c s' => fnv32a (Z.lxor h (byte_value c) * fnv_prime32 mod uint32) s'
  end.

Definition hex_digit (n : Z) : ascii :=
  if n <? 10 then ascii_of_nat (Z.to_nat (48 + n)) else ascii_of_nat (Z.to_nat (87 + n)).

(** The last [width] hexadecimal digits. *)
Fixpoint hex (width : nat) (n : Z) : string :=
  match width with
  | O => EmptyString
  | S w => hex w (n / 16) +:+ String (hex_digit (n mod 16)) EmptyString
  end.

(** [fmt.Sprintf("%.8x", h.Sum32())]: at least eight digits, and a [uint32] has
    no more. *)
Definition GenerateHashInEightBytes (input : string) : string := hex 8 (fnv32a fnv_offset32 input).

(** The cases of [common_test.go]. *)
Example hash_normal : GenerateHashInEightBytes "snapshot" = "2aa38b8d".
Proof. reflexivity. Qed.
Example hash_empty : GenerateHashInEightBytes "" = "811c9dc5".
Proof. reflexivity. Qed.

(** ** Effects *)

Abbreviation table_of_times := (gmap string Timestamp).

Inductive LogE : Type → Type :=
(** [time.Now().UTC()], whose monotonic reading [UTC] has stripped *)
| NowUTC : LogE Timestamp
(** an access of [entryTimes] between [Lock] and [Unlock] *)
| Entries {A : Type} (f : table_of_times → A * table_of_times) : LogE A
(** [klog.Info] *)
| Info (line : string) : LogE unit.

Abbreviation logs T := (prog LogE T).

(** ** Durations *)

Definition minDuration : Z := - 2 ^ 63.
Definition maxDuration : Z := 2 ^ 63 - 1.

(** [t.Sub(u)] on wall clock readings: nanoseconds, saturating. *)
Definition Sub (t u : Timestamp) : Z :=
  Z.max minDuration (Z.min maxDuration
    ((seconds t - seconds u) * 1000000000 + (nanos t - nanos u))).

Definition Milliseconds (d : Z) : Z := d `quot` 1000000.

(** ** EntryFunction and ExitFunction *)

Definition entry_line (functionName hash : string) (current : Timestamp) : string :=
  "Enter[" +:+ functionName +:+ "], UTC Time[" +:+ Format_default current +:+ "], Hash["
  +:+ hash +:+ "]".

Definition exit_line (functionName hash : string) (current : Timestamp) (start : option Timestamp)
    : string :=
  "Exit[" +:+ functionName +:+ "], UTC Time[" +:+ Format_default current +:+ "], Hash["
  +:+ hash +:+ "]" +:+
  match start with
  | Some start => ", Elapsed[" +:+ decimal (Milliseconds (Sub current start)) +:+ "ms]"
  | None => ""
  end.

Definition EntryFunction (functionName : string) : logs (string * string) :=
  current ← call NowUTC;
  let hash := GenerateHashInEightBytes (Time_String current) in
  _ ← call (Entries (fun m => (tt, <[hash := current]> m)));
  mret (entry_line functionName hash current, hash).

Definition ExitFunction (functionName hash : string) : logs string :=
  current ← call NowUTC;
  start ← call (Entries (fun m => match m !! hash with
                                  | Some start => (Some start, delete hash m)
                                  | None => (None, m)
                                  end));
  mret (exit_line functionName hash current start).

(** ** Retries *)

Section retry.
Context {Backoff error Fn Result : Type}.
Context (OnError : Backoff → (error → bool) → Fn → Result).

(** [retry.OnError] of client-go, for which every error is to be retried. *)
Definition RetryOnError (backoff : Backoff) (fn : Fn) : Result := OnError backoff (fun _ => true) fn.
End retry.

(** ** A handler

    [info, hash := EntryFunction(f); klog.Info(info); defer klog.Info(ExitFunction(f, hash))]
    around its body.  Go evaluates the arguments of a deferred call when the
    [defer] statement is executed, and makes the call when the function returns. *)
Definition logged {T} (funcName : string) (body : string → logs T) : logs T :=
  '(info, hash) ← EntryFunction funcName;
  _ ← call (Info info);
  deferred ← ExitFunction funcName hash;
  r ← body hash;
  _ ← call (Info deferred);
  mret r.

(** ** A host that runs it *)

(** The readings of the clock that are left, the table, and the lines so far. *)
Record log_state : Type := mkLog {
  l_clock : list Timestamp;
  l_times : table_of_times;
  l_lines : list string
}.

Definition now_of (s : log_state) : Timestamp := default {| seconds := 0; nanos := 0 |} (head (l_clock s)).

Definition log_env : env LogE log_state := fun R e =>
  match e in LogE R return log_state → R * log_state with
  | NowUTC => fun s => (now_of s, mkLog (tail (l_clock s)) (l_times s) (l_lines s))
  | Entries f => fun s => let '(a, m) := f (l_times s) in (a, mkLog (l_clock s) m (l_lines s))
  | Info line => fun s => (tt, mkLog (l_clock s) (l_times s) (l_lines s ++ [line]))
  end.

(** ** Hashes *)

Definition is_hex (c : ascii) : bool := byte_in 48 57 c || byte_in 97 102 c.

Fixpoint all_hex (s : string) : bool :=
  match s with EmptyString => true | String c s' => is_hex c && all_hex s' end.

Lemma all_hex_append s1 s2 : all_hex (s1 +:+ s2) = all_hex s1 && all_hex s2.
Proof. induction s1 as [|c s1 IH]; cbn; [done|]. by rewrite IH, andb_assoc. Qed.

Lemma sixteen n : 0 <= n < 16 → n ∈ [0;1;2;3;4;5;6;7;8;9;10;11;12;13;14;15].
Proof. rewrite !elem_of_cons, elem_of_nil. lia. Qed.

Ltac each_digit H := repeat (apply elem_of_cons in H as [->|H]; [try reflexivity|]);
  [..|try by apply elem_of_nil in H].

Lemma is_hex_digit n : 0 <= n < 16 → is_hex (hex_digit n) = true.
Proof. intros H%sixteen. each_digit H. Qed.

Lemma hex_spec w n : String.length (hex w n) = w ∧ all_hex (hex w n) = true.
Proof.
  revert n. induction w as [|w IH]; intros n; [done|]. cbn [hex].
  destruct (IH (n / 16)) as [Hl Ha]. rewrite length_append, all_hex_append, Hl, Ha. cbn.
  rewrite is_hex_digit by (apply Z.mod_pos_bound; lia). split; [lia|done].
Qed.

Lemma hex_digit_inj a b : 0 <= a < 16 → 0 <= b < 16 → hex_digit a = hex_digit b → a = b.
Proof.
  intros Ha%sixteen Hb%sixteen.
  repeat (apply elem_of_cons in Ha as [->|Ha];
    [repeat (apply elem_of_cons in Hb as [->|Hb]; [first [reflexivity|discriminate]|]);
     by apply elem_of_nil in Hb|]).
  by apply elem_of_nil in Ha.
Qed.

Lemma append_last_inj s1 s2 a b :
  s1 +:+ String a "" = s2 +:+ String b "" → s1 = s2 ∧ a = b.
Proof.
  revert s2. induction s1 as [|c s1 IH]; intros [|c' s2]; cbn; intros H.
  - by injection H.
  - injection H as _ H. by destruct s2.
  - injection H as _ H. by destruct s1.
  - injection H as -> H. by destruct (IH s2 H) as [-> ->].
Qed.

Lemma hex_inj w a b : 0 <= a < 16 ^ Z.of_nat w → 0 <= b < 16 ^ Z.of_nat w → hex w a = hex w b → a = b.
Proof.
  revert a b. induction w as [|w IH]; intros a b Ha Hb; [cbn in *; lia|].
  rewrite Nat2Z.inj_succ, Z.pow_succ_r in Ha, Hb by lia.
  cbn [hex]. intros [H1 H2]%append_last_inj.
  apply hex_digit_inj in H2; [|apply Z.mod_pos_bound; lia..].
  apply IH in H1; [|split; [apply Z.div_pos; lia|apply Z.div_lt_upper_bound; lia]..].
  rewrite (Z.div_mod a 16), (Z.div_mod b 16) by lia. congruence.
Qed.

Lemma fnv32a_range h s : 0 <= h < uint32 → 0 <= fnv32a h s < uint32.
Proof.
  revert h. induction s as [|c s IH]; intros h Hh; [done|]. cbn [fnv32a].
  apply IH, Z.mod_pos_bound. done.
Qed.

(** ** What a handler logs *)

(** The run of [logged]: the table is left without the entry, and both lines are
    made of readings of the clock that precede the body. *)
Lemma run_logged {T} (funcName : string) (body : string → logs T) t0 t1 ts m ls :
  let hash := GenerateHashInEightBytes (Time_String t0) in
  let '(r, s) := run log_env (body hash)
    (mkLog ts (delete hash m) (ls ++ [entry_line funcName hash t0])) in
  run log_env (logged funcName body) (mkLog (t0 :: t1 :: ts) m ls) =
    (r, mkLog (l_clock s) (l_times s) (l_lines s ++ [exit_line funcName hash t1 (Some t0)])).
Proof.
  cbv zeta. set (hash := GenerateHashInEightBytes (Time_String t0)).
  unfold logged, EntryFunction, ExitFunction. rewrite !run_bind.
  cbn -[GenerateHashInEightBytes entry_line exit_line Time_String]. fold hash. rewrite lookup_insert_eq, delete_insert_eq.
  cbn -[GenerateHashInEightBytes entry_line exit_line Time_String]. rewrite run_bind.
  by destruct (run log_env (body hash) _) as [r s].
Qed.

(** ** The properties *)

(** The hash of a log line is well formed, and as good as FNV-1a: it has eight
    lower-case hexadecimal digits, whatever the input, and two inputs have the same
    hash only when their 32-bit FNV-1a sums are equal. *)
Theorem GenerateHashInEightBytes_wf (s t : string) :
  String.length (GenerateHashInEightBytes s) = 8%nat ∧
  all_hex (GenerateHashInEightBytes s) = true ∧
  (GenerateHashInEightBytes s = GenerateHashInEightBytes t ↔
   fnv32a fnv_offset32 s = fnv32a fnv_offset32 t).
Proof.
  unfold GenerateHashInEightBytes. split_and!; [apply hex_spec..|].
  split; [|by intros ->]. apply (hex_inj 8); apply fnv32a_range; done.
Qed.

(** C34: A handler's log.  Whatever the body does, the exit line is made when the
    handler is entered: its time and its [Elapsed] are those of the two readings of
    the clock before the body, so they say nothing of how long the body takes.  The
    body finds the table of entry times without the entry again, so a body that
    leaves the table alone leaks nothing; entry line and exit line are the first
    and the last, and the body's result is returned. *)
Theorem logged_exit_line {T} (funcName : string) (body : string → logs T) t0 t1 ts m ls :
  let hash := GenerateHashInEightBytes (Time_String t0) in
  m !! hash = None →
  let '(r, s) := run log_env (body hash) (mkLog ts m (ls ++ [entry_line funcName hash t0])) in
  run log_env (logged funcName body) (mkLog (t0 :: t1 :: ts) m ls) =
    (r, mkLog (l_clock s) (l_times s) (l_lines s ++ [exit_line funcName hash t1 (Some t0)])).
Proof.
  cbv zeta. intros Hm. pose proof (run_logged funcName body t0 t1 ts m ls) as H. cbv zeta in H.
  by rewrite (delete_id m _ Hm) in H.
Qed.

(** A body that takes ten seconds, by the clock. *)
Definition slow_body (hash : string) : logs bool :=
  _ ← call NowUTC; _ ← call (Info ("working " +:+ hash)); mret true.

Definition at_second (n : Z) : Timestamp := {| seconds := 1735689600 + n; nanos := 0 |}.

Lemma logged_exit_line_witness :
  l_lines (run log_env (logged "NodeServer:NodePublishVolume:" slow_body)
             (mkLog [at_second 0; at_second 0; at_second 10] ∅ [])).2 =
  [ "Enter[NodeServer:NodePublishVolume:], UTC Time[2025-01-01 00:00:00], Hash[5fa0f9f1]";
    "working 5fa0f9f1";
    "Exit[NodeServer:NodePublishVolume:], UTC Time[2025-01-01 00:00:00], Hash[5fa0f9f1], Elapsed[0ms]" ].
Proof.
  pose proof (logged_exit_line "NodeServer:NodePublishVolume:" slow_body (at_second 0) (at_second 0)
    [at_second 10] ∅ [] (lookup_empty _)) as H.
  rewrite H. vm_compute. reflexivity.
Defined.
