(* ===== verification/Common.v ===== *)
(** * Package [common]: capacities, volume ids and resource locks

    Models [pkg/common/calculator.go], [pkg/common/types.go], the volume id
    functions of [pkg/common/common.go] and [pkg/common/lock.go]. *)

From S2P Require Import Prelude GoStd Csi.

Local Open Scope Z_scope.

(** ** Constants (types.go) *)

Definition FEAT_MOUNTOPT_ENABLE : string := "enable_mount_opt".
Definition Kib : Z := 1024.
Definition Mib : Z := Kib * 1024.
Definition Gib : Z := Mib * 1024.
Definition Tib : Z := Gib * 1024.
Definition KubeletRootDir : string := "/var/lib/kubelet".
Definition KubernetesPluginPathPrefix : string := "/plugins/kubernetes.io/".
(** [int64(^uint64(0) >> 1)]. *)
Definition Int64Max : Z := wrap64 (Z.shiftr (2 ^ 64 - 1) 1).
Definition ZECVOLID_LEN : Z := 19.
Definition ZECVOLSERIAL_LEN : Z := 20.
Definition FileSystemExt3 : string := "ext3".
Definition FileSystemExt4 : string := "ext4".
Definition FileSystemXfs : string := "xfs".
Definition DefaultFileSystem : string := FileSystemExt4.

(** ** Capacities (calculator.go) *)

Definition GibToByte (nGib : Z) : Z := wrap64 (nGib * Gib).

Definition ByteCeilToGib (nByte : Z) : Z :=
  if nByte <=? 0 then 0 else
  let res := nByte `quot` Gib in
  if wrap64 (res * Gib) <? nByte then wrap64 (res + 1) else res.

Definition IsValidCapacityBytes (cur : Z) (capRange : option CapacityRange) : bool :=
  match capRange with
  | None => true
  | Some r =>
    if (0 <? RequiredBytes r) && (cur <? RequiredBytes r) then false else
    if (0 <? LimitBytes r) && (LimitBytes r <? cur) then false else
    true
  end.

(** The error carries no more than its being an error: the two messages are
    only logged. *)
Definition GetRequestSizeBytes (capRange : option CapacityRange) : result unit Z :=
  match capRange with
  | None => Ok 0
  | Some r =>
    let requiredBytes := RequiredBytes r in
    let limitBytes := LimitBytes r in
    if (requiredBytes <? 0) || (limitBytes <? 0) then Err tt else
    let limitBytes := if limitBytes =? 0 then MaxInt64 else limitBytes in
    if limitBytes <? requiredBytes then Err tt else
    Ok requiredBytes
  end.

(** ** CSI volume ids (common.go) *)

Definition GenCsiVolId (volid serial : string) : string := volid +:+ "-" +:+ serial.

Definition ParseCsiVolId (csivolId : string) : result unit (string * string) :=
  let '(volid, serial, found) := Cut csivolId "-"%char in
  if negb found then Err tt else
  if negb (len volid =? ZECVOLID_LEN) || negb (len serial =? ZECVOLSERIAL_LEN)
  then Err tt
  else Ok (volid, serial).

(** ** Resource locks (lock.go)

    The mutex makes each operation atomic: an operation is one transition of
    the set of locked ids. *)

Record ResourceLocks : Type := mkResourceLocks { locks : gset string }.

Definition NewResourceLocks : ResourceLocks := mkResourceLocks ∅.

Definition TryAcquire (lock : ResourceLocks) (resourceID : string) : bool * ResourceLocks :=
  if bool_decide (resourceID ∈ locks lock) then (false, lock)
  else (true, mkResourceLocks ({[resourceID]} ∪ locks lock)).

Definition Release (lock : ResourceLocks) (resourceID : string) : ResourceLocks :=
  mkResourceLocks (locks lock ∖ {[resourceID]}).

(** ** Lemmas on capacities *)

Lemma Gib_val : Gib = 1073741824.
Proof. done. Qed.

Ltac gib := rewrite ?Gib_val in *; unfold is_int64, MaxInt64 in *; try lia.

Lemma GibToByte_small n : - 8589934592 <= n < 8589934592 → GibToByte n = n * Gib.
Proof. intros. unfold GibToByte. apply wrap64_id. gib. Qed.

Lemma ByteCeilToGib_nonpos n : n <= 0 → ByteCeilToGib n = 0.
Proof. intros. unfold ByteCeilToGib. case_match; lia. Qed.

(** The ceiling of [n] in GiB, for every positive [int64]. *)
Lemma ByteCeilToGib_bounds n :
  0 < n <= MaxInt64 →
  let g := ByteCeilToGib n in
  1 <= g <= 8589934592 ∧ (g - 1) * Gib < n <= g * Gib.
Proof.
  intros Hn. unfold ByteCeilToGib. rewrite (proj2 (Z.leb_gt _ _)) by lia. simpl.
  pose proof (Z.quot_div_nonneg n Gib ltac:(lia) ltac:(gib)) as ->.
  pose proof (Z.div_mod n Gib ltac:(gib)).
  pose proof (Z.mod_pos_bound n Gib ltac:(gib)).
  assert (0 <= n / Gib <= 8589934591) by (gib; nia).
  rewrite !wrap64_id by gib.
  case_match; gib.
Qed.

Lemma ByteCeilToGib_mono n m : n <= m <= MaxInt64 → ByteCeilToGib n <= ByteCeilToGib m.
Proof.
  intros Hnm. destruct (decide (n <= 0)) as [Hn|Hn].
  - rewrite (ByteCeilToGib_nonpos n) by done. destruct (decide (m <= 0)).
    + by rewrite ByteCeilToGib_nonpos.
    + pose proof (ByteCeilToGib_bounds m ltac:(lia)). simpl in *. lia.
  - pose proof (ByteCeilToGib_bounds n ltac:(lia)).
    pose proof (ByteCeilToGib_bounds m ltac:(lia)). simpl in *. gib.
Qed.

Lemma ByteCeilToGib_aligned g : 0 <= g < 8589934592 → ByteCeilToGib (g * Gib) = g.
Proof.
  intros Hg. destruct (decide (g = 0)) as [->|]; [done|].
  pose proof (ByteCeilToGib_bounds (g * Gib) ltac:(gib)). simpl in *. gib.
Qed.

Lemma IsValidCapacityBytes_true cur r :
  IsValidCapacityBytes cur (Some r) = true ↔
  (0 < RequiredBytes r → RequiredBytes r <= cur) ∧
  (0 < LimitBytes r → cur <= LimitBytes r).
Proof. unfold IsValidCapacityBytes. repeat case_match; split; intros; lia. Qed.

(** ** Lemmas on volume ids *)

Lemma ParseCsiVolId_Ok id volid serial :
  ParseCsiVolId id = Ok (volid, serial) ↔
  id = GenCsiVolId volid serial ∧ has_byte "-"%char volid = false ∧
  len volid = ZECVOLID_LEN ∧ len serial = ZECVOLSERIAL_LEN.
Proof.
  unfold ParseCsiVolId, GenCsiVolId.
  destruct (Cut id "-"%char) as [[b a] f] eqn:HC. split.
  - destruct f; [|done]. simpl. case_match eqn:Hl; [done|]. intros [= -> ->].
    apply Cut_found in HC as [-> ?]. simpl. split_and!; [done..| |]; lia.
  - intros (-> & Hb & Hv & Hs).
    pose proof (proj2 (Cut_found (volid +:+ "-" +:+ serial) "-"%char volid serial)
      (conj eq_refl Hb)) as HC'.
    rewrite HC' in HC. injection HC as <- <- <-. simpl. by rewrite Hv, Hs.
Qed.

(** ** Lemmas on locks *)

Lemma TryAcquire_spec l id b l' :
  TryAcquire l id = (b, l') →
  (b = true ∧ (id ∉ locks l) ∧ locks l' = {[id]} ∪ locks l) ∨
  (b = false ∧ id ∈ locks l ∧ l' = l).
Proof. unfold TryAcquire. case_bool_decide; intros [= <- <-]; auto. Qed.

#[export] Hint Resolve ByteCeilToGib_nonpos ByteCeilToGib_aligned : csi.

(** ** Properties *)

(** C38: The CSI volume ids.  A string parses to a disk id and a serial number exactly
    when it is the two with a dash between them, the disk id of 19 bytes and without
    a dash, the serial of 20 bytes, whatever they are; every other string is
    rejected.  [GenCsiVolId] makes that string, so the id of a volume parses back to
    its disk and an accepted id determines it. *)
Theorem csi_volume_id_roundtrip (id volid serial : string) :
  (ParseCsiVolId id = Ok (volid, serial) ↔
   id = volid +:+ "-" +:+ serial ∧ has_byte "-"%char volid = false ∧
   len volid = 19 ∧ len serial = 20) ∧
  GenCsiVolId volid serial = volid +:+ "-" +:+ serial.
Proof. split; [apply ParseCsiVolId_Ok|done]. Qed.

(** For every positive [int64], [ByteCeilToGib] is the least number of GiB
    that holds it, with no overflow on the way; converting it back to bytes is
    exact for at most 2^63 - 2^30 bytes and wraps to -2^63 above. *)
Theorem ByteCeilToGib_least (n : Z) :
  0 < n <= MaxInt64 →
  n <= ByteCeilToGib n * Gib ∧
  (∀ g, n <= g * Gib → ByteCeilToGib n <= g) ∧
  GibToByte (ByteCeilToGib n) =
    (if bool_decide (n <= 2 ^ 63 - Gib) then ByteCeilToGib n * Gib else - 2 ^ 63).
Proof.
  intros Hn. pose proof (ByteCeilToGib_bounds n Hn) as (Hg & Hlo & Hhi).
  split_and!; [done|intros g; gib|].
  case_bool_decide as Hsmall.
  - apply GibToByte_small. gib.
  - assert (ByteCeilToGib n = 8589934592) as -> by gib. done.
Qed.

Lemma ByteCeilToGib_least_witness : GibToByte (ByteCeilToGib 1073741825) = 2147483648.
Proof. exact (proj2 (proj2 (ByteCeilToGib_least 1073741825 ltac:(vm_compute; split; [done|discriminate])))). Defined.
