(* ===== verification/Locking.v ===== *)
(** * Handlers that share a lock table

    The controller's and the node's handlers use [common.ResourceLocks] in the
    same way.  [Locked F] adds its two operations to an effect signature [F],
    [with_lock] is the bracket every handler wraps its work in, and
    [lock_protocol] is the discipline: its state is the set of resources the
    request has locked, a call of [F] needs the locks of the resources in its
    [scope], and a handler is [balanced] when it ends with the locks it started
    with.  [Serve.v] runs disciplined handlers concurrently. *)

From S2P Require Import Prelude Csi Common Prog.

Local Open Scope csi_scope.

(** ** Effects *)

Inductive LockE : Type → Type :=
| TryAcquireE (resourceID : string) : LockE bool
| ReleaseE (resourceID : string) : LockE unit.

Inductive Locked (F : Type → Type) : Type → Type :=
| OnLocks {R : Type} (o : LockE R) : Locked F R
| Other {R : Type} (o : F R) : Locked F R.
Arguments OnLocks {F R} _.
Arguments Other {F R} _.

(** [if !locks.TryAcquire(id) { return Aborted }; defer locks.Release(id)],
    around the rest of the handler. *)
Definition with_lock {F A} (id : string) (body : prog (Locked F) (rpc A))
    : prog (Locked F) (rpc A) :=
  acquired ← call (OnLocks (TryAcquireE id));
  if negb (acquired : bool) then mret (Err codes.Aborted) else
  r ← body;
  _ ← call (OnLocks (ReleaseE id));
  mret r.

(** A program that takes no lock, among those that do. *)
Definition lift {F A} (p : prog F A) : prog (Locked F) A := interp (fun R o => call (Other o)) p.

(** The lock operations answer anything. *)
Definition locked_ok {F} (ok : answers F) : answers (Locked F) := fun R e =>
  match e in Locked _ R return R → Prop with
  | OnLocks _ => fun _ => True
  | Other o => ok _ o
  end.

(** An implementation of [F] by [G], the locks left as they are. *)
Definition locked_impl {F G} (h : ∀ R, F R → prog G R) (R : Type) (e : Locked F R)
    : prog (Locked G) R :=
  match e in Locked _ R return prog (Locked G) R with
  | OnLocks o => call (OnLocks o)
  | Other o => lift (h _ o)
  end.

(** ** The protocol *)

Definition covered (scope : list string) (held : gset string) : Prop :=
  Forall (fun r => r ∈ held) scope.

Definition lock_pre (held : gset string) {R} (o : LockE R) : Prop :=
  match o with
  | TryAcquireE _ => True
  | ReleaseE id => id ∈ held
  end.

(** The table holds what the request has locked, so a lock that is acquired was
    not held. *)
Definition lock_ans (held : gset string) {R} (o : LockE R) : R → Prop :=
  match o in LockE R return R → Prop with
  | TryAcquireE id => fun acquired => acquired = true → id ∉ held
  | ReleaseE id => fun _ => True
  end.

Definition lock_next (held : gset string) {R} (o : LockE R) : R → gset string :=
  match o in LockE R return R → gset string with
  | TryAcquireE id => fun acquired => if acquired then {[id]} ∪ held else held
  | ReleaseE id => fun _ => held ∖ {[id]}
  end.

(** What a request has locked after an operation. *)
Definition held_next {F} (R : Type) (held : gset string) (e : Locked F R) : R → gset string :=
  match e in Locked _ R return R → gset string with
  | OnLocks o => lock_next held o
  | Other _ => fun _ => held
  end.

Definition lock_protocol {F} (scope : ∀ R, F R → list string) (ok : answers F)
    : protocol (Locked F) (gset string) :=
  Protocol
    (fun R held e => match e in Locked _ R return Prop with
                     | OnLocks o => lock_pre held o
                     | Other o => covered (scope _ o) held
                     end)
    (fun R held e => match e in Locked _ R return R → Prop with
                     | OnLocks o => lock_ans held o
                     | Other o => ok _ o
                     end)
    held_next.

Ltac held := rewrite ?elem_of_union, ?elem_of_singleton; tauto.

Lemma covered_nil held : covered [] held.
Proof. constructor. Qed.

Lemma covered_cons r scope held : r ∈ held → covered scope held → covered (r :: scope) held.
Proof. by constructor. Qed.

Lemma covered_subseteq scope scope' held :
  scope ⊆ scope' → covered scope' held → covered scope held.
Proof. unfold covered. rewrite !list.Forall_forall. auto. Qed.

(** ** Traces *)

(** The calls of [F] in a trace. *)
Definition inner_event {F} (ev : event (Locked F)) : option (event F) :=
  match ev_call ev in Locked _ R return R → option (event F) with
  | OnLocks _ => fun _ => None
  | Other o => fun r => Some (Event o r)
  end (ev_answer ev).

Definition inner {F} (t : list (event (Locked F))) : list (event F) := omap inner_event t.

Definition outer {F} (ev : event F) : event (Locked F) := Event (Other (ev_call ev)) (ev_answer ev).

Lemma inner_outer {F} (t : list (event F)) : inner (outer <$> t) = t.
Proof.
  unfold inner. induction t as [|[R e r] t IH]; [done|]. csimpl. by rewrite IH.
Qed.

Lemma inner_app {F} (t1 t2 : list (event (Locked F))) : inner (t1 ++ t2) = inner t1 ++ inner t2.
Proof. apply omap_app. Qed.

Lemma traces_lift {F A} ok (p : prog F A) t a :
  traces (locked_ok ok) (lift p) t a ↔ ∃ t', t = outer <$> t' ∧ traces ok p t' a.
Proof.
  revert t. induction p as [a'|R e k IH]; intros t; simpl.
  - split; [|by intros (t' & -> & -> & ->)]. intros [-> ->]. by exists [].
  - split.
    + intros (r & t' & -> & Hr & (t2 & -> & Ht)%IH). exists (Event e r :: t2). eauto 10.
    + intros (t' & -> & r & t2 & -> & Hr & Ht). csimpl. eexists r, _. split_and!; [done..|].
      apply IH. eauto.
Qed.

(** A handler's work under its lock: refused, or done between the lock's
    acquisition and its release. *)
Lemma traces_with_lock {F A} ok id (body : prog F (rpc A)) t r :
  traces (locked_ok ok) (with_lock id (lift body)) t r ↔
  t = [Event (OnLocks (TryAcquireE id)) false] ∧ r = Err codes.Aborted ∨
  ∃ t', t = Event (OnLocks (TryAcquireE id)) true :: (outer <$> t') ++
            [Event (OnLocks (ReleaseE id)) tt] ∧ traces ok body t' r.
Proof.
  unfold with_lock. split.
  - intros (b & t1 & -> & _ & Ht). destruct b; simpl in Ht.
    + apply traces_bind in Ht as (t2 & t3 & a & -> & (t' & -> & Ht)%traces_lift & [] & t4 & -> & _ & Hr).
      destruct Hr as [-> ->]. right. eauto.
    + destruct Ht as [-> ->]. by left.
  - intros [[-> ->]|(t' & -> & Ht)]; [by exists false, []|].
    exists true, ((outer <$> t') ++ [Event (OnLocks (ReleaseE id)) tt]). split_and!; [done..|].
    simpl. apply traces_bind. exists (outer <$> t'), [Event (OnLocks (ReleaseE id)) tt], r.
    split_and!; [done| |by exists tt, []]. apply traces_lift. eauto.
Qed.

(** ** Balanced programs *)

Section balanced.
Context {F : Type → Type} (scope : ∀ R, F R → list string) (ok : answers F).

(** A program that ends with the locks it started with. *)
Definition balanced {A} (p : prog (Locked F) A) (held : gset string) : Prop :=
  wp (lock_protocol scope ok) p (fun _ held' => held' = held) held.

Lemma balanced_ret {A} (a : A) held : balanced (Ret a) held.
Proof. done. Qed.

Lemma balanced_bind {A B} (p : prog (Locked F) A) (f : A → prog (Locked F) B) held :
  balanced p held → (∀ a, balanced (f a) held) → balanced (p ≫= f) held.
Proof. intros Hp Hf. eapply wp_bind_mono; [exact Hp|]. intros a held' ->. apply Hf. Qed.

Lemma balanced_call {R} (o : F R) held :
  covered (scope _ o) held → balanced (call (Other o)) held.
Proof. intros. split; [done|]. by intros. Qed.

Lemma balanced_lift {A} (p : prog F A) held :
  all_calls (fun R o => covered (scope R o) held) p → balanced (lift p) held.
Proof.
  unfold all_calls, balanced, lift. induction p as [a|R e k IH]; [done|].
  intros [He Hk]. split; [exact He|]. intros r _. apply IH, Hk, I.
Qed.

Lemma balanced_with_lock {A} id (body : prog (Locked F) (rpc A)) held :
  (id ∉ held → balanced body ({[id]} ∪ held)) → balanced (with_lock id body) held.
Proof.
  intros Hbody. unfold balanced, with_lock. apply wp_bind. split; [done|].
  intros [] Hans; simpl; [|done]. apply wp_bind.
  eapply wp_mono; [|exact (Hbody (Hans eq_refl))].
  intros a held' ->. split; [simpl; held|]. intros [] _.
  specialize (Hans eq_refl). simpl. clear -Hans. set_solver.
Qed.
End balanced.

(** Decompose a handler along its text; [env] closes a call of the signature. *)
Ltac balance_with env :=
  repeat lazymatch goal with
    | |- ∀ _, _ => intros ?
    | |- covered [] _ => apply covered_nil
    | |- covered (_ :: _) _ => apply covered_cons; [held|]
    | |- balanced _ _ (Ret _) _ => apply balanced_ret
    | |- balanced _ _ (mret _) _ => apply balanced_ret
    | |- balanced _ _ (call (Other _)) _ => apply balanced_call; env
    | |- balanced _ _ (lift _) _ => apply balanced_lift; env
    | |- balanced _ _ (with_lock _ _) _ => apply balanced_with_lock
    | |- balanced _ _ (_ ≫= _) _ => apply balanced_bind
    | |- balanced _ _ (let _ := _ in _) _ => cbv zeta
    | |- balanced _ _ (match ?x with _ => _ end) _ => destruct x
    | |- balanced _ _ ?p _ => let f := head_of p in progress unfold f
    end.

(** ** Discipline through an implementation *)

(** The calls of [p] stay within the resources [s], and its result is one of
    those that [Q] allows. *)
Definition confined {G A} (scope : ∀ R, G R → list string) (ok : answers G)
    (s : list string) (Q : A → Prop) (p : prog G A) : Prop :=
  wp (Protocol (fun R _ c => scope R c ⊆ s) (fun R _ c r => ok R c r) (fun _ u _ _ => u))
    p (fun a _ => Q a) tt.

Lemma confined_all_calls {G A} (scope : ∀ R, G R → list string) ok s (p : prog G A) :
  all_calls (fun R c => scope R c ⊆ s) p → confined scope ok s (fun _ => True) p.
Proof.
  unfold confined, all_calls. induction p as [a|R e k IH]; simpl; [done|].
  intros [He Hk]. split; [done|]. intros r _. apply IH, Hk, I.
Qed.

Lemma wp_locked_impl {F G A} (scopeF : ∀ R, F R → list string) (okF : answers F)
    (scopeG : ∀ R, G R → list string) (okG : answers G) (h : ∀ R, F R → prog G R)
    (p : prog (Locked F) A) Q held :
  (∀ R (o : F R), confined scopeG okG (scopeF R o) (okF R o) (h R o)) →
  wp (lock_protocol scopeF okF) p Q held →
  wp (lock_protocol scopeG okG) (interp (locked_impl h) p) Q held.
Proof.
  intros Hh. apply wp_interp. clear held. intros R e held.
  destruct e as [R o|R o]; simpl; intros Hpre; [by split; auto|].
  specialize (Hh R o). unfold confined, lift in *. revert Hh.
  generalize (h R o). intros q. generalize (okF R o). intros Qr.
  induction q as [a|R' c k IH]; simpl; [done|]. intros [Hc Hk].
  split; [by eapply covered_subseteq|]. intros r Hr. by apply IH, Hk.
Qed.
