(* ===== verification/Serve.v ===== *)
(** * Concurrent requests on one lock table

    gRPC serves each request in a goroutine of its own; the requests of one
    server share its [ResourceLocks].  [server] is what this file needs to know
    of a server, [system] the state of its requests, [step] an atomic action of
    one of them (a lock operation, which the table's mutex makes atomic, or a
    call of the environment, whose answer is anything the signature allows) and
    [served] what is reachable.  [inv] is the invariant that a [Disciplined]
    server keeps. *)

From S2P Require Import Prelude Csi Common Prog Locking.

(** ** Servers *)

Record server : Type := mkServer {
  sv_req : Type;
  sv_resp : Type;
  (** what its handlers call besides the locks, and what these calls answer *)
  sv_eff : Type → Type;
  sv_ok : answers sv_eff;
  (** the resources that a call made for a request changes *)
  sv_scope : sv_req → ∀ R, sv_eff R → list string;
  sv_serve : sv_req → prog (Locked sv_eff) sv_resp
}.

Abbreviation sys srv := (prog (Locked (sv_eff srv)) (sv_resp srv)).
Abbreviation sys_event srv := (event (Locked (sv_eff srv))).

Definition sys_protocol (srv : server) (q : sv_req srv) : protocol (Locked (sv_eff srv)) (gset string) :=
  lock_protocol (sv_scope srv q) (sv_ok srv).

(** The interface: a handler holds the locks of what it changes, and returns
    them all. *)
Class Disciplined (srv : server) : Prop :=
  disciplined : ∀ q : sv_req srv,
    wp (sys_protocol srv q) (sv_serve srv q) (fun _ held => held = ∅) ∅.

(** ** The system *)

(** The lock table's answer to a lock operation. *)
Definition lock_exec (table : ResourceLocks) {R} (o : LockE R) : R * ResourceLocks :=
  match o in LockE R return R * ResourceLocks with
  | TryAcquireE id => TryAcquire table id
  | ReleaseE id => (tt, Release table id)
  end.

Record system (srv : server) : Type := mkSystem {
  table : ResourceLocks;
  (** each request with what is left of its handler *)
  pool : gmap nat (sv_req srv * sys srv);
  (** every call made so far, with its request *)
  log : list (nat * sys_event srv)
}.
Arguments mkSystem {srv} _ _ _.
Arguments table {srv} _.
Arguments pool {srv} _.
Arguments log {srv} _.

Section system.
Context (srv : server).

Definition init : system srv := mkSystem NewResourceLocks ∅ [].

Inductive step : system srv → system srv → Prop :=
| step_start i q s :
    pool s !! i = None →
    step s (mkSystem (table s) (<[i := (q, sv_serve srv q)]> (pool s)) (log s))
| step_lock i q R (o : LockE R) k s r t :
    pool s !! i = Some (q, Vis (OnLocks o) k) → lock_exec (table s) o = (r, t) →
    step s (mkSystem t (<[i := (q, k r)]> (pool s)) (log s ++ [(i, Event (OnLocks o) r)]))
| step_env i q R (o : sv_eff srv R) k s r :
    pool s !! i = Some (q, Vis (Other o) k) → sv_ok srv R o r →
    step s (mkSystem (table s) (<[i := (q, k r)]> (pool s)) (log s ++ [(i, Event (Other o) r)])).

Definition served (s : system srv) : Prop := rtc step init s.

(** What request [i] has locked after a log. *)
Definition held_by (i : nat) (l : list (nat * sys_event srv)) : gset string :=
  foldl (fun held x => if decide (x.1 = i)
                       then held_next _ held (ev_call x.2) (ev_answer x.2)
                       else held) ∅ l.

(** ** The invariant *)

(** No resource is locked by two requests. *)
Definition exclusive (l : list (nat * sys_event srv)) : Prop :=
  ∀ i j r, r ∈ held_by i l → r ∈ held_by j l → i = j.

(** A refused lock was held. *)
Definition justified (l : list (nat * sys_event srv)) (ev : sys_event srv) : Prop :=
  match ev_call ev in Locked _ R return R → Prop with
  | OnLocks o =>
    match o in LockE R return R → Prop with
    | TryAcquireE id => fun acquired => acquired = false → ∃ j, id ∈ held_by j l
    | _ => fun _ => True
    end
  | _ => fun _ => True
  end (ev_answer ev).

Definition log_ok (reqs : gmap nat (sv_req srv)) (l : list (nat * sys_event srv)) : Prop :=
  ∀ l1 i ev l2, l = l1 ++ (i, ev) :: l2 →
    (∀ q, reqs !! i = Some q → pre (sys_protocol srv q) (held_by i l1) (ev_call ev)) ∧
    exclusive l1 ∧ justified l1 ev.

Record inv (s : system srv) : Prop := {
  inv_wp i q p : pool s !! i = Some (q, p) →
    wp (sys_protocol srv q) p (fun _ held => held = ∅) (held_by i (log s));
  inv_none i : pool s !! i = None → held_by i (log s) = ∅ ∧ i ∉ (log s).*1;
  inv_exclusive : exclusive (log s);
  inv_table r : r ∈ locks (table s) ↔ ∃ i, r ∈ held_by i (log s);
  inv_log : log_ok (fst <$> pool s) (log s)
}.

Lemma held_by_snoc i j ev l :
  held_by i (l ++ [(j, ev)]) =
  if decide (j = i) then held_next _ (held_by i l) (ev_call ev) (ev_answer ev) else held_by i l.
Proof. unfold held_by. by rewrite foldl_app. Qed.

Lemma log_ok_snoc reqs l i q ev :
  log_ok reqs l → reqs !! i = Some q → pre (sys_protocol srv q) (held_by i l) (ev_call ev) →
  exclusive l → justified l ev → log_ok reqs (l ++ [(i, ev)]).
Proof.
  intros Hl Hq Hpre Hex Hj l1 i' ev' l2 Heq.
  destruct (decide (l2 = [])) as [->|Hne].
  - apply app_inj_tail in Heq as [<- [= <- <-]]. split; [|done]. intros q' Hq'. congruence.
  - destruct (exists_last Hne) as (l2' & x & ->).
    rewrite app_comm_cons, app_assoc in Heq. apply app_inj_tail in Heq as [-> _]. eauto.
Qed.

(** A request that goes on is the same request. *)
Lemma requests_insert (m : gmap nat (sv_req srv * sys srv)) i q p p' :
  m !! i = Some (q, p) → fst <$> <[i := (q, p')]> m = fst <$> m.
Proof.
  intros Hi. rewrite fmap_insert. apply insert_id. by rewrite lookup_fmap, Hi.
Qed.

(** An action that is not on the locks. *)
Lemma inv_env s i q R (o : sv_eff srv R) k r :
  inv s → pool s !! i = Some (q, Vis (Other o) k) → sv_ok srv R o r →
  inv (mkSystem (table s) (<[i := (q, k r)]> (pool s)) (log s ++ [(i, Event (Other o) r)])).
Proof.
  intros [Hwp Hnone Hex Htab Hlog] Hi Hans.
  assert (Hsame : ∀ j, held_by j (log s ++ [(i, Event (Other o) r)]) = held_by j (log s))
    by (intros j; rewrite held_by_snoc; by case_decide).
  pose proof (Hwp i _ _ Hi) as [Hpre Hk]. split; simpl.
  - intros j q' p. rewrite Hsame. destruct (decide (i = j)) as [->|Hne].
    + rewrite lookup_insert_eq. intros [= <- <-]. by apply Hk.
    + rewrite lookup_insert_ne by done. apply Hwp.
  - intros j. rewrite Hsame, lookup_insert_None, fmap_app, elem_of_app. csimpl.
    rewrite list_elem_of_singleton. intros [[Hh Hl]%Hnone Hne]. naive_solver.
  - intros j1 j2 x. rewrite !Hsame. apply Hex.
  - intros x. setoid_rewrite Hsame. apply Htab.
  - erewrite requests_insert by done. apply log_ok_snoc with q; [done| |done..].
    by rewrite lookup_fmap, Hi.
Qed.

(** What a lock operation does to the table and to the owner's locks. *)
Lemma lock_exec_spec tab held R (o : LockE R) r t' :
  lock_exec tab o = (r, t') → lock_pre held o → (∀ x, x ∈ held → x ∈ locks tab) →
  lock_ans held o r ∧
  (∀ x, x ∈ lock_next held o r → x ∈ held ∨ x ∉ locks tab) ∧
  (∀ x, x ∈ locks t' ↔ x ∈ lock_next held o r ∨ (x ∈ locks tab ∧ x ∉ held)).
Proof.
  destruct o as [id|id]; simpl; intros Hex Hpre Hsub.
  - apply TryAcquire_spec in Hex as [(-> & Hid & ->)|(-> & Hid & ->)].
    + split_and!; [set_solver| |]; intros x; rewrite !elem_of_union, !elem_of_singleton;
        destruct (decide (x ∈ held)); destruct (decide (x = id)); naive_solver.
    + split_and!; [done|tauto|]. intros x. destruct (decide (x ∈ held)); naive_solver.
  - injection Hex as <- <-. simpl. split_and!; [done|set_solver|].
    intros x. rewrite !elem_of_difference, !elem_of_singleton.
    destruct (decide (x ∈ held)); naive_solver.
Qed.

Lemma inv_lock s i q R (o : LockE R) k r t' :
  inv s → pool s !! i = Some (q, Vis (OnLocks o) k) → lock_exec (table s) o = (r, t') →
  inv (mkSystem t' (<[i := (q, k r)]> (pool s)) (log s ++ [(i, Event (OnLocks o) r)])).
Proof.
  intros [Hwp Hnone Hex Htab Hlog] Hi Hr.
  pose proof (Hwp i _ _ Hi) as [Hpre Hk].
  destruct (lock_exec_spec _ (held_by i (log s)) _ _ _ _ Hr Hpre) as (Hans & Hsub & Htab').
  { intros x Hx. apply Htab. eauto. }
  assert (Hi' : held_by i (log s ++ [(i, Event (OnLocks o) r)]) =
                lock_next (held_by i (log s)) o r)
    by (rewrite held_by_snoc; by rewrite decide_True).
  assert (Hj : ∀ j, j ≠ i → held_by j (log s ++ [(i, Event (OnLocks o) r)]) = held_by j (log s))
    by (intros j Hne; rewrite held_by_snoc; by rewrite decide_False).
  assert (Hother : ∀ j x, j ≠ i → x ∈ held_by j (log s) →
    x ∈ locks (table s) ∧ x ∉ held_by i (log s)).
  { intros j x Hne Hx. split; [apply Htab; eauto|]. intros Hx'. by destruct Hne, (Hex j i x). }
  split; simpl.
  - intros j q' p. destruct (decide (j = i)) as [->|Hne].
    + rewrite lookup_insert_eq, Hi'. intros [= <- <-]. by apply Hk.
    + rewrite lookup_insert_ne, Hj by done. apply Hwp.
  - intros j. rewrite lookup_insert_None, fmap_app, elem_of_app. csimpl.
    rewrite list_elem_of_singleton. intros [Hn Hne]. rewrite Hj by done.
    apply Hnone in Hn as [??]. naive_solver.
  - intros j1 j2 x. destruct (decide (j1 = i)) as [->|H1], (decide (j2 = i)) as [->|H2];
      rewrite ?Hi', ?Hj by done; [done|..].
    + intros Hx1 Hx2. destruct (Hother j2 x H2 Hx2). by destruct (Hsub x Hx1).
    + intros Hx1 Hx2. destruct (Hother j1 x H1 Hx1). by destruct (Hsub x Hx2).
    + apply Hex.
  - intros x. rewrite Htab', Htab. split.
    + intros [Hx|[(j & Hx) Hx']]; [exists i; by rewrite Hi'|].
      exists j. rewrite Hj; [done|]. by intros ->.
    + intros (j & Hx). destruct (decide (j = i)) as [->|Hne]; [left; by rewrite Hi' in Hx|].
      rewrite Hj in Hx by done. right. split; [eauto|]. by apply (Hother j x Hne).
  - erewrite requests_insert by done. apply log_ok_snoc with q; try done.
    + by rewrite lookup_fmap, Hi.
    + unfold justified. simpl. destruct o as [id|id]; [|done]. intros ->. apply Htab.
      by apply TryAcquire_spec in Hr as [[? _]|(_ & ? & _)].
Qed.

Context `{!Disciplined srv}.

(** A new request. *)
Lemma inv_start s i q :
  inv s → pool s !! i = None →
  inv (mkSystem (table s) (<[i := (q, sv_serve srv q)]> (pool s)) (log s)).
Proof.
  intros [Hwp Hnone Hex Htab Hlog] Hi. destruct (Hnone i Hi) as [Hheld Hnew].
  split; simpl; [| |done..|].
  - intros j q' p. destruct (decide (i = j)) as [->|Hne].
    + rewrite lookup_insert_eq. intros [= <- <-]. rewrite Hheld. apply disciplined.
    + rewrite lookup_insert_ne by done. apply Hwp.
  - intros j. rewrite lookup_insert_None. intros []. by apply Hnone.
  - intros l1 j ev l2 Heq. destruct (Hlog _ _ _ _ Heq) as [Hpre Hrest]. split; [|done].
    intros q'. rewrite fmap_insert, lookup_insert_ne; [apply Hpre|].
    intros <-. apply Hnew. rewrite Heq, fmap_app, elem_of_app. right. csimpl.
    apply list_elem_of_here.
Qed.

Lemma inv_step s s' : step s s' → inv s → inv s'.
Proof. intros []; eauto using inv_start, inv_lock, inv_env. Qed.

Lemma inv_init : inv init.
Proof.
  split; simpl; [done| |done|set_solver|].
  - split; [done|]. apply not_elem_of_nil.
  - intros l1 i ev l2 Heq. by destruct l1.
Qed.

Lemma served_inv s : served s → inv s.
Proof.
  unfold served. generalize inv_init. generalize init. intros s0 Hinv Hs.
  induction Hs as [s|s1 s2 s3 Hstep _ IH]; eauto using inv_step.
Qed.

(** ** What the invariant says of the requests *)

(** A call that changes a resource is made under its lock, which no other
    request holds, and two such calls on one resource are never in flight. *)
Lemma served_exclusive s r :
  served s →
  (∀ l1 i ev l2 q p R (o : sv_eff srv R) x,
     log s = l1 ++ (i, ev) :: l2 → pool s !! i = Some (q, p) →
     ev = Event (Other o) x → r ∈ sv_scope srv q R o → ∀ j, r ∈ held_by j l1 ↔ j = i) ∧
  (∀ i j q1 q2 R1 R2 (o1 : sv_eff srv R1) (o2 : sv_eff srv R2) k1 k2,
     pool s !! i = Some (q1, Vis (Other o1) k1) → pool s !! j = Some (q2, Vis (Other o2) k2) →
     r ∈ sv_scope srv q1 R1 o1 → r ∈ sv_scope srv q2 R2 o2 → i = j).
Proof.
  intros [Hwp _ Hex _ Hlog]%served_inv. split.
  - intros l1 i ev l2 q p R o x Heq Hi -> Hr j.
    destruct (Hlog _ _ _ _ Heq) as (Hp & Hex1 & _).
    specialize (Hp q). rewrite lookup_fmap, Hi in Hp. specialize (Hp eq_refl). simpl in Hp.
    unfold covered in Hp. rewrite list.Forall_forall in Hp. split; [|intros ->]; eauto.
  - intros i j q1 q2 R1 R2 o1 o2 k1 k2 Hi Hj H1 H2.
    destruct (Hwp _ _ _ Hi) as [Hp1 _], (Hwp _ _ _ Hj) as [Hp2 _]. simpl in Hp1, Hp2.
    unfold covered in Hp1, Hp2. rewrite list.Forall_forall in Hp1, Hp2. eauto.
Qed.

(** A call in the log is of a request in the pool. *)
Lemma served_origin s l1 i ev l2 :
  served s → log s = l1 ++ (i, ev) :: l2 → is_Some (pool s !! i).
Proof.
  intros [_ Hnone _ _ _]%served_inv Heq. destruct (pool s !! i) eqn:Hi; [done|].
  destruct (Hnone i Hi) as [_ Hnew]. destruct Hnew. rewrite Heq, fmap_app, elem_of_app.
  right. csimpl. apply list_elem_of_here.
Qed.

(** A request that has returned holds no lock. *)
Lemma served_released s :
  served s →
  (∀ i q a, pool s !! i = Some (q, Ret a) → held_by i (log s) = ∅) ∧
  ((∀ i q p, pool s !! i = Some (q, p) → ∃ a, p = Ret a) → locks (table s) = ∅).
Proof.
  intros [Hwp Hnone _ Htab _]%served_inv. split.
  - intros i q a Hi. by apply (Hwp i _ _ Hi).
  - intros Hall. apply set_eq. intros r. rewrite Htab. split; [|set_solver].
    intros (i & Hr). destruct (pool s !! i) as [[q p]|] eqn:Hi.
    + destruct (Hall i q p Hi) as [a ->]. pose proof (Hwp i _ _ Hi) as Hh. simpl in Hh.
      by rewrite Hh in Hr.
    + destruct (Hnone i Hi) as [Hh _]. by rewrite Hh in Hr.
Qed.

(** A lock is refused only when it is held. *)
Lemma served_refused s l1 i id l2 :
  served s → log s = l1 ++ (i, Event (OnLocks (TryAcquireE id)) false) :: l2 →
  ∃ j, id ∈ held_by j l1.
Proof.
  intros [_ _ _ _ Hlog]%served_inv Heq. destruct (Hlog _ _ _ _ Heq) as (_ & _ & Hj). by apply Hj.
Qed.
(** A step starts a request, or makes the next call of one. *)
Lemma step_cases s s' :
  step s s' →
  (∃ i q, pool s !! i = None ∧ table s' = table s ∧ log s' = log s ∧
     pool s' = <[i := (q, sv_serve srv q)]> (pool s)) ∨
  (∃ i q R (e : Locked (sv_eff srv) R) k r, pool s !! i = Some (q, Vis e k) ∧
     pool s' = <[i := (q, k r)]> (pool s) ∧ log s' = log s ++ [(i, Event e r)]).
Proof. intros []; [left|right|right]; repeat eexists; eauto. Qed.

(** What holds of the calls of each handler holds of the calls that are left to a
    request, and of those it has made; [P] selects the requests. *)
Lemma served_calls (P : sv_req srv → Prop)
    (φ : sv_req srv → ∀ R, Locked (sv_eff srv) R → Prop) s :
  (∀ q, P q → all_calls (φ q) (sv_serve srv q)) → served s →
  (∀ i q p, pool s !! i = Some (q, p) → P q → all_calls (φ q) p) ∧
  (∀ i ev q p, (i, ev) ∈ log s → pool s !! i = Some (q, p) → P q → φ q _ (ev_call ev)).
Proof.
  intros Hserve. unfold served. revert s. refine (rtc_ind_r _ _ _ _).
  { split; [done|]. intros i ev q p H. by apply elem_of_nil in H. }
  intros s s' Hs Hstep [Hpool Hlog].
  apply step_cases in Hstep as [(i & q & Hi & _ & El & Ep)|(i & q & R & e & k & r & Hi & Ep & El)];
    rewrite Ep, El; split.
  - intros j q' p [[-> [= <- <-]]|[_ Hj]]%lookup_insert_Some; eauto.
  - intros j ev q' p Hin [[-> [= <- <-]]|[_ Hj]]%lookup_insert_Some; [|eauto].
    apply list_elem_of_split in Hin as (l1 & l2 & Heq).
    apply (served_origin s) in Heq as [x Hx]; [|done]. congruence.
  - intros j q' p [[-> [= <- <-]]|[_ Hj]]%lookup_insert_Some HP; [|eauto].
    destruct (Hpool _ _ _ Hi HP) as [_ Hk]. by apply Hk.
  - intros j ev q' p [Hin|[= -> ->]%list_elem_of_singleton]%elem_of_app Hj HP.
    + destruct (decide (j = i)) as [->|Hne].
      * rewrite lookup_insert_eq in Hj. injection Hj as <- <-. eauto.
      * rewrite lookup_insert_ne in Hj by done. eauto.
    + rewrite lookup_insert_eq in Hj. injection Hj as <- <-. by apply (Hpool _ _ _ Hi HP).
Qed.
End system.

Arguments init {srv}.
Arguments held_by {srv} _ _.

(** ** Sequential executions *)

(** The lock table beside an environment of the other calls. *)
Definition locked_env {F W} (hd : env F W) : env (Locked F) (ResourceLocks * W) := fun R e =>
  match e in Locked _ R return ResourceLocks * W → R * (ResourceLocks * W) with
  | OnLocks o => fun s => let '(r, t) := lock_exec s.1 o in (r, (t, s.2))
  | Other o => fun s => let '(r, w) := hd _ o s.2 in (r, (s.1, w))
  end.

Section run_steps.
Context (srv : server) {W : Type} (hd : env (sv_eff srv) W).
Context (Hhd : ∀ R (o : sv_eff srv R) w, sv_ok srv R o (hd R o w).1).

(** Running one request of the pool to its end takes a sequence of steps. *)
Lemma run_steps i q (p : sys srv) s w :
  pool s !! i = Some (q, p) →
  let '(a, (t, w')) := run (locked_env hd) p (table s, w) in
  rtc (step srv) s
    (mkSystem t (<[i := (q, Ret a)]> (pool s))
       (log s ++ ((fun ev => (i, ev)) <$> run_log (locked_env hd) p (table s, w)))).
Proof.
  revert s w. induction p as [a|R e k IH]; intros s w Hi.
  - cbn [run run_log]. rewrite insert_id by done. csimpl. rewrite app_nil_r. by destruct s.
  - cbn [run run_log]. destruct e as [R o|R o]; cbn [locked_env fst snd].
    + destruct (lock_exec (table s) o) as [r t] eqn:Hr.
      specialize (IH r (mkSystem t (<[i := (q, k r)]> (pool s))
        (log s ++ [(i, Event (OnLocks o) r)])) w (lookup_insert_eq _ _ _)).
      cbn [table pool log] in IH. destruct (run (locked_env hd) (k r) (t, w)) as [a [t' w']].
      eapply rtc_l; [by eapply step_lock|].
      rewrite insert_insert_eq, <-app_assoc in IH. exact IH.
    + pose proof (Hhd R o w) as Hok. destruct (hd R o w) as [r w1].
      specialize (IH r (mkSystem (table s) (<[i := (q, k r)]> (pool s))
        (log s ++ [(i, Event (Other o) r)])) w1 (lookup_insert_eq _ _ _)).
      cbn [table pool log] in IH.
      destruct (run (locked_env hd) (k r) (table s, w1)) as [a [t' w']].
      eapply rtc_l; [by eapply step_env|].
      rewrite insert_insert_eq, <-app_assoc in IH. exact IH.
Qed.

(** The state in which one request has been served alone, to its end. *)
Definition served_alone (q : sv_req srv) (w : W) : system srv :=
  let p := sv_serve srv q in
  let '(a, (t, _)) := run (locked_env hd) p (NewResourceLocks, w) in
  mkSystem t {[ 0 := (q, Ret a) ]}
    ((fun ev => (0, ev)) <$> run_log (locked_env hd) p (NewResourceLocks, w)).

Lemma served_alone_served q w : served srv (served_alone q w).
Proof.
  set (p := sv_serve srv q).
  assert (Hi : ({[ 0 := (q, p) ]} : gmap nat _) !! 0 = Some (q, p)) by apply lookup_singleton_eq.
  pose proof (run_steps 0 q p (mkSystem NewResourceLocks {[ 0 := (q, p) ]} []) w Hi) as Hrun.
  cbn [table pool log] in Hrun. unfold served_alone. fold p.
  destruct (run (locked_env hd) p (NewResourceLocks, w)) as [a [t w']].
  rewrite insert_singleton_eq, app_nil_l in Hrun.
  eapply rtc_l; [|exact Hrun]. by apply (step_start srv 0 q init).
Qed.
End run_steps.
