(* ===== verification/Liveness.v ===== *)
(** * Requests terminate

    [Serve.v] says what can happen to concurrent requests; this file says that
    it does: none is ever blocked, and in every schedule each of them returns.
    The argument is generic in the server.  It needs only that each call it
    makes of its environment is answered, [Answering]. *)

From S2P Require Import Prelude Csi Common Prog Locking Serve.

(** ** On all paths, eventually *)

Inductive eventually {S} (R : S → S → Prop) (P : S → Prop) (s : S) : Prop :=
| eventually_now : P s → eventually R P s
| eventually_later :
    (∃ s', R s s') → (∀ s', R s s' → eventually R P s') → eventually R P s.

Section eventually.
Context {S : Type} (R : S → S → Prop).

Lemma eventually_weaken (P Q : S → Prop) s :
  (∀ s, P s → Q s) → eventually R P s → eventually R Q s.
Proof.
  intros HPQ. induction 1 as [s HP|s Hex _ IH]; [by apply eventually_now, HPQ|].
  by apply eventually_later.
Qed.

Lemma eventually_reaches (P : S → Prop) s :
  eventually R P s → ∃ s', rtc R s s' ∧ P s'.
Proof.
  induction 1 as [s HP|s [s' Hs'] _ IH]; [by exists s|].
  destruct (IH s' Hs') as (s2 & ? & ?). exists s2. split; [by eapply rtc_l|done].
Qed.

(** Where a step always leads on, a terminating relation gets to where none is
    left. *)
Lemma terminating_eventually (I P : S → Prop) :
  (∀ s, Acc (flip R) s) → (∀ s s', R s s' → I s → I s') →
  (∀ s, I s → (∃ s', R s s') ∨ P s) →
  ∀ s, I s → eventually R (fun s' => I s' ∧ P s') s.
Proof.
  intros Hacc Hinv Hprog s. induction (Hacc s) as [s _ IH]. intros HI.
  destruct (Hprog s HI) as [Hstep|HP]; [|by apply eventually_now].
  apply eventually_later; [done|]. intros s' Hs'. apply IH; eauto.
Qed.
End eventually.

(** ** Finite pools of programs *)

(** What an answer to its next call makes of a program. *)
Definition answered {E A} (p p' : prog E A) : Prop :=
  match p with
  | Ret _ => False
  | Vis e k => ∃ r, p' = k r
  end.

(** One program of the pool gets the answer to its next call. *)
Definition advance {K E A} (m m' : gmap nat (K * prog E A)) : Prop :=
  ∃ i q p p', m !! i = Some (q, p) ∧ answered p p' ∧ m' = <[i := (q, p')]> m.

(** Adding one program to a pool that comes to an end gives one that does. *)
Lemma advance_insert {K E A} i (q : K) (p : prog E A) m :
  m !! i = None → Acc (flip advance) m → Acc (flip advance) (<[i := (q, p)]> m).
Proof.
  intros Hi Hm. revert q p Hi. induction Hm as [m Hm IHm]. intros q p Hi.
  assert (Hother : ∀ (p0 : prog E A) m', advance (<[i := (q, p0)]> m) m' →
    (∃ p', answered p0 p' ∧ m' = <[i := (q, p')]> m) ∨ Acc (flip advance) m').
  { intros p0 m' (j & q' & pj & p' & Hj & Hp & ->). destruct (decide (j = i)) as [->|Hne].
    - rewrite lookup_insert_eq in Hj. simplify_eq. rewrite insert_insert_eq. eauto.
    - rewrite lookup_insert_ne in Hj by done. right. rewrite insert_insert_ne by done.
      apply IHm; [by exists j, q', pj, p'|]. by rewrite lookup_insert_ne. }
  induction p as [a|R e k IHp]; constructor; intros m' [(p' & Hp & ->)|?]%Hother;
    [done|done| |done].
  destruct Hp as [r ->]. apply IHp.
Qed.

(** Every schedule of a finite pool of programs is finite. *)
Lemma advance_terminates {K E A} (m : gmap nat (K * prog E A)) : Acc (flip advance) m.
Proof.
  induction m as [|i [q p] m Hi IH] using map_ind; [|by apply advance_insert].
  constructor. intros m' (i & q & p & p' & Hi & _). by rewrite lookup_empty in Hi.
Qed.

(** ** Servers *)

(** Every call of the environment is answered. *)
Class Answering (srv : server) : Prop :=
  answering : ∀ R (o : sv_eff srv R), ∃ r, sv_ok srv R o r.

Section liveness.
Context (srv : server).

(** A step that starts no request. *)
Definition work (s s' : system srv) : Prop := step srv s s' ∧ dom (pool s') = dom (pool s).

Definition all_returned (s : system srv) : Prop :=
  ∀ i q p, pool s !! i = Some (q, p) → ∃ a, p = Ret a.

Lemma work_advance s s' : work s s' → advance (pool s) (pool s').
Proof.
  intros [Hstep Hdom]. destruct Hstep as [i q s Hi|i q R o k s r t Hi _|i q R o k s r Hi _]; simpl in *.
  - apply not_elem_of_dom in Hi. set_solver.
  - eexists i, q, _, (k r). split_and!; [exact Hi|by exists r|done].
  - eexists i, q, _, (k r). split_and!; [exact Hi|by exists r|done].
Qed.

(** No schedule of the requests that have been started goes on for ever. *)
Lemma work_terminates s : Acc (flip work) s.
Proof.
  remember (pool s) as m eqn:Hm. revert s Hm.
  induction (advance_terminates m) as [m _ IH]. intros s ->.
  constructor. intros s' Hs'. by eapply IH; [by apply work_advance|].
Qed.

Context `{!Answering srv}.

(** No request is blocked: unless it has returned it can make its next step,
    whatever the others have locked. *)
Lemma never_blocked s i q p :
  pool s !! i = Some (q, p) →
  (∃ a, p = Ret a) ∨ ∃ s' p', work s s' ∧ answered p p' ∧ pool s' = <[i := (q, p')]> (pool s).
Proof.
  intros Hi. destruct p as [a|R e k]; [by left; exists a|right].
  assert (Hdom : ∀ p', dom (<[i := (q, p')]> (pool s)) = dom (pool s)).
  { intros p'. apply elem_of_dom_2 in Hi. rewrite dom_insert_L. set_solver. }
  destruct e as [R o|R o].
  - destruct (lock_exec (table s) o) as [r t] eqn:Hr. eexists _, (k r).
    split_and!; [split; [by eapply step_lock|apply Hdom]|by exists r|done].
  - destruct (answering R o) as [r Hr]. eexists _, (k r).
    split_and!; [split; [by eapply step_env|apply Hdom]|by exists r|done].
Qed.

Lemma work_or_returned s : (∃ s', work s s') ∨ all_returned s.
Proof.
  destruct (decide (map_Forall (fun _ x => match x.2 with Ret _ => true | _ => false end = true)
                      (pool s))) as [Hall|Hnot].
  - right. intros i q p Hi. apply Hall in Hi. destruct p; [eauto|done].
  - left. apply map_not_Forall in Hnot as (i & [q p] & Hi & Hp); [|apply _].
    destruct (never_blocked s i q p Hi) as [[a ->]|(s' & _ & Hs' & _)]; [done|eauto].
Qed.

Context `{!Disciplined srv}.

(** Whatever the order in which the started requests are served, each of them
    returns and then no lock is held. *)
Lemma served_returns s :
  served srv s →
  eventually work (fun s' => served srv s' ∧ dom (pool s') = dom (pool s) ∧
                             all_returned s' ∧ locks (table s') = ∅) s.
Proof.
  intros Hs.
  eapply eventually_weaken, terminating_eventually with
    (I := fun s' => served srv s' ∧ dom (pool s') = dom (pool s)) (P := all_returned);
    [|apply work_terminates| |intros; apply work_or_returned|done].
  - intros s' [[Hs' Hdom] Hall]. split_and!; [done..|]. by apply (served_released srv s').
  - intros s1 s2 [Hstep Hdom] [Hs1 Hdom1]. split; [by eapply rtc_r|congruence].
Qed.
End liveness.
