(* ===== verification/Bracket.v ===== *)
(** * Requests that work on one state under one lock

    The handlers of different requests interleave at every call.  Seen from a state
    that is changed only under one lock they do not: a handler works on it between
    the acquisition of the lock and the release, where the others only let it drift.
    [bracketed] cuts a handler at its lock; the section [serial] carries a sequential
    specification of the requests through every interleaving of a server
    ([Serve.v]), for any machine, any drift and any specification. *)

From S2P Require Import Prelude Csi Common Prog Locking Serve Machine.

Local Open Scope csi_scope.

(** ** Handlers cut at their lock *)

Section bracket.
Context {F : Type → Type} (v : string).

(** Calls of [F] and other locks only, then the release of [v], and the answer. *)
Fixpoint in_section {A} (p : prog (Locked F) A) : Prop :=
  match p with
  | Ret _ => False
  | Vis e k =>
    match e in Locked _ R return (R → prog (Locked F) A) → (R → Prop) → Prop with
    | OnLocks o =>
      match o in LockE R return (R → prog (Locked F) A) → (R → Prop) → Prop with
      | ReleaseE id => fun k rest => id = v ∧ (∃ a, k tt = Ret a) ∨ id ≠ v ∧ rest tt
      | TryAcquireE id => fun _ rest => id ≠ v ∧ ∀ r, rest r
      end
    | Other _ => fun _ rest => ∀ r, rest r
    end k (fun r => in_section (k r))
  end.

(** An error at once; or the lock of [v], an error when it is refused, and a
    section when it is not. *)
Definition bracketed {A} (ok : A → bool) (p : prog (Locked F) A) : Prop :=
  match p with
  | Ret a => ok a = false
  | Vis e k =>
    match e in Locked _ R return (R → prog (Locked F) A) → Prop with
    | OnLocks o =>
      match o in LockE R return (R → prog (Locked F) A) → Prop with
      | TryAcquireE id => fun k =>
          id = v ∧ (∃ a, k false = Ret a ∧ ok a = false) ∧ in_section (k true)
      | ReleaseE _ => fun _ => False
      end
    | Other _ => fun _ => False
    end k
  end.

(** Calls that leave the lock [v] alone. *)
Definition spares_lock (R : Type) (e : Locked F R) : Prop :=
  match e with
  | OnLocks (TryAcquireE id) | OnLocks (ReleaseE id) => id ≠ v
  | Other _ => True
  end.

Lemma section_bind {A B} (p : prog (Locked F) A) (f : A → prog (Locked F) B) :
  all_calls spares_lock p → (∀ a, in_section (f a)) → in_section (p ≫= f).
Proof.
  unfold all_calls. intros Hp Hf. induction p as [a|R e k IH]; [apply Hf|].
  destruct Hp as [He Hk]. destruct e as [R o|R o]; [destruct o as [id|id]|].
  - split; [done|]. intros r. apply IH, Hk, I.
  - right. split; [done|]. apply IH, Hk, I.
  - intros r. apply IH, Hk, I.
Qed.

Lemma section_map {A B} (p : prog (Locked F) A) (f : A → prog (Locked F) B) :
  in_section p → (∀ a, ∃ b, f a = Ret b) → in_section (p ≫= f).
Proof.
  intros Hp Hf. induction p as [a|R e k IH]; [done|]. destruct e as [R o|R o].
  - destruct o as [id|id]; [by destruct Hp; split; eauto|].
    destruct Hp as [[-> [a Ha]]|[Hne Hk]]; [left|right; by split; [|apply IH]].
    split; [done|]. destruct (Hf a) as [b Hb]. exists b. change (k tt ≫= f = Ret b). by rewrite Ha.
  - intros r. apply IH, Hp.
Qed.

Lemma bracketed_with_lock {A} (body : prog (Locked F) (rpc A)) :
  all_calls spares_lock body → bracketed is_ok (with_lock v body).
Proof.
  intros Hbody. split; [done|]. split; [by exists (Err codes.Aborted)|].
  change (in_section (r ← body; _ ← call (OnLocks (ReleaseE v)); mret r)).
  apply section_bind; [done|]. intros r. left. split; [done|]. by exists r.
Qed.
End bracket.

Section impl.
Context {F G : Type → Type} (h : ∀ R, F R → prog G R) (v : string).

Lemma spares_lock_lift {A} (p : prog G A) : all_calls (spares_lock v) (lift p).
Proof.
  apply (all_calls_interp (fun _ _ => True)); [by intros; apply all_calls_call|by apply all_calls_any].
Qed.

Lemma in_section_impl {A} (p : prog (Locked F) A) :
  in_section v p → in_section v (interp (locked_impl h) p).
Proof.
  induction p as [a|R e k IH]; [done|]. destruct e as [R o|R o].
  - destruct o as [id|id]; [by intros [Hne Hk]; split; eauto|].
    intros [[-> [a Ha]]|[Hne Hk]]; [left|right; by split; [|apply IH]]. split; [done|]. exists a.
    change (interp (locked_impl h) (k tt) = Ret a). by rewrite Ha.
  - intros Hk. apply (section_bind v (lift (h _ o))); [apply spares_lock_lift|].
    intros r. apply IH, Hk.
Qed.

Lemma bracketed_impl {A} (ok : A → bool) (p : prog (Locked F) A) :
  bracketed v ok p → bracketed v ok (interp (locked_impl h) p).
Proof.
  destruct p as [r|R e k]; [done|]. destruct e as [R o|R o]; [|done].
  destruct o as [id|id]; [|done]. intros (-> & (a & Hc & ?) & Hk). split; [done|]. split.
  - exists a. split; [|done]. change (interp (locked_impl h) (k false) = Ret a). by rewrite Hc.
  - by apply in_section_impl.
Qed.
End impl.

(** ** Machines with locks *)

(** The locks beside the other calls. *)
Definition with_locks {F S} (L : machine LockE S) (M : machine F S) : machine (Locked F) S :=
  fun R e s r s' =>
  match e in Locked _ R return R → Prop with
  | OnLocks o => fun r => L _ o s r s'
  | Other o => fun r => M _ o s r s'
  end r.

(** The lock table answers anything: who else holds a lock is not said here. *)
Definition any_lock {S} : machine LockE S := fun R o s r s' => s' = s.

Definition locked_machine {F S} (M : machine F S) : machine (Locked F) S := with_locks any_lock M.

(** A renaming of the calls. *)
Lemma exec_renamed {E F S A} (M : machine E S) (M' : machine F S) (f : ∀ R, E R → F R)
    (p : prog E A) s a s' :
  (∀ R e s r s', M' R (f R e) s r s' → M R e s r s') →
  exec M' (interp (fun R e => call (f R e)) p) s a s' → exec M p s a s'.
Proof.
  intros Hf Hexec. rewrite exec_interp in Hexec.
  refine (exec_refines _ M id p s a s' _ Hexec).
  intros R e s0 r s1 (r' & s2 & He & -> & ->). by apply Hf.
Qed.

Section locked.
Context {F : Type → Type} {S : Type} (M : machine F S).

Lemma sat_with_lock {A} id (body : prog (Locked F) (rpc A)) s Q :
  Q (Err codes.Aborted) s → sat (locked_machine M) body s Q →
  sat (locked_machine M) (with_lock id body) s Q.
Proof.
  intros HQ Hbody. unfold with_lock. apply sat_bind, sat_call. intros acquired s' Hs'.
  change (s' = s) in Hs'. subst s'. destruct acquired; cbn [negb]; [|by apply sat_ret].
  eapply sat_bind_mono; [exact Hbody|]. intros r s1 HQ1.
  apply sat_bind, sat_call. intros [] s2 Hs2. change (s2 = s1) in Hs2. subst s2. by apply sat_ret.
Qed.

Lemma sat_lift {A} (p : prog F A) s Q : sat M p s Q → sat (locked_machine M) (lift p) s Q.
Proof. intros Hp a s' Hexec. apply Hp. revert Hexec. unfold lift. by apply exec_renamed. Qed.
End locked.

(** ** The lock table in the state *)

Definition lock_table {S} : machine LockE (ResourceLocks * S) := fun R o x r x' =>
  lock_exec x.1 o = (r, x'.1) ∧ x'.2 = x.2.

(** A lock that is free is taken, and given back. *)
Lemma sat_with_free_lock {F S A} (N : machine F (ResourceLocks * S)) v
    (body : prog (Locked F) (rpc A)) t x (Q : rpc A → S → Prop) :
  v ∉ locks t →
  (∀ t1, locks t1 = {[v]} ∪ locks t →
     sat (with_locks lock_table N) body (t1, x) (fun r y => y.1 = t1 ∧ Q r y.2)) →
  sat (with_locks lock_table N) (with_lock v body) (t, x) (fun r y => y.1 = t ∧ Q r y.2).
Proof.
  intros Hv Hbody. unfold with_lock. apply sat_bind, sat_call. intros acquired [t1 x1] [Hl Hx].
  cbn [fst snd] in *. subst x1. apply TryAcquire_spec in Hl as [(-> & _ & Ht1)|(_ & Hin & _)]; [|done].
  cbn [negb]. eapply sat_bind_mono; [by apply Hbody|]. intros r [t2 x2] [Ht2 Hr]. cbn in Ht2. subst t2.
  apply sat_bind, sat_call. intros [] [t3 x3] [Hl3 Hx3]. cbn [fst snd] in *. subst x3.
  apply sat_ret. split; [|done]. injection Hl3 as <-. destruct t as [l].
  cbn. unfold Common.Release. rewrite Ht1. cbn in *. f_equal. set_solver.
Qed.

Lemma sat_lift_beside {F S A} (M : machine F S) (p : prog F A) (t : ResourceLocks) x Q :
  sat M p x Q →
  sat (with_locks lock_table (on_snd M)) (lift p) (t, x) (fun a y => y.1 = t ∧ Q a y.2).
Proof.
  intros Hp a y Hexec. unfold lift in Hexec. apply (exec_renamed (on_snd M)) in Hexec; [|done].
  apply exec_on_snd in Hexec as [Ht Hexec]. split; [done|]. by apply Hp.
Qed.

(** An environment beside a lock table. *)
Lemma obeys_locked_env {F S W} (hd : env F W) (α : W → S) (M : machine F S) :
  obeys hd α M → obeys (locked_env hd) (fun s => α s.2) (locked_machine M).
Proof.
  intros Hhd R [R' o|R' o] [t w]; cbn [locked_env fst snd].
  - by destruct (lock_exec t o) as [r t'].
  - pose proof (Hhd _ o w) as H. by destruct (hd _ o w) as [r w'].
Qed.

Lemma obeys_lock_table {F S W} (hd : env F W) (α : W → S) (M : machine F S) :
  obeys hd α M →
  obeys (locked_env hd) (fun s => (s.1, α s.2)) (with_locks lock_table (on_snd M)).
Proof.
  intros Hhd R [R' o|R' o] [t w]; cbn [locked_env fst snd].
  - destruct (lock_exec t o) as [r t'] eqn:Ho. by split.
  - pose proof (Hhd _ o w) as H. destruct (hd _ o w) as [r w']. by split.
Qed.

(** ** A machine along an execution *)

(** The log is one that the machine of the cloud allows, from one state to another. *)
Fixpoint follows {E S} (M : machine E S) (l : list (nat * event E)) (s s' : S) : Prop :=
  match l with
  | [] => s' = s
  | x :: l => ∃ s1, M _ (ev_call x.2) s (ev_answer x.2) s1 ∧ follows M l s1 s'
  end.

Lemma follows_snoc {E S} (M : machine E S) l i (ev : event E) s s' :
  follows M (l ++ [(i, ev)]) s s' →
  ∃ s1, follows M l s s1 ∧ M _ (ev_call ev) s1 (ev_answer ev) s'.
Proof.
  revert s. induction l as [|x l IH]; intros s; cbn.
  - intros (s1 & H & ->). eauto.
  - intros (s1 & H & (s2 & H1 & H2)%IH). eauto 6.
Qed.

Lemma follows_app {E S} (M : machine E S) l1 l2 s s1 s' :
  follows M l1 s s1 → follows M l2 s1 s' → follows M (l1 ++ l2) s s'.
Proof. revert s. induction l1 as [|x l IH]; intros s; cbn; [by intros ->|]. intros (? & ? & ?) ?. eauto. Qed.

(** An environment that obeys the machine makes such a log. *)
Lemma follows_run {E W S A} (M : machine E S) (hd : env E W) (α : W → S) (p : prog E A) i w :
  obeys hd α M →
  follows M ((fun ev => (i, ev)) <$> run_log hd p w) (α w) (α (run hd p w).2).
Proof.
  intros Hhd. revert w. induction p as [a|R e k IH]; intros w; [done|]. cbn [run run_log].
  pose proof (Hhd R e w) as He. specialize (IH (hd R e w).1 (hd R e w).2).
  destruct (hd R e w) as [r w1]. csimpl. exists (α w1). auto.
Qed.

(** The requests that have released [v], in the order of their releases. *)
Definition releaser {F} (v : string) (x : nat * event (Locked F)) : option nat :=
  match ev_call x.2 with
  | OnLocks (ReleaseE id) => if String.eqb id v then Some x.1 else None
  | _ => None
  end.

Lemma releaser_fst {F} v i (ev : event (Locked F)) k : releaser v (i, ev) = Some k → k = i.
Proof.
  destruct ev as [R e r]. unfold releaser. cbn. destruct e as [R o|R o]; [|done].
  destruct o; [done|]. destruct (String.eqb _ _); [|done]. by intros [= <-].
Qed.

Definition released {F} (v : string) (l : list (nat * event (Locked F))) : list nat :=
  omap (releaser v) l.

Lemma released_snoc {F} v (l : list (nat * event (Locked F))) x :
  released v (l ++ [x]) = released v l ++ match releaser v x with Some i => [i] | None => [] end.
Proof. unfold released. rewrite omap_app. cbn. by destruct (releaser v x). Qed.

(** ** Programs that leave a state alone *)

Section gentle.
Context {E : Type → Type} {S : Type} (M : machine E S) (drift : S → S → Prop).

(** Each call lets the state drift, whatever it is; the answers are those that the
    machine gives in some state. *)
Definition gently : protocol E unit :=
  Protocol (fun R _ e => ∀ s r s', M R e s r s' → drift s s')
           (fun R _ e r => ∃ s s', M R e s r s') (fun _ _ _ _ => tt).

Definition gentle {A} (p : prog E A) (Q : A → Prop) : Prop := wp gently p (fun a _ => Q a) tt.

Lemma gentle_vis {A R} (e : E R) (k : R → prog E A) Q :
  gentle (Vis e k) Q ↔ (∀ s r s', M R e s r s' → drift s s') ∧
                      ∀ r, (∃ s s', M R e s r s') → gentle (k r) Q.
Proof. done. Qed.

Lemma gentle_call {R} (e : E R) (Q : R → Prop) :
  (∀ s r s', M R e s r s' → drift s s' ∧ Q r) → gentle (call e) Q.
Proof.
  intros H. split; [intros s r s' HM; by eapply H|]. intros r (s & s' & HM). by destruct (H s r s' HM).
Qed.

Lemma gentle_bind {A B} (p : prog E A) (f : A → prog E B) P Q :
  gentle p P → (∀ a, P a → gentle (f a) Q) → gentle (p ≫= f) Q.
Proof.
  unfold gentle. intros Hp Hf. revert Hp. induction p as [a|R e k IH]; [apply Hf|].
  intros [He Hk]. split; [exact He|]. intros r Hr. by apply IH, Hk.
Qed.

Lemma gentle_mono {A} (p : prog E A) (P Q : A → Prop) :
  gentle p P → (∀ a, P a → Q a) → gentle p Q.
Proof.
  unfold gentle. intros Hp HQ. revert Hp. induction p as [a|R e k IH]; [apply HQ|].
  intros [He Hk]. split; [exact He|]. intros r Hr. by apply IH, Hk.
Qed.

Lemma all_calls_gentle {A} (calmly : ∀ R, E R → Prop) (p : prog E A) :
  (∀ R e s r s', calmly R e → M R e s r s' → drift s s') →
  all_calls calmly p → gentle p (fun _ => True).
Proof.
  unfold all_calls, gentle. intros Hc. induction p as [a|R e k IH]; [done|]. intros [He Hk]. split.
  - intros s r s'. by apply Hc.
  - intros r _. apply IH, Hk, I.
Qed.

Lemma gentle_sat {A} (p : prog E A) s (Q : A → Prop) :
  PreOrder drift → gentle p Q → sat M p s (fun a s' => drift s s' ∧ Q a).
Proof.
  unfold gentle. intros Hd. revert s. induction p as [a|R e k IH]; intros s.
  - intros HQ ?? [-> ->]. by split.
  - intros [He Hk] b s' (r & s1 & HM & Hexec).
    destruct (IH r s1 (Hk r ltac:(by exists s, s1)) b s' Hexec) as [Hs HQ].
    split; [|done]. etrans; [by eapply He|done].
Qed.
End gentle.

(** ** Servers whose requests work on one state under one lock *)

Section serial.
(** [ok] is false of what a request that never gets the lock is answered. *)
Context (srv : server) `{!Disciplined srv} (ok : sv_resp srv → bool).

(** The state, as [M] changes it; while nobody changes it, it drifts, at rest or not. *)
Context {S : Type} (M : machine (Locked (sv_eff srv)) S) (drift : S → S → Prop) `{!PreOrder drift}.
Context (rest : S → Prop) (Hrest : ∀ s s', rest s → drift s s' → rest s').
Context (Hlocks : ∀ R (o : LockE R) s r s', M R (OnLocks o) s r s' ↔ s' = s).
Context (Hdrift : ∀ R (o : sv_eff srv R) s r s2 s3,
  M R (Other o) s r s2 → drift s2 s3 → ∃ s1, drift s s1 ∧ M R (Other o) s1 r s3).

(** The requests that work on it, under the lock [v], and what each does, with its
    answer; one that is [settled] leaves the state at rest. *)
Context (v : string) (admitted mine : sv_req srv → Prop) (Hmine : ∀ q, Decision (mine q)).
Context (outcome : sv_req srv → S → sv_resp srv → S → Prop) (settled : sv_resp srv → Prop).
Context (Hbracket : ∀ q, admitted q → mine q → bracketed v ok (sv_serve srv q)).
Context (Houtcome : ∀ q y r s,
  admitted q → mine q → rest y → exec M (sv_serve srv q) y r s → outcome q y r s).
Context (Hsettled : ∀ q y r s, rest y → settled r → outcome q y r s → rest s).
(** A drift before a request is part of what it does. *)
Context (Habsorb : ∀ q y y1 r s, rest y → drift y y1 → outcome q y1 r s → outcome q y r s).

(** The others leave it alone. *)
Abbreviation harmless p := (gentle M drift p (fun _ => True)).
Context (Hothers : ∀ q, admitted q → ¬ mine q → harmless (sv_serve srv q)).

Abbreviation calls := (list (nat * sys_event srv)).
(** The requests of [mine] among those of a list, with their numbers. *)
Abbreviation pools := (gmap nat (sv_req srv * sys srv)).

Definition pick (m : pools) (i : nat) : option (nat * sv_req srv) :=
  match m !! i with
  | Some (q, _) => if decide (mine q) then Some (i, q) else None
  | None => None
  end.

Definition order (m : pools) (l : list nat) : list (nat * sv_req srv) :=
  omap (pick m) l.

(** Each of the requests has returned, and has done to the state, one after the
    other, what its outcome with its answer says. *)
Fixpoint took (m : pools) (os : list (nat * sv_req srv)) (x y : S) : Prop :=
  match os with
  | [] => y = x
  | (i, q) :: os => ∃ a z, m !! i = Some (q, Ret a) ∧ outcome q x a z ∧ took m os z y
  end.

Lemma took_ext (m m' : pools) os x y :
  (∀ i, i ∈ os.*1 → m' !! i = m !! i) → took m os x y → took m' os x y.
Proof.
  revert x. induction os as [|[i q] os IH]; intros x Hm; [done|]. intros (a & z & Hi & Ho & Ht).
  exists a, z. split_and!; [|done|].
  - rewrite Hm; [done|]. apply list_elem_of_here.
  - apply IH; [|done]. intros j Hj. apply Hm. by right.
Qed.

Lemma took_snoc (m : pools) os i q a x y z :
  took m os x y → m !! i = Some (q, Ret a) → outcome q y a z → took m (os ++ [(i, q)]) x z.
Proof.
  revert x. induction os as [|[j q'] os IH]; intros x; cbn.
  - intros -> Hi Ho. by exists a, z.
  - intros (b & w & Hj & Hb & Ht) Hi Ho. exists b, w. split_and!; [done..|]. by apply IH.
Qed.

Lemma order_ext (m m' : pools) l : (∀ i, i ∈ l → pick m i = pick m' i) → order m l = order m' l.
Proof.
  intros H. unfold order. induction l as [|i l IH]; [done|]. cbn.
  rewrite (H i) by apply list_elem_of_here. rewrite IH; [done|]. intros j Hj. apply H. by right.
Qed.

Lemma pick_insert (m : pools) i (q : sv_req srv) (p p' : sys srv) j : m !! i = Some (q, p) → pick (<[i := (q, p')]> m) j = pick m j.
Proof.
  intros Hi. unfold pick. destruct (decide (j = i)) as [->|Hne];
    [by rewrite lookup_insert_eq, Hi|by rewrite lookup_insert_ne].
Qed.

Lemma pick_fst (m : pools) i j q : pick m i = Some (j, q) → j = i.
Proof. unfold pick. repeat case_match; congruence. Qed.

Lemma order_subseteq (m : pools) l i : i ∈ (order m l).*1 → i ∈ l.
Proof.
  intros ([j q] & -> & (i' & Hi & Hp)%list_elem_of_omap)%list_elem_of_fmap.
  by apply pick_fst in Hp as ->.
Qed.

(** The program keeps the promise of its request from the state [s] on. *)
Definition keeps (q : sv_req srv) (y s : S) (p : sys srv) : Prop :=
  ∀ s1 r s', drift s s1 → exec M p s1 r s' → outcome q y r s'.

(** Where a request of [mine] stands: [y] is the state before the request that works
    on it, [s] the state now. *)
Inductive phase (l : calls) (y s : S) (i : nat) (q : sv_req srv) : sys srv → Prop :=
| phase_idle :
    v ∉ held_by (srv:=srv) i l → i ∉ released v l → phase l y s i q (sv_serve srv q)
| phase_busy p :
    v ∈ held_by (srv:=srv) i l → i ∉ released v l → in_section v p → keeps q y s p →
    phase l y s i q p
| phase_done r :
    v ∉ held_by (srv:=srv) i l → (i ∉ released v l → ok r = false) → phase l y s i q (Ret r).

(** Nobody works on the state. *)
Definition free (m : pools) (l : calls) : Prop :=
  ∀ i q p, m !! i = Some (q, p) → mine q → v ∉ held_by (srv:=srv) i l.

(** The requests that have released [v] have, one after the other, made [y] of the
    state; each request of [mine] is in its phase, and the others are harmless. *)
Record serial_at (m : pools) (l : calls) (x s y : S) : Prop := {
  serial_run : took m (order m (released v l)) x y;
  serial_rest : rest y;
  serial_once : NoDup (order m (released v l)).*1;
  serial_phase i q p : m !! i = Some (q, p) → mine q → phase l y s i q p;
  serial_harmless i q p : m !! i = Some (q, p) → ¬ mine q → harmless p;
  serial_free : free m l → drift y s
}.

Definition serial m l x s : Prop := ∃ y, serial_at m l x s y.

Lemma released_grows i ev (l : calls) j : j ∈ released v l → j ∈ released v (l ++ [(i, ev)]).
Proof. intros H. rewrite released_snoc. apply elem_of_app. by left. Qed.

Lemma released_other i ev (l : calls) j : j ≠ i → j ∈ released v (l ++ [(i, ev)]) ↔ j ∈ released v l.
Proof.
  intros Hne. rewrite released_snoc, elem_of_app. split; [|by left]. intros [H|H]; [done|].
  destruct (releaser v (i, ev)) as [k|] eqn:Hk; [|by apply elem_of_nil in H].
  apply releaser_fst in Hk as ->. by apply list_elem_of_singleton in H.
Qed.

Lemma held_other i ev (l : calls) j :
  j ≠ i → held_by (srv:=srv) j (l ++ [(i, ev)]) = held_by (srv:=srv) j l.
Proof. intros Hne. rewrite held_by_snoc. by rewrite decide_False by congruence. Qed.

(** What another request does leaves the phase. *)
Lemma phase_other l y s s2 i ev j q p :
  j ≠ i → drift s s2 → phase l y s j q p → phase (l ++ [(i, ev)]) y s2 j q p.
Proof.
  intros Hne Hs [Hh Hr|p' Hh Hr Hsec Hk|r Hh Hr].
  - apply phase_idle; [by rewrite held_other|by rewrite released_other].
  - apply phase_busy; [by rewrite held_other|by rewrite released_other|done|].
    intros s1 r s' Hp. apply Hk. by etrans.
  - apply phase_done; [by rewrite held_other|rewrite released_other by done; done].
Qed.

Lemma phase_not_busy l y s y2 s2 j q p :
  v ∉ held_by (srv:=srv) j l → phase l y s j q p → phase l y2 s2 j q p.
Proof. intros Hn []; [by apply phase_idle|done|by apply phase_done]. Qed.

Lemma order_app (m : pools) l1 l2 : order m (l1 ++ l2) = order m l1 ++ order m l2.
Proof. apply omap_app. Qed.

(** What a request that is not in the order does leaves it. *)
Lemma took_insert (m : pools) (l : list nat) i x y (c : sv_req srv * sys srv) :
  i ∉ (order m l).*1 → took m (order m l) x y → took (<[i := c]> m) (order m l) x y.
Proof.
  intros Hi. apply took_ext. intros j Hj. apply lookup_insert_ne. by intros ->.
Qed.

Lemma order_insert (m : pools) i (q : sv_req srv) (p p' : sys srv) l : m !! i = Some (q, p) → order (<[i := (q, p')]> m) l = order m l.
Proof. intros Hi. apply order_ext. intros j _. by eapply pick_insert. Qed.

(** A request starts. *)
Lemma serial_start (m : pools) (l : calls) x s i (q : sv_req srv) :
  m !! i = None → i ∉ released v l → held_by (srv:=srv) i l = ∅ → admitted q →
  serial m l x s → serial (<[i := (q, sv_serve srv q)]> m) l x s.
Proof.
  intros Hi Hr Hh Had [y [Hrun Hy Hnd Hph Hoth Hfree]].
  match goal with |- serial ?m' _ _ _ =>
    assert (Hord : order m' (released v l) = order m (released v l)) end.
  { apply order_ext. intros j Hj. unfold pick. by rewrite lookup_insert_ne by congruence. }
  exists y. split; rewrite ?Hord; [|done..| | |].
  - apply took_insert; [|done]. by intros ?%order_subseteq.
  - intros j q' p [[-> [= <- <-]]|[_ Hj]]%lookup_insert_Some Hv; [|eauto].
    apply phase_idle; [|done]. by rewrite Hh.
  - intros j q' p [[-> [= <- <-]]|[_ Hj]]%lookup_insert_Some Hv; [by apply Hothers|eauto].
  - intros Hf. apply Hfree. intros j q' p Hj. apply (Hf j q' p).
    rewrite lookup_insert_ne; [done|]. congruence.
Qed.

(** A request of the others makes a call. *)
Lemma serial_other (m : pools) (l : calls) x s s2 i (q : sv_req srv) (p p' : sys srv) ev :
  m !! i = Some (q, p) → ¬ mine q → drift s s2 → harmless p' →
  serial m l x s → serial (<[i := (q, p')]> m) (l ++ [(i, ev)]) x s2.
Proof.
  intros Hi Hq Hs Hp' [y [Hrun Hy Hnd Hph Hoth Hfree]].
  match goal with |- serial ?m' ?l' _ _ =>
    assert (Hord : order m' (released v l') = order m (released v l)) end.
  { rewrite (order_insert _ _ _ _ _ _ Hi), released_snoc, order_app.
    destruct (releaser v (i, ev)) as [k|] eqn:Hk; [|apply app_nil_r].
    apply releaser_fst in Hk as ->. unfold order at 2. cbn. unfold pick.
    rewrite Hi, decide_False by done. apply app_nil_r. }
  assert (Hne : ∀ j q' p'', <[i := (q, p')]> m !! j = Some (q', p'') → mine q' →
    j ≠ i ∧ m !! j = Some (q', p'')).
  { intros j q' p'' [[-> [= <- <-]]|[Hne Hj]]%lookup_insert_Some Hv; [done|]. split; [congruence|done]. }
  exists y. split; rewrite ?Hord; [|done..| | |].
  - apply took_insert; [|done]. intros ([j q'] & -> & (k & _ & Hk)%list_elem_of_omap)%list_elem_of_fmap.
    cbn in Hi. pose proof (pick_fst _ _ _ _ Hk) as ->. unfold pick in Hk. rewrite Hi in Hk.
    by rewrite decide_False in Hk.
  - intros j q' p'' Hj Hv. destruct (Hne _ _ _ Hj Hv). eapply phase_other; eauto.
  - intros j q' p'' [[-> [= <- <-]]|[_ Hj]]%lookup_insert_Some Hv; [done|eauto].
  - intros Hf. trans s; [|done]. apply Hfree. intros j q' p'' Hj Hv. destruct (decide (j = i)) as [->|Hji]; [congruence|].
    specialize (Hf j q' p''). rewrite lookup_insert_ne in Hf by done. rewrite <-(held_other i ev) by done.
    eauto.
Qed.

Section own.
Context (m : pools) (l : calls) (x s y : S).
Context (i : nat) (q : sv_req srv) (p p' : sys srv) (ev : sys_event srv) (s2 : S).
Context (Hi : m !! i = Some (q, p)) (Hv : mine q).
Context (Halone : ∀ j, j ≠ i → v ∉ held_by (srv:=srv) j l).
Context (Hs : serial_at m l x s y).

Abbreviation m' := (<[i := (q, p')]> m).
Abbreviation l' := (l ++ [(i, ev)]).

Lemma own_harmless j q' p'' : m' !! j = Some (q', p'') → ¬ mine q' → harmless p''.
Proof.
  intros [[-> [= <- <-]]|[Hne Hj]]%lookup_insert_Some Hq; [done|].
  by apply (serial_harmless _ _ _ _ _ Hs j q').
Qed.

Lemma own_phases y2 j q' p'' :
  phase l' y2 s2 i q p' → m' !! j = Some (q', p'') → mine q' → phase l' y2 s2 j q' p''.
Proof.
  intros Hp [[-> [= <- <-]]|[Hne Hj]]%lookup_insert_Some Hq; [done|].
  apply (phase_other l y2 s2 s2); [congruence|done|].
  apply (phase_not_busy l y s); [apply Halone; congruence|]. by apply (serial_phase _ _ _ _ _ Hs).
Qed.

(** The request itself makes a call, and keeps the lock it may have. *)
Lemma serial_own :
  releaser v (i, ev) = None → i ∉ released v l → phase l' y s2 i q p' → (v ∉ held_by (srv:=srv) i l' → drift y s2) →
  serial m' l' x s2.
Proof.
  intros Hr Hnew Hp Hf. pose proof own_harmless as Hoth. destruct Hs as [Hrun Hy Hnd _ _ _].
  assert (Hord : order m' (released v l') = order m (released v l)).
  { by rewrite (order_insert _ _ _ _ _ _ Hi), released_snoc, Hr, app_nil_r. }
  exists y. split; rewrite ?Hord; [|done..| |done|].
  - apply took_insert; [|done]. by intros ?%order_subseteq.
  - intros j q' p''. by apply own_phases.
  - intros Hfree. apply Hf. eapply Hfree; [apply lookup_insert_eq|done].
Qed.

(** The request itself is done. *)
Lemma serial_finish a :
  releaser v (i, ev) = Some i → i ∉ released v l → p' = Ret a → outcome q y a s2 → rest s2 →
  phase l' s2 s2 i q p' → serial m' l' x s2.
Proof.
  intros Hr Hnew Ha Hout Hrest2 Hp. pose proof own_harmless as Hoth. destruct Hs as [Hrun Hy Hnd _ _ _].
  assert (Hord : order m' (released v l') = order m (released v l) ++ [(i, q)]).
  { rewrite (order_insert _ _ _ _ _ _ Hi), released_snoc, Hr, order_app. f_equal.
    unfold order, pick. cbn. by rewrite Hi, decide_True. }
  exists s2. split; rewrite ?Hord.
  - eapply took_snoc; [|rewrite lookup_insert_eq; by rewrite Ha|done].
    apply took_insert; [|done]. by intros ?%order_subseteq.
  - done.
  - rewrite fmap_app. apply list.NoDup_app. split_and!; [done| |apply list.NoDup_singleton].
    intros j Hj%order_subseteq Hji%list_elem_of_singleton. cbn in Hji. by subst j.
  - intros j q' p''. by apply own_phases.
  - done.
  - done.
Qed.
End own.


(** ** The steps *)

Lemma held_own i (e : sys_event srv) (l : calls) :
  held_by (srv:=srv) i (l ++ [(i, e)]) = held_next _ (held_by (srv:=srv) i l) (ev_call e) (ev_answer e).
Proof. by rewrite held_by_snoc, decide_True. Qed.

Section step.
Context (m : pools) (l : calls) (x s s2 : S) (i : nat) (q : sv_req srv).
Context (R : Type) (e : Locked (sv_eff srv) R) (k : R → sys srv) (r : R).
Context (Ha : admitted q) (Hq : mine q) (Hi : m !! i = Some (q, Vis e k)).
Context (HM : M R e s r s2).
(** Two requests never hold the lock. *)
Context (Halone : ∀ j, j ≠ i → v ∈ held_by (srv:=srv) i l ∨ v ∈ held_by (srv:=srv) i (l ++ [(i, Event e r)]) →
  v ∉ held_by (srv:=srv) j l).

Abbreviation m' := (<[i := (q, k r)]> m).
Abbreviation l' := (l ++ [(i, Event e r)]).

(** Nobody works when the request takes the lock. *)
Lemma free_before p :
  m !! i = Some (q, p) → v ∉ held_by (srv:=srv) i l → v ∈ held_by (srv:=srv) i l' → free m l.
Proof.
  intros Hp Hn Hh j q' p' Hj _. destruct (decide (j = i)) as [->|Hne]; [done|]. by auto.
Qed.

(** An idle request takes the lock, or is refused. *)
Lemma step_idle y :
  sv_serve srv q = Vis e k → v ∉ held_by (srv:=srv) i l → i ∉ released v l →
  serial_at m l x s y → serial m' l' x s2.
Proof.
  intros Heq Hh Hr Hs.
  pose proof (Hbracket q Ha Hq) as Hb. pose proof (fun y r s => Houtcome q y r s Ha Hq) as Hout.
  rewrite Heq in Hb, Hout.
  pose proof (held_own i (Event e r) l) as Hheld. cbn [ev_call ev_answer] in Hheld.
  pose proof (released_snoc v l (i, Event e r)) as Hrel.
  pose proof (free_before _ Hi Hh) as Hfree. pose proof (serial_own m l x s y i q _ (k r) (Event e r) s2 Hi Hq) as Hown.
  destruct e as [R' o|R' o]; [|done]. destruct o as [id|id]; [|done].
  destruct Hb as (-> & (a & Hka & Hna) & Hsec). apply Hlocks in HM as ->.
  change (releaser v _) with (@None nat) in Hrel. rewrite app_nil_r in Hrel.
  change (held_next _ _ _ _) with (if (r : bool) then {[v]} ∪ held_by (srv:=srv) i l else held_by (srv:=srv) i l) in Hheld.
  assert (Hnew : i ∉ released v (l ++ [(i, Event (OnLocks (TryAcquireE v)) r)])) by (by rewrite Hrel).
  destruct r.
  - assert (Hin : v ∈ held_by (srv:=srv) i (l ++ [(i, Event (OnLocks (TryAcquireE v)) true)]))
      by (rewrite Hheld; set_solver).
    apply Hown; [intros j Hj; apply Halone; auto|done|done|done| |done].
    pose proof (serial_free _ _ _ _ _ Hs (Hfree Hin)) as Hys. apply phase_busy; [done..|].
    intros s1 b s' Hd Hexec. pose proof (serial_rest _ _ _ _ _ Hs) as Hy.
    assert (Hy1 : drift y s1) by (by trans s).
    apply (Habsorb q y s1); [done..|]. apply Hout; [by eapply Hrest|]. exists true, s1.
    split; [by apply Hlocks|done].
  - assert (Hout' : v ∉ held_by (srv:=srv) i (l ++ [(i, Event (OnLocks (TryAcquireE v)) false)]))
      by (by rewrite Hheld).
    destruct Hs as [Hrun Hy Hnd Hph Hoth Hf]. exists y. split.
    + rewrite (order_insert _ _ _ _ _ _ Hi), Hrel. apply took_insert; [|done].
      by intros ?%order_subseteq.
    + done.
    + by rewrite (order_insert _ _ _ _ _ _ Hi), Hrel.
    + intros j q' p' [[<- [= <- <-]]|[Hne Hj]]%lookup_insert_Some Hm.
      * rewrite Hka. by apply phase_done.
      * eapply phase_other; [congruence|done|by apply Hph].
    + intros j q' p' [[<- [= <- <-]]|[Hne Hj]]%lookup_insert_Some Hm; [done|by eapply Hoth].
    + intros Hfr. apply Hf. intros j q' p' Hj Hm. destruct (decide (j = i)) as [->|Hne]; [done|].
      rewrite <-(held_other i (Event (OnLocks (TryAcquireE v)) false)) by done.
      eapply Hfr; [|done]. by rewrite lookup_insert_ne.
Qed.

(** A request at work makes a call, and goes on. *)
Lemma step_on y :
  v ∈ held_by (srv:=srv) i l → i ∉ released v l → in_section v (k r) → keeps q y s (Vis e k) →
  v ∈ held_by (srv:=srv) i l' → releaser v (i, Event e r) = None →
  (∀ s3, drift s2 s3 → ∃ s1, drift s s1 ∧ M R e s1 r s3) →
  serial_at m l x s y → serial m' l' x s2.
Proof.
  intros Hh Hr Hsec Hk Hh' Hrel Hcomm Hs.
  assert (Hal : ∀ j, j ≠ i → v ∉ held_by (srv:=srv) j l) by auto.
  apply (serial_own m l x s y i q _ (k r) (Event e r) s2 Hi Hq Hal Hs); [done|done| |done].
  apply phase_busy; [done|by rewrite released_snoc, Hrel, app_nil_r|done|].
  intros s3 b s' Hd Hexec. destruct (Hcomm s3 Hd) as (s1 & Hd1 & HM1).
  apply (Hk s1); [done|]. exists r, s3. by split.
Qed.

(** A request at work makes a call, or releases the lock. *)
Lemma step_busy y :
  v ∈ held_by (srv:=srv) i l → i ∉ released v l → in_section v (Vis e k) → keeps q y s (Vis e k) →
  (∀ a, k r = Ret a → i ∈ released v l' → settled a) →
  serial_at m l x s y → serial m' l' x s2.
Proof.
  intros Hh Hr Hsec Hk Hokay Hs.
  pose proof (held_own i (Event e r) l) as Hheld. cbn [ev_call ev_answer] in Hheld.
  pose proof (step_on y Hh Hr) as Hon.
  assert (Hal : ∀ j, j ≠ i → v ∉ held_by (srv:=srv) j l) by auto.
  pose proof (serial_finish m l x s y i q _ (k r) (Event e r) s2 Hi Hq Hal Hs) as Hfin.
  destruct e as [R' o|R' o]; [destruct o as [id|id]|].
  - destruct Hsec as [Hne Hsec]. apply Hlocks in HM as ->. apply Hon; [done|done| |done| |done].
    + rewrite Hheld. change (v ∈ if (r : bool) then {[id]} ∪ held_by (srv:=srv) i l else held_by (srv:=srv) i l).
      destruct r; set_solver.
    + intros s3 Hd. exists s3. split; [done|]. by apply Hlocks.
  - destruct r. apply Hlocks in HM as ->. destruct Hsec as [[-> [a Hka]]|[Hne Hsec]].
    + assert (Hself : releaser v (i, Event (OnLocks (F:=sv_eff srv) (ReleaseE v)) tt) = Some i)
        by (unfold releaser; cbn; by rewrite String.eqb_refl).
      assert (Hin : i ∈ released v (l ++ [(i, Event (OnLocks (ReleaseE v)) tt)]))
        by (rewrite released_snoc, Hself; apply elem_of_app; right; apply list_elem_of_here).
      assert (Hout : outcome q y a s).
      { apply (Hk s); [done|]. exists tt, s. split; [by apply Hlocks|]. by rewrite Hka. }
      pose proof (Hsettled q y a s (serial_rest _ _ _ _ _ Hs) (Hokay a Hka Hin) Hout) as Hsr.
      apply (Hfin a); [done..|]. rewrite Hka. apply phase_done; [|done].
      rewrite Hheld. change (v ∉ held_by (srv:=srv) i l ∖ {[v]}). set_solver.
    + apply Hon; [done|done| | | |done].
      * rewrite Hheld. change (v ∈ held_by (srv:=srv) i l ∖ {[id]}). set_solver.
      * unfold releaser. cbn. apply String.eqb_neq in Hne. by rewrite Hne.
      * intros s3 Hd. exists s3. split; [done|]. by apply Hlocks.
  - apply Hon; [apply Hsec|done|by rewrite Hheld|done| |done].
    intros s3 Hd. by apply (Hdrift _ _ _ _ _ _ HM).
Qed.
End step.

Lemma serial_init x : rest x → serial ∅ [] x x.
Proof.
  intros Hx. exists x. split; [done..| | | |done]; [apply NoDup_nil_2|..];
    intros i q p H; by rewrite lookup_empty in H.
Qed.

(** ** Every execution *)

(** The requests that have had the lock and returned are settled. *)
Definition all_settled (σ : system srv) : Prop :=
  ∀ i q a, pool σ !! i = Some (q, Ret a) → mine q → i ∈ released v (log σ) → settled a.

Definition all_admitted (σ : system srv) : Prop :=
  ∀ i q p, pool σ !! i = Some (q, p) → admitted q.

Lemma serial_step σ σ' i q R (e : Locked (sv_eff srv) R) k r x s s2 :
  served srv σ' → log σ' = log σ ++ [(i, Event e r)] → pool σ' = <[i := (q, k r)]> (pool σ) →
  served srv σ → pool σ !! i = Some (q, Vis e k) → admitted q → all_settled σ' →
  M R e s r s2 → serial (pool σ) (log σ) x s → serial (pool σ') (log σ') x s2.
Proof.
  intros Hs' El Ep Hs Hi Ha Hnf HM Hser. unfold all_settled in Hnf. rewrite El, Ep in *.
  destruct (decide (mine q)) as [Hq|Hq].
  - assert (Halone : ∀ j, j ≠ i →
      v ∈ held_by (srv:=srv) i (log σ) ∨ v ∈ held_by (srv:=srv) i (log σ ++ [(i, Event e r)]) →
      v ∉ held_by (srv:=srv) j (log σ)).
    { intros j Hne Hor Hj. apply Hne. destruct Hor as [Hor|Hor].
      - by apply (inv_exclusive _ _ (served_inv _ _ Hs) j i v).
      - apply (inv_exclusive _ _ (served_inv _ _ Hs') j i v); rewrite El; [by rewrite held_other|done]. }
    destruct Hser as [y Hser]. pose proof (serial_phase _ _ _ _ _ Hser i q _ Hi Hq) as Hp.
    inversion Hp as [Hh Hr Heq|p' Hh Hr Hsec Hk Heq|a Hh Hr Heq]; subst.
    + by eapply step_idle.
    + eapply step_busy; try done. intros a Hka Hin.
      eapply (Hnf i q a); [by rewrite lookup_insert_eq, Hka|done..].
  - assert (Hvis : harmless (Vis e k)).
    { destruct Hser as [y Hser]. by apply (serial_harmless _ _ _ _ _ Hser i q). }
    destruct Hvis as [He Hk].
    eapply serial_other; [exact Hi|exact Hq|by eapply He| |done]. apply Hk. by exists s, s2.
Qed.

Lemma served_serial σ x s :
  rest x → served srv σ → all_admitted σ → all_settled σ → follows M (log σ) x s →
  serial (pool σ) (log σ) x s.
Proof.
  intros Hx Hs. unfold served in Hs. revert σ Hs s. refine (rtc_ind_r _ _ _ _).
  { intros s _ _ ->. by apply serial_init. }
  intros σ σ' Hs Hstep IH s Had Hnf Hfol.
  assert (Hs' : served srv σ') by (by eapply rtc_r).
  apply step_cases in Hstep as [(i & q & Hi & _ & El & Ep)|(i & q & R & e & k & r & Hi & Ep & El)].
  - rewrite El, Ep. rewrite El in Hfol. destruct (inv_none _ _ (served_inv _ _ Hs) i Hi) as [Hh Hn].
    apply serial_start; [done| |done| |apply IH; [| |done]].
    + intros Hr. apply Hn. unfold released in Hr. apply list_elem_of_omap in Hr as ([j ev] & Hin & Hj).
      apply releaser_fst in Hj as ->. apply list_elem_of_fmap. by exists (j, ev).
    + apply (Had i q (sv_serve srv q)). by rewrite Ep, lookup_insert_eq.
    + intros j q' p Hj. apply (Had j q' p). rewrite Ep, lookup_insert_ne; [done|congruence].
    + intros j q' a Hj Hm Hr. apply (Hnf j q' a); [|done|by rewrite El].
      rewrite Ep, lookup_insert_ne; [done|congruence].
  - rewrite El in Hfol. apply follows_snoc in Hfol as (s1 & Hfol & HM).
    eapply (serial_step σ σ' i q R e k r x s1 s); try done.
    + apply (Had i q (k r)). by rewrite Ep, lookup_insert_eq.
    + apply IH; [| |done].
      * intros j q' p Hj. destruct (decide (j = i)) as [->|Hne].
        -- rewrite Hi in Hj. injection Hj as <- <-. apply (Had i q (k r)). by rewrite Ep, lookup_insert_eq.
        -- apply (Had j q' p). by rewrite Ep, lookup_insert_ne.
      * intros j q' a Hj Hm Hr. destruct (decide (j = i)) as [->|Hne]; [congruence|].
        apply (Hnf j q' a); [by rewrite Ep, lookup_insert_ne|done|]. rewrite El. by apply released_grows.
Qed.

Lemma order_sublist (m : pools) (os : list nat) : (order m os).*1 `sublist_of` os.
Proof.
  unfold order. induction os as [|j os IH]; [done|]. cbn.
  destruct (pick m j) as [[j' q]|] eqn:Hp; [|by apply sublist_cons].
  apply pick_fst in Hp as ->. by apply sublist_skip.
Qed.

(** The requests of [mine] that have released the lock have returned, and have made
    the state, one after the other and each as its answer says; the others that
    have returned never had the lock; when nobody holds it, the state has only
    drifted since the sequential run. *)
Lemma served_serialized σ x s :
  rest x → served srv σ → all_admitted σ → all_settled σ → follows M (log σ) x s →
  let os := order (pool σ) (released v (log σ)) in
  NoDup os.*1 ∧
  (∀ i q, (i, q) ∈ os ↔
     i ∈ released v (log σ) ∧ mine q ∧ ∃ a, pool σ !! i = Some (q, Ret a)) ∧
  (∀ i q a, pool σ !! i = Some (q, Ret a) → mine q → i ∉ released v (log σ) → ok a = false) ∧
  ∃ y, took (pool σ) os x y ∧ (v ∉ locks (table σ) → drift y s).
Proof.
  intros Hx Hs Had Hnf Hfol.
  destruct (served_serial σ x s Hx Hs Had Hnf Hfol) as [y [Hrun Hy Hnd Hph _ Hfree]].
  split_and!; [done| | |].
  - intros i q. unfold order. rewrite list_elem_of_omap. unfold pick. split.
    + intros (j & Hj & Hp). repeat case_match; simplify_eq. split_and!; [done..|].
      match goal with H : pool σ !! _ = Some (_, ?p) |- _ => rename p into p0, H into Hi end.
      pose proof (Hph i q p0 Hi ltac:(done)) as Hp.
      inversion Hp as [? ? Heq|p' ? ? ? ? Heq|a ? ? Heq]; subst; [done..|]. by exists a.
    + intros (Hr & Hm & a & Hi). exists i. by rewrite Hi, decide_True.
  - intros i q a Hi Hm Hr. pose proof (Hph i q _ Hi Hm) as Hp.
    inversion Hp as [? ? Heq|p' ? ? Hsec ? Heq|a' ? Ha Heq]; subst; [|done|by apply Ha].
    pose proof (Hbracket q (Had _ _ _ Hi) Hm) as Hb. by rewrite Heq in Hb.
  - exists y. split; [done|]. intros Hl. apply Hfree. intros i q p _ _ Hh. apply Hl.
    apply (inv_table _ _ (served_inv _ _ Hs)). by exists i.
Qed.
End serial.
