(* ===== verification/Overlap.v ===== *)
(** * Two requests that overlap

    The execution in which one request takes a lock, another is refused it, and the
    first then goes on to its end: the instance, for any server, of the theorems on
    concurrent requests. *)

From S2P Require Import Prelude Csi Common Prog Locking Machine Serve Bracket.

(** What is left of a program when its first call, of the lock, is answered. *)
Definition resume {F A} (b : bool) (p : prog (Locked F) A) : prog (Locked F) A :=
  match p with
  | Vis e k =>
    match e in Locked _ R return (R → prog (Locked F) A) → prog (Locked F) A with
    | OnLocks o =>
      match o in LockE R return (R → prog (Locked F) A) → prog (Locked F) A with
      | TryAcquireE _ => fun k => k b
      | ReleaseE _ => fun _ => p
      end
    | Other _ => fun _ => p
    end k
  | Ret _ => p
  end.

Section overlap.
Context (srv : server) {W : Type} (hd : env (sv_eff srv) W) (w : W).
Context (Hhd : ∀ R (o : sv_eff srv R) w, sv_ok srv R o (hd R o w).1).
Context (v : string) (q0 q1 : sv_req srv).

(** Both requests begin with the lock. *)
Definition begins_locked (q : sv_req srv) : Prop :=
  ∃ k, sv_serve srv q = Vis (OnLocks (TryAcquireE v)) k.
Context (H0 : begins_locked q0) (H1 : begins_locked q1).

(** [q0] has the lock, [q1] has been refused it. *)
Definition overlap_table : ResourceLocks := mkResourceLocks ({[v]} ∪ ∅).

Abbreviation acquire b := (Event (OnLocks (F:=sv_eff srv) (TryAcquireE v)) b).

Definition overlap : system srv :=
  mkSystem (srv := srv) overlap_table
    (<[1%nat := (q1, resume false (sv_serve srv q1))]>
     (<[1%nat := (q1, sv_serve srv q1)]>
      (<[0%nat := (q0, resume true (sv_serve srv q0))]>
       (<[0%nat := (q0, sv_serve srv q0)]> ∅))))
    [(0%nat, acquire true); (1%nat, acquire false)].

(** Then [q0] goes on to its end. *)
Definition overlap_run : sv_resp srv * (ResourceLocks * W) :=
  run (locked_env hd) (resume true (sv_serve srv q0)) (overlap_table, w).

Definition overlap_rest : list (nat * sys_event srv) :=
  (fun ev => (0%nat, ev)) <$>
    run_log (locked_env hd) (resume true (sv_serve srv q0)) (overlap_table, w).

Definition overlap_end : system srv :=
  mkSystem (srv := srv) overlap_run.2.1 (<[0%nat := (q0, Ret overlap_run.1)]> (pool overlap))
    (log overlap ++ overlap_rest).

Lemma overlap_served : served srv overlap.
Proof.
  destruct H0 as [k0 E0], H1 as [k1 E1].
  assert (Er0 : resume true (sv_serve srv q0) = k0 true) by (by rewrite E0).
  assert (Er1 : resume false (sv_serve srv q1) = k1 false) by (by rewrite E1).
  eapply rtc_l; [by apply (step_start srv 0%nat q0)|].
  eapply rtc_l; [by eapply (step_lock srv 0%nat q0 _ (TryAcquireE v) k0);
                    [exact (f_equal (fun p => Some (q0, p)) E0)|]|].
  eapply rtc_l; [by apply (step_start srv 1%nat q1)|].
  assert (Hbusy : TryAcquire overlap_table v = (false, overlap_table)).
  { unfold TryAcquire, overlap_table. cbn [locks]. by rewrite bool_decide_true by set_solver. }
  eapply rtc_l; [eapply (step_lock srv 1%nat q1 _ (TryAcquireE v) k1);
                    [exact (f_equal (fun p => Some (q1, p)) E1)|exact Hbusy]|].
  unfold overlap. rewrite Er0, Er1. reflexivity.
Qed.

Lemma overlap_end_served : served srv overlap_end.
Proof.
  unfold served. etrans; [exact overlap_served|].
  pose proof (run_steps srv hd Hhd 0%nat q0 (resume true (sv_serve srv q0)) overlap w eq_refl) as H.
  unfold overlap_end, overlap_rest, overlap_run. change (table overlap) with overlap_table in H.
  by destruct (run (locked_env hd) _ _) as [a [t w']].
Qed.

Lemma overlap_follows {S} (M : machine (sv_eff srv) S) (α : W → S) :
  obeys hd α M → follows (locked_machine M) (log overlap_end) (α w) (α overlap_run.2.2).
Proof.
  intros HM. unfold overlap_end. cbn [log]. eapply follows_app; [by repeat eexists|].
  apply (follows_run _ (locked_env hd) (fun s : ResourceLocks * W => α s.2)).
  by apply obeys_locked_env.
Qed.

Lemma overlap_pool_0 : pool overlap_end !! 0%nat = Some (q0, Ret overlap_run.1).
Proof. apply lookup_insert_eq. Qed.

Lemma overlap_pool_1 : pool overlap_end !! 1%nat = Some (q1, resume false (sv_serve srv q1)).
Proof. unfold overlap_end. cbn [pool overlap]. by rewrite lookup_insert_ne, lookup_insert_eq. Qed.

Lemma overlap_pool i q p :
  pool overlap_end !! i = Some (q, p) →
  i = 0%nat ∧ q = q0 ∧ p = Ret overlap_run.1 ∨
  i = 1%nat ∧ q = q1 ∧ p = resume false (sv_serve srv q1).
Proof.
  intros Hi. destruct i as [|[|i]].
  - rewrite overlap_pool_0 in Hi. injection Hi as <- <-. by left.
  - rewrite overlap_pool_1 in Hi. injection Hi as <- <-. by right.
  - unfold overlap_end in Hi. cbn [pool overlap] in Hi.
    by rewrite !lookup_insert_ne, lookup_empty in Hi by done.
Qed.
End overlap.
