(* ===== verification/Driver.v ===== *)
(** * Package [driver]: disk types, storage classes and the driver's identity

    Models [pkg/disk/driver/types.go], [storageclass.go], [snapshotclass.go],
    [topology.go], [utils.go] and [driver.go].  The package variables that
    [main] fills ([common.DefaultZone], [common.DefaultResourceGroup],
    [common.FeatureGates], [common.MixDriver]) are the record [Globals]. *)

From S2P Require Import Prelude GoStd Csi Common.

Local Open Scope Z_scope.

Record Globals : Set := {
  FeatureGates : list string;
  DefaultZone : string;
  DefaultResourceGroup : string;
  MixDriver : bool
}.

(** ** Disk and instance types (types.go) *)

Definition InvalidVolumeType : Z := -1.
Definition BasicVolumeType : Z := 1.
Definition StandardVolumeType : Z := 2.
Definition DefaultVolumeType : Z := StandardVolumeType.
Definition BasicNvmeName : string := "Basic NVMe SSD".
Definition StandardNvmeName : string := "Standard NVMe SSD".

Definition VolumeTypeName : gmap Z string :=
  {[ BasicVolumeType := BasicNvmeName; StandardVolumeType := StandardNvmeName ]}.

(** [VolumeType.String]: a missing key of a Go map reads as the zero value. *)
Definition VolumeType_String (v : Z) : string := default "" (VolumeTypeName !! v).

Definition StringToType (s : string) : Z :=
  if String.eqb BasicNvmeName s then BasicVolumeType
  else if String.eqb s StandardNvmeName then StandardVolumeType
  else InvalidVolumeType.

Definition VolumeType_IsValid (v : Z) : bool := negb (is_nil (VolumeTypeName !! v)).

Definition BasicVmType : Z := 1.
Definition BasicVmName : string := "BasicVm".
Definition VmTypeName : gmap Z string := {[ BasicVmType := BasicVmName ]}.
Definition VmTypeValue : gmap string Z := {[ BasicVmName := BasicVmType ]}.

Definition DefaultVmType : Z := BasicVmType.
Definition VmType_IsValid (v : Z) : bool := negb (is_nil (VmTypeName !! v)).

(** Reserved: nothing reads it. *)
Definition VmTypeAttachPreferred : gmap Z Z := {[ BasicVmType := BasicVolumeType ]}.

Definition VolumeTypeAttachConstraint : gmap Z (list Z) :=
  {[ BasicVolumeType := [BasicVmType]; StandardVolumeType := [BasicVmType] ]}.

Definition ZEC_MAX_DISK_SIZE_BYTES : Z := 32768 * 1024 * 1024 * 1024.
Definition ZEC_MIN_DISK_SIZE_BYTES : Z := 20 * 1024 * 1024 * 1024.

Definition VolumeTypeToMinSize : gmap Z Z :=
  {[ BasicVolumeType := ZEC_MIN_DISK_SIZE_BYTES; StandardVolumeType := ZEC_MIN_DISK_SIZE_BYTES ]}.
Definition VolumeTypeToMaxSize : gmap Z Z :=
  {[ BasicVolumeType := ZEC_MAX_DISK_SIZE_BYTES; StandardVolumeType := ZEC_MAX_DISK_SIZE_BYTES ]}.

Definition DiskSingleReplicaType : Z := 1.
Definition DiskMultiReplicaType : Z := 2.
Definition DiskThreeReplicaType : Z := 3.
Definition DefaultDiskReplicaType : Z := DiskMultiReplicaType.

Definition DefaultVolumeAccessModeType : list Z :=
  [AccessMode.SINGLE_NODE_WRITER; AccessMode.SINGLE_NODE_SINGLE_WRITER].
Definition DefaultControllerServiceCapability : list Z :=
  [ControllerRPC.CREATE_DELETE_VOLUME; ControllerRPC.PUBLISH_UNPUBLISH_VOLUME;
   ControllerRPC.EXPAND_VOLUME; ControllerRPC.CREATE_DELETE_SNAPSHOT].
Definition DefaultNodeServiceCapability : list Z :=
  [NodeRPC.STAGE_UNSTAGE_VOLUME; NodeRPC.EXPAND_VOLUME; NodeRPC.GET_VOLUME_STATS].
Definition DefaultPluginCapability : list PluginCapability :=
  [PluginService PluginService.CONTROLLER_SERVICE;
   PluginVolumeExpansion PluginExpansion.ONLINE;
   PluginService PluginService.VOLUME_ACCESSIBILITY_CONSTRAINTS].

(** ** File systems (utils.go) *)

Definition IsValidFileSystemType (fs : string) : bool :=
  String.eqb fs FileSystemExt3 || String.eqb fs FileSystemExt4 || String.eqb fs FileSystemXfs.

(** ** Storage classes (storageclass.go) *)

Definition StorageClassTypeName : string := "type".
Definition StorageClassFsTypeName : string := "fsType".
Definition StorageClassZoneId : string := "zoneID".
Definition StorageClassPlaceGroupID : string := "placeGroupID".
Definition StorageClassBurstEnable : string := "burstEnable".

Record ZecStorageClass : Set := mkStorageClass {
  sc_diskType : Z;
  sc_maxSize : Z;
  sc_minSize : Z;
  sc_fsType : string;
  sc_zoneID : string;
  sc_placeGroupID : string;
  sc_burstEnable : bool
}.

Definition NewDefaultZecStorageClassFromType (diskType : Z) : option ZecStorageClass :=
  if negb (VolumeType_IsValid diskType) then None else
  Some (mkStorageClass diskType
    (default 0 (VolumeTypeToMaxSize !! diskType))
    (default 0 (VolumeTypeToMinSize !! diskType))
    DefaultFileSystem "" "" false).

(** [UpdateParmsZone] assigns to the map it ranges over; [order] is the order of
    the iteration. *)
Definition UpdateParmsZone (order : list (string * string)) (opt : gostrmap) (zoneID : string)
    : gostrmap :=
  foldl (fun m kv => if EqualFold kv.1 StorageClassZoneId then <[kv.1 := zoneID]> m else m)
        opt order.

Definition setFsType (sc : ZecStorageClass) (fs : string) : result unit ZecStorageClass :=
  if negb (IsValidFileSystemType fs) then Err tt else
  Ok (mkStorageClass (sc_diskType sc) (sc_maxSize sc) (sc_minSize sc) fs
        (sc_zoneID sc) (sc_placeGroupID sc) (sc_burstEnable sc)).

Definition setTypeSize (sc : ZecStorageClass) (maxSize minSize : Z)
    : result unit ZecStorageClass :=
  if (maxSize <? 0) || (minSize <=? 0) then Ok sc else
  if maxSize <? minSize then Err tt else
  Ok (mkStorageClass (sc_diskType sc) maxSize minSize (sc_fsType sc)
        (sc_zoneID sc) (sc_placeGroupID sc) (sc_burstEnable sc)).

Definition SetZone (sc : ZecStorageClass) (zone : string) : ZecStorageClass :=
  mkStorageClass (sc_diskType sc) (sc_maxSize sc) (sc_minSize sc) (sc_fsType sc)
    zone (sc_placeGroupID sc) (sc_burstEnable sc).

Definition SetPlaceGroupID (sc : ZecStorageClass) (placeGroupID : string) : ZecStorageClass :=
  mkStorageClass (sc_diskType sc) (sc_maxSize sc) (sc_minSize sc) (sc_fsType sc)
    (sc_zoneID sc) placeGroupID (sc_burstEnable sc).

Definition SetBurstEnable (sc : ZecStorageClass) (burstEnable : bool) : ZecStorageClass :=
  mkStorageClass (sc_diskType sc) (sc_maxSize sc) (sc_minSize sc) (sc_fsType sc)
    (sc_zoneID sc) (sc_placeGroupID sc) burstEnable.

(** The getters; [int64] of a size is the size. *)
Module sc.
Definition GetDiskType (sc : ZecStorageClass) : Z := sc_diskType sc.
Definition ConvertToDiskCategory (sc : ZecStorageClass) (vt : Z) : string := VolumeType_String vt.
Definition GetMinSizeByte (sc : ZecStorageClass) : Z := sc_minSize sc.
Definition GetMaxSizeByte (sc : ZecStorageClass) : Z := sc_maxSize sc.
Definition GetFsType (sc : ZecStorageClass) : string := sc_fsType sc.
Definition GetZone (sc : ZecStorageClass) : string := sc_zoneID sc.
Definition GetPlaceGroupID (sc : ZecStorageClass) : string := sc_placeGroupID sc.
Definition GetBurstEnable (sc : ZecStorageClass) : bool := sc_burstEnable sc.
End sc.

(** The local variables of [NewZecStorageClassFromMap] that its loop assigns. *)
Record sc_params : Set := mkParams {
  p_volType : Z;
  p_fsType : string;
  p_zoneID : string;
  p_placeGroupID : string;
  p_burstenable : string
}.

Definition sc_params_init : sc_params := mkParams (-1) "ext4" "" "" "false".

(** The [switch] of the loop body, for one key and value. *)
Definition sc_param (p : sc_params) (kv : string * string) : result unit sc_params :=
  let k := ToLower kv.1 in
  let v := kv.2 in
  if String.eqb k (ToLower StorageClassTypeName) then
    match Atoi v with
    | None => Err tt
    | Some iv => Ok (mkParams iv (p_fsType p) (p_zoneID p) (p_placeGroupID p) (p_burstenable p))
    end
  else if String.eqb k (ToLower StorageClassZoneId) then
    Ok (mkParams (p_volType p) (p_fsType p) v (p_placeGroupID p) (p_burstenable p))
  else if String.eqb k (ToLower StorageClassPlaceGroupID) then
    Ok (mkParams (p_volType p) (p_fsType p) (p_zoneID p) v (p_burstenable p))
  else if String.eqb k (ToLower StorageClassBurstEnable) then
    Ok (mkParams (p_volType p) (p_fsType p) (p_zoneID p) (p_placeGroupID p) v)
  else if String.eqb k (ToLower StorageClassFsTypeName) then
    if negb (String.eqb v "")
    then Ok (mkParams (p_volType p) v (p_zoneID p) (p_placeGroupID p) (p_burstenable p))
    else Ok p
  else Ok p.

(** The loop; [return nil, err] leaves it at the first bad disk type. *)
Fixpoint sc_loop (p : sc_params) (order : list (string * string)) : result unit sc_params :=
  match order with
  | [] => Ok p
  | kv :: rest =>
    match sc_param p kv with
    | Err e => Err e
    | Ok p' => sc_loop p' rest
    end
  end.

Definition NewZecStorageClassFromMap (g : Globals) (order : list (string * string))
    : result unit ZecStorageClass :=
  match sc_loop sc_params_init order with
  | Err e => Err e
  | Ok p =>
    let missing := String.eqb (p_zoneID p) "" || String.eqb (p_placeGroupID p) "" in
    let zoneID := if missing then DefaultZone g else p_zoneID p in
    let placeGroupID := if missing then DefaultResourceGroup g else p_placeGroupID p in
    if missing && (String.eqb zoneID "" || String.eqb placeGroupID "") then Err tt else
    let t := if p_volType p =? -1 then DefaultVolumeType else p_volType p in
    match NewDefaultZecStorageClassFromType t with
    | None => Err tt
    | Some sc =>
      match setTypeSize sc ZEC_MAX_DISK_SIZE_BYTES ZEC_MIN_DISK_SIZE_BYTES with
      | Err e => Err e
      | Ok sc =>
        match setFsType sc (p_fsType p) with
        | Err e => Err e
        | Ok sc =>
          let sc := SetPlaceGroupID (SetZone sc zoneID) placeGroupID in
          Ok (SetBurstEnable sc (String.eqb (p_burstenable p) "true"))
        end
      end
    end
  end.

Definition FormatVolumeSizeByte (sc : ZecStorageClass) (sizeByte : Z) : Z :=
  let sizeByte := if sizeByte <=? sc_minSize sc then sc_minSize sc else sizeByte in
  if sc_maxSize sc <? sizeByte then sc_maxSize sc else sizeByte.

Definition GetRequiredVolumeSizeByte (sc : ZecStorageClass) (capRange : option CapacityRange)
    : result unit Z :=
  match capRange with
  | None => Ok (sc_minSize sc)
  | Some r =>
    let requiredBytes := RequiredBytes r in
    let limitBytes := LimitBytes r in
    if (requiredBytes <? 0) || (limitBytes <? 0) then Err tt else
    if (0 <? limitBytes) && (limitBytes <? requiredBytes) then Err tt else
    let requiredBytes :=
      if requiredBytes <? sc_minSize sc then sc_minSize sc else requiredBytes in
    let actualBytes := GibToByte (ByteCeilToGib requiredBytes) in
    if sc_maxSize sc <? actualBytes then Err tt else
    if (0 <? limitBytes) && (limitBytes <? actualBytes) then Err tt else
    Ok actualBytes
  end.

(** ** Snapshot classes (snapshotclass.go) *)

Definition SnapshotClassTagsName : string := "tags".

Record ZecSnapshotClass : Set := { ss_tags : list string }.

Definition NewDefaultZecSnapshotClass : ZecSnapshotClass := {| ss_tags := [] |}.
Definition GetTags (sc : ZecSnapshotClass) : list string := ss_tags sc.
Definition SetTags (sc : ZecSnapshotClass) (tags : list string) : ZecSnapshotClass := {| ss_tags := tags |}.

Definition NewZecSnapshotClassFromMap (order : list (string * string)) : ZecSnapshotClass :=
  SetTags NewDefaultZecSnapshotClass (foldl (fun tags kv =>
    if String.eqb (ToLower kv.1) SnapshotClassTagsName
    then if 0 <? len kv.2 then Split (RemoveAll kv.2 " "%char) ","%char else tags
    else tags) [] order).

(** ** Topologies (topology.go) *)

Record Topology : Set := mkTopology { zoneId : string; vmtp : Z }.

Definition NewTopology (zoneid : string) (vt : Z) : Topology := mkTopology zoneid vt.
Definition Topology_GetZone (t : Topology) : string := zoneId t.
Definition Topology_GetVmType (t : Topology) : Z := vmtp t.
Definition Topology_SetZone (t : Topology) (zoneid : string) : Topology := mkTopology zoneid (vmtp t).
Definition Topology_SetVmType (t : Topology) (vt : Z) : Topology := mkTopology (zoneId t) vt.

(** ** The driver (driver.go) *)

(** A capability object is its enumeration value. *)
Record DiskDriver : Type := mkDiskDriver {
  d_name : string;
  d_version : string;
  d_nodeId : string;
  d_zoneId : string;
  d_maxVolume : Z;
  d_volumeCap : list Z;
  d_controllerCap : list Z;
  d_nodeCap : list Z;
  d_pluginCap : list PluginCapability
}.

Record InitDiskDriverInput : Type := {
  in_Name : string;
  in_Version : string;
  in_NodeId : string;
  in_ZoneId : string;
  in_MaxVolume : Z;
  in_VolumeCap : list Z;
  in_ControllerCap : list Z;
  in_NodeCap : list Z;
  in_PluginCap : list PluginCapability
}.

Definition GetDiskDriver : DiskDriver := mkDiskDriver "" "" "" "" 0 [] [] [] [].

Definition InitDiskDriver (d : DiskDriver) (input : option InitDiskDriverInput) : DiskDriver :=
  match input with
  | None => d
  | Some i =>
    mkDiskDriver (in_Name i) (in_Version i) (in_NodeId i) (in_ZoneId i) (in_MaxVolume i)
      (in_VolumeCap i) (in_ControllerCap i) (in_NodeCap i) (in_PluginCap i)
  end.

Definition ValidateControllerServiceRequest (d : DiskDriver) (c : Z) : bool :=
  if c =? ControllerRPC.UNKNOWN then true else
  existsb (fun cap => c =? cap) (d_controllerCap d).

Definition ValidateNodeServiceRequest (d : DiskDriver) (c : Z) : bool :=
  if c =? NodeRPC.UNKNOWN then true else
  existsb (fun cap => c =? cap) (d_nodeCap d).

Definition ValidateVolumeAccessMode (d : DiskDriver) (c : Z) : bool :=
  existsb (fun mode => c =? mode) (d_volumeCap d).

Definition ValidateVolumeCapability (d : DiskDriver) (cap : VolumeCapability) : bool :=
  ValidateVolumeAccessMode d (GetMode cap).

Fixpoint ValidateVolumeCapabilities (d : DiskDriver) (caps : list VolumeCapability) : bool :=
  match caps with
  | [] => true
  | cap :: rest =>
    if negb (ValidateVolumeAccessMode d (GetMode cap)) then false
    else ValidateVolumeCapabilities d rest
  end.

Definition ValidatePluginCapabilityService (d : DiskDriver) (cap : Z) : bool :=
  existsb (fun v => match v with PluginService t => t =? cap | _ => false end) (d_pluginCap d).

Module drv.
Definition GetName (d : DiskDriver) : string := d_name d.
Definition GetVersion (d : DiskDriver) : string := d_version d.
Definition GetNodeId (d : DiskDriver) : string := d_nodeId d.
Definition GetNodeZone (d : DiskDriver) : string := d_zoneId d.
Definition GetMaxVolumePerNode (d : DiskDriver) : Z := d_maxVolume d.
Definition GetControllerCapability (d : DiskDriver) : list Z := d_controllerCap d.
Definition GetNodeCapability (d : DiskDriver) : list Z := d_nodeCap d.
Definition GetPluginCapability (d : DiskDriver) : list PluginCapability := d_pluginCap d.
Definition GetVolumeCapability (d : DiskDriver) : list Z := d_volumeCap d.
End drv.

Definition GetTopologyZoneKey (d : DiskDriver) : string := "topology." +:+ d_name d +:+ "/zone".
Definition GetTopologyVmTypeKey (d : DiskDriver) : string :=
  "topology." +:+ d_name d +:+ "/Vm-type".

(** ** Lemmas *)

Lemma VolumeType_IsValid_iff v :
  VolumeType_IsValid v = true ↔ v = BasicVolumeType ∨ v = StandardVolumeType.
Proof.
  unfold VolumeType_IsValid, VolumeTypeName. split.
  - destruct (decide (v = BasicVolumeType)) as [->|?]; [by left|].
    destruct (decide (v = StandardVolumeType)) as [->|?]; [by right|].
    by rewrite lookup_insert_ne, lookup_singleton_ne by done.
  - by intros [-> | ->].
Qed.

Lemma StringToType_String v :
  VolumeType_IsValid v = true → StringToType (VolumeType_String v) = v.
Proof. by intros [-> | ->]%VolumeType_IsValid_iff. Qed.

Lemma NewDefault_Some v sc :
  NewDefaultZecStorageClassFromType v = Some sc →
  VolumeType_IsValid v = true ∧ sc_diskType sc = v ∧
  sc_minSize sc = ZEC_MIN_DISK_SIZE_BYTES ∧ sc_maxSize sc = ZEC_MAX_DISK_SIZE_BYTES.
Proof.
  unfold NewDefaultZecStorageClassFromType. destruct (VolumeType_IsValid v) eqn:Hv; [|done].
  apply VolumeType_IsValid_iff in Hv as Hv'. intros [= <-]. simpl.
  by destruct Hv' as [-> | ->].
Qed.

(** What every storage class the driver builds satisfies. *)
Definition sc_wf (sc : ZecStorageClass) : Prop :=
  VolumeType_IsValid (sc_diskType sc) = true ∧
  sc_minSize sc = ZEC_MIN_DISK_SIZE_BYTES ∧ sc_maxSize sc = ZEC_MAX_DISK_SIZE_BYTES.

Lemma NewDefault_wf v sc : NewDefaultZecStorageClassFromType v = Some sc → sc_wf sc.
Proof. intros (? & <- & ? & ?)%NewDefault_Some. by split_and!. Qed.

Lemma NewZecStorageClassFromMap_Ok g order sc :
  NewZecStorageClassFromMap g order = Ok sc →
  ∃ p, sc_loop sc_params_init order = Ok p ∧ sc_wf sc ∧
    sc_diskType sc = (if p_volType p =? -1 then DefaultVolumeType else p_volType p) ∧
    sc_fsType sc = p_fsType p ∧ IsValidFileSystemType (sc_fsType sc) = true ∧
    sc_burstEnable sc = String.eqb (p_burstenable p) "true" ∧
    (if String.eqb (p_zoneID p) "" || String.eqb (p_placeGroupID p) ""
     then sc_zoneID sc = DefaultZone g ∧ sc_placeGroupID sc = DefaultResourceGroup g
     else sc_zoneID sc = p_zoneID p ∧ sc_placeGroupID sc = p_placeGroupID p) ∧
    sc_zoneID sc ≠ "" ∧ sc_placeGroupID sc ≠ "".
Proof.
  unfold NewZecStorageClassFromMap.
  destruct (sc_loop sc_params_init order) as [p|] eqn:Hp; [|done].
  destruct (_ && _) eqn:Hmiss; [done|].
  destruct (NewDefaultZecStorageClassFromType _) as [sc0|] eqn:Hnew; [|done].
  apply NewDefault_Some in Hnew as (Hv & Ht & Hmin & Hmax).
  unfold setTypeSize. simpl.
  unfold setFsType. simpl. destruct (IsValidFileSystemType (p_fsType p)) eqn:Hfs; [|done].
  intros [= <-]. exists p. simpl.
  split_and!; try done; [by split_and!; simpl; [rewrite Ht|..]|..];
    destruct (String.eqb_spec (p_zoneID p) ""), (String.eqb_spec (p_placeGroupID p) "");
    simpl in *; try done;
    apply orb_false_iff in Hmiss as [?%String.eqb_neq ?%String.eqb_neq]; done.
Qed.

(** What a map says of a name: the value at the key that is the name up to case. *)
Definition value_of (name : string) (order : list (string * string)) : option string :=
  snd <$> find (fun kv => String.eqb (ToLower kv.1) name) order.

(** No two keys are the same up to case. *)
Abbreviation clear_order order := (NoDup ((fun kv : string * string => ToLower kv.1) <$> order)).

(** The variables of the loop, read off the map. *)
Definition said_from (p : sc_params) (order : list (string * string)) : result unit sc_params :=
  match from_option Atoi (Some (p_volType p)) (value_of "type" order) with
  | None => Err tt
  | Some t => Ok (mkParams t
      (match value_of "fstype" order with
       | Some fs => if String.eqb fs "" then p_fsType p else fs
       | None => p_fsType p
       end)
      (default (p_zoneID p) (value_of "zoneid" order))
      (default (p_placeGroupID p) (value_of "placegroupid" order))
      (default (p_burstenable p) (value_of "burstenable" order)))
  end.

Lemma value_of_cons name kv order :
  value_of name (kv :: order) = if String.eqb (ToLower kv.1) name then Some kv.2 else value_of name order.
Proof. unfold value_of. cbn [find]. by destruct (String.eqb _ _). Qed.

Lemma value_of_none name order :
  name ∉ ((fun kv : string * string => ToLower kv.1) <$> order) → value_of name order = None.
Proof.
  induction order as [|kv order IH]; [done|]. csimpl. rewrite value_of_cons, not_elem_of_cons.
  intros [Hne Hn]. rewrite (proj2 (String.eqb_neq _ _) (not_eq_sym Hne)). by apply IH.
Qed.

Lemma sc_loop_said p order : clear_order order → sc_loop p order = said_from p order.
Proof.
  revert p. induction order as [|[k v] order IH]; intros [t fs z gr b] Hnd; [done|].
  csimpl in Hnd. apply list.NoDup_cons in Hnd as [Hk Hnd]. apply value_of_none in Hk.
  cbn [sc_loop]. unfold sc_param, said_from. cbn [fst snd] in *. rewrite !value_of_cons. cbn [fst snd].
  change (ToLower StorageClassTypeName) with "type". change (ToLower StorageClassZoneId) with "zoneid".
  change (ToLower StorageClassPlaceGroupID) with "placegroupid".
  change (ToLower StorageClassBurstEnable) with "burstenable".
  change (ToLower StorageClassFsTypeName) with "fstype".
  cbn [from_option].
  repeat match goal with
  | |- context [if String.eqb (ToLower k) ?n then _ else _] =>
    destruct (String.eqb_spec (ToLower k) n) as [Heq|]; [rewrite Heq in *|]
  end; cbn [String.eqb Ascii.eqb Bool.eqb andb negb from_option] in *; try (destruct (Atoi v); [|done]);
    try destruct (String.eqb v ""); cbn [negb]; rewrite ?IH by done; unfold said_from; cbn -[value_of Atoi];
    by rewrite ?Hk.
Qed.

(** What is asked for, with the documented defaults: the type 2 when no type or
    -1 is given, ext4 when no file system is given. *)
Definition asked_type (order : list (string * string)) : option Z :=
  match value_of "type" order with
  | None => Some 2
  | Some v => (fun t => if t =? -1 then 2 else t) <$> Atoi v
  end.

Definition asked_fs (order : list (string * string)) : string :=
  match value_of "fstype" order with
  | Some fs => if String.eqb fs "" then "ext4" else fs
  | None => "ext4"
  end.

Definition asked_zone (order : list (string * string)) : string := default "" (value_of "zoneid" order).
Definition asked_group (order : list (string * string)) : string :=
  default "" (value_of "placegroupid" order).

Lemma IsValidFileSystemType_elem fs :
  IsValidFileSystemType fs = true ↔ fs ∈ ["ext3"; "ext4"; "xfs"].
Proof.
  unfold IsValidFileSystemType. rewrite !orb_true_iff, !String.eqb_eq, !elem_of_cons, elem_of_nil.
  unfold FileSystemExt3, FileSystemExt4, FileSystemXfs. tauto.
Qed.

Lemma sc_loop_asked order :
  clear_order order →
  match sc_loop sc_params_init order with
  | Ok p =>
    asked_type order = Some (if p_volType p =? -1 then DefaultVolumeType else p_volType p) ∧
    asked_fs order = p_fsType p ∧ asked_zone order = p_zoneID p ∧
    asked_group order = p_placeGroupID p ∧
    p_burstenable p = default "false" (value_of "burstenable" order)
  | Err _ => asked_type order = None
  end.
Proof.
  intros Hc. rewrite (sc_loop_said _ _ Hc). unfold said_from, asked_type, asked_fs, asked_zone, asked_group.
  destruct (value_of "type" order) as [v|]; cbn [from_option]; [|by split_and!].
  by destruct (Atoi v) as [t|]; [split_and!|].
Qed.

(** Two keys that differ under [ToLower] set different variables. *)
Lemma sc_param_comm p x y :
  ToLower x.1 ≠ ToLower y.1 →
  match sc_param p x with Ok p' => sc_param p' y | Err e => Err e end =
  match sc_param p y with Ok p' => sc_param p' x | Err e => Err e end.
Proof.
  destruct x as [kx vx], y as [ky vy]. unfold sc_param. simpl. intros Hne.
  repeat match goal with
  | |- context [String.eqb ?a ?b] => destruct (String.eqb_spec a b); simpl; try congruence
  | |- context [Atoi ?v] => destruct (Atoi v); simpl; try congruence
  end.
Qed.

Lemma sc_loop_perm p l1 l2 :
  l1 ≡ₚ l2 → NoDup ((fun kv => ToLower kv.1) <$> l1) → sc_loop p l1 = sc_loop p l2.
Proof.
  intros Hp. revert p. induction Hp as [|x l1 l2 _ IH|x y l|l1 l2 l3 Hp1 IH1 _ IH2]; intros p Hnd.
  - done.
  - simpl. csimpl in Hnd. apply list.NoDup_cons in Hnd as [_ Hnd].
    destruct (sc_param p x); auto.
  - csimpl in Hnd. apply list.NoDup_cons in Hnd as [Hx _].
    assert (ToLower y.1 ≠ ToLower x.1) as Hne by set_solver.
    pose proof (sc_param_comm p y x Hne) as Hc. simpl.
    destruct (sc_param p y) as [py|], (sc_param p x) as [px|]; try done.
    + destruct (sc_param py x), (sc_param px y); by simplify_eq.
    + by destruct (sc_param py x); simplify_eq.
    + by destruct (sc_param px y); simplify_eq.
  - rewrite IH1 by done. apply IH2. by rewrite <-Hp1.
Qed.

Lemma existsb_eqb_elem (z : Z) l : existsb (fun x => z =? x) l = true ↔ z ∈ l.
Proof.
  rewrite existsb_exists. setoid_rewrite Z.eqb_eq. setoid_rewrite <-list_elem_of_In.
  split; [by intros (? & ? & ->)|eauto].
Qed.

Lemma ValidateVolumeCapabilities_true d caps :
  ValidateVolumeCapabilities d caps = true ↔ ∀ c, c ∈ caps → GetMode c ∈ d_volumeCap d.
Proof.
  induction caps as [|c caps IH]; simpl; [by split; [intros _ c []%not_elem_of_nil|]|].
  unfold ValidateVolumeAccessMode at 1. pose proof (existsb_eqb_elem (GetMode c) (d_volumeCap d)) as Hc.
  destruct (existsb _ _); simpl.
  - rewrite IH. setoid_rewrite elem_of_cons. naive_solver.
  - split; [done|]. intros Hall. apply Hc, Hall. left.
Qed.

#[export] Hint Resolve NewDefault_wf StringToType_String : csi.

(** ** Properties *)

(** The sizes a storage class can give to a request: whole GiB between its
    bounds that satisfy the request's range. *)
Definition admissible (sc : ZecStorageClass) (r : CapacityRange) (n : Z) : Prop :=
  (∃ g, n = g * Gib) ∧ sc_minSize sc <= n <= sc_maxSize sc ∧
  RequiredBytes r <= n ∧ (0 < LimitBytes r → n <= LimitBytes r).

(** The least GiB multiple that the code computes. *)
Lemma required_least sc r :
  sc_wf sc → is_int64 (RequiredBytes r) → RequiredBytes r <= 2 ^ 63 - Gib →
  let n := Z.max (RequiredBytes r) (sc_minSize sc) in
  let a := GibToByte (ByteCeilToGib n) in
  (∃ g, a = g * Gib) ∧ n <= a ∧ ∀ g, n <= g * Gib → a <= g * Gib.
Proof.
  intros (_ & Hmin & _) Hr Hsmall n a. subst n a. rewrite Hmin.
  change ZEC_MIN_DISK_SIZE_BYTES with 21474836480.
  pose proof (ByteCeilToGib_bounds (Z.max (RequiredBytes r) 21474836480) ltac:(gib)) as Hb.
  simpl in Hb. rewrite GibToByte_small by gib.
  split_and!; [eauto|gib|intros; gib; nia].
Qed.

Lemma GetRequired_eq sc r :
  sc_wf sc → 0 <= RequiredBytes r → 0 <= LimitBytes r →
  GetRequiredVolumeSizeByte sc (Some r) =
  (if (0 <? LimitBytes r) && (LimitBytes r <? RequiredBytes r) then Err tt else
   let a := GibToByte (ByteCeilToGib (Z.max (RequiredBytes r) (sc_minSize sc))) in
   if sc_maxSize sc <? a then Err tt else
   if (0 <? LimitBytes r) && (LimitBytes r <? a) then Err tt else Ok a).
Proof.
  intros _ H1 H2. unfold GetRequiredVolumeSizeByte.
  rewrite (proj2 (Z.ltb_ge _ _) H1), (proj2 (Z.ltb_ge _ _) H2). simpl.
  destruct (Z.ltb_spec (RequiredBytes r) (sc_minSize sc)).
  - by rewrite Z.max_r by lia.
  - by rewrite Z.max_l by lia.
Qed.

Lemma GetRequired_correct sc r :
  sc_wf sc → is_int64 (RequiredBytes r) → is_int64 (LimitBytes r) →
  RequiredBytes r <= 2 ^ 63 - Gib →
  match GetRequiredVolumeSizeByte sc (Some r) with
  | Ok n => 0 <= RequiredBytes r ∧ 0 <= LimitBytes r ∧
            admissible sc r n ∧ ∀ m, admissible sc r m → n <= m
  | Err _ => RequiredBytes r < 0 ∨ LimitBytes r < 0 ∨ ∀ m, ¬ admissible sc r m
  end.
Proof.
  intros Hsc Hr Hl Hsmall.
  destruct (decide (RequiredBytes r < 0)) as [H1|H1]; [|destruct (decide (LimitBytes r < 0)) as [H2|H2]].
  1,2: assert (Hneg : (RequiredBytes r <? 0) || (LimitBytes r <? 0) = true) by lia;
       unfold GetRequiredVolumeSizeByte; rewrite Hneg; tauto.
  rewrite GetRequired_eq by (done || lia).
  destruct (required_least sc r Hsc Hr Hsmall) as ((g & Hg) & Hge & Hleast).
  assert (Hno : ∀ m, admissible sc r m → GibToByte (ByteCeilToGib (Z.max (RequiredBytes r) (sc_minSize sc))) <= m).
  { intros m ((g' & ->) & ? & ? & _). apply Hleast. lia. }
  simpl in *. revert Hg Hge Hno. generalize (GibToByte (ByteCeilToGib (Z.max (RequiredBytes r) (sc_minSize sc)))).
  intros a Hg Hge Hno. repeat case_match; simplify_eq;
    first [ right; right; intros m Hm; specialize (Hno m Hm); destruct Hm as (_ & ? & ? & ?); lia
          | split; [lia|]; split; [lia|]; split; [split_and!; [by eauto|lia..]|exact Hno] ].
Qed.


(** A size that [GetRequiredVolumeSizeByte] returns is admissible and survives the
    round trip through GiB. *)
Lemma GetRequired_Ok sc r n :
  sc_wf sc → is_int64 (RequiredBytes r) → is_int64 (LimitBytes r) →
  RequiredBytes r <= 2 ^ 63 - Gib → GetRequiredVolumeSizeByte sc (Some r) = Ok n →
  admissible sc r n ∧ GibToByte (ByteCeilToGib n) = n.
Proof.
  intros Hsc Hr Hl Hsmall Hn. pose proof (GetRequired_correct sc r Hsc Hr Hl Hsmall) as Hspec.
  rewrite Hn in Hspec. destruct Hspec as (_ & _ & Had & _). split; [done|].
  destruct Had as ((gb & ->) & [Hlo Hhi] & _), Hsc as (_ & Hmin & Hmax).
  rewrite Hmin in Hlo. rewrite Hmax in Hhi. revert Hlo Hhi.
  change ZEC_MIN_DISK_SIZE_BYTES with 21474836480.
  change ZEC_MAX_DISK_SIZE_BYTES with 35184372088832. intros Hlo Hhi.
  rewrite ByteCeilToGib_aligned, GibToByte_small by gib. done.
Qed.

(** C20: For every request of at most 2^63 - 2^30 bytes,
    [GetRequiredVolumeSizeByte] returns the least whole number of GiB that the
    storage class and the request's range admit; it fails exactly when the required
    bytes or the limit are negative or no size is admitted. *)
Theorem GetRequiredVolumeSizeByte_spec (sc : ZecStorageClass) (r : CapacityRange) :
  sc_wf sc → is_int64 (RequiredBytes r) → is_int64 (LimitBytes r) →
  RequiredBytes r <= 2 ^ 63 - Gib →
  match GetRequiredVolumeSizeByte sc (Some r) with
  | Ok n => 0 <= RequiredBytes r ∧ 0 <= LimitBytes r ∧
            admissible sc r n ∧ ∀ m, admissible sc r m → n <= m
  | Err _ => RequiredBytes r < 0 ∨ LimitBytes r < 0 ∨ ∀ m, ¬ admissible sc r m
  end.
Proof. apply GetRequired_correct. Qed.

Lemma GetRequiredVolumeSizeByte_spec_witness :
  admissible {| sc_diskType := 1; sc_maxSize := ZEC_MAX_DISK_SIZE_BYTES;
                sc_minSize := ZEC_MIN_DISK_SIZE_BYTES; sc_fsType := "ext4"; sc_zoneID := "z";
                sc_placeGroupID := "g"; sc_burstEnable := false |}
             {| RequiredBytes := 21474836481; LimitBytes := 0 |} 22548578304.
Proof.
  refine (proj1 (proj2 (proj2 (GetRequiredVolumeSizeByte_spec
    {| sc_diskType := 1; sc_maxSize := ZEC_MAX_DISK_SIZE_BYTES;
       sc_minSize := ZEC_MIN_DISK_SIZE_BYTES; sc_fsType := "ext4"; sc_zoneID := "z";
       sc_placeGroupID := "g"; sc_burstEnable := false |}
    {| RequiredBytes := 21474836481; LimitBytes := 0 |} _ _ _ _))));
    [by split_and!|vm_compute; split; discriminate..|vm_compute; discriminate].
Defined.

Lemma GetRequired_overflow sc r :
  sc_wf sc → 2 ^ 63 - Gib < RequiredBytes r <= MaxInt64 →
  LimitBytes r = 0 ∨ RequiredBytes r <= LimitBytes r →
  GetRequiredVolumeSizeByte sc (Some r) = Ok (- 2 ^ 63).
Proof.
  intros Hsc Hr Hl. rewrite GetRequired_eq by (done || gib).
  destruct Hsc as (_ & Hmin & Hmax).
  pose proof (ByteCeilToGib_bounds (RequiredBytes r) ltac:(gib)) as Hb. simpl in Hb.
  rewrite Z.max_l by (rewrite Hmin; change ZEC_MIN_DISK_SIZE_BYTES with 21474836480; gib).
  assert (ByteCeilToGib (RequiredBytes r) = 8589934592) as -> by gib.
  cbv zeta. rewrite Hmax. change (GibToByte 8589934592) with (- 2 ^ 63).
  rewrite (proj2 (Z.ltb_ge ZEC_MAX_DISK_SIZE_BYTES (- 2 ^ 63))) by done.
  assert (Hlim : (0 <? LimitBytes r) && (LimitBytes r <? RequiredBytes r) = false) by lia.
  rewrite Hlim. simpl. by rewrite (proj2 (Z.ltb_ge (LimitBytes r) _)), andb_false_r by gib.
Qed.

(** Above 2^63 - 2^30 required bytes the size in bytes overflows:
    [GetRequiredVolumeSizeByte] then succeeds with -2^63, less than what is
    required and less than the minimum size, whatever limit the request sets. *)
Theorem GetRequiredVolumeSizeByte_overflow (sc : ZecStorageClass) (r : CapacityRange) :
  sc_wf sc → 2 ^ 63 - Gib < RequiredBytes r <= MaxInt64 →
  LimitBytes r = 0 ∨ RequiredBytes r <= LimitBytes r →
  GetRequiredVolumeSizeByte sc (Some r) = Ok (- 2 ^ 63).
Proof. apply GetRequired_overflow. Qed.

Lemma GetRequiredVolumeSizeByte_overflow_witness :
  match NewDefaultZecStorageClassFromType BasicVolumeType with
  | Some sc => GetRequiredVolumeSizeByte sc
                 (Some {| RequiredBytes := MaxInt64; LimitBytes := MaxInt64 |}) = Ok (- 2 ^ 63)
  | None => False
  end.
Proof.
  apply GetRequiredVolumeSizeByte_overflow; [by split_and!|vm_compute; by split|by right].
Defined.

(** C37: [NewZecStorageClassFromMap], in terms of the values at the keys of the
    map (compared without their case; no two keys are the same up to case).  It
    builds a class exactly when the type asked for (2 when none or -1 is given)
    is 1 or 2, the file system asked for (ext4 when none or "" is given) is ext3,
    ext4 or xfs, and either the map sets both a zone and a group or the driver
    has both defaults.  The class has that type, that file system, sizes between
    20 GiB and 32768 GiB, and bursts exactly when the map says "true".  The zone
    and group are the map's when it sets both; when one of them is missing, both
    are the driver's defaults, the one that was set included. *)
Theorem NewZecStorageClassFromMap_result (g : Globals) (order : list (string * string)) :
  clear_order order →
  match NewZecStorageClassFromMap g order with
  | Ok sc =>
    asked_type order = Some (sc_diskType sc) ∧ sc_diskType sc ∈ [1; 2] ∧
    sc_fsType sc = asked_fs order ∧ sc_fsType sc ∈ ["ext3"; "ext4"; "xfs"] ∧
    sc_minSize sc = 20 * 2 ^ 30 ∧ sc_maxSize sc = 32768 * 2 ^ 30 ∧
    sc_burstEnable sc = bool_decide (value_of "burstenable" order = Some "true") ∧
    sc_zoneID sc ≠ "" ∧ sc_placeGroupID sc ≠ "" ∧
    (asked_zone order ≠ "" ∧ asked_group order ≠ "" →
     sc_zoneID sc = asked_zone order ∧ sc_placeGroupID sc = asked_group order) ∧
    (asked_zone order = "" ∨ asked_group order = "" →
     sc_zoneID sc = DefaultZone g ∧ sc_placeGroupID sc = DefaultResourceGroup g)
  | Err _ =>
    (asked_type order ≠ Some 1 ∧ asked_type order ≠ Some 2) ∨
    asked_fs order ∉ ["ext3"; "ext4"; "xfs"] ∨
    ((asked_zone order = "" ∨ asked_group order = "") ∧
     (DefaultZone g = "" ∨ DefaultResourceGroup g = ""))
  end.
Proof.
  intros Hc%sc_loop_asked. destruct (NewZecStorageClassFromMap g order) as [sc|[]] eqn:Hnew.
  - apply NewZecStorageClassFromMap_Ok in Hnew
      as (p & Hp & (Hv%VolumeType_IsValid_iff & Hmin & Hmax) & Ht & Hf & Hfs & Hb & Hmiss & Hz & Hg).
    rewrite Hp in Hc. destruct Hc as (Hct & Hcf & Hcz & Hcg & Hcb).
    rewrite Hct, Hcf, Hcz, Hcg, <-Ht, <-IsValidFileSystemType_elem.
    split_and!; try done.
    + destruct Hv as [-> | ->]; [left|right; left].
    + rewrite Hb, Hcb. by destruct (value_of "burstenable" order) as [v|];
        [cbn; destruct (String.eqb_spec v "true"); case_bool_decide; congruence|].
    + destruct (String.eqb_spec (p_zoneID p) ""), (String.eqb_spec (p_placeGroupID p) ""); naive_solver.
    + destruct (String.eqb_spec (p_zoneID p) ""), (String.eqb_spec (p_placeGroupID p) ""); naive_solver.
  - unfold NewZecStorageClassFromMap in Hnew.
    destruct (sc_loop sc_params_init order) as [p|]; [|left; by rewrite Hc].
    destruct Hc as (Hct & Hcf & Hcz & Hcg & _). rewrite Hct, Hcf, Hcz, Hcg.
    destruct (_ && _) eqn:Hmiss.
    { right; right. apply andb_true_iff in Hmiss as [Hm Hd]. rewrite Hm in Hd.
      rewrite !orb_true_iff, !String.eqb_eq in Hm, Hd. done. }
    unfold NewDefaultZecStorageClassFromType in Hnew.
    destruct (VolumeType_IsValid _) eqn:Hv; cbn [negb] in Hnew.
    + right; left. rewrite <-IsValidFileSystemType_elem.
      apply VolumeType_IsValid_iff in Hv. unfold setFsType in Hnew.
      destruct Hv as [Hv|Hv]; rewrite Hv in Hnew;
        by destruct (IsValidFileSystemType (p_fsType p)).
    + left. split; intros [= Heq]; by rewrite Heq in Hv.
Qed.

Lemma NewZecStorageClassFromMap_result_witness :
  let g := {| FeatureGates := []; DefaultZone := "zone-d"; DefaultResourceGroup := "group-d";
              MixDriver := false |} in
  (∃ sc, NewZecStorageClassFromMap g [("ZoneID", "zone-a"); ("type", "1")] = Ok sc ∧
     sc_diskType sc ∈ [1; 2] ∧ sc_zoneID sc = "zone-d" ∧ sc_placeGroupID sc = "group-d") ∧
  (∃ sc, NewZecStorageClassFromMap g [("ZoneID", "zone-a"); ("placeGroupID", "group-a")] = Ok sc ∧
     sc_zoneID sc = "zone-a" ∧ sc_placeGroupID sc = "group-a").
Proof.
  intros g. split.
  - assert (clear_order [("ZoneID", "zone-a"); ("type", "1")]) as Hc 
      by (apply (bool_decide_unpack _); exact I).
    pose proof (NewZecStorageClassFromMap_result g _ Hc) as H.
    eexists. split; [reflexivity|]. destruct H as (_ & Ht & _ & _ & _ & _ & _ & _ & _ & _ & Hd).
    split; [exact Ht|]. apply Hd. right. reflexivity.
  - assert (clear_order [("ZoneID", "zone-a"); ("placeGroupID", "group-a")]) as Hc
      by (apply (bool_decide_unpack _); exact I).
    pose proof (NewZecStorageClassFromMap_result g _ Hc) as H.
    eexists. split; [reflexivity|]. destruct H as (_ & _ & _ & _ & _ & _ & _ & _ & _ & Hs & _).
    apply Hs. split; discriminate.
Defined.

(** The result of [NewZecStorageClassFromMap] does not depend on the order in
    which Go ranges over the parameters, errors included, when no two keys are
    the same up to case. *)
Theorem NewZecStorageClassFromMap_order (g : Globals) (parameters : gostrmap)
    (l1 l2 : list (string * string)) :
  range_of parameters l1 → range_of parameters l2 →
  (∀ k1 k2, k1 ∈ dom parameters → k2 ∈ dom parameters → ToLower k1 = ToLower k2 → k1 = k2) →
  NewZecStorageClassFromMap g l1 = NewZecStorageClassFromMap g l2.
Proof.
  intros H1 H2 Hinj. unfold NewZecStorageClassFromMap.
  rewrite (sc_loop_perm _ l1 l2); [done|by rewrite H1, H2|].
  assert (Hdom : ∀ k, k ∈ l1.*1 → k ∈ dom parameters).
  { intros k ([k' v] & -> & Hin)%list_elem_of_fmap. apply elem_of_dom. exists v.
    by apply (range_of_elem _ _ _ _ H1). }
  pose proof (range_of_NoDup _ _ H1) as Hnd. clear H1 H2.
  change (NoDup ((ToLower ∘ fst) <$> l1)). rewrite list_fmap_compose. revert Hdom Hnd.
  generalize (l1.*1). intros ks Hdom. induction ks as [|k ks IH]; csimpl; [constructor|].
  rewrite !list.NoDup_cons. intros [Hk Hnd]. split.
  - intros (k' & Heq & Hk')%list_elem_of_fmap. apply Hk.
    rewrite (Hinj k k') by (auto using list_elem_of_here, list_elem_of_further). done.
  - apply IH; [|done]. intros. apply Hdom. by right.
Qed.

Lemma NewZecStorageClassFromMap_order_witness :
  let g := {| FeatureGates := []; DefaultZone := ""; DefaultResourceGroup := "";
              MixDriver := false |} in
  NewZecStorageClassFromMap g [("zoneID", "z"); ("placeGroupID", "p")] =
  NewZecStorageClassFromMap g [("placeGroupID", "p"); ("zoneID", "z")].
Proof.
  intros g. apply (NewZecStorageClassFromMap_order g
    (<["zoneID" := "z"]> (<["placeGroupID" := "p"]> ∅))).
  - vm_compute. first [reflexivity | apply Permutation_swap].
  - vm_compute. first [reflexivity | apply Permutation_swap].
  - intros k1 k2. rewrite !dom_insert, dom_empty. set_unfold.
    intros [-> | [-> | []]] [-> | [-> | []]]; vm_compute; congruence.
Defined.

Lemma UpdateParmsZone_lookup order m z k :
  UpdateParmsZone order m z !! k =
  if bool_decide (k ∈ order.*1) && EqualFold k StorageClassZoneId then Some z else m !! k.
Proof.
  unfold UpdateParmsZone. revert m.
  induction order as [|[k' v] order IH]; intros m; [done|]. csimpl. rewrite IH.
  destruct (decide (k = k')) as [->|Hne].
  - rewrite (bool_decide_true (k' ∈ k' :: _)) by left. simpl.
    destruct (EqualFold k' StorageClassZoneId); [|by rewrite andb_false_r].
    rewrite lookup_insert_eq. by case_match.
  - rewrite (bool_decide_ext (k ∈ k' :: _) (k ∈ order.*1))
      by (rewrite elem_of_cons; tauto).
    destruct (EqualFold k' StorageClassZoneId); [|done].
    by rewrite lookup_insert_ne.
Qed.

(** [UpdateParmsZone] sets every parameter whose key is the zone key up to
    case to the zone the topology picked, and changes, adds and removes no other
    parameter, whatever order Go ranges in. *)
Theorem UpdateParmsZone_spec (opt : gostrmap) (order : list (string * string)) (zone : string)
    (k : string) :
  range_of opt order →
  UpdateParmsZone order opt zone !! k =
  (if EqualFold k StorageClassZoneId then opt !! k ≫= fun _ => Some zone else opt !! k).
Proof.
  intros Hr. rewrite UpdateParmsZone_lookup.
  destruct (EqualFold k StorageClassZoneId); [|by rewrite andb_false_r].
  rewrite andb_true_r. case_bool_decide as Hk.
  - apply list_elem_of_fmap in Hk as ([k' v] & -> & Hin). simpl.
    by rewrite (proj1 (range_of_elem _ _ _ _ Hr) Hin).
  - destruct (opt !! k) as [v|] eqn:Hv; [|done]. destruct Hk.
    apply list_elem_of_fmap. exists (k, v). split; [done|]. by apply (range_of_elem opt).
Qed.

Lemma UpdateParmsZone_spec_witness :
  UpdateParmsZone [("ZONEID", "z1"); ("type", "1")] (<["ZONEID" := "z1"]> (<["type" := "1"]> ∅))
    "z2" !! "ZONEID" = Some "z2".
Proof.
  rewrite (UpdateParmsZone_spec (<["ZONEID" := "z1"]> (<["type" := "1"]> ∅))).
  - reflexivity.
  - vm_compute. first [reflexivity | apply Permutation_swap].
Defined.

(** The two readers of the zone key do not agree: a parameter the storage
    class parser takes as the zone is left alone by [UpdateParmsZone] when its key
    has the capital dotted I (U+0130), so the volume context keeps the old zone. *)
Lemma zone_key_readers_differ :
  let key := "zone" +:+ String (ascii_of_nat 196) (String (ascii_of_nat 176) "D") in
  let g := {| FeatureGates := []; DefaultZone := ""; DefaultResourceGroup := "";
              MixDriver := false |} in
  let parameters : gostrmap := <[key := "zone-a"]> {[ "placeGroupID" := "group" ]} in
  (sc_zoneID <$> match NewZecStorageClassFromMap g (map_to_list parameters) with
                 | Ok sc => Some sc | Err _ => None end) = Some "zone-a" ∧
  UpdateParmsZone (map_to_list parameters) parameters "zone-b" = parameters.
Proof. vm_compute. split; reflexivity. Qed.
