(* ===== verification/ZecApi.v ===== *)
(** * The Zenlayer cloud SDK and the clock, as effects

    [github.com/zenlayer/zenlayercloud-sdk-go] is not part of the repository.
    Its client calls are the effects [ZecE]: their requests and responses are
    records with the fields the driver sets or reads (a Go pointer is an
    [option]), and their answers are left to the environment.  The SDK returns
    a non-nil response whenever its error is nil; a nil [Response] field of it
    is [None]. *)

From S2P Require Import Prelude GoStd Prog.

(** An error of the SDK: the typed error with the cloud's code, or any other
    error (cancelled context, failure to build the request). *)
Inductive sdk_error : Set :=
| ZenlayerCloudSdkError (Code : string)
| OtherError.

Abbreviation sdk T := (result sdk_error T).

(** ** Requests and responses *)

Record CreateDisksRequest : Set := {
  cdr_DiskName : string;
  cdr_DiskSize : Z;
  cdr_ZoneId : string;
  cdr_DiskAmount : Z;
  cdr_ResourceGroupId : string;
  cdr_DiskCategory : string;
  cdr_SnapshotId : option string;
  cdr_BurstingEnabled : bool
}.

Record DescribeDisksRequest : Set := {
  ddr_DiskIds : list string;
  ddr_DiskName : option string;
  ddr_ZoneId : option string;
  ddr_ResourceGroupId : option string;
  ddr_PageSize : option Z;
  ddr_PageNum : option Z
}.

Record DiskInfo : Set := {
  di_DiskId : option string;
  di_DiskName : option string;
  di_ZoneId : option string;
  di_DiskCategory : option string;
  di_DiskSize : option Z;
  di_DiskStatus : option string;
  di_InstanceId : option string;
  di_Serial : option string;
  di_Portable : option bool;
  di_SnapshotAbility : option bool;
  di_ResourceGroupId : option string
}.

Record InstanceInfo : Set := {
  ii_InstanceId : option string;
  ii_Status : option string;
  ii_ZoneId : option string
}.

Record InstanceStatus : Set := {
  is_InstanceId : option string;
  is_InstanceStatus : option string
}.

Record DescribeSnapshotsRequest : Set := {
  dsr_SnapshotIds : list string;
  dsr_SnapshotName : option string;
  dsr_ZoneId : option string;
  dsr_ResourceGroupId : option string;
  dsr_PageSize : option Z;
  dsr_PageNum : option Z
}.

Record SnapshotInfo : Set := {
  si_SnapshotId : option string;
  si_SnapshotName : option string;
  si_ZoneId : option string;
  si_Status : option string;
  si_DiskId : option string;
  si_CreateTime : option string;
  si_DiskAbility : option bool;
  (** [ResourceGroup], then its [ResourceGroupId]. *)
  si_ResourceGroup : option (option string)
}.

(** The page of a describe call: the number of matches and the page's data. *)
Record page (T : Set) : Set := {
  TotalCount : option Z;
  DataSet : list (option T)
}.
Arguments TotalCount {T} _.
Arguments DataSet {T} _.

(** ** Effects *)

Inductive ZecE : Type → Type :=
| DescribeDiskRegions : ZecE (sdk (option (list string)))
| CreateDisks (req : CreateDisksRequest) : ZecE (sdk (option (list string)))
| ReleaseDisk (DiskId : string) : ZecE (sdk unit)
| AttachDisks (DiskIds : list string) (InstanceId : string) : ZecE (sdk unit)
| DetachDisks (DiskIds : list string) (InstanceCheckFlag : bool)
    : ZecE (sdk (option (list string)))
| ResizeDisk (DiskId : string) (DiskSize : Z) : ZecE (sdk unit)
| DescribeDisks (req : DescribeDisksRequest) : ZecE (sdk (option (page DiskInfo)))
| DescribeInstances (InstanceIds : list string) : ZecE (sdk (option (page InstanceInfo)))
| DescribeZones : ZecE (sdk unit)
| DescribeInstancesStatus (InstanceIds : list string)
    : ZecE (sdk (option (page InstanceStatus)))
| CreateSnapshotApi (DiskId SnapshotName : string) : ZecE (sdk (option (option string)))
| DeleteSnapshots (SnapshotIds : list string) : ZecE (sdk (option (list string)))
| DescribeSnapshots (req : DescribeSnapshotsRequest) : ZecE (sdk (option (page SnapshotInfo))).

(** The cloud package also waits.  A wait loop selects between a ticker and a
    timer; [SelectTicks timeout interval] is how many times the ticker's channel
    is received before the timer's is. *)
Inductive CloudE : Type → Type :=
| Api {R : Type} (o : ZecE R) : CloudE R
| SelectTicks (timeout interval : Z) : CloudE nat.

(** ** The requests the driver builds *)

(** One disk: an empty one, or one made of a snapshot. *)
Definition disk_request (volName : string) (volSize : Z)
    (volCategory zoneId group : string) (source : option string) (burst : bool) : CreateDisksRequest :=
  {| cdr_DiskName := volName; cdr_DiskSize := volSize; cdr_ZoneId := zoneId;
     cdr_DiskAmount := 1; cdr_ResourceGroupId := group; cdr_DiskCategory := volCategory;
     cdr_SnapshotId := source; cdr_BurstingEnabled := burst |}.

Definition disks_by_id (volId : string) : DescribeDisksRequest :=
  {| ddr_DiskIds := [volId]; ddr_DiskName := None; ddr_ZoneId := None;
     ddr_ResourceGroupId := None; ddr_PageSize := None; ddr_PageNum := None |}.

Definition disks_by_name (name zoneID group : string) (pagesize pagenum : Z)
    : DescribeDisksRequest :=
  {| ddr_DiskIds := []; ddr_DiskName := Some name; ddr_ZoneId := Some zoneID;
     ddr_ResourceGroupId := Some group; ddr_PageSize := Some pagesize;
     ddr_PageNum := Some pagenum |}.

Definition snaps_by_id (snapshotId : string) : DescribeSnapshotsRequest :=
  {| dsr_SnapshotIds := [snapshotId]; dsr_SnapshotName := None; dsr_ZoneId := None;
     dsr_ResourceGroupId := None; dsr_PageSize := None; dsr_PageNum := None |}.

Definition snaps_by_name (name zoneId group : string) (pagesize pagenum : Z)
    : DescribeSnapshotsRequest :=
  {| dsr_SnapshotIds := []; dsr_SnapshotName := Some name; dsr_ZoneId := Some zoneId;
     dsr_ResourceGroupId := Some group; dsr_PageSize := Some pagesize;
     dsr_PageNum := Some pagenum |}.
