(* ===== verification/CloudTypes.v ===== *)
(** * Package [cloud]: data, errors and the [CloudManager] interface

    Models [pkg/cloud/types.go], [error.go] and [manager.go].  The Go interface
    [CloudManager] is the effect signature [CmE]: the rpc servers call it, and
    [Cloud.v] implements it by API calls. *)

From S2P Require Import Prelude GoStd Prog ZecApi.

Local Open Scope Z_scope.

(** ** Statuses and error codes *)

Definition VmStatusRunning : string := "RUNNING".
Definition DiskStatusInUse : string := "IN_USE".
Definition DiskStatusAvailable : string := "AVAILABLE".
Definition DiskStatusDeleted : string := "DELETED".
Definition DiskStatusStable : string := "STABLE".
Definition DiskStatusRecycled : string := "RECYCLED".
Definition maxReleaseDiskTimes : nat := 2.
Definition SnapStatusAvailable : string := "AVAILABLE".
Definition SnapStatusDeleted : string := "DELETED".

Definition OPERATION_FAILED_RESOURCE_NOT_FOUND : string := "OPERATION_FAILED_RESOURCE_NOT_FOUND".
Definition INVALID_DISK_SNAPSHOT_NOT_FOUND : string := "INVALID_DISK_SNAPSHOT_NOT_FOUND".

(** ** Records *)

Record ZecVolume : Set := {
  ZecVolume_Id : string;
  ZecVolume_Name : string;
  ZecVolume_Size : Z;
  ZecVolume_Type : Z;
  ZecVolume_Status : string;
  ZecVolume_Zone : string;
  ZecVolume_Serial : string;
  ZecVolume_InstanceId : string;
  ZecVolume_Portable : bool;
  ZecVolume_SnapshotAbility : bool;
  ZecVolume_ResourceGroupId : string
}.

Record ZecVm : Set := {
  ZecVm_Id : string;
  ZecVm_Status : string;
  ZecVm_Type : Z;
  ZecVm_Zone : string
}.

Record ZecVolumeSnap : Set := {
  ZecVolumeSnap_Id : string;
  ZecVolumeSnap_Name : string;
  ZecVolumeSnap_status : string;
  ZecVolumeSnap_SrcDiskId : string;
  ZecVolumeSnap_DiskAbility : bool;
  ZecVolumeSnap_ZoneId : string;
  ZecVolumeSnap_ResourceGroupId : string;
  ZecVolumeSnap_CreateTime : string
}.

Definition NewZecVolume : ZecVolume :=
  {| ZecVolume_Id := ""; ZecVolume_Name := ""; ZecVolume_Size := -1; ZecVolume_Type := -1;
     ZecVolume_Status := ""; ZecVolume_Zone := ""; ZecVolume_Serial := "";
     ZecVolume_InstanceId := ""; ZecVolume_Portable := false;
     ZecVolume_SnapshotAbility := false; ZecVolume_ResourceGroupId := "" |}.

Definition NewZecVm : ZecVm :=
  {| ZecVm_Id := ""; ZecVm_Status := ""; ZecVm_Type := -1; ZecVm_Zone := "" |}.

Definition NewZecVolumeSnap : ZecVolumeSnap :=
  {| ZecVolumeSnap_Id := ""; ZecVolumeSnap_Name := ""; ZecVolumeSnap_status := "";
     ZecVolumeSnap_SrcDiskId := ""; ZecVolumeSnap_DiskAbility := false;
     ZecVolumeSnap_ZoneId := ""; ZecVolumeSnap_ResourceGroupId := "";
     ZecVolumeSnap_CreateTime := "" |}.

(** ** Errors

    What the error says, without the text of its message. *)
Inductive cerr : Set :=
| ErrArgs                     (**r "args error" *)
| ErrNilClient                (**r [nilClientMsg] *)
| ErrApi (e : sdk_error)      (**r an error of the SDK, returned as it is *)
| ErrNilResponse              (**r " nil response" *)
| ErrRepeat                   (**r "VolId Repeat or missing" *)
| ErrFailedIds                (**r the response lists ids the operation failed on *)
| ErrTimeout (timeout : Z)    (**r [TimeoutError] *)
| ErrStatus                   (**r "error status" *)
| ErrStillExists              (**r "still exist after release" *)
| ErrDiffSize                 (**r "find different size but same volname" *)
| ErrDiffSrc.                 (**r "find same name snapshot, but srcVolId is not required" *)

(** ** The interface [CloudManager] *)

Inductive CmE : Type → Type :=
| CreateVolume (volName : string) (volSize : Z) (volCategory zoneId resouceGroupID : string)
    (burstEnable : bool) : CmE (result cerr string)
| DeleteVolume (volId : string) : CmE (result cerr unit)
| AttachVolume (volId vmId : string) : CmE (result cerr unit)
| DetachVolume (volId : string) : CmE (result cerr unit)
| ResizeVolume (volId : string) (requestSize : Z) : CmE (result cerr unit)
| FindVolume (volId : string) : CmE (result cerr (option ZecVolume))
| FindVolumeByName (volName zoneID : string) (sizeGB : Z) (diskType ResourceGroupId : string)
    : CmE (option ZecVolume * option cerr)
| CloneVolume : CmE (result cerr unit)
| FindInstance (vmId : string) : CmE (result cerr (option ZecVm))
| GetZone (zoneId : string) : CmE (result cerr unit)
| GetZoneList : CmE (result cerr (list string))
| IsController : CmE bool
| Probe : CmE (result cerr unit)
| GetVmStatus (vmId : string) : CmE (result cerr (bool * string))
| FindTag : CmE (result cerr unit)
| IsValidTags : CmE bool
| AttachTags : CmE (result cerr unit)
| FindSnapshot (snapshotId : string) : CmE (result cerr (option ZecVolumeSnap))
| FindSnapshotByName (snapshotName srcVolId zoneId ResourceGroupId : string)
    : CmE (option ZecVolumeSnap * option cerr)
| CreateSnapshot (snapshotName resourceId : string) : CmE (result cerr string)
| DeleteSnapshot (snapshotId : string) : CmE (result cerr unit)
| CreateVolumeFromSnapshot (volName : string) (volSize : Z)
    (volCategory zoneId resourceGroupID snapshotId : string) (burstEnable : bool)
    : CmE (result cerr string).
