(* ===== verification/Cloud.v ===== *)
(** * Package [cloud]: the zec implementation of [CloudManager]

    Models [pkg/cloud/cloud_manager.go] and the wait loop of [utils.go].  Every
    method is a program over the SDK's calls, [CloudE]; [zec_impl] gathers them
    as the implementation of the interface [CmE]. *)

From S2P Require Import Prelude GoStd Prog ZecApi CloudTypes Driver.

Local Open Scope Z_scope.
Local Open Scope csi_scope.

Abbreviation cloud T := (prog CloudE T).

(** An SDK call: its error is returned as it is. *)
Definition api {R} (o : ZecE (sdk R)) : cloud (result cerr R) :=
  r ← call (Api o);
  mret (match r with Ok x => Ok x | Err e => Err (ErrApi e) end).

(** ** Waiting (utils.go) *)

Definition Second : Z := 1000000000.
Definition WaitStatusTimeout : Z := 180 * Second.
Definition WaitStatusInterval : Z := 3 * Second.

(** A polled function answers [Ok None] to go on ([false, nil]) and
    [Ok (Some v)] to stop ([true, nil]), [v] being what it has written to the
    variables it captures. *)
Section wait.
Context {T : Type} (f : cloud (result cerr (option T))).

Fixpoint wait_loop (timeout : Z) (ticks : nat) : cloud (result cerr T) :=
  match ticks with
  | O => mret (Err (ErrTimeout timeout))
  | S n =>
    try stop <- f ;
    match stop with
    | Some v => mret (Ok v)
    | None => wait_loop timeout n
    end
  end.

Definition WaitForSpecificOrError (timeout waitInterval : Z) : cloud (result cerr T) :=
  try stop <- f ;
  match stop with
  | Some v => mret (Ok v)
  | None => ticks ← call (SelectTicks timeout waitInterval); wait_loop timeout ticks
  end.

Definition WaitFor : cloud (result cerr T) :=
  WaitForSpecificOrError WaitStatusTimeout WaitStatusInterval.
End wait.

Record zecCloudManager : Set := {
  (** whether the SDK client is set; the node driver has none *)
  zecClient : bool;
  Iscontroller : bool
}.

(** ** From the SDK's records to the driver's *)

Definition volume_of_disk (d : DiskInfo) : ZecVolume :=
  {| ZecVolume_Id := default (ZecVolume_Id NewZecVolume) (di_DiskId d);
     ZecVolume_Name := default (ZecVolume_Name NewZecVolume) (di_DiskName d);
     ZecVolume_Size := default (ZecVolume_Size NewZecVolume) (di_DiskSize d);
     ZecVolume_Type := match di_DiskCategory d with
                       | Some c => StringToType c
                       | None => ZecVolume_Type NewZecVolume
                       end;
     ZecVolume_Status := default (ZecVolume_Status NewZecVolume) (di_DiskStatus d);
     ZecVolume_Zone := default (ZecVolume_Zone NewZecVolume) (di_ZoneId d);
     ZecVolume_Serial := default (ZecVolume_Serial NewZecVolume) (di_Serial d);
     ZecVolume_InstanceId := default (ZecVolume_InstanceId NewZecVolume) (di_InstanceId d);
     ZecVolume_Portable := default (ZecVolume_Portable NewZecVolume) (di_Portable d);
     ZecVolume_SnapshotAbility :=
       default (ZecVolume_SnapshotAbility NewZecVolume) (di_SnapshotAbility d);
     ZecVolume_ResourceGroupId :=
       default (ZecVolume_ResourceGroupId NewZecVolume) (di_ResourceGroupId d) |}.

Definition snap_of_info (s : SnapshotInfo) : ZecVolumeSnap :=
  {| ZecVolumeSnap_Id := default (ZecVolumeSnap_Id NewZecVolumeSnap) (si_SnapshotId s);
     ZecVolumeSnap_Name := default (ZecVolumeSnap_Name NewZecVolumeSnap) (si_SnapshotName s);
     ZecVolumeSnap_status := default (ZecVolumeSnap_status NewZecVolumeSnap) (si_Status s);
     ZecVolumeSnap_SrcDiskId := default (ZecVolumeSnap_SrcDiskId NewZecVolumeSnap) (si_DiskId s);
     ZecVolumeSnap_DiskAbility :=
       default (ZecVolumeSnap_DiskAbility NewZecVolumeSnap) (si_DiskAbility s);
     ZecVolumeSnap_ZoneId := default (ZecVolumeSnap_ZoneId NewZecVolumeSnap) (si_ZoneId s);
     ZecVolumeSnap_ResourceGroupId :=
       match si_ResourceGroup s with
       | Some (Some g) => g
       | _ => ZecVolumeSnap_ResourceGroupId NewZecVolumeSnap
       end;
     ZecVolumeSnap_CreateTime :=
       default (ZecVolumeSnap_CreateTime NewZecVolumeSnap) (si_CreateTime s) |}.

(** ** Polled jobs of the wait functions *)

(** The jobs of [waitDiskStatus] for AVAILABLE, IN_USE and STABLE differ only in
    the statuses they stop at. *)
Definition disk_status_job (volId : string) (target : string → bool)
    : cloud (result cerr (option unit)) :=
  try response <- api (DescribeDisks (disks_by_id volId)) ;
  match response with
  | Some {| TotalCount := Some count; DataSet := Some d :: _ |} =>
    match di_DiskStatus d with
    | Some st =>
      if negb (count =? 1) then mret (Err ErrRepeat) else
      if target st then mret (Ok (Some tt)) else mret (Ok None)
    | None => mret (Err ErrNilResponse)
    end
  | _ => mret (Err ErrNilResponse)
  end.

Definition disk_deleted_job (volId : string) : cloud (result cerr (option unit)) :=
  try response <- api (DescribeDisks (disks_by_id volId)) ;
  match response with
  | Some {| TotalCount := Some count |} =>
    if count =? 0 then mret (Ok (Some tt)) else mret (Ok None)
  | _ => mret (Err ErrNilResponse)
  end.

(** The job of [waitDiskReleased]; it stops with the value of [gone]. *)
Definition disk_released_job (volId : string) : cloud (result cerr (option bool)) :=
  try response <- api (DescribeDisks (disks_by_id volId)) ;
  match response with
  | Some {| TotalCount := Some count; DataSet := data |} =>
    if count =? 0 then mret (Ok (Some true)) else
    if negb (count =? 1) then mret (Err ErrRepeat) else
    match data with
    | Some d :: _ =>
      match di_DiskStatus d with
      | Some st =>
        if String.eqb st DiskStatusRecycled then mret (Ok (Some false)) else mret (Ok None)
      | None => mret (Err ErrNilResponse)
      end
    | _ => mret (Err ErrNilResponse)
    end
  | _ => mret (Err ErrNilResponse)
  end.

Definition snap_status_job (snapshotId : string) : cloud (result cerr (option unit)) :=
  try response <- api (DescribeSnapshots (snaps_by_id snapshotId)) ;
  match response with
  | Some {| TotalCount := Some count; DataSet := Some s :: _ |} =>
    match si_Status s with
    | Some st =>
      if negb (count =? 1) then mret (Err ErrRepeat) else
      if String.eqb st SnapStatusAvailable then mret (Ok (Some tt)) else mret (Ok None)
    | None => mret (Err ErrNilResponse)
    end
  | _ => mret (Err ErrNilResponse)
  end.

Definition snap_deleted_job (snapshotId : string) : cloud (result cerr (option unit)) :=
  try response <- api (DescribeSnapshots (snaps_by_id snapshotId)) ;
  match response with
  | Some {| TotalCount := Some count |} =>
    if count =? 0 then mret (Ok (Some tt)) else mret (Ok None)
  | _ => mret (Err ErrNilResponse)
  end.

Definition is_available (st : string) : bool := String.eqb st DiskStatusAvailable.
Definition is_in_use (st : string) : bool := String.eqb st DiskStatusInUse.
Definition is_stable (st : string) : bool :=
  String.eqb st DiskStatusAvailable || String.eqb st DiskStatusInUse.

Definition waitDiskStatus (status volId : string) : cloud (result cerr unit) :=
  reject ErrArgs when String.eqb volId "" ;;
  if String.eqb DiskStatusAvailable status then WaitFor (disk_status_job volId is_available)
  else if String.eqb status DiskStatusDeleted then WaitFor (disk_deleted_job volId)
  else if String.eqb status DiskStatusInUse then WaitFor (disk_status_job volId is_in_use)
  else if String.eqb status DiskStatusStable then WaitFor (disk_status_job volId is_stable)
  else mret (Err ErrStatus).

Definition waitDiskReleased (volId : string) : cloud (result cerr bool) :=
  reject ErrArgs when String.eqb volId "" ;;
  WaitFor (disk_released_job volId).

Definition waitDiskSnapStatus (status snapshotId : string) : cloud (result cerr unit) :=
  reject ErrArgs when String.eqb snapshotId "" ;;
  if String.eqb SnapStatusAvailable status then WaitFor (snap_status_job snapshotId)
  else if String.eqb SnapStatusDeleted status then WaitFor (snap_deleted_job snapshotId)
  else mret (Err ErrStatus).

(** ** Searches by name *)

(** The describe calls of the pages [pagenum], [pagenum + 1], ...; each answer's
    data is appended to the list. *)
Fixpoint disk_pages (name zoneID group : string) (pagesize : Z) (apicallnum : nat)
    (pagenum : Z) (acc : list (option DiskInfo)) : cloud (result cerr (list (option DiskInfo))) :=
  match apicallnum with
  | O => mret (Ok acc)
  | S n =>
    try response <- api (DescribeDisks (disks_by_name name zoneID group pagesize pagenum)) ;
    match response with
    | None => mret (Err ErrNilResponse)
    | Some r => disk_pages name zoneID group pagesize n (pagenum + 1) (acc ++ DataSet r)
    end
  end.

Fixpoint snap_pages (name zoneId group : string) (pagesize : Z) (apicallnum : nat)
    (pagenum : Z) (acc : list (option SnapshotInfo))
    : cloud (result cerr (list (option SnapshotInfo))) :=
  match apicallnum with
  | O => mret (Ok acc)
  | S n =>
    try response <- api (DescribeSnapshots (snaps_by_name name zoneId group pagesize pagenum)) ;
    match response with
    | None => mret (Err ErrNilResponse)
    | Some r => snap_pages name zoneId group pagesize n (pagenum + 1) (acc ++ DataSet r)
    end
  end.

(** The number of pages of [count] entries. *)
Definition page_calls (count pagesize : Z) : nat :=
  Z.to_nat (let n := count `quot` pagesize in
            if negb (count `rem` pagesize =? 0) then n + 1 else n).

(** The loop over the collected disks: the first live disk of the zone and type
    decides, by its size. *)
Fixpoint pick_volume (zoneID : string) (sizeGB : Z) (diskType : string)
    (l : list (option DiskInfo)) : option ZecVolume * option cerr :=
  match l with
  | [] => (None, None)
  | None :: rest => pick_volume zoneID sizeGB diskType rest
  | Some d :: rest =>
    let v := volume_of_disk d in
    if String.eqb (ZecVolume_Status v) DiskStatusRecycled
    then pick_volume zoneID sizeGB diskType rest
    else if String.eqb zoneID (ZecVolume_Zone v) && (ZecVolume_Type v =? StringToType diskType)
    then if negb (ZecVolume_Size v =? sizeGB) then (Some v, Some ErrDiffSize) else (Some v, None)
    else pick_volume zoneID sizeGB diskType rest
  end.

(** The loop over the collected snapshots: the first one decides. *)
Fixpoint pick_snapshot (srcVolId : string) (l : list (option SnapshotInfo))
    : option ZecVolumeSnap * option cerr :=
  match l with
  | [] => (None, None)
  | None :: rest => pick_snapshot srcVolId rest
  | Some s :: _ =>
    let snap := snap_of_info s in
    if String.eqb srcVolId (ZecVolumeSnap_SrcDiskId snap) then (Some snap, None)
    else (Some snap, Some ErrDiffSrc)
  end.

(** ** The methods *)

Module zec.
Section methods.
Context (cm : zecCloudManager).

(** What [CreateVolume] and [CreateVolumeFromSnapshot] do with their request. *)
Definition create_disk (request : CreateDisksRequest) : cloud (result cerr string) :=
  try response <- api (CreateDisks request) ;
  match response with
  | Some (volId :: _) =>
    try _ <- waitDiskStatus DiskStatusAvailable volId ;
    mret (Ok volId)
  | _ => mret (Err ErrNilResponse)
  end.

Definition CreateVolume (volName : string) (volSize : Z)
    (volCategory zoneId resouceGroupID : string) (burstEnable : bool)
    : cloud (result cerr string) :=
  reject ErrArgs when String.eqb volName "" || (volSize =? 0) || String.eqb volCategory ""
    || String.eqb zoneId "" || String.eqb resouceGroupID "" ;;
  reject ErrNilClient when negb (zecClient cm) ;;
  create_disk
    {| cdr_DiskName := volName; cdr_DiskSize := volSize; cdr_ZoneId := zoneId;
       cdr_DiskAmount := 1; cdr_ResourceGroupId := resouceGroupID;
       cdr_DiskCategory := volCategory; cdr_SnapshotId := None;
       cdr_BurstingEnabled := burstEnable |}.

Definition CreateVolumeFromSnapshot (volName : string) (volSize : Z)
    (volCategory zoneId resourceGroupID snapshotId : string) (burstEnable : bool)
    : cloud (result cerr string) :=
  reject ErrArgs when String.eqb volName "" || (volSize =? 0) || String.eqb volCategory ""
    || String.eqb zoneId "" || String.eqb resourceGroupID "" || String.eqb snapshotId "" ;;
  reject ErrNilClient when negb (zecClient cm) ;;
  create_disk
    {| cdr_DiskName := volName; cdr_DiskSize := volSize; cdr_ZoneId := zoneId;
       cdr_DiskAmount := 1; cdr_ResourceGroupId := resourceGroupID;
       cdr_DiskCategory := volCategory; cdr_SnapshotId := Some snapshotId;
       cdr_BurstingEnabled := burstEnable |}.

Definition FindVolume (volId : string) : cloud (result cerr (option ZecVolume)) :=
  reject ErrArgs when String.eqb volId "" ;;
  reject ErrNilClient when negb (zecClient cm) ;;
  try response <- api (DescribeDisks (disks_by_id volId)) ;
  match response with
  | Some {| TotalCount := Some count; DataSet := data |} =>
    if count =? 0 then mret (Ok None) else
    if negb (count =? 1) then mret (Err ErrRepeat) else
    match data with
    | Some d :: _ => mret (Ok (Some (volume_of_disk d)))
    | _ => mret (Err ErrNilResponse)
    end
  | _ => mret (Err ErrNilResponse)
  end.

(** The iterations of [DeleteVolume] that remain. *)
Fixpoint release_loop (volId : string) (times : nat) : cloud (result cerr unit) :=
  match times with
  | O => mret (Err ErrStillExists)
  | S n =>
    try volInfo <- FindVolume volId ;
    match volInfo with
    | None => mret (Ok tt)
    | Some volInfo =>
      let lastRelease := String.eqb (ZecVolume_Status volInfo) DiskStatusRecycled in
      r ← call (Api (ReleaseDisk volId));
      match r with
      | Err (ZenlayerCloudSdkError c) =>
        if String.eqb c OPERATION_FAILED_RESOURCE_NOT_FOUND then mret (Ok tt)
        else mret (Err (ErrApi (ZenlayerCloudSdkError c)))
      | Err e => mret (Err (ErrApi e))
      | Ok _ =>
        if lastRelease then
          try _ <- waitDiskStatus DiskStatusDeleted volId ;
          mret (Ok tt)
        else
          try gone <- waitDiskReleased volId ;
          if (gone : bool) then mret (Ok tt) else release_loop volId n
      end
    end
  end.

Definition DeleteVolume (volId : string) : cloud (result cerr unit) :=
  reject ErrArgs when String.eqb volId "" ;;
  reject ErrNilClient when negb (zecClient cm) ;;
  release_loop volId maxReleaseDiskTimes.

Definition AttachVolume (volId vmId : string) : cloud (result cerr unit) :=
  reject ErrArgs when String.eqb volId "" || String.eqb vmId "" ;;
  reject ErrNilClient when negb (zecClient cm) ;;
  try _ <- api (AttachDisks [volId] vmId) ;
  try _ <- waitDiskStatus DiskStatusInUse volId ;
  mret (Ok tt).

Definition DetachVolume (volId : string) : cloud (result cerr unit) :=
  reject ErrArgs when String.eqb volId "" ;;
  reject ErrNilClient when negb (zecClient cm) ;;
  try response <- api (DetachDisks [volId] false) ;
  reject ErrFailedIds when match response with Some (_ :: _) => true | _ => false end ;;
  try _ <- waitDiskStatus DiskStatusAvailable volId ;
  mret (Ok tt).

Definition ResizeVolume (volId : string) (requestSize : Z) : cloud (result cerr unit) :=
  reject ErrArgs when String.eqb volId "" || (requestSize =? 0) ;;
  reject ErrNilClient when negb (zecClient cm) ;;
  try _ <- api (ResizeDisk volId requestSize) ;
  try _ <- waitDiskStatus DiskStatusStable volId ;
  mret (Ok tt).

Definition FindVolumeByName (volName zoneID : string) (sizeGB : Z)
    (diskType ResourceGroupId : string) : cloud (option ZecVolume * option cerr) :=
  if String.eqb volName "" then mret (None, Some ErrArgs) else
  if negb (zecClient cm) then mret (None, Some ErrNilClient) else
  let diskname := "^" +:+ volName +:+ "$" in
  let pagesize := 20 in
  r ← api (DescribeDisks (disks_by_name diskname zoneID ResourceGroupId pagesize 1));
  match r with
  | Err e => mret (None, Some e)
  | Ok (Some {| TotalCount := Some count; DataSet := data |}) =>
    if count =? 0 then mret (None, None) else
    all ← (if pagesize <? count
           then disk_pages diskname zoneID ResourceGroupId pagesize (page_calls count pagesize) 1 []
           else mret (Ok data));
    match all with
    | Err e => mret (None, Some e)
    | Ok DiskListAll => mret (pick_volume zoneID sizeGB diskType DiskListAll)
    end
  | Ok _ => mret (None, Some ErrNilResponse)
  end.

Definition FindInstance (vmid : string) : cloud (result cerr (option ZecVm)) :=
  reject ErrArgs when String.eqb vmid "" ;;
  reject ErrNilClient when negb (zecClient cm) ;;
  try response <- api (DescribeInstances [vmid]) ;
  match response with
  | Some {| TotalCount := Some count; DataSet := data |} =>
    if count =? 0 then mret (Ok None) else
    if negb (count =? 1) then mret (Err ErrRepeat) else
    match data with
    | Some i :: _ =>
      mret (Ok (Some
        {| ZecVm_Id := default (ZecVm_Id NewZecVm) (ii_InstanceId i);
           ZecVm_Status := default (ZecVm_Status NewZecVm) (ii_Status i);
           ZecVm_Zone := default (ZecVm_Zone NewZecVm) (ii_ZoneId i);
           ZecVm_Type := BasicVmType |}))
    | _ => mret (Err ErrNilResponse)
    end
  | _ => mret (Err ErrNilResponse)
  end.

Definition GetZone (zoneId : string) : cloud (result cerr unit) :=
  reject ErrNilClient when negb (zecClient cm) ;;
  try _ <- api DescribeZones ;
  mret (Ok tt).

Definition Probe : cloud (result cerr unit) :=
  reject ErrNilClient when negb (zecClient cm) ;;
  try _ <- api DescribeDiskRegions ;
  mret (Ok tt).

Definition GetZoneList : cloud (result cerr (list string)) :=
  reject ErrNilClient when negb (zecClient cm) ;;
  try response <- api DescribeDiskRegions ;
  match response with
  | None => mret (Err ErrNilResponse)
  | Some RegionIds => mret (Ok RegionIds)
  end.

Definition IsController : cloud bool := mret (Iscontroller cm).

Definition GetVmStatus (vmId : string) : cloud (result cerr (bool * string)) :=
  reject ErrArgs when String.eqb vmId "" ;;
  reject ErrNilClient when negb (zecClient cm) ;;
  try response <- api (DescribeInstancesStatus [vmId]) ;
  match response with
  | Some {| TotalCount := Some count; DataSet := data |} =>
    if count =? 0 then mret (Ok (false, "")) else
    if negb (count =? 1) then mret (Err ErrRepeat) else
    match data with
    | Some {| is_InstanceStatus := Some st |} :: _ => mret (Ok (true, st))
    | _ => mret (Err ErrNilResponse)
    end
  | _ => mret (Err ErrNilResponse)
  end.

Definition CreateSnapshot (snapshotName resourceId : string) : cloud (result cerr string) :=
  reject ErrArgs when String.eqb snapshotName "" || String.eqb resourceId "" ;;
  reject ErrNilClient when negb (zecClient cm) ;;
  try response <- api (CreateSnapshotApi resourceId snapshotName) ;
  match response with
  | Some (Some snapshotId) =>
    try _ <- waitDiskSnapStatus SnapStatusAvailable snapshotId ;
    mret (Ok snapshotId)
  | _ => mret (Err ErrNilResponse)
  end.

Definition DeleteSnapshot (snapshotId : string) : cloud (result cerr unit) :=
  reject ErrArgs when String.eqb snapshotId "" ;;
  reject ErrNilClient when negb (zecClient cm) ;;
  r ← call (Api (DeleteSnapshots [snapshotId]));
  match r with
  | Err (ZenlayerCloudSdkError c) =>
    if String.eqb c INVALID_DISK_SNAPSHOT_NOT_FOUND then mret (Ok tt)
    else mret (Err (ErrApi (ZenlayerCloudSdkError c)))
  | Err e => mret (Err (ErrApi e))
  | Ok None => mret (Err ErrNilResponse)
  | Ok (Some (_ :: _)) => mret (Err ErrFailedIds)
  | Ok (Some []) =>
    try _ <- waitDiskSnapStatus SnapStatusDeleted snapshotId ;
    mret (Ok tt)
  end.

Definition FindSnapshot (snapshotId : string) : cloud (result cerr (option ZecVolumeSnap)) :=
  reject ErrArgs when String.eqb snapshotId "" ;;
  reject ErrNilClient when negb (zecClient cm) ;;
  try response <- api (DescribeSnapshots (snaps_by_id snapshotId)) ;
  match response with
  | Some {| TotalCount := Some count; DataSet := data |} =>
    if count =? 0 then mret (Ok None) else
    if negb (count =? 1) then mret (Err ErrRepeat) else
    match data with
    | Some s :: _ => mret (Ok (Some (snap_of_info s)))
    | _ => mret (Err ErrNilResponse)
    end
  | _ => mret (Err ErrNilResponse)
  end.

Definition FindSnapshotByName (snapshotName srcVolId zoneId ResourceGroupId : string)
    : cloud (option ZecVolumeSnap * option cerr) :=
  if String.eqb snapshotName "" then mret (None, Some ErrArgs) else
  if negb (zecClient cm) then mret (None, Some ErrNilClient) else
  let sn := "^" +:+ snapshotName +:+ "$" in
  let pagesize := 20 in
  r ← api (DescribeSnapshots (snaps_by_name sn zoneId ResourceGroupId pagesize 1));
  match r with
  | Err e => mret (None, Some e)
  | Ok (Some {| TotalCount := Some count; DataSet := data |}) =>
    if count =? 0 then mret (None, None) else
    all ← (if pagesize <? count
           then snap_pages sn zoneId ResourceGroupId pagesize (page_calls count pagesize) 1 []
           else mret (Ok data));
    match all with
    | Err e => mret (None, Some e)
    | Ok SnapListAll => mret (pick_snapshot srcVolId SnapListAll)
    end
  | Ok _ => mret (None, Some ErrNilResponse)
  end.

(** The operations that are "not support". *)
Definition CloneVolume : cloud (result cerr unit) := mret (Ok tt).
Definition FindTag : cloud (result cerr unit) := mret (Ok tt).
Definition IsValidTags : cloud bool := mret false.
Definition AttachTags : cloud (result cerr unit) := mret (Ok tt).
End methods.
End zec.

(** ** The constructor and the implementation of the interface *)

(** [NewZecCloudManager]: [NewClient] is what [zec.NewClient] returns, whether a
    client or [nil] with no error, or an error. *)
Definition NewZecCloudManager (NewClient : string → string → result unit bool)
    (CLOUDAK CLOUDSK drivertype : string) : result unit zecCloudManager :=
  if String.eqb drivertype "node"
  then Ok {| zecClient := false; Iscontroller := false |}
  else match NewClient CLOUDAK CLOUDSK with
       | Err e => Err e
       | Ok false => Err tt
       | Ok true => Ok {| zecClient := true; Iscontroller := true |}
       end.

Definition zec_impl (cm : zecCloudManager) (R : Type) (o : CmE R) : cloud R :=
  match o in CmE R return cloud R with
  | CreateVolume n s c z g b => zec.CreateVolume cm n s c z g b
  | DeleteVolume v => zec.DeleteVolume cm v
  | AttachVolume v m => zec.AttachVolume cm v m
  | DetachVolume v => zec.DetachVolume cm v
  | ResizeVolume v s => zec.ResizeVolume cm v s
  | FindVolume v => zec.FindVolume cm v
  | FindVolumeByName n z s t g => zec.FindVolumeByName cm n z s t g
  | CloneVolume => zec.CloneVolume
  | FindInstance m => zec.FindInstance cm m
  | GetZone z => zec.GetZone cm z
  | GetZoneList => zec.GetZoneList cm
  | IsController => zec.IsController cm
  | Probe => zec.Probe cm
  | GetVmStatus m => zec.GetVmStatus cm m
  | FindTag => zec.FindTag
  | IsValidTags => zec.IsValidTags
  | AttachTags => zec.AttachTags
  | FindSnapshot s => zec.FindSnapshot cm s
  | FindSnapshotByName n v z g => zec.FindSnapshotByName cm n v z g
  | CreateSnapshot n v => zec.CreateSnapshot cm n v
  | DeleteSnapshot s => zec.DeleteSnapshot cm s
  | CreateVolumeFromSnapshot n s c z g i b => zec.CreateVolumeFromSnapshot cm n s c z g i b
  end.
