(* ===== verification/Ctrl.v ===== *)
(** * Package [rpcserver]: what the controller's handlers call

    Models the parts of [pkg/disk/rpcserver/controllerserver.go] below the
    handlers: the effects they perform, the resource locks as a bracket, the
    topologies and the snapshot creation times.

    A handler calls the lock table ([Locking.v]), the cloud manager and the Go
    runtime (the clock, the order of a [range] over a map). *)

From S2P Require Import Prelude GoStd GoTime Csi Common Prog Locking Driver CloudTypes.

Local Open Scope Z_scope.
Local Open Scope csi_scope.

(** ** Effects *)

Inductive RtE : Type → Type :=
| Now : RtE Timestamp
| RangeOrder (m : gostrmap) : RtE (list (string * string)).

Inductive HandlerE : Type → Type :=
| ToCloud {R : Type} (o : CmE R) : HandlerE R
| ToRt {R : Type} (o : RtE R) : HandlerE R.

Abbreviation CtrlE := (Locked HandlerE).
Abbreviation CLock o := (OnLocks (F:=HandlerE) o).
Abbreviation CCloud o := (Other (ToCloud o)).
Abbreviation CRt o := (Other (ToRt o)).

Abbreviation ctrl T := (prog CtrlE T).

(** What a handler may assume of the answers: a [range] loop visits each entry
    of the map once.  The cloud and the locks answer anything. *)
Definition rt_ok (R : Type) (o : RtE R) : R → Prop :=
  match o in RtE R return R → Prop with
  | Now => fun _ => True
  | RangeOrder m => fun l => range_of m l
  end.

Definition handler_ok : answers HandlerE := fun R e =>
  match e in HandlerE R return R → Prop with
  | ToCloud _ => fun _ => True
  | ToRt o => rt_ok _ o
  end.

Definition ctrl_ok : answers CtrlE := locked_ok handler_ok.

Definition cloud_call {R} (o : CmE R) : ctrl R := call (CCloud o).
Definition range (m : gostrmap) : ctrl (list (string * string)) := call (CRt (RangeOrder m)).

(** A cloud call that returns [(T, error)], the error mapped to a status code. *)
Definition cloud_try {R} (c : codes.code) (o : CmE (result cerr R)) : ctrl (rpc R) :=
  r ← cloud_call o;
  mret (match r with Ok x => Ok x | Err _ => Err c end).

(** ** Volume ids and creation times *)

Definition genCsiVolId (volInfo : option ZecVolume) : result unit string :=
  match volInfo with
  | None => Err tt
  | Some v =>
    if String.eqb (ZecVolume_Id v) "" || String.eqb (ZecVolume_Serial v) "" then Err tt
    else Ok (GenCsiVolId (ZecVolume_Id v) (ZecVolume_Serial v))
  end.

Definition snapCreateTimeLayouts : list (list chunk) :=
  [ date_layout ++ [Lit "T"] ++ clock_layout ++ [FracSecond9; ISO8601ColonTZ];
    date_layout ++ [Lit "T"] ++ clock_layout ++ [ISO8601ColonTZ];
    date_layout ++ [Lit "T"] ++ clock_layout;
    date_layout ++ [Lit " "] ++ clock_layout;
    date_layout ++ [Lit " "] ++ clock_layout ++ [ISO8601ColonTZ];
    date_layout ].

Fixpoint first_parse (layouts : list (list chunk)) (s : string) : option Timestamp :=
  match layouts with
  | [] => None
  | l :: rest => match Parse l s with Some t => Some t | None => first_parse rest s end
  end.

(** The number of seconds or, from 13 bytes on, of milliseconds. *)
Definition parse_epoch (trimmed : string) : option Timestamp :=
  match ParseInt trimmed with
  | Some epoch =>
    if 0 <? epoch then Some (if 13 <=? len trimmed then UnixMilli epoch else Unix epoch)
    else None
  | None => None
  end.

Definition parseSnapCreationTime (raw : string) : ctrl Timestamp :=
  let trimmed := TrimSpace raw in
  match (if negb (String.eqb trimmed "")
         then match first_parse snapCreateTimeLayouts trimmed with
              | Some t => Some t
              | None => parse_epoch trimmed
              end
         else None) with
  | Some t => mret t
  | None => call (CRt Now)
  end.

(** ** Topologies *)

Section topology.
Context (d : DiskDriver).

(** The loop over the segments of one topology. *)
Fixpoint pick_segments (topo : Topology) (order : list (string * string))
    : result unit Topology :=
  match order with
  | [] => Ok topo
  | (k, v) :: rest =>
    if String.eqb k (GetTopologyZoneKey d) then pick_segments (Topology_SetZone topo v) rest
    else if String.eqb k (GetTopologyVmTypeKey d) then
      match VmTypeValue !! v with
      | None => Err tt
      | Some t => pick_segments (Topology_SetVmType topo t) rest
      end
    else Err tt
  end.

(** The first preferred topology decides, or else the first requisite one. *)
Definition PickTopology (requirement : option TopologyRequirement)
    : ctrl (result unit (option Topology)) :=
  match requirement with
  | None => mret (Ok None)
  | Some r =>
    match Preferred r, Requisite r with
    | segments :: _, _ | [], segments :: _ =>
      order ← range segments;
      mret (match pick_segments (mkTopology "" 0) order with
            | Ok topo => Ok (Some topo)
            | Err e => Err e
            end)
    | [], [] => mret (Ok None)
    end
  end.

Definition GetVolumeTopology (zecVolInfo : option ZecVolume) : list Segments :=
  match zecVolInfo with
  | None => []
  | Some v =>
    let volType := ZecVolume_Type v in
    if negb (VolumeType_IsValid volType) then [] else
    (fun vmType => <[GetTopologyVmTypeKey d := default "" (VmTypeName !! vmType)]>
                     {[ GetTopologyZoneKey d := ZecVolume_Zone v ]})
      <$> default [] (VolumeTypeAttachConstraint !! volType)
  end.

(** [proto.Equal] on topologies is equality of their segments. *)
Definition IsValidTopology (zecVolInfo : option ZecVolume)
    (requirement : option TopologyRequirement) : bool :=
  match zecVolInfo with
  | None => false
  | Some _ =>
    match requirement with
    | None => true
    | Some r =>
      match Requisite r with
      | [] => true
      | _ => existsb (fun reqTop => existsb (fun volTop => bool_decide (reqTop = volTop))
                                      (GetVolumeTopology zecVolInfo)) (Requisite r)
      end
    end
  end.
End topology.
