(* ===== verification/Times.v ===== *)
(** * Creation times of snapshots

    [parseSnapCreationTime] ([Ctrl.v]) against the ways a cloud may print a time:
    it reads back an instant printed in the most precise of its layouts, and the
    number of seconds or milliseconds since 1970. *)

From S2P Require Import Prelude Prog GoStd Csi GoTime GoFormat Ctrl.

Local Open Scope Z_scope.

(** A layout starts with a year and a dash, which a number does not. *)
Lemma parse_number rest s f :
  all_digits s → parse (LongYear :: Lit "-" :: rest) s f = None.
Proof.
  intros Hs. cbn [parse scan].
  destruct s as [|a [|b [|c [|d s]]]]; try done.
  cbn [all_digits] in Hs. destruct Hs as ([w Hw] & [x Hx] & [y Hy] & [z Hz] & Hs).
  unfold getyear. rewrite Hw, Hx, Hy, Hz. cbn [mbind option_bind].
  destruct s as [|e s]; [done|]. destruct Hs as [[v Hv] _]. cbn.
  destruct (Ascii.eqb_spec e "-") as [->|]; [by vm_compute in Hv|done].
Qed.

Lemma first_parse_number s : all_digits s → first_parse snapCreateTimeLayouts s = None.
Proof.
  intros Hs. unfold snapCreateTimeLayouts, date_layout. cbn [first_parse app]. unfold Parse.
  by rewrite !parse_number by done.
Qed.

(** A number that is printed has at least 13 digits from 10^12 on. *)
Lemma parse_decimal n :
  0 < n < 2 ^ 63 →
  parseSnapCreationTime (decimal n) = mret (if n <? 10 ^ 12 then Unix n else UnixMilli n).
Proof.
  intros Hn. destruct (decimal_spec n) as (Hall & Hp & Hl); [lia|].
  destruct Hl as (k & Hk & Hlo & Hhi); [lia|].
  unfold parseSnapCreationTime. rewrite all_digits_trim by done.
  destruct (String.eqb_spec (decimal n) "") as [He|_]; [by rewrite He in Hk|]. cbn [negb].
  rewrite first_parse_number by done. unfold parse_epoch. rewrite Hp, (proj2 (Z.ltb_lt 0 n)) by lia.
  unfold len. rewrite Hk. destruct (Z.ltb_spec n (10 ^ 12)) as [Hlt|Hge].
  - assert (k < 12)%nat.
    { apply Nat.nle_gt. intros Hle. pose proof (Z.pow_le_mono_r 10 12 (Z.of_nat k)). lia. }
    by rewrite (proj2 (Z.leb_gt _ _)) by lia.
  - assert (12 ≤ k)%nat.
    { apply Nat.nlt_ge. intros Hle. pose proof (Z.pow_le_mono_r 10 (Z.of_nat (S k)) 12). lia. }
    by rewrite (proj2 (Z.leb_le _ _)) by lia.
Qed.

(** C25: Creation times are read back.  Whatever instant of the years 0 to 9999 the
    cloud prints in RFC 3339 with nanoseconds, [parseSnapCreationTime] returns it to
    the nanosecond and asks for no clock; a number of seconds since 1970, below
    10^12, and a number of milliseconds, from 10^12 to the largest [int64], are
    told apart and read as what they count. *)
Theorem creation_time_roundtrip (t : Timestamp) (n : Z) :
  printable t → 0 < n < 2 ^ 63 →
  parseSnapCreationTime (Format_RFC3339Nano t) = mret t ∧
  parseSnapCreationTime (decimal n) = mret (if n <? 10 ^ 12 then Unix n else UnixMilli n).
Proof.
  intros Ht Hn. split; [|by apply parse_decimal].
  unfold parseSnapCreationTime. rewrite TrimSpace_Format.
  pose proof (Parse_Format t Ht) as Hp.
  destruct (String.eqb_spec (Format_RFC3339Nano t) "") as [He|_]; [by rewrite He in Hp|].
  cbn [negb]. unfold snapCreateTimeLayouts. cbn [first_parse]. unfold RFC3339Nano in Hp. by rewrite Hp.
Qed.

Lemma creation_time_roundtrip_witness :
  parseSnapCreationTime "2025-02-28T23:59:59.0125Z" = mret {| seconds := 1740787199; nanos := 12500000 |} ∧
  parseSnapCreationTime "1740787199012" = mret {| seconds := 1740787199; nanos := 12000000 |}.
Proof.
  assert (Hp : printable {| seconds := 1740787199; nanos := 12500000 |}) by (split; cbn; lia).
  destruct (creation_time_roundtrip {| seconds := 1740787199; nanos := 12500000 |} 1740787199012 Hp
    ltac:(lia)) as [H1 H2].
  split; [exact H1|exact H2].
Defined.
