(* ===== verification/Controller.v ===== *)
(** * Package [rpcserver]: the controller's handlers

    Models the RPC handlers of [pkg/disk/rpcserver/controllerserver.go], one
    definition per handler; [CreateVolume] is cut at the ends of its blocks.
    The log lines are not modelled. *)

From S2P Require Import Prelude GoStd GoTime Csi Common Prog Locking Driver CloudTypes Ctrl.

Local Open Scope Z_scope.
Local Open Scope csi_scope.

Module cs.
Section handlers.
Context (g : Globals) (d : DiskDriver).

(** ** CreateVolume *)

(** The checks that come before the lock. *)
Definition CreateVolume_check (req : CreateVolumeRequest) : rpc unit :=
  if negb (ValidateControllerServiceRequest d ControllerRPC.CREATE_DELETE_VOLUME)
  then Err codes.Unimplemented else
  match cv_VolumeCapabilities req with
  | None => Err codes.InvalidArgument
  | Some caps =>
    if negb (ValidateVolumeCapabilities d caps) then Err codes.InvalidArgument else
    if len (cv_Name req) =? 0 then Err codes.InvalidArgument else
    if 64 <? len (cv_Name req) then Err codes.InvalidArgument else
    Ok tt
  end.

(** The topology, and the request's parameters as the handler leaves them. *)
Definition CreateVolume_topology (req : CreateVolumeRequest) (sc : ZecStorageClass)
    : ctrl (rpc (Topology * gostrmap)) :=
  let parameters := cv_Parameters req in
  if negb (is_nil (cv_AccessibilityRequirements req)) &&
     ValidatePluginCapabilityService d PluginService.VOLUME_ACCESSIBILITY_CONSTRAINTS
  then
    topo ← PickTopology d (cv_AccessibilityRequirements req);
    match topo with
    | Err _ | Ok None => mret (Err codes.InvalidArgument)
    | Ok (Some topo) =>
      order ← range parameters;
      mret (Ok (topo, UpdateParmsZone order parameters (zoneId topo)))
    end
  else mret (Ok (NewTopology (sc_zoneID sc) BasicVmType, parameters)).

(** A volume of that name exists. *)
Definition CreateVolume_existing (req : CreateVolumeRequest) (sc : ZecStorageClass)
    (parameters : gostrmap) (exVolInfo : ZecVolume) : rpc Volume :=
  let exVolSizeByte := GibToByte (ZecVolume_Size exVolInfo) in
  if IsValidCapacityBytes exVolSizeByte (cv_CapacityRange req)
     && IsValidTopology d (Some exVolInfo) (cv_AccessibilityRequirements req)
     && (ZecVolume_Type exVolInfo =? sc_diskType sc)
  then match genCsiVolId (Some exVolInfo) with
       | Err _ => Err codes.Aborted
       | Ok csiVolId =>
         Ok {| VolumeId := csiVolId;
               CapacityBytes := exVolSizeByte;
               VolumeContext := parameters;
               ContentSource := cv_VolumeContentSource req;
               AccessibleTopology := GetVolumeTopology d (Some exVolInfo) |}
       end
  else Err codes.AlreadyExists.

(** After a creation: the new volume is fetched and described. *)
Definition CreateVolume_created (newVolId : string) (requiredSizeGib : Z)
    (parameters : gostrmap) (source : option VolumeContentSource) : ctrl (rpc Volume) :=
  try newVolInfo <- cloud_try codes.Internal (FindVolume newVolId) ;
  reject codes.Aborted when is_nil newVolInfo ;;
  match genCsiVolId newVolInfo with
  | Err _ => mret (Err codes.Aborted)
  | Ok csiVolId =>
    mret (Ok {| VolumeId := csiVolId;
                CapacityBytes := GibToByte requiredSizeGib;
                VolumeContext := parameters;
                ContentSource := source;
                AccessibleTopology := GetVolumeTopology d newVolInfo |})
  end.

Definition CreateVolume_empty (volName : string) (sc : ZecStorageClass) (topo : Topology)
    (parameters : gostrmap) (requiredSizeByte : Z) : ctrl (rpc Volume) :=
  let requiredSizeGib := ByteCeilToGib requiredSizeByte in
  try newVolId <- cloud_try codes.Internal
    (CreateVolume volName requiredSizeGib (VolumeType_String (sc_diskType sc))
       (zoneId topo) (sc_placeGroupID sc) (sc_burstEnable sc)) ;
  CreateVolume_created newVolId requiredSizeGib parameters None.

Definition CreateVolume_from_snapshot (volName snapId : string) (sc : ZecStorageClass)
    (topo : Topology) (parameters : gostrmap) (requiredSizeByte : Z) : ctrl (rpc Volume) :=
  reject codes.Unimplemented
    when negb (ValidateControllerServiceRequest d ControllerRPC.CREATE_DELETE_SNAPSHOT) ;;
  reject codes.InvalidArgument when len snapId =? 0 ;;
  with_lock snapId (
    try snapinfo <- cloud_try codes.Internal (FindSnapshot snapId) ;
    match snapinfo with
    | None => mret (Err codes.NotFound)
    | Some snapinfo =>
      reject codes.Internal when negb (ZecVolumeSnap_DiskAbility snapinfo) ;;
      let requiredSizeGib := ByteCeilToGib requiredSizeByte in
      try newVolId <- cloud_try codes.Internal
        (CreateVolumeFromSnapshot volName requiredSizeGib (VolumeType_String (sc_diskType sc))
           (zoneId topo) (sc_placeGroupID sc) snapId (sc_burstEnable sc)) ;
      CreateVolume_created newVolId requiredSizeGib parameters (Some (SourceSnapshot snapId))
    end).

(** The part between the lock of the name and its release. *)
Definition CreateVolume_locked (req : CreateVolumeRequest) : ctrl (rpc Volume) :=
  let volName := cv_Name req in
  order ← range (cv_Parameters req);
  match NewZecStorageClassFromMap g order with
  | Err _ => mret (Err codes.InvalidArgument)
  | Ok sc =>
    try (topo, parameters) <- CreateVolume_topology req sc ;
    match GetRequiredVolumeSizeByte sc (cv_CapacityRange req) with
    | Err _ => mret (Err codes.OutOfRange)
    | Ok requiredSizeByte =>
      found ← cloud_call (FindVolumeByName volName (zoneId topo) (ByteCeilToGib requiredSizeByte)
                            (VolumeType_String (sc_diskType sc)) (sc_placeGroupID sc));
      match found with
      | (Some _, Some _) => mret (Err codes.AlreadyExists)
      | (None, Some _) => mret (Err codes.Internal)
      | (Some exVolInfo, None) => mret (CreateVolume_existing req sc parameters exVolInfo)
      | (None, None) =>
        match cv_VolumeContentSource req with
        | None => CreateVolume_empty volName sc topo parameters requiredSizeByte
        | Some (SourceSnapshot snapId) =>
          CreateVolume_from_snapshot volName snapId sc topo parameters requiredSizeByte
        | Some (SourceVolume _) => mret (Err codes.Unimplemented)
        | Some SourceUnset => mret (Err codes.Internal)
        end
      end
    end
  end.

Definition CreateVolume (req : CreateVolumeRequest) : ctrl (rpc Volume) :=
  match CreateVolume_check req with
  | Err c => mret (Err c)
  | Ok _ => with_lock (cv_Name req) (CreateVolume_locked req)
  end.

(** ** DeleteVolume *)

Definition DeleteVolume (req : DeleteVolumeRequest) : ctrl (rpc unit) :=
  reject codes.Unimplemented
    when negb (ValidateControllerServiceRequest d ControllerRPC.CREATE_DELETE_VOLUME) ;;
  reject codes.InvalidArgument when len (dv_VolumeId req) =? 0 ;;
  match ParseCsiVolId (dv_VolumeId req) with
  | Err _ => mret (Ok tt)
  | Ok (volId, _) =>
    with_lock volId (
      try _ <- cloud_try codes.Internal (CloudTypes.DeleteVolume volId) ;
      mret (Ok tt))
  end.

(** ** ControllerPublishVolume *)

Definition publish_locked (volId vmId : string) : ctrl (rpc unit) :=
  try exVolInfo <- cloud_try codes.Internal (FindVolume volId) ;
  match exVolInfo with
  | None => mret (Err codes.NotFound)
  | Some exVolInfo =>
    try (vmexist, vmstatus) <- cloud_try codes.Internal (GetVmStatus vmId) ;
    reject codes.NotFound when negb vmexist ;;
    reject codes.FailedPrecondition when negb (String.eqb vmstatus VmStatusRunning) ;;
    if negb (len (ZecVolume_InstanceId exVolInfo) =? 0) then
      if String.eqb (ZecVolume_InstanceId exVolInfo) vmId then mret (Ok tt)
      else mret (Err codes.FailedPrecondition)
    else
      try _ <- cloud_try codes.Internal (AttachVolume volId vmId) ;
      try newVolInfo <- cloud_try codes.Internal (FindVolume volId) ;
      match newVolInfo with
      | None => mret (Err codes.NotFound)
      | Some newVolInfo =>
        reject codes.Internal when negb (String.eqb (ZecVolume_InstanceId newVolInfo) vmId) ;;
        mret (Ok tt)
      end
  end.

Definition ControllerPublishVolume (req : ControllerPublishVolumeRequest) : ctrl (rpc unit) :=
  reject codes.Unimplemented
    when negb (ValidateControllerServiceRequest d ControllerRPC.PUBLISH_UNPUBLISH_VOLUME) ;;
  reject codes.InvalidArgument when len (cp_VolumeId req) =? 0 ;;
  reject codes.InvalidArgument when len (cp_NodeId req) =? 0 ;;
  match cp_VolumeCapability req with
  | None => mret (Err codes.InvalidArgument)
  | Some cap =>
    reject codes.InvalidArgument when negb (ValidateVolumeCapability d cap) ;;
    reject codes.InvalidArgument when cp_Readonly req ;;
    match ParseCsiVolId (cp_VolumeId req) with
    | Err _ => mret (Err codes.NotFound)
    | Ok (volId, _) => with_lock volId (publish_locked volId (cp_NodeId req))
    end
  end.

(** ** ControllerUnpublishVolume *)

Definition unpublish_locked (volId vmId : string) : ctrl (rpc unit) :=
  try exVol <- cloud_try codes.Internal (FindVolume volId) ;
  match exVol with
  | None => mret (Ok tt)
  | Some exVol =>
    if String.eqb (ZecVolume_InstanceId exVol) "" then mret (Ok tt) else
    if negb (String.eqb (ZecVolume_InstanceId exVol) vmId) then mret (Ok tt) else
    try _ <- cloud_try codes.Internal (DetachVolume volId) ;
    mret (Ok tt)
  end.

Definition ControllerUnpublishVolume (req : ControllerUnpublishVolumeRequest)
    : ctrl (rpc unit) :=
  reject codes.Unimplemented
    when negb (ValidateControllerServiceRequest d ControllerRPC.PUBLISH_UNPUBLISH_VOLUME) ;;
  reject codes.InvalidArgument when len (cu_VolumeId req) =? 0 ;;
  reject codes.InvalidArgument when len (cu_NodeId req) =? 0 ;;
  match ParseCsiVolId (cu_VolumeId req) with
  | Err _ => mret (Ok tt)
  | Ok (volId, _) => with_lock volId (unpublish_locked volId (cu_NodeId req))
  end.

(** ** ControllerExpandVolume *)

Definition expand_locked (req : ControllerExpandVolumeRequest) (volId : string)
    : ctrl (rpc ControllerExpandVolumeResponse) :=
  try exVol <- cloud_try codes.Internal (FindVolume volId) ;
  match exVol with
  | None => mret (Err codes.NotFound)
  | Some exVol =>
    let voltype := ZecVolume_Type exVol in
    match NewDefaultZecStorageClassFromType voltype with
    | None => mret (Err codes.Internal)
    | Some sc =>
      match GetRequiredVolumeSizeByte sc (ce_CapacityRange req) with
      | Err _ => mret (Err codes.OutOfRange)
      | Ok requiredSizeBytes =>
        let nodeExpansionRequired :=
          match ce_VolumeCapability req with Some c => negb (is_block c) | None => true end in
        let requiredSizeGib := ByteCeilToGib requiredSizeBytes in
        let actualSizeBytes := GibToByte requiredSizeGib in
        let exVolSizeBytes := GibToByte (ZecVolume_Size exVol) in
        if actualSizeBytes <=? exVolSizeBytes then
          mret (Ok {| cer_CapacityBytes := exVolSizeBytes;
                      cer_NodeExpansionRequired := nodeExpansionRequired |})
        else
          try _ <- cloud_try codes.Internal (ResizeVolume volId requiredSizeGib) ;
          mret (Ok {| cer_CapacityBytes := actualSizeBytes;
                      cer_NodeExpansionRequired := nodeExpansionRequired |})
      end
    end
  end.

Definition ControllerExpandVolume (req : ControllerExpandVolumeRequest)
    : ctrl (rpc ControllerExpandVolumeResponse) :=
  reject codes.Unimplemented
    when negb (ValidateControllerServiceRequest d ControllerRPC.EXPAND_VOLUME) ;;
  reject codes.InvalidArgument when len (ce_VolumeId req) =? 0 ;;
  match ParseCsiVolId (ce_VolumeId req) with
  | Err _ => mret (Err codes.NotFound)
  | Ok (volId, _) => with_lock volId (expand_locked req volId)
  end.

(** ** CreateSnapshot *)

(** The response for a snapshot of the source volume. *)
Definition snapshot_response (snap : ZecVolumeSnap) (snapSize : Z) : ctrl (rpc Snapshot) :=
  ts ← parseSnapCreationTime (ZecVolumeSnap_CreateTime snap);
  mret (Ok {| SnapshotId := ZecVolumeSnap_Id snap;
              SourceVolumeId := ZecVolumeSnap_SrcDiskId snap;
              ReadyToUse := String.eqb (ZecVolumeSnap_status snap) SnapStatusAvailable;
              CreationTime := ts;
              SizeBytes := wrap64 (snapSize * Gib) |}).

(** [NewZecSnapshotClassFromMap] never fails and its result is discarded. *)
Definition create_snapshot_locked (req : CreateSnapshotRequest) (srcVolId : string)
    : ctrl (rpc Snapshot) :=
  let snapName := cs_Name req in
  try exVolInfo <- cloud_try codes.Internal (FindVolume srcVolId) ;
  match exVolInfo with
  | None => mret (Err codes.NotFound)
  | Some exVolInfo =>
    reject codes.Internal when negb (ZecVolume_SnapshotAbility exVolInfo) ;;
    let snapSize := ZecVolume_Size exVolInfo in
    existsnap ← cloud_call (FindSnapshotByName snapName srcVolId (ZecVolume_Zone exVolInfo)
                              (ZecVolume_ResourceGroupId exVolInfo));
    match existsnap with
    | (Some _, Some _) => mret (Err codes.AlreadyExists)
    | (None, Some _) => mret (Err codes.Internal)
    | (Some snap, None) =>
      if String.eqb (ZecVolumeSnap_SrcDiskId snap) srcVolId
      then snapshot_response snap snapSize
      else mret (Err codes.AlreadyExists)
    | (None, None) =>
      order ← range (cs_Parameters req);
      let _ := NewZecSnapshotClassFromMap order in
      try newSnapId <- cloud_try codes.Internal (CloudTypes.CreateSnapshot snapName srcVolId) ;
      try snapInfo <- cloud_try codes.Internal (FindSnapshot newSnapId) ;
      match snapInfo with
      | None => mret (Err codes.Internal)
      | Some snapInfo => snapshot_response snapInfo snapSize
      end
    end
  end.

Definition CreateSnapshot (req : CreateSnapshotRequest) : ctrl (rpc Snapshot) :=
  reject codes.Unimplemented
    when negb (ValidateControllerServiceRequest d ControllerRPC.CREATE_DELETE_SNAPSHOT) ;;
  reject codes.InvalidArgument when len (cs_SourceVolumeId req) =? 0 ;;
  reject codes.InvalidArgument when len (cs_Name req) =? 0 ;;
  reject codes.InvalidArgument when 64 <? len (cs_Name req) ;;
  match ParseCsiVolId (cs_SourceVolumeId req) with
  | Err _ => mret (Err codes.NotFound)
  | Ok (srcVolId, _) => with_lock srcVolId (create_snapshot_locked req srcVolId)
  end.

(** ** DeleteSnapshot *)

Definition delete_snapshot_locked (snapId : string) : ctrl (rpc unit) :=
  try exsnap <- cloud_try codes.Internal (FindSnapshot snapId) ;
  if is_nil exsnap then mret (Ok tt) else
  try _ <- cloud_try codes.Internal (CloudTypes.DeleteSnapshot snapId) ;
  mret (Ok tt).

Definition DeleteSnapshot (req : DeleteSnapshotRequest) : ctrl (rpc unit) :=
  reject codes.Unimplemented
    when negb (ValidateControllerServiceRequest d ControllerRPC.CREATE_DELETE_SNAPSHOT) ;;
  reject codes.InvalidArgument when len (ds_SnapshotId req) =? 0 ;;
  with_lock (ds_SnapshotId req) (delete_snapshot_locked (ds_SnapshotId req)).

(** ** ValidateVolumeCapabilities *)

(** The first capability whose access mode the driver does not report. *)
Fixpoint first_unsupported (caps : list VolumeCapability) : option Z :=
  match caps with
  | [] => None
  | c :: rest =>
    if negb (existsb (fun c1 => c1 =? GetMode c) (d_volumeCap d)) then Some (GetMode c)
    else first_unsupported rest
  end.

Definition ValidateVolumeCapabilities (req : ValidateVolumeCapabilitiesRequest)
    : ctrl (rpc ValidateVolumeCapabilitiesResponse) :=
  reject codes.InvalidArgument when len (vc_VolumeId req) =? 0 ;;
  reject codes.InvalidArgument when Z.of_nat (length (vc_VolumeCapabilities req)) =? 0 ;;
  match ParseCsiVolId (vc_VolumeId req) with
  | Err _ => mret (Err codes.NotFound)
  | Ok (volId, _) =>
    try vol <- cloud_try codes.Internal (FindVolume volId) ;
    reject codes.NotFound when is_nil vol ;;
    match first_unsupported (vc_VolumeCapabilities req) with
    | Some mode => mret (Ok (Unsupported mode))
    | None => mret (Ok (Confirmed (vc_VolumeContext req) (vc_VolumeCapabilities req)
                          (vc_Parameters req)))
    end
  end.

(** ** The handlers without effects *)

Definition ControllerGetCapabilities : ctrl (rpc (list Z)) := mret (Ok (d_controllerCap d)).
Definition GetCapacity : ctrl (rpc Empty_set) := mret (Err codes.Unimplemented).
Definition ControllerGetVolume : ctrl (rpc Empty_set) := mret (Err codes.Unimplemented).
Definition ListVolumes : ctrl (rpc Empty_set) := mret (Err codes.Unimplemented).
Definition ListSnapshots : ctrl (rpc Empty_set) := mret (Err codes.Unimplemented).
End handlers.
End cs.
