(* ===== verification/CtrlProps.v ===== *)
(** * The controller's handlers, call by call

    For each handler, which calls of the cloud manager it may make after which
    answers ([*_allows]), and what its success rests on; [CtrlSpec.v] states the
    properties.  The proofs walk through the handlers in the program logic of
    [Prog.v], over the protocol that records the history. *)

From S2P Require Import Prelude GoStd GoTime Csi Common Prog Locking Driver ZecApi CloudTypes.
From S2P Require Import Ctrl Controller.

Local Open Scope Z_scope.

(** ** Reading a handler's trace *)

(** An obligation on the calls of the cloud manager, given the history. *)
Definition cloud_obl (allows : list (event CtrlE) → ∀ R, CmE R → Prop)
    (h : list (event CtrlE)) (R : Type) (e : CtrlE R) : Prop :=
  match e with CCloud o => allows h _ o | _ => True end.

Abbreviation monitored allows := (hist ctrl_ok (cloud_obl allows)).

Lemma monitored_trace {A} allows (p : ctrl A) Q t a :
  wp (monitored allows) p Q [] → traces ctrl_ok p t a →
  Q a t ∧ ∀ t1 R (o : CmE R) x t2, t = t1 ++ Event (CCloud o) x :: t2 → allows t1 R o.
Proof.
  intros Hwp Ht. destruct (wp_hist_trace _ _ _ _ _ _ Hwp Ht) as [HQ Hobl].
  split; [done|]. intros t1 R o x t2 Heq. exact (Hobl _ _ _ Heq).
Qed.

(** Walk through a handler. *)
Ltac walk := walk_with ltac:(cbn [pre hist cloud_obl]).

(** ** What the cloud manager last answered *)

(** The events of the cloud manager, as a function of the call and its answer. *)
Definition on_cloud {T} (f : ∀ R, CmE R → R → option T) (ev : event CtrlE) : option T :=
  match ev_call ev in Locked _ R return R → option T with
  | Other e => match e in HandlerE R return R → option T with
               | ToCloud o => f _ o
               | ToRt _ => fun _ => None
               end
  | OnLocks _ => fun _ => None
  end (ev_answer ev).

Definition last_of {T} (f : ∀ R, CmE R → R → option T) (h : list (event CtrlE)) : option T :=
  foldl (fun acc ev => match on_cloud f ev with Some x => Some x | None => acc end) None h.

(** The disk [volId], as the last [FindVolume] that found it described it. *)
Definition last_found (volId : string) : list (event CtrlE) → option ZecVolume :=
  last_of (fun R o => match o in CmE R return R → option ZecVolume with
                      | FindVolume v => fun r =>
                        if String.eqb v volId
                        then match r with Ok (Some i) => Some i | _ => None end
                        else None
                      | _ => fun _ => None
                      end).

(** The status of the instance [vmId], as [GetVmStatus] last answered. *)
Definition last_status (vmId : string) : list (event CtrlE) → option (bool * string) :=
  last_of (fun R o => match o in CmE R return R → option (bool * string) with
                      | GetVmStatus m => fun r =>
                        if String.eqb m vmId
                        then match r with Ok st => Some st | _ => None end
                        else None
                      | _ => fun _ => None
                      end).

(** The calls that change something, with their answers. *)
Definition is_change {R} (o : CmE R) : bool :=
  match o with
  | CreateVolume _ _ _ _ _ _ | CreateVolumeFromSnapshot _ _ _ _ _ _ _
  | DeleteVolume _ | AttachVolume _ _ | DetachVolume _ | ResizeVolume _ _
  | CreateSnapshot _ _ | DeleteSnapshot _ => true
  | _ => false
  end.

Definition changes (h : list (event CtrlE)) : nat :=
  length (List.filter (fun ev => match ev_call ev with CCloud o => is_change o | _ => false end) h).

Ltac history :=
  unfold last_found, last_status, last_of, on_cloud, changes;
  cbn; rewrite ?String.eqb_refl; cbn.

Ltac in_history :=
  cbn [app]; repeat first [ apply list_elem_of_here | apply list_elem_of_further ].

(** ** ControllerPublishVolume *)

(** The calls that publishing a volume may make, and when. *)
Definition publish_allows (d : DiskDriver) (req : ControllerPublishVolumeRequest)
    (h : list (event CtrlE)) (R : Type) (o : CmE R) : Prop :=
  ∃ volId serial cap,
    ParseCsiVolId (cp_VolumeId req) = Ok (volId, serial) ∧
    cp_VolumeCapability req = Some cap ∧ GetMode cap ∈ d_volumeCap d ∧ cp_Readonly req = false ∧
    match o with
    | FindVolume v => v = volId
    | GetVmStatus m => m = cp_NodeId req
    | AttachVolume v m =>
        v = volId ∧ m = cp_NodeId req ∧
        ZecVolume_InstanceId <$> last_found volId h = Some "" ∧
        last_status (cp_NodeId req) h = Some (true, VmStatusRunning)
    | _ => False
    end.

Lemma ValidateVolumeCapability_true d cap :
  negb (ValidateVolumeCapability d cap) = false → GetMode cap ∈ d_volumeCap d.
Proof. intros ?%negb_false_iff. by apply existsb_eqb_elem. Qed.

Ltac conditions :=
  conditions_with ltac:(idtac; match goal with
    | H : ValidateVolumeCapability _ _ = true |- _ => apply existsb_eqb_elem in H
    end).

Lemma wp_publish d req :
  wp (monitored (publish_allows d req)) (cs.ControllerPublishVolume d req)
    (fun r t => r = Ok tt → ∃ volId serial,
       ParseCsiVolId (cp_VolumeId req) = Ok (volId, serial) ∧
       ZecVolume_InstanceId <$> last_found volId t = Some (cp_NodeId req) ∧
       (changes t ≤ 1)%nat) [].
Proof.
  walk; try done; conditions; try done.
  all: try (unfold publish_allows; eexists _, _, _; split_and!; try done; history; congruence).
  all: intros _; eexists _, _; split_and!; [done|history; congruence|history; lia].
Qed.

(** ** ControllerUnpublishVolume *)

Definition unpublish_allows (req : ControllerUnpublishVolumeRequest)
    (h : list (event CtrlE)) (R : Type) (o : CmE R) : Prop :=
  ∃ volId serial, ParseCsiVolId (cu_VolumeId req) = Ok (volId, serial) ∧
    match o with
    | FindVolume v => v = volId
    | DetachVolume v =>
        v = volId ∧ ZecVolume_InstanceId <$> last_found volId h = Some (cu_NodeId req)
    | _ => False
    end.

(** What a success of unpublishing rests on. *)
Definition unpublished (req : ControllerUnpublishVolumeRequest) (t : list (event CtrlE)) : Prop :=
  match ParseCsiVolId (cu_VolumeId req) with
  | Err _ => t = []
  | Ok (volId, _) =>
    (changes t = 1%nat ∧ Event (CCloud (DetachVolume volId)) (Ok tt) ∈ t) ∨
    (changes t = 0%nat ∧
     (Event (CCloud (FindVolume volId)) (Ok None) ∈ t ∨
      ∃ v, last_found volId t = Some v ∧ ZecVolume_InstanceId v ≠ cu_NodeId req))
  end.

Lemma wp_unpublish d req :
  wp (monitored (unpublish_allows req)) (cs.ControllerUnpublishVolume d req)
    (fun r t => r = Ok tt → unpublished req t) [].
Proof.
  walk; try done; conditions; try done.
  all: try (unfold unpublish_allows; eexists _, _; split_and!; try done; history; congruence).
  all: intros _; unfold unpublished;
    repeat match goal with H : ParseCsiVolId _ = _ |- _ => rewrite H; clear H end; try done.
  all: first
    [ left; repeat match goal with x : () |- _ => destruct x end; split; [done|in_history]; fail
    | right; split; [done|]; left; in_history; fail
    | right; split; [done|]; right; eexists; split; [history; reflexivity|]; try congruence ].
  intros Hid. enough (len (cu_NodeId req) = 0) by lia. apply len_0. congruence.
Qed.

(** ** ControllerExpandVolume *)

Definition expand_allows (req : ControllerExpandVolumeRequest)
    (h : list (event CtrlE)) (R : Type) (o : CmE R) : Prop :=
  ∃ volId serial, ParseCsiVolId (ce_VolumeId req) = Ok (volId, serial) ∧
    match o with
    | FindVolume v => v = volId
    | ResizeVolume v size =>
        v = volId ∧ ∃ info sc n, last_found volId h = Some info ∧
          NewDefaultZecStorageClassFromType (ZecVolume_Type info) = Some sc ∧
          GetRequiredVolumeSizeByte sc (ce_CapacityRange req) = Ok n ∧ size = ByteCeilToGib n ∧
          GibToByte (ZecVolume_Size info) < GibToByte size
    | _ => False
    end.

Definition expanded (req : ControllerExpandVolumeRequest) (t : list (event CtrlE))
    (resp : ControllerExpandVolumeResponse) : Prop :=
  ∃ volId serial info sc n, ParseCsiVolId (ce_VolumeId req) = Ok (volId, serial) ∧
    last_found volId t = Some info ∧
    NewDefaultZecStorageClassFromType (ZecVolume_Type info) = Some sc ∧
    GetRequiredVolumeSizeByte sc (ce_CapacityRange req) = Ok n ∧
    cer_CapacityBytes resp =
      Z.max (GibToByte (ByteCeilToGib n)) (GibToByte (ZecVolume_Size info)) ∧
    (GibToByte (ByteCeilToGib n) <= GibToByte (ZecVolume_Size info) ∧ changes t = 0%nat ∨
     Event (CCloud (ResizeVolume volId (ByteCeilToGib n))) (Ok tt) ∈ t ∧ changes t = 1%nat) ∧
    cer_NodeExpansionRequired resp =
      negb (match ce_VolumeCapability req with Some c => is_block c | None => false end).

Lemma wp_expand d req :
  wp (monitored (expand_allows req)) (cs.ControllerExpandVolume d req)
    (fun r t => ∀ resp, r = Ok resp → expanded req t resp) [].
Proof.
  walk; try done; conditions; try done.
  all: try (unfold expand_allows; eexists _, _; split_and!; [done|..];
            first [done | eexists _, _, _; split_and!; try done; [history; reflexivity|lia]]).
  all: intros resp [= <-]; unfold expanded; eexists _, _, _, _, _; cbn [cer_CapacityBytes
         cer_NodeExpansionRequired];
    (split_and!; [done|history; reflexivity|done|done|lia| |by destruct (ce_VolumeCapability req)]).
  - left. split; [lia|done].
  - right. repeat match goal with x : () |- _ => destruct x end. split; [in_history|done].
Qed.

(** ** CreateVolume *)

(** What [FindVolumeByName] was last asked (zone, size in GiB, type, group) and
    what it answered. *)
Definition last_search (volName : string) : list (event CtrlE) →
    option (string * Z * string * string * (option ZecVolume * option cerr)) :=
  last_of (fun R o => match o in CmE R return R → _ with
                      | FindVolumeByName n z s ty gr => fun r =>
                        if String.eqb n volName then Some (z, s, ty, gr, r) else None
                      | _ => fun _ => None
                      end).

Definition last_snapshot (snapId : string) : list (event CtrlE) → option ZecVolumeSnap :=
  last_of (fun R o => match o in CmE R return R → option ZecVolumeSnap with
                      | FindSnapshot s => fun r =>
                        if String.eqb s snapId
                        then match r with Ok (Some i) => Some i | _ => None end
                        else None
                      | _ => fun _ => None
                      end).

(** The disk that was created. *)
Definition last_created : list (event CtrlE) → option string :=
  last_of (fun R o => match o in CmE R return R → option string with
                      | CreateVolume _ _ _ _ _ _ => fun r =>
                          match r with Ok v => Some v | _ => None end
                      | CreateVolumeFromSnapshot _ _ _ _ _ _ _ => fun r =>
                          match r with Ok v => Some v | _ => None end
                      | _ => fun _ => None
                      end).

(** The one topology a valid disk is reachable from. *)
Definition disk_segments (d : DiskDriver) (zone : string) : Segments :=
  <[GetTopologyVmTypeKey d := BasicVmName]> {[ GetTopologyZoneKey d := zone ]}.

Lemma GetVolumeTopology_valid d v :
  VolumeType_IsValid (ZecVolume_Type v) = true →
  GetVolumeTopology d (Some v) = [disk_segments d (ZecVolume_Zone v)].
Proof.
  intros Hv. unfold GetVolumeTopology. rewrite Hv. cbn [negb].
  by apply VolumeType_IsValid_iff in Hv as [-> | ->].
Qed.

(** What a creation asks for: the storage class [sc] is the parameters', and [n]
    is the size that it and the range require. *)
Definition class_asked (g : Globals) (req : CreateVolumeRequest) (sc : ZecStorageClass) (n : Z) : Prop :=
  GetRequiredVolumeSizeByte sc (cv_CapacityRange req) = Ok n ∧
  ∃ order, range_of (cv_Parameters req) order ∧ NewZecStorageClassFromMap g order = Ok sc ∧
    (clear_order order → asked_type order = Some (sc_diskType sc)).

(** The zone: the class's when the request has no topology requirement (or the
    driver has no topologies), and else the first preferred topology's, or the first
    requisite one's. *)
Definition zone_asked (d : DiskDriver) (req : CreateVolumeRequest) (sc : ZecStorageClass)
    (zone : string) : Prop :=
  match cv_AccessibilityRequirements req with
  | Some r =>
    if ValidatePluginCapabilityService d PluginService.VOLUME_ACCESSIBILITY_CONSTRAINTS
    then ∃ s, head (Preferred r ++ Requisite r) = Some s ∧
              zone = default "" (s !! GetTopologyZoneKey d)
    else zone = sc_zoneID sc
  | None => zone = sc_zoneID sc
  end.

(** The disk that is searched for and created. *)
Definition disk_asked (g : Globals) (d : DiskDriver) (req : CreateVolumeRequest)
    (size : Z) (ty zone gr : string) (burst : bool) : Prop :=
  ∃ sc n, class_asked g req sc n ∧ zone_asked d req sc zone ∧ size = ByteCeilToGib n ∧
    ty = (if sc_diskType sc =? 1 then "Basic NVMe SSD" else "Standard NVMe SSD") ∧
    gr = sc_placeGroupID sc ∧ burst = sc_burstEnable sc.

(** The checks of the request. *)
Definition create_checked (d : DiskDriver) (req : CreateVolumeRequest) : Prop :=
  ControllerRPC.CREATE_DELETE_VOLUME ∈ d_controllerCap d ∧
  (∃ caps, cv_VolumeCapabilities req = Some caps ∧ ∀ cap, cap ∈ caps → GetMode cap ∈ d_volumeCap d) ∧
  0 < len (cv_Name req) <= 64.

Definition create_allows (g : Globals) (d : DiskDriver) (req : CreateVolumeRequest)
    (h : list (event CtrlE)) (R : Type) (o : CmE R) : Prop :=
  create_checked d req ∧
  match o with
  | FindVolumeByName n zone size ty gr =>
      n = cv_Name req ∧ ∃ burst, disk_asked g d req size ty zone gr burst
  | CreateVolume n size ty zone gr burst =>
      n = cv_Name req ∧ cv_VolumeContentSource req = None ∧ changes h = 0%nat ∧
      last_search n h = Some (zone, size, ty, gr, (None, None)) ∧
      disk_asked g d req size ty zone gr burst
  | CreateVolumeFromSnapshot n size ty zone gr snapId burst =>
      n = cv_Name req ∧ cv_VolumeContentSource req = Some (SourceSnapshot snapId) ∧
      changes h = 0%nat ∧ last_search n h = Some (zone, size, ty, gr, (None, None)) ∧
      disk_asked g d req size ty zone gr burst ∧
      ZecVolumeSnap_DiskAbility <$> last_snapshot snapId h = Some true
  | FindVolume v => last_created h = Some v
  | FindSnapshot snapId => cv_VolumeContentSource req = Some (SourceSnapshot snapId)
  | _ => False
  end.

(** The response describes the disk [info]: one that was there and fits, or the
    one that was created. *)
Definition provisioned (g : Globals) (d : DiskDriver) (req : CreateVolumeRequest)
    (t : list (event CtrlE)) (vol : Volume) : Prop :=
  ∃ info sc n, class_asked g req sc n ∧ sc_diskType sc ∈ [1; 2] ∧
    VolumeId vol = ZecVolume_Id info +:+ "-" +:+ ZecVolume_Serial info ∧
    ZecVolume_Id info ≠ "" ∧ ZecVolume_Serial info ≠ "" ∧
    ContentSource vol = cv_VolumeContentSource req ∧
    (ZecVolume_Type info ∈ [1; 2] →
     AccessibleTopology vol = [disk_segments d (ZecVolume_Zone info)]) ∧
    ((changes t = 0%nat ∧ snd <$> last_search (cv_Name req) t = Some (Some info, None) ∧
      CapacityBytes vol = GibToByte (ZecVolume_Size info) ∧
      (∀ r, cv_CapacityRange req = Some r →
         (0 < RequiredBytes r → RequiredBytes r <= CapacityBytes vol) ∧
         (0 < LimitBytes r → CapacityBytes vol <= LimitBytes r)) ∧
      (∀ r, cv_AccessibilityRequirements req = Some r →
         Requisite r = [] ∨ disk_segments d (ZecVolume_Zone info) ∈ Requisite r) ∧
      ZecVolume_Type info = sc_diskType sc) ∨
     (changes t = 1%nat ∧ snd <$> last_search (cv_Name req) t = Some (None, None) ∧
      last_found (default "" (last_created t)) t = Some info ∧
      CapacityBytes vol = GibToByte (ByteCeilToGib n))).

Lemma genCsiVolId_Ok v id :
  genCsiVolId (Some v) = Ok id →
  id = GenCsiVolId (ZecVolume_Id v) (ZecVolume_Serial v) ∧
  ZecVolume_Id v ≠ "" ∧ ZecVolume_Serial v ≠ "".
Proof.
  unfold genCsiVolId. destruct (_ || _) eqn:Hb; [done|].
  apply orb_false_iff in Hb as [?%String.eqb_neq ?%String.eqb_neq]. by intros [= <-].
Qed.

Lemma NewZecStorageClassFromMap_wf g order sc :
  NewZecStorageClassFromMap g order = Ok sc → sc_wf sc.
Proof. by intros (? & _ & ? & _)%NewZecStorageClassFromMap_Ok. Qed.

Lemma class_asked_intro g req sc n order :
  GetRequiredVolumeSizeByte sc (cv_CapacityRange req) = Ok n →
  range_of (cv_Parameters req) order → NewZecStorageClassFromMap g order = Ok sc →
  class_asked g req sc n.
Proof.
  intros Hn Ho Hsc. split; [done|]. exists order. split_and!; [done..|]. intros Hc.
  apply NewZecStorageClassFromMap_Ok in Hsc as (p & Hp & _ & Ht & _).
  apply sc_loop_asked in Hc. rewrite Hp, <-Ht in Hc. tauto.
Qed.

Lemma VolumeType_IsValid_elem v : VolumeType_IsValid v = true ↔ v ∈ [1; 2].
Proof. rewrite VolumeType_IsValid_iff, !elem_of_cons, elem_of_nil. tauto. Qed.

Lemma class_asked_type g req sc n : class_asked g req sc n → sc_diskType sc ∈ [1; 2].
Proof.
  intros (_ & order & _ & (Hv & _ & _)%NewZecStorageClassFromMap_wf & _).
  by apply VolumeType_IsValid_elem.
Qed.

Lemma class_asked_wf g req sc n : class_asked g req sc n → sc_wf sc.
Proof. by intros (_ & order & _ & ?%NewZecStorageClassFromMap_wf & _). Qed.

Lemma type_name v : v ∈ [1; 2] →
  VolumeType_String v = if v =? 1 then "Basic NVMe SSD" else "Standard NVMe SSD".
Proof. by intros [-> | [-> | []%elem_of_nil]%elem_of_cons]%elem_of_cons. Qed.

Lemma pick_segments_zone d t order t' :
  NoDup order.*1 → pick_segments d t order = Ok t' →
  zoneId t' = default (zoneId t) ((list_to_map order : Segments) !! GetTopologyZoneKey d).
Proof.
  revert t. induction order as [|[k v] order IH]; intros t; [by intros _ [= <-]|].
  csimpl. intros [Hk Hnd]%list.NoDup_cons.
  destruct (String.eqb_spec k (GetTopologyZoneKey d)) as [->|Hne].
  - intros ->%IH; [|done]. rewrite lookup_insert_eq. simpl.
    by rewrite (not_elem_of_list_to_map_1 order).
  - rewrite lookup_insert_ne by done.
    destruct (String.eqb _ _); [|done]. destruct (VmTypeValue !! v); [|done].
    intros H. by rewrite (IH _ Hnd H).
Qed.

Lemma zone_picked d segs order topo :
  range_of segs order → pick_segments d (mkTopology "" 0) order = Ok topo →
  zoneId topo = default "" (segs !! GetTopologyZoneKey d).
Proof.
  intros Ho Hp. pose proof (range_of_NoDup _ _ Ho) as Hnd.
  rewrite (pick_segments_zone _ _ _ _ Hnd Hp). unfold range_of in Ho.
  by rewrite <-(list_to_map_to_list segs), (list_to_map_proper _ _ Hnd Ho).
Qed.

Lemma zone_default d req sc :
  negb (is_nil (cv_AccessibilityRequirements req)) &&
    ValidatePluginCapabilityService d PluginService.VOLUME_ACCESSIBILITY_CONSTRAINTS = false →
  zone_asked d req sc (zoneId (NewTopology (sc_zoneID sc) BasicVmType)).
Proof.
  unfold zone_asked. destruct (cv_AccessibilityRequirements req); [|done]. cbn [is_nil negb andb].
  by intros ->.
Qed.

(** The disk of that name that [FindVolumeByName] found. *)
Lemma existing_provisioned g d req t sc n params info vol z s ty gr :
  class_asked g req sc n → changes t = 0%nat →
  last_search (cv_Name req) t = Some (z, s, ty, gr, (Some info, None)) →
  cs.CreateVolume_existing d req sc params info = Ok vol → provisioned g d req t vol.
Proof.
  intros Hc H0 Hl. unfold cs.CreateVolume_existing.
  destruct (_ && _) eqn:Hb; [|done]. destruct (genCsiVolId _) eqn:Hid; [|done]. intros [= <-].
  apply andb_true_iff in Hb as [Hb Hty%Z.eqb_eq]. apply andb_true_iff in Hb as [Hcap Htop].
  apply genCsiVolId_Ok in Hid as (-> & ? & ?). pose proof (class_asked_type _ _ _ _ Hc) as Hsc.
  exists info, sc, n. split_and!; try done.
  - by intros Hv; apply GetVolumeTopology_valid, VolumeType_IsValid_elem.
  - left. rewrite Hl. split_and!; try done.
    + intros r Hr. apply IsValidCapacityBytes_true. by rewrite <-Hr.
    + intros r Hr. rewrite Hr in Htop. unfold IsValidTopology in Htop.
      rewrite GetVolumeTopology_valid in Htop
        by (rewrite Hty; by apply VolumeType_IsValid_elem).
      destruct (Requisite r) as [|s0 l]; [by left|right].
      apply existsb_exists in Htop as (x & Hx%list_elem_of_In & Heq). cbn in Heq.
      rewrite orb_false_r in Heq. apply bool_decide_eq_true in Heq as ->. done.
Qed.

Ltac search := unfold last_search, last_snapshot, last_created; history.

Lemma ValidateVolumeCapabilities_elem d caps :
  ValidateVolumeCapabilities d caps = true → ∀ cap, cap ∈ caps → GetMode cap ∈ d_volumeCap d.
Proof.
  induction caps as [|c caps IH]; [by intros _ cap ?%elem_of_nil|]. cbn [ValidateVolumeCapabilities].
  destruct (ValidateVolumeAccessMode d (GetMode c)) eqn:Hc; [|done]. apply existsb_eqb_elem in Hc.
  intros Hv cap [->|Hin]%elem_of_cons; [done|]. by apply IH.
Qed.

Lemma CreateVolume_checked d req : cs.CreateVolume_check d req = Ok tt → create_checked d req.
Proof.
  unfold cs.CreateVolume_check, create_checked.
  destruct (ValidateControllerServiceRequest _ _) eqn:Hcap; [|done]. cbn [negb].
  apply existsb_eqb_elem in Hcap.
  destruct (cv_VolumeCapabilities req) as [caps|]; [|done].
  destruct (ValidateVolumeCapabilities d caps) eqn:Hv; [|done]. cbn [negb].
  pose proof (ValidateVolumeCapabilities_elem _ _ Hv).
  destruct (Z.eqb_spec (len (cv_Name req)) 0); [done|].
  destruct (Z.ltb_spec 64 (len (cv_Name req))); [done|]. intros _.
  split_and!; [done|by exists caps|unfold len in *; lia..].
Qed.

(** What the handler asks for is what the request asks for. *)
Ltac zone_asked :=
  try (apply zone_default; assumption); unfold zone_asked;
  match goal with H : cv_AccessibilityRequirements _ = _ |- _ => rewrite H end; cbn beta iota; try done;
  match goal with H : ValidatePluginCapabilityService _ _ = _ |- _ => rewrite H end; cbn beta iota; try done;
  match goal with H : Preferred _ = _ |- _ => rewrite H end;
  try match goal with H : Requisite _ = _ |- _ => rewrite H end;
  (eexists; split; [reflexivity|eapply zone_picked; eassumption]).

Ltac disk_asked :=
  match goal with
  | H : class_asked ?g ?req ?sc ?n |- _ =>
    exists sc, n; split_and!;
      [done|zone_asked|done|by apply type_name; eapply class_asked_type|done|done]
  end.

Ltac asked :=
  repeat match goal with H : ans _ _ (CRt (RangeOrder ?m)) ?o |- _ => change (range_of m o) in H end;
  match goal with
  | H : NewZecStorageClassFromMap ?g _ = Ok ?sc,
    Hn : GetRequiredVolumeSizeByte ?sc (cv_CapacityRange ?req) = Ok ?n |- _ =>
    assert (class_asked g req sc n)
      by (eapply class_asked_intro; [exact Hn| |exact H]; eassumption)
  end.

Lemma wp_create g d req :
  wp (monitored (create_allows g d req)) (cs.CreateVolume g d req)
    (fun r t => ∀ vol, r = Ok vol → provisioned g d req t vol) [].
Proof.
  unfold cs.CreateVolume. destruct (cs.CreateVolume_check d req) as [[]|] eqn:Hcheck; [|done].
  apply CreateVolume_checked in Hcheck.
  walk; try done.
  all: try match goal with H : match ?p with Ok _ => _ | Err _ => _ end = Ok _ |- _ =>
    lazymatch p with pick_segments _ _ _ => destruct p eqn:?; simplify_eq end end.
  all: conditions; try done; asked.
  all: try (split; [done|]; split_and!; try done; first [search; congruence|disk_asked|by eexists; disk_asked]).
  all: intros vol Hvol.
  all: first
    [ eapply existing_provisioned; try eassumption; [done|search; reflexivity]
    | match goal with H : genCsiVolId (Some ?v) = Ok _, Hsc : class_asked _ _ ?sc ?n |- _ =>
        apply genCsiVolId_Ok in H as (-> & ? & ?); simplify_eq;
        pose proof (class_asked_type _ _ _ _ Hsc); exists v, sc, n end;
      split_and!; try done;
      [by intros Hv; apply GetVolumeTopology_valid, VolumeType_IsValid_elem
      |right; split_and!; try done; search; reflexivity] ].
Qed.

(** ** DeleteVolume *)

Lemma DeleteVolume_traces d req t r :
  ValidateControllerServiceRequest d ControllerRPC.CREATE_DELETE_VOLUME = true →
  dv_VolumeId req ≠ "" →
  traces ctrl_ok (cs.DeleteVolume d req) t r ↔
  match ParseCsiVolId (dv_VolumeId req) with
  | Err _ => t = [] ∧ r = Ok tt
  | Ok (volId, _) =>
    t = [Event (CLock (TryAcquireE volId)) false] ∧ r = Err codes.Aborted ∨
    ∃ a, t = [Event (CLock (TryAcquireE volId)) true;
              Event (CCloud (DeleteVolume volId)) a; Event (CLock (ReleaseE volId)) tt] ∧
         r = match a with Ok _ => Ok tt | Err _ => Err codes.Internal end
  end.
Proof.
  intros Hcap Hid. unfold cs.DeleteVolume. rewrite Hcap. cbn [negb].
  destruct (Z.eqb_spec (len (dv_VolumeId req)) 0) as [H0|_]; [by apply len_0 in H0|].
  destruct (ParseCsiVolId _) as [[volId serial]|]; [|done]. split.
  - intros ([] & t1 & -> & _ & Ht); cbn in Ht; [right|left].
    + destruct Ht as (a & t2 & -> & _ & Ht). exists a.
      destruct a as [[]|e]; cbn in Ht; destruct Ht as ([] & t3 & -> & _ & -> & ->); done.
    + destruct Ht as [-> ->]. done.
  - intros [[-> ->]|(a & -> & ->)].
    + eexists false, []. done.
    + eexists true, _. split_and!; [done..|]. eexists a, _. split_and!; [done..|].
      destruct a as [[]|e]; eexists tt, []; done.
Qed.

(** ** Snapshots *)

Definition last_snap_search (snapName : string) : list (event CtrlE) →
    option (option ZecVolumeSnap * option cerr) :=
  last_of (fun R o => match o in CmE R return R → _ with
                      | FindSnapshotByName n _ _ _ => fun r =>
                        if String.eqb n snapName then Some r else None
                      | _ => fun _ => None
                      end).

Definition snapshot_allows (req : CreateSnapshotRequest)
    (h : list (event CtrlE)) (R : Type) (o : CmE R) : Prop :=
  ∃ volId serial, ParseCsiVolId (cs_SourceVolumeId req) = Ok (volId, serial) ∧
    match o with
    | FindVolume v => v = volId
    | FindSnapshotByName n v _ _ => n = cs_Name req ∧ v = volId
    | CreateSnapshot n v =>
        n = cs_Name req ∧ v = volId ∧ changes h = 0%nat ∧
        last_snap_search n h = Some (None, None) ∧
        ZecVolume_SnapshotAbility <$> last_found v h = Some true
    | FindSnapshot _ => changes h = 1%nat
    | _ => False
    end.

(** The response describes the snapshot [snap] of the disk [info]. *)
Definition snapshotted (req : CreateSnapshotRequest) (t : list (event CtrlE)) (s : Snapshot) : Prop :=
  ∃ volId serial info snap,
    ParseCsiVolId (cs_SourceVolumeId req) = Ok (volId, serial) ∧
    last_found volId t = Some info ∧
    SnapshotId s = ZecVolumeSnap_Id snap ∧ SourceVolumeId s = ZecVolumeSnap_SrcDiskId snap ∧
    (ReadyToUse s = true ↔ ZecVolumeSnap_status snap = SnapStatusAvailable) ∧
    SizeBytes s = wrap64 (ZecVolume_Size info * Gib) ∧
    (changes t = 0%nat ∧ last_snap_search (cs_Name req) t = Some (Some snap, None) ∧
     ZecVolumeSnap_SrcDiskId snap = volId ∨
     changes t = 1%nat ∧ last_snap_search (cs_Name req) t = Some (None, None) ∧
     ∃ id, Event (CCloud (CreateSnapshot (cs_Name req) volId)) (Ok id) ∈ t ∧
           Event (CCloud (FindSnapshot id)) (Ok (Some snap)) ∈ t).

Lemma wp_create_snapshot d req :
  wp (monitored (snapshot_allows req)) (cs.CreateSnapshot d req)
    (fun r t => ∀ s, r = Ok s → snapshotted req t s) [].
Proof.
  walk; try done; conditions; try done.
  all: try (unfold snapshot_allows; eexists _, _; split_and!; try done;
            unfold last_snap_search; history; congruence).
  all: intros ? [= <-]; match goal with
    | H : ParseCsiVolId _ = Ok (?v, ?sr), z : ZecVolume, p : ZecVolumeSnap |- _ =>
      exists v, sr, z, p end;
    (split_and!; try done; [history; reflexivity|apply String.eqb_eq|]).
  1,2: left; split_and!; [done|unfold last_snap_search; history; reflexivity|done].
  all: right; split_and!; [done|unfold last_snap_search; history; reflexivity|];
    eexists; split; in_history.
Qed.

(** ** DeleteSnapshot *)

Definition delete_snapshot_allows (req : DeleteSnapshotRequest)
    (h : list (event CtrlE)) (R : Type) (o : CmE R) : Prop :=
  match o with
  | FindSnapshot s => s = ds_SnapshotId req
  | DeleteSnapshot s => s = ds_SnapshotId req ∧ is_Some (last_snapshot s h)
  | _ => False
  end.

Lemma wp_delete_snapshot d req :
  wp (monitored (delete_snapshot_allows req)) (cs.DeleteSnapshot d req)
    (fun r t => r = Ok tt →
       Event (CCloud (DeleteSnapshot (ds_SnapshotId req))) (Ok tt) ∈ t ∨
       Event (CCloud (FindSnapshot (ds_SnapshotId req))) (Ok None) ∈ t ∧ changes t = 0%nat) [].
Proof.
  walk; try done; conditions; try done.
  - intros _. right. split; [in_history|done].
  - split; [done|]. search. done.
  - repeat match goal with x : () |- _ => destruct x end. intros _. left. in_history.
Qed.

(** ** Topologies *)

Lemma append_inj_l (p a b : string) : p +:+ a = p +:+ b → a = b.
Proof. induction p as [|c p IH]; simpl; [done|]. intros [= H]. auto. Qed.

Lemma topology_keys_differ d : GetTopologyVmTypeKey d ≠ GetTopologyZoneKey d.
Proof.
  unfold GetTopologyVmTypeKey, GetTopologyZoneKey. intros H.
  by apply append_inj_l, append_inj_l in H.
Qed.

Lemma pick_disk_segments d zone topo order :
  range_of (disk_segments d zone) order →
  pick_segments d topo order = Ok (mkTopology zone BasicVmType).
Proof.
  unfold range_of, disk_segments. rewrite map_to_list_insert, map_to_list_singleton
    by (rewrite lookup_singleton_ne; [done|apply not_eq_sym, topology_keys_differ]).
  pose proof (topology_keys_differ d) as Hne.
  intros Hp. symmetry in Hp. apply Permutation_length_2_inv in Hp as [-> | ->];
    cbn [pick_segments]; rewrite ?String.eqb_refl, (proj2 (String.eqb_neq _ _) Hne); done.
Qed.
