(* ===== verification/Locks.v ===== *)
(** * The lock discipline of the controller

    Which resources each operation of the cloud manager, and each SDK call,
    changes, and that every handler is balanced and holds the locks of what it
    changes.  The handlers are proved against the interface of the cloud
    manager; an implementation that satisfies the class [CloudDiscipline]
    carries the discipline down to the SDK ([System.v]). *)

From S2P Require Import Prelude GoStd Csi Common Prog Locking Driver ZecApi.
From S2P Require Import CloudTypes Ctrl Controller.

Local Open Scope csi_scope.

(** ** What a call changes *)

(** The resources (disk ids, snapshot ids, names of disks to be) whose cloud
    objects a call changes; the empty list for a call that only reads. *)
Definition cm_scope {R} (o : CmE R) : list string :=
  match o with
  | CreateVolume name _ _ _ _ _ => [name]
  | CreateVolumeFromSnapshot name _ _ _ _ snapId _ => [name; snapId]
  | DeleteVolume volId | DetachVolume volId => [volId]
  | AttachVolume volId _ | ResizeVolume volId _ => [volId]
  | CreateSnapshot _ volId => [volId]
  | DeleteSnapshot snapId => [snapId]
  | _ => []
  end.

Definition api_scope {R} (o : CloudE R) : list string :=
  match o with
  | Api (CreateDisks req) =>
    cdr_DiskName req :: match cdr_SnapshotId req with Some s => [s] | None => [] end
  | Api (ReleaseDisk volId) | Api (ResizeDisk volId _) => [volId]
  | Api (AttachDisks ids _) | Api (DetachDisks ids _) => ids
  | Api (CreateSnapshotApi volId _) => [volId]
  | Api (DeleteSnapshots ids) => ids
  | _ => []
  end.

(** ** The interface: a cloud manager changes what its operation names *)

Class CloudDiscipline (impl : ∀ R, CmE R → prog CloudE R) : Prop := {
  impl_scope : ∀ R (o : CmE R),
    all_calls (fun _ c => api_scope c ⊆ cm_scope o) (impl R o)
}.

(** ** The handlers *)

Definition handler_scope (R : Type) (e : HandlerE R) : list string :=
  match e with ToCloud o => cm_scope o | ToRt _ => [] end.

Ltac balance := balance_with ltac:(simpl handler_scope; simpl cm_scope).

Section handlers.
Context (g : Globals) (d : DiskDriver).

Lemma balanced_CreateVolume req : balanced handler_scope handler_ok (cs.CreateVolume g d req) ∅.
Proof. balance. Qed.

Lemma balanced_DeleteVolume req : balanced handler_scope handler_ok (cs.DeleteVolume d req) ∅.
Proof. balance. Qed.

Lemma balanced_Publish req : balanced handler_scope handler_ok (cs.ControllerPublishVolume d req) ∅.
Proof. balance. Qed.

Lemma balanced_Unpublish req : balanced handler_scope handler_ok (cs.ControllerUnpublishVolume d req) ∅.
Proof. balance. Qed.

Lemma balanced_Expand req : balanced handler_scope handler_ok (cs.ControllerExpandVolume d req) ∅.
Proof. balance. Qed.

Lemma balanced_CreateSnapshot req : balanced handler_scope handler_ok (cs.CreateSnapshot d req) ∅.
Proof. balance. Qed.

Lemma balanced_DeleteSnapshot req : balanced handler_scope handler_ok (cs.DeleteSnapshot d req) ∅.
Proof. balance. Qed.

Lemma balanced_Validate req : balanced handler_scope handler_ok (cs.ValidateVolumeCapabilities d req) ∅.
Proof. balance. Qed.
End handlers.
