(* ===== verification/CloudProps.v ===== *)
(** * What the zec cloud manager guarantees

    The theorems on [Cloud.v]: each operation changes only what it names
    ([zec_discipline], the instance of the interface of [Locks.v]), a success is
    backed by what the cloud answered, waiting ends, searches return live
    matches, and a node's manager makes no call. *)

From S2P Require Import Prelude GoStd Prog Locking ZecApi CloudTypes Driver Cloud Locks.

Local Open Scope Z_scope.
Local Open Scope csi_scope.

(** ** The calls of the cloud manager *)

Section calls.
Context (φ : ∀ R, CloudE R → Prop).
Context (Hticks : φ _ (SelectTicks WaitStatusTimeout WaitStatusInterval)).

Lemma all_calls_wait_loop {T} (f : cloud (result cerr (option T))) t n :
  all_calls φ f → all_calls φ (wait_loop f t n).
Proof.
  intros Hf. induction n as [|n IH]; [done|]. simpl.
  apply all_calls_bind; [done|]. intros [[v|]|e]; [done|exact IH|done].
Qed.

Lemma all_calls_WaitFor {T} (f : cloud (result cerr (option T))) :
  all_calls φ f → all_calls φ (WaitFor f).
Proof.
  intros Hf. unfold WaitFor, WaitForSpecificOrError.
  apply all_calls_bind; [done|]. intros [[v|]|e]; [done| |done].
  apply all_calls_bind; [by apply all_calls_call|]. intros n. by apply all_calls_wait_loop.
Qed.
End calls.

(** Cut a program of the cloud manager into its calls, and prove each with [leaf];
    the loops are left to lemmas. *)
Ltac sdk_calls leaf :=
  repeat lazymatch goal with
    | |- ∀ _, _ => intros ?
    | |- all_calls _ (Ret _) => apply all_calls_ret
    | |- all_calls _ (mret _) => apply all_calls_ret
    | |- all_calls _ (call _) => apply all_calls_call; leaf
    | |- all_calls _ (_ ≫= _) => apply all_calls_bind
    | |- all_calls _ (let _ := _ in _) => cbv zeta
    | |- all_calls _ (match ?x with _ => _ end) => destruct x eqn:?
    | |- all_calls _ (disk_pages _ _ _ _ _ _ _) => idtac
    | |- all_calls _ (snap_pages _ _ _ _ _ _ _) => idtac
    | |- all_calls _ (zec.release_loop _ _ _) => idtac
    | |- all_calls _ (WaitFor _) => apply all_calls_WaitFor; [leaf|]
    | |- all_calls _ ?p => let f := head_of p in progress unfold f
    end.

(** What an operation asks of the SDK: searches, the driver's own timers, and the
    change that it is about. *)
Definition asks {R} (o : CmE R) (R' : Type) (c : CloudE R') : Prop :=
  match c with
  | SelectTicks timeout interval => timeout = WaitStatusTimeout ∧ interval = WaitStatusInterval
  | Api (CreateDisks req) =>
    match o with
    | CreateVolume n z c zone g b => req = disk_request n z c zone g None b ∧ zone ≠ "" ∧ g ≠ ""
    | CreateVolumeFromSnapshot n z c zone g snap b =>
      req = disk_request n z c zone g (Some snap) b ∧ zone ≠ "" ∧ g ≠ "" ∧ snap ≠ ""
    | _ => False
    end
  | Api (ReleaseDisk v) => match o with DeleteVolume u => v = u | _ => False end
  | Api (AttachDisks ids vm) =>
    match o with AttachVolume u x => ids = [u] ∧ vm = x ∧ x ≠ "" | _ => False end
  | Api (DetachDisks ids check) =>
    match o with DetachVolume u => ids = [u] ∧ check = false | _ => False end
  | Api (ResizeDisk v n) => match o with ResizeVolume u m => v = u ∧ n = m | _ => False end
  | Api (CreateSnapshotApi v name) =>
    match o with CreateSnapshot m u => v = u ∧ name = m | _ => False end
  | Api (DeleteSnapshots ids) =>
    match o with DeleteSnapshot s => ids = [s] ∧ s ≠ "" | _ => False end
  | _ => True
  end.

Ltac guards_hold :=
  repeat match goal with
  | H : _ || _ = false |- _ => apply orb_false_iff in H as [? ?]
  | H : String.eqb _ _ = false |- _ => apply String.eqb_neq in H
  end.

Ltac asked := cbn [asks]; guards_hold; auto.

Section asks.
Context {R : Type} (o : CmE R).

Lemma asks_disk_pages name z g ps n pn acc : all_calls (asks o) (disk_pages name z g ps n pn acc).
Proof. revert pn acc. induction n as [|n IH]; intros pn acc; [done|]. cbn [disk_pages]. sdk_calls asked. apply IH. Qed.

Lemma asks_snap_pages name z g ps n pn acc : all_calls (asks o) (snap_pages name z g ps n pn acc).
Proof. revert pn acc. induction n as [|n IH]; intros pn acc; [done|]. cbn [snap_pages]. sdk_calls asked. apply IH. Qed.
End asks.

Lemma asks_release_loop cm volId n : all_calls (asks (DeleteVolume volId)) (zec.release_loop cm volId n).
Proof. induction n as [|n IH]; [done|]. cbn [zec.release_loop]. sdk_calls asked. apply IH. Qed.

Lemma zec_asks cm R (o : CmE R) : all_calls (asks o) (zec_impl cm R o).
Proof.
  destruct o; cbn [zec_impl]; unfold zec.DeleteVolume, zec.FindVolumeByName, zec.FindSnapshotByName;
    sdk_calls asked; auto using asks_disk_pages, asks_snap_pages, asks_release_loop.
Qed.

(** ** Their scope *)

(** The timers of the driver are those of [WaitFor]. *)
Definition standard_timer {R} (c : CloudE R) : Prop :=
  match c with
  | Api _ => True
  | SelectTicks timeout interval => timeout = WaitStatusTimeout ∧ interval = WaitStatusInterval
  end.

Definition within (scope : list string) (R : Type) (c : CloudE R) : Prop :=
  api_scope c ⊆ scope ∧ standard_timer c.

Lemma zec_calls cm R (o : CmE R) : all_calls (within (cm_scope o)) (zec_impl cm R o).
Proof.
  eapply all_calls_mono; [|apply zec_asks].
  intros R' c Hc. destruct c as [R'' a|]; [|by split; [apply list_subseteq_nil|]].
  split; [|done]. destruct a; cbn [api_scope]; try apply list_subseteq_nil;
    destruct o; cbn in Hc |- *; destruct_and?; subst; first [done | set_solver].
Qed.

(** Every operation of the zec manager changes only the disks and snapshots its
    arguments name, and the operations that search change none. *)
#[export] Instance zec_discipline (cm : zecCloudManager) : CloudDiscipline (zec_impl cm).
Proof.
  constructor. intros R o. eapply all_calls_mono; [|apply zec_calls]. by intros R' c [? _].
Qed.

(** ** What waiting tells *)

(** The SDK and the timers answer anything. *)
Definition any_answer : answers CloudE := fun _ _ _ => True.

Abbreviation history := (hist any_answer no_obl).

(** [f] makes one call, whose event satisfies [J v] when [f] stops with [v]. *)
Definition polls {T} (f : cloud (result cerr (option T))) (J : T → event CloudE → Prop) : Prop :=
  ∀ h, wp history f (fun r h' => ∃ ev, h' = h ++ [ev] ∧ ∀ v, r = Ok (Some v) → J v ev) h.

(** The history ends with a call that satisfies [J v]. *)
Definition ends_with {T} (J : T → event CloudE → Prop) (h : list (event CloudE))
    (r : result cerr T) (h' : list (event CloudE)) : Prop :=
  ∀ v, r = Ok v → ∃ t ev, h' = h ++ t ++ [ev] ∧ J v ev.

Section waits.
Context {T : Type} (f : cloud (result cerr (option T))) (J : T → event CloudE → Prop).
Context (Hf : polls f J).

Lemma wp_wait_loop timeout n h : wp history (wait_loop f timeout n) (ends_with J h) h.
Proof.
  revert h. induction n as [|n IH]; intros h; [by intros v|]. cbn [wait_loop].
  eapply wp_bind_mono; [apply Hf|]. intros [[v|]|e] h' (ev & -> & Hev); [|..|by intros v].
  - intros v' [= <-]. exists [], ev. auto.
  - eapply wp_mono; [|apply IH]. intros r h' Hr v ->.
    destruct (Hr v eq_refl) as (t & ev' & -> & ?). exists (ev :: t), ev'.
    split; [|done]. by rewrite <-!app_assoc.
Qed.

Lemma wp_WaitFor h : wp history (WaitFor f) (ends_with J h) h.
Proof.
  unfold WaitFor, WaitForSpecificOrError.
  eapply wp_bind_mono; [apply Hf|]. intros [[v|]|e] h' (ev & -> & Hev); [|..|by intros v].
  - intros v' [= <-]. exists [], ev. auto.
  - split; [done|]. intros ticks _. eapply wp_mono; [|apply wp_wait_loop].
    intros r h' Hr v ->. destruct (Hr v eq_refl) as (t & ev' & -> & ?).
    eexists (ev :: _ :: t), ev'. split; [|done]. simpl. rewrite <-!app_assoc. reflexivity.
Qed.
End waits.

(** ** What a describe call shows *)

(** The call describes the disk [volId] and its answer shows one disk, in a
    status of [target]. *)
Definition shows_status (volId : string) (target : string → bool) (ev : event CloudE) : Prop :=
  ∃ d st rest, ev = Event (Api (DescribeDisks (disks_by_id volId)))
    (Ok (Some {| TotalCount := Some 1; DataSet := Some d :: rest |})) ∧
    di_DiskStatus d = Some st ∧ target st = true.

(** The call describes the disk [volId] and its answer shows no disk. *)
Definition shows_gone (volId : string) (ev : event CloudE) : Prop :=
  ∃ data, ev = Event (Api (DescribeDisks (disks_by_id volId)))
    (Ok (Some {| TotalCount := Some 0; DataSet := data |})).

(** Decompose a program of one call and the branches on its answer. *)
Ltac one_call :=
  intros h; apply wp_bind; split; [done|]; intros [r|?] _; cbn;
  repeat case_match; eexists; (split; [reflexivity|]); intros; simplify_eq.

Lemma polls_disk_status volId target :
  polls (disk_status_job volId target) (fun _ ev => shows_status volId target ev).
Proof.
  one_call. unfold shows_status.
  match goal with H : negb (_ =? 1) = false |- _ =>
    apply negb_false_iff, Z.eqb_eq in H; subst end.
  eauto 10.
Qed.

Lemma polls_disk_deleted volId :
  polls (disk_deleted_job volId) (fun _ ev => shows_gone volId ev).
Proof.
  one_call. match goal with H : (_ =? 0) = true |- _ => apply Z.eqb_eq in H; subst end.
  by eexists.
Qed.

Lemma polls_disk_released volId :
  polls (disk_released_job volId) (fun (gone : bool) ev =>
    if gone then shows_gone volId ev
    else shows_status volId (fun st => String.eqb st DiskStatusRecycled) ev).
Proof.
  one_call.
  - match goal with H : (_ =? 0) = true |- _ => apply Z.eqb_eq in H; subst end. by eexists.
  - match goal with H : negb (_ =? 1) = false |- _ =>
      apply negb_false_iff, Z.eqb_eq in H; subst end.
    unfold shows_status. eauto 10.
Qed.

(** The statuses that [waitDiskStatus] stops at. *)
Definition reached (status volId : string) (ev : event CloudE) : Prop :=
  if String.eqb DiskStatusAvailable status then shows_status volId is_available ev
  else if String.eqb status DiskStatusDeleted then shows_gone volId ev
  else if String.eqb status DiskStatusInUse then shows_status volId is_in_use ev
  else shows_status volId is_stable ev.

Lemma wp_waitDiskStatus status volId h :
  wp history (waitDiskStatus status volId) (ends_with (fun _ => reached status volId) h) h.
Proof.
  unfold waitDiskStatus, reached. destruct (String.eqb volId ""); [by intros v|].
  repeat match goal with |- context [if ?b then _ else _] => destruct b end;
    try (by intros v); apply wp_WaitFor; auto using polls_disk_status, polls_disk_deleted.
Qed.

Lemma wp_waitDiskReleased volId h :
  wp history (waitDiskReleased volId)
    (ends_with (fun (gone : bool) ev =>
       if gone then shows_gone volId ev
       else shows_status volId (fun st => String.eqb st DiskStatusRecycled) ev) h) h.
Proof.
  unfold waitDiskReleased. destruct (String.eqb volId ""); [by intros v|].
  apply wp_WaitFor, polls_disk_released.
Qed.

(** A change: the calls of [first], then waiting for [status]. *)
Definition confirmed_by {A} (first : A → event CloudE → Prop) (last : A → event CloudE → Prop)
    (r : result cerr A) (t : list (event CloudE)) : Prop :=
  ∀ a, r = Ok a → ∃ e1 t' e2, t = e1 :: t' ++ [e2] ∧ first a e1 ∧ last a e2.

Ltac confirm_wait :=
  eapply wp_bind_mono; [apply wp_waitDiskStatus|];
  intros [[]|e'] h' Hend; [|by intros v];
  destruct (Hend tt eq_refl) as (t & ev & -> & Hev);
  intros v [= <-]; eexists _, t, ev; (split; [reflexivity|]); (split; [|exact Hev]); cbn.

Ltac confirm :=
  repeat match goal with |- wp _ (if ?b then _ else _) _ _ => destruct b; [by intros v|] end;
  apply wp_bind, wp_bind; split; [done|]; intros [r|e] _; cbn; [|by intros v];
  case_branches; try (by intros v); confirm_wait.

Section confirmed.
Context (cm : zecCloudManager).

Lemma wp_AttachVolume volId vmId :
  wp history (zec.AttachVolume cm volId vmId)
    (confirmed_by (fun _ ev => ev = Event (Api (AttachDisks [volId] vmId)) (Ok tt))
       (fun _ => shows_status volId is_in_use)) [].
Proof. unfold zec.AttachVolume. confirm. by destruct r. Qed.

Lemma wp_DetachVolume volId :
  wp history (zec.DetachVolume cm volId)
    (confirmed_by (fun _ ev => ∃ failed, ev = Event (Api (DetachDisks [volId] false)) (Ok failed) ∧
                               (failed = None ∨ failed = Some []))
       (fun _ => shows_status volId is_available)) [].
Proof. unfold zec.DetachVolume. confirm; eauto. Qed.

Lemma wp_ResizeVolume volId size :
  wp history (zec.ResizeVolume cm volId size)
    (confirmed_by (fun _ ev => ev = Event (Api (ResizeDisk volId size)) (Ok tt))
       (fun _ => shows_status volId is_stable)) [].
Proof. unfold zec.ResizeVolume. confirm. by destruct r. Qed.

Lemma wp_create_disk request :
  wp history (zec.create_disk request)
    (confirmed_by (fun volId ev => ∃ rest, ev = Event (Api (CreateDisks request))
                                     (Ok (Some (volId :: rest))))
       (fun volId => shows_status volId is_available)) [].
Proof. unfold zec.create_disk. confirm. eauto. Qed.
End confirmed.

(** ** Deleting a disk *)

(** The last call showed that the disk is gone: a describe call found none, or
    the release found none. *)
Definition evidence_gone (volId : string) (ev : event CloudE) : Prop :=
  shows_gone volId ev ∨
  ev = Event (Api (ReleaseDisk volId))
         (Err (ZenlayerCloudSdkError OPERATION_FAILED_RESOURCE_NOT_FOUND)).

Section delete.
Context (cm : zecCloudManager).

(** [FindVolume] makes at most one call, and finds nothing only when the cloud
    has no such disk. *)
Lemma wp_FindVolume volId h :
  wp history (zec.FindVolume cm volId)
    (fun r h' => (∃ t, h' = h ++ t) ∧
       (r = Ok None → ∃ ev, h' = h ++ [ev] ∧ shows_gone volId ev)) h.
Proof.
  unfold zec.FindVolume.
  repeat match goal with |- wp _ (if ?b then _ else _) _ _ =>
    destruct b; [by split; [exists []; rewrite app_nil_r|]|] end.
  apply wp_bind, wp_bind. split; [done|]. intros [r|e] _; cbn; case_branches;
    (split; [by eexists|]); try done.
  intros _. eexists. split; [reflexivity|].
  match goal with H : (_ =? 0) = true |- _ => apply Z.eqb_eq in H; subst end. by eexists.
Qed.

Lemma wp_release_loop volId n h :
  wp history (zec.release_loop cm volId n) (ends_with (fun _ => evidence_gone volId) h) h.
Proof.
  revert h. induction n as [|n IH]; intros h; [by intros v|]. cbn [zec.release_loop].
  eapply wp_bind_mono; [apply wp_FindVolume|].
  intros [[v|]|e] h' [[t ->] Hnone]; [|..|by intros v].
  - apply wp_bind. split; [done|]. intros [[]|e] _; cbn [wp next hist].
    + destruct (String.eqb (ZecVolume_Status v) DiskStatusRecycled).
      * eapply wp_bind_mono; [apply wp_waitDiskStatus|].
        intros [[]|e] h' Hend; [|by intros w]. intros [] _.
        destruct (Hend tt eq_refl) as (t' & ev & -> & Hev).
        exists (t ++ Event (Api (ReleaseDisk volId)) (Ok tt) :: t'), ev.
        split; [by rewrite <-!app_assoc|by left].
      * eapply wp_bind_mono; [apply wp_waitDiskReleased|].
        intros [gone|e] h' Hend; [|by intros w].
        destruct (Hend gone eq_refl) as (t' & ev & -> & Hev). destruct gone.
        -- intros [] _. exists (t ++ Event (Api (ReleaseDisk volId)) (Ok tt) :: t'), ev.
           split; [by rewrite <-!app_assoc|by left].
        -- eapply wp_mono; [|apply IH]. intros r h' Hr [] ->.
           destruct (Hr tt eq_refl) as (t2 & ev2 & -> & Hev2).
           exists (t ++ [Event (Api (ReleaseDisk volId)) (Ok tt)] ++ t' ++ [ev] ++ t2), ev2.
           split; [|exact Hev2]. by rewrite <-!app_assoc.
    + destruct e as [c|]; [|by intros w].
      destruct (String.eqb_spec c OPERATION_FAILED_RESOURCE_NOT_FOUND) as [->|]; [|by intros w].
      intros [] _. eexists t, _. split; [by rewrite <-app_assoc|by right].
  - intros [] _. destruct (Hnone eq_refl) as (ev & -> & Hev). exists [], ev.
    split; [done|by left].
Qed.
End delete.

(** ** Searches by name *)

(** What [FindVolumeByName] looks for: a disk that is not in the recycle bin, in
    the zone, of the type. *)
Definition live_match (zoneID diskType : string) (d : DiskInfo) : Prop :=
  ZecVolume_Status (volume_of_disk d) ≠ DiskStatusRecycled ∧
  ZecVolume_Zone (volume_of_disk d) = zoneID ∧
  ZecVolume_Type (volume_of_disk d) = StringToType diskType.

Lemma pick_volume_result zoneID sizeGB diskType l :
  match pick_volume zoneID sizeGB diskType l with
  | (None, e) => e = None ∧ ∀ d, Some d ∈ l → ¬ live_match zoneID diskType d
  | (Some v, e) => ∃ d, Some d ∈ l ∧ v = volume_of_disk d ∧ live_match zoneID diskType d ∧
      e = if ZecVolume_Size v =? sizeGB then None else Some ErrDiffSize
  end.
Proof.
  induction l as [|[d|] l IH]; cbn [pick_volume].
  - split; [done|]. by intros d []%not_elem_of_nil.
  - assert (Hrest : ¬ live_match zoneID diskType d →
      match pick_volume zoneID sizeGB diskType l with
      | (None, e) => e = None ∧ ∀ d', Some d' ∈ Some d :: l → ¬ live_match zoneID diskType d'
      | (Some v, e) => ∃ d', Some d' ∈ Some d :: l ∧ v = volume_of_disk d' ∧
          live_match zoneID diskType d' ∧
          e = if ZecVolume_Size v =? sizeGB then None else Some ErrDiffSize
      end).
    { intros Hd. destruct (pick_volume _ _ _ l) as [[v|] e].
      - destruct IH as (d' & ? & ?). exists d'. split; [by right|done].
      - destruct IH as [-> IH]. split; [done|]. intros d' [[= ->]|?]%elem_of_cons; auto. }
    destruct (String.eqb_spec (ZecVolume_Status (volume_of_disk d)) DiskStatusRecycled) as [Hs|Hs].
    { apply Hrest. by intros [? _]. }
    destruct (String.eqb_spec zoneID (ZecVolume_Zone (volume_of_disk d))) as [Hz|Hz];
      [|by apply Hrest; intros (_ & ? & _)].
    destruct (Z.eqb_spec (ZecVolume_Type (volume_of_disk d)) (StringToType diskType)) as [Ht|Ht];
      [|by apply Hrest; intros (_ & _ & ?)].
    cbn [andb]. destruct (ZecVolume_Size (volume_of_disk d) =? sizeGB) eqn:Hsz; cbn [negb];
      exists d; rewrite Hsz; (split; [by left|]); by split_and!.
  - destruct (pick_volume _ _ _ l) as [[v|] e].
    + destruct IH as (d' & ? & ?). exists d'. split; [by right|done].
    + destruct IH as [-> IH]. split; [done|]. intros d' [?|?]%elem_of_cons; [done|auto].
Qed.

(** ** Counting calls *)

Definition total (c : event CloudE → nat) (t : list (event CloudE)) : nat := list_sum (c <$> t).

(** Every execution of [p] makes at most [n] calls that [c] counts. *)
Definition at_most (c : event CloudE → nat) (n : nat) {A} (p : cloud A) : Prop :=
  ∀ h, wp history p (fun _ h' => total c h' ≤ total c h + n)%nat h.

Section counting.
Context (c : event CloudE → nat).

Lemma at_most_ret {A} (a : A) n : at_most c n (Ret a).
Proof. intros h. simpl. lia. Qed.

Lemma at_most_bind {A B} (p : cloud A) (f : A → cloud B) n m :
  at_most c n p → (∀ a, at_most c m (f a)) → at_most c (n + m)%nat (p ≫= f).
Proof.
  intros Hp Hf h. eapply wp_bind_mono; [apply Hp|]. intros a h' Hh.
  eapply wp_mono; [|apply Hf]. simpl in *. intros. lia.
Qed.

Lemma at_most_call {R} (e : CloudE R) n :
  (∀ r, c (Event e r) ≤ n)%nat → at_most c n (call e).
Proof.
  intros Hc h. split; [done|]. intros r _. simpl. specialize (Hc r).
  unfold total. rewrite fmap_app, list_sum_app. simpl. lia.
Qed.

Lemma at_most_mono {A} (p : cloud A) n m : (n ≤ m)%nat → at_most c n p → at_most c m p.
Proof. intros Hnm Hp h. eapply wp_mono; [|apply Hp]. simpl in *. intros. lia. Qed.

Lemma at_most_traces {A} n (p : cloud A) t a :
  at_most c n p → traces any_answer p t a → (total c t ≤ n)%nat.
Proof.
  intros Hp Ht. destruct (wp_hist_trace _ _ _ _ _ _ (Hp []) Ht) as [H _]. exact H.
Qed.

(** A wait counts for [n] when a poll counts for nothing and its timer for [n]. *)
Lemma at_most_WaitFor {T} (f : cloud (result cerr (option T))) n :
  at_most c 0 f → (∀ r, c (Event (SelectTicks WaitStatusTimeout WaitStatusInterval) r) ≤ n)%nat →
  at_most c n (WaitFor f).
Proof.
  intros Hf Hn. unfold WaitFor, WaitForSpecificOrError.
  apply (at_most_bind _ _ 0 n); [done|]. intros [[v|]|e]; try apply at_most_ret.
  rewrite <-(Nat.add_0_r n). apply at_most_bind; [by apply at_most_call|].
  intros ticks. induction ticks as [|k IH]; [apply at_most_ret|]. cbn [wait_loop].
  apply (at_most_bind _ _ 0 0); [done|]. intros [[v|]|e]; [apply at_most_ret|apply IH|apply at_most_ret].
Qed.
End counting.

Section costs.
Context (c : event CloudE → nat) (w r : nat).
Context (Hapi : ∀ R (o : ZecE R) a, (c (Event (Api o) a) ≤ match o with ReleaseDisk _ => r | _ => 0 end)%nat).
Context (Hwait : ∀ n, (c (Event (SelectTicks WaitStatusTimeout WaitStatusInterval) n) ≤ w)%nat).

Lemma at_most_bind0 {A B} (p : cloud A) (f : A → cloud B) n :
  at_most c 0 p → (∀ a, at_most c n (f a)) → at_most c n (p ≫= f).
Proof. apply (at_most_bind c p f 0 n). Qed.

Lemma at_most_bind1 {A B} (p : cloud A) (f : A → cloud B) n :
  at_most c n p → (∀ a, at_most c 0 (f a)) → at_most c n (p ≫= f).
Proof. intros. rewrite <-(Nat.add_0_r n). by apply at_most_bind. Qed.

Ltac count_calls :=
  repeat lazymatch goal with
    | |- ∀ _, _ => intros ?
    | |- at_most _ _ (Ret _) => apply at_most_ret
    | |- at_most _ _ (mret _) => apply at_most_ret
    | |- at_most _ _ (call (Api _)) => apply at_most_call; intros ?; apply Hapi
    | |- at_most _ _ (waitDiskStatus _ _ ≫= _) => apply at_most_bind1
    | |- at_most _ _ (waitDiskReleased _ ≫= _) => apply at_most_bind1
    | |- at_most _ _ (waitDiskSnapStatus _ _ ≫= _) => apply at_most_bind1
    | |- at_most _ _ (_ ≫= _) => apply at_most_bind0
    | |- at_most _ _ (let _ := _ in _) => cbv zeta
    | |- at_most _ _ (WaitFor _) => apply at_most_WaitFor; [|exact Hwait]
    | |- at_most _ _ (zec.release_loop _ _ _) => idtac
    | |- at_most _ _ (disk_pages _ _ _ _ _ _ _) => idtac
    | |- at_most _ _ (snap_pages _ _ _ _ _ _ _) => idtac
    | |- at_most _ _ (match ?x with _ => _ end) => destruct x
    | |- at_most _ _ ?p => let f := head_of p in progress unfold f
    end.

Lemma at_most_waitDiskStatus st volId : at_most c w (waitDiskStatus st volId).
Proof. count_calls. Qed.

Lemma at_most_waitDiskReleased volId : at_most c w (waitDiskReleased volId).
Proof. count_calls. Qed.

Lemma at_most_disk_pages name z g ps n pn acc : at_most c 0 (disk_pages name z g ps n pn acc).
Proof.
  revert pn acc. induction n as [|n IH]; intros pn acc; [apply at_most_ret|].
  cbn [disk_pages]. count_calls; apply IH.
Qed.

Lemma at_most_snap_pages name z g ps n pn acc : at_most c 0 (snap_pages name z g ps n pn acc).
Proof.
  revert pn acc. induction n as [|n IH]; intros pn acc; [apply at_most_ret|].
  cbn [snap_pages]. count_calls; apply IH.
Qed.

(** One round of [DeleteVolume] costs a release and a wait. *)
Lemma at_most_release_loop cm volId n : at_most c (n * (r + w)) (zec.release_loop cm volId n).
Proof.
  induction n as [|n IH]; [apply at_most_ret|]. cbn [zec.release_loop].
  apply at_most_bind0; [count_calls|]. intros [[v|]|e]; [|apply at_most_ret..].
  cbv zeta. rewrite Nat.mul_succ_l, Nat.add_comm, <-Nat.add_assoc.
  apply at_most_bind; [apply at_most_call; intros; apply Hapi|].
  intros [[]|[code|]]; [|count_calls..]. destruct (String.eqb _ _).
  - eapply at_most_mono; [|apply at_most_bind1; [apply at_most_waitDiskStatus|]]; [lia|count_calls].
  - apply at_most_bind; [apply at_most_waitDiskReleased|]. intros [[]|e]; [count_calls|exact IH|count_calls].
Qed.

(** The waits and releases of each operation. *)
Definition cost {R} (o : CmE R) : nat :=
  match o with
  | DeleteVolume _ => maxReleaseDiskTimes * (r + w)
  | CreateVolume _ _ _ _ _ _ | CreateVolumeFromSnapshot _ _ _ _ _ _ _
  | AttachVolume _ _ | DetachVolume _ | ResizeVolume _ _
  | CreateSnapshot _ _ | DeleteSnapshot _ => w
  | _ => 0
  end.

Lemma at_most_cost cm R (o : CmE R) : at_most c (cost o) (zec_impl cm R o).
Proof.
  destruct o; cbn [zec_impl cost]; count_calls;
    auto using at_most_disk_pages, at_most_snap_pages, at_most_release_loop.
Qed.
End costs.

(** ** Snapshots *)

Definition shows_snapshot (snapshotId : string) (ev : event CloudE) : Prop :=
  ∃ s rest, ev = Event (Api (DescribeSnapshots (snaps_by_id snapshotId)))
    (Ok (Some {| TotalCount := Some 1; DataSet := Some s :: rest |})) ∧
    si_Status s = Some SnapStatusAvailable.

Definition shows_no_snapshot (snapshotId : string) (ev : event CloudE) : Prop :=
  ∃ data, ev = Event (Api (DescribeSnapshots (snaps_by_id snapshotId)))
    (Ok (Some {| TotalCount := Some 0; DataSet := data |})).

Lemma polls_snap_status snapshotId :
  polls (snap_status_job snapshotId) (fun _ ev => shows_snapshot snapshotId ev).
Proof.
  one_call. unfold shows_snapshot.
  match goal with H : negb (_ =? 1) = false |- _ =>
    apply negb_false_iff, Z.eqb_eq in H; subst end.
  match goal with H : String.eqb _ _ = true |- _ => apply String.eqb_eq in H; subst end.
  eauto 10.
Qed.

Lemma polls_snap_deleted snapshotId :
  polls (snap_deleted_job snapshotId) (fun _ ev => shows_no_snapshot snapshotId ev).
Proof.
  one_call. match goal with H : (_ =? 0) = true |- _ => apply Z.eqb_eq in H; subst end.
  by eexists.
Qed.

Lemma wp_waitDiskSnapStatus status snapshotId h :
  wp history (waitDiskSnapStatus status snapshotId)
    (ends_with (fun _ ev => if String.eqb SnapStatusAvailable status
                            then shows_snapshot snapshotId ev
                            else shows_no_snapshot snapshotId ev) h) h.
Proof.
  unfold waitDiskSnapStatus. destruct (String.eqb snapshotId ""); [by intros v|].
  repeat match goal with |- context [if ?b then _ else _] => destruct b end;
    try (by intros v); apply wp_WaitFor; auto using polls_snap_status, polls_snap_deleted.
Qed.

Section snapshots.
Context (cm : zecCloudManager).

Lemma wp_CreateSnapshot name volId :
  wp history (zec.CreateSnapshot cm name volId)
    (confirmed_by (fun id ev => ev = Event (Api (CreateSnapshotApi volId name)) (Ok (Some (Some id))))
       (fun id => shows_snapshot id)) [].
Proof.
  unfold zec.CreateSnapshot.
  repeat match goal with |- wp _ (if ?b then _ else _) _ _ => destruct b; [by intros v|] end.
  apply wp_bind, wp_bind; split; [done|]; intros [r|e] _; cbn; [|by intros v].
  case_branches; try (by intros v). eapply wp_bind_mono; [apply wp_waitDiskSnapStatus|].
  intros [[]|e'] h' Hend; [|by intros v]. destruct (Hend tt eq_refl) as (t & ev & -> & Hev).
  intros v [= <-]. eexists _, t, ev. auto.
Qed.

Lemma wp_DeleteSnapshot id :
  wp history (zec.DeleteSnapshot cm id)
    (fun r t => r = Ok tt →
       t = [Event (Api (DeleteSnapshots [id]))
              (Err (ZenlayerCloudSdkError INVALID_DISK_SNAPSHOT_NOT_FOUND))] ∨
       ∃ t' ev, t = Event (Api (DeleteSnapshots [id])) (Ok (Some [])) :: t' ++ [ev] ∧
                shows_no_snapshot id ev) [].
Proof.
  unfold zec.DeleteSnapshot.
  repeat match goal with |- wp _ (if ?b then _ else _) _ _ => destruct b; [by intros v|] end.
  apply wp_bind; split; [done|]; intros [[[|x l]|]|[c|]] _; cbn; try by intros v.
  - eapply wp_bind_mono; [apply wp_waitDiskSnapStatus|].
    intros [[]|e'] h' Hend; [|by intros v]. destruct (Hend tt eq_refl) as (t & ev & -> & Hev).
    intros _. right. by exists t, ev.
  - destruct (String.eqb_spec c INVALID_DISK_SNAPSHOT_NOT_FOUND) as [->|]; [|by intros v].
    intros _. by left.
Qed.
End snapshots.
