(* ===== verification/System.v ===== *)
(** * The controller as a server of concurrent requests

    The registered controller service: its requests, the handler of each, and
    the handlers implemented down to the SDK by a cloud manager, which may be any
    implementation of the interface that satisfies [CloudDiscipline].  The cloud
    answers anything: what other requests, other clients and failures do to it
    is not restricted.  [controller_disciplined] is what [Serve.v] needs to run
    them concurrently. *)

From S2P Require Import Prelude GoStd Csi Common Prog Locking Serve Driver ZecApi.
From S2P Require Import CloudTypes Ctrl Controller Locks.

Local Open Scope csi_scope.

(** ** Handlers down to the SDK *)

Inductive BackE : Type → Type :=
| ToSdk {R : Type} (o : CloudE R) : BackE R
| ToBackRt {R : Type} (o : RtE R) : BackE R.

Abbreviation SysE := (Locked BackE).
Abbreviation SLock o := (OnLocks (F:=BackE) o).
Abbreviation SCloud o := (Other (ToSdk o)).

Definition back_ok : answers BackE := fun R e =>
  match e in BackE R return R → Prop with
  | ToSdk _ => fun _ => True
  | ToBackRt o => rt_ok _ o
  end.

Definition back_scope (R : Type) (e : BackE R) : list string :=
  match e with ToSdk o => api_scope o | ToBackRt _ => [] end.

Definition handler_impl (impl : ∀ R, CmE R → prog CloudE R) (R : Type) (e : HandlerE R)
    : prog BackE R :=
  match e in HandlerE R return prog BackE R with
  | ToCloud o => interp (fun R o => call (ToSdk o)) (impl _ o)
  | ToRt o => call (ToBackRt o)
  end.

Definition sys_impl (impl : ∀ R, CmE R → prog CloudE R) (R : Type) (e : CtrlE R) : prog SysE R :=
  locked_impl (handler_impl impl) R e.

(** ** Requests *)

Inductive request : Type :=
| ReqCreateVolume (r : CreateVolumeRequest)
| ReqDeleteVolume (r : DeleteVolumeRequest)
| ReqPublish (r : ControllerPublishVolumeRequest)
| ReqUnpublish (r : ControllerUnpublishVolumeRequest)
| ReqExpand (r : ControllerExpandVolumeRequest)
| ReqCreateSnapshot (r : CreateSnapshotRequest)
| ReqDeleteSnapshot (r : DeleteSnapshotRequest)
| ReqValidate (r : ValidateVolumeCapabilitiesRequest).

Inductive response : Type :=
| RespVolume (v : Volume)
| RespEmpty
| RespExpand (r : ControllerExpandVolumeResponse)
| RespSnapshot (s : Snapshot)
| RespValidate (r : ValidateVolumeCapabilitiesResponse).

Definition respond {A} (f : A → response) (p : ctrl (rpc A)) : ctrl (rpc response) :=
  try x <- p ; mret (Ok (f x)).

(** The registered controller service: a request to its handler. *)
Definition handle (g : Globals) (d : DiskDriver) (r : request) : ctrl (rpc response) :=
  match r with
  | ReqCreateVolume r => respond RespVolume (cs.CreateVolume g d r)
  | ReqDeleteVolume r => respond (fun _ => RespEmpty) (cs.DeleteVolume d r)
  | ReqPublish r => respond (fun _ => RespEmpty) (cs.ControllerPublishVolume d r)
  | ReqUnpublish r => respond (fun _ => RespEmpty) (cs.ControllerUnpublishVolume d r)
  | ReqExpand r => respond RespExpand (cs.ControllerExpandVolume d r)
  | ReqCreateSnapshot r => respond RespSnapshot (cs.CreateSnapshot d r)
  | ReqDeleteSnapshot r => respond (fun _ => RespEmpty) (cs.DeleteSnapshot d r)
  | ReqValidate r => respond RespValidate (cs.ValidateVolumeCapabilities d r)
  end.

(** ** The server *)

Section controller.
Context (g : Globals) (d : DiskDriver) (impl : ∀ R, CmE R → prog CloudE R).

Definition controller : server :=
  mkServer request (rpc response) BackE back_ok (fun _ => back_scope)
    (fun r => interp (sys_impl impl) (handle g d r)).

Context `{!CloudDiscipline impl}.

Lemma confined_handler_impl R (e : HandlerE R) :
  confined back_scope back_ok (handler_scope R e) (handler_ok R e) (handler_impl impl R e).
Proof.
  destruct e as [R o|R o]; [|by split; [apply list_subseteq_nil|]].
  apply confined_all_calls. pose proof (impl_scope R o) as H. unfold all_calls in *. simpl.
  revert H. generalize (impl R o). intros p. induction p as [a|R' e k IH]; simpl; [done|].
  intros [He Hk]. split; [done|]. intros r _. apply IH, Hk, I.
Qed.

Lemma balanced_handle r : balanced handler_scope handler_ok (handle g d r) ∅.
Proof.
  destruct r; unfold handle, respond; (apply balanced_bind; [|by intros []]);
    auto using balanced_CreateVolume, balanced_DeleteVolume, balanced_Publish,
      balanced_Unpublish, balanced_Expand, balanced_CreateSnapshot, balanced_DeleteSnapshot,
      balanced_Validate.
Qed.

#[export] Instance controller_disciplined : Disciplined controller.
Proof.
  intros r. apply wp_locked_impl with handler_scope handler_ok;
    [apply confined_handler_impl|apply balanced_handle].
Qed.
End controller.
