(* ===== verification/Sim.v ===== *)
(** * A concrete cloud

    A small cloud that behaves as its API documentation says, with immediate
    completion of its tasks.  It is no part of the driver: the examples of the
    properties run the handlers against it. *)

From S2P Require Import Prelude GoStd Csi Common Prog Locking Serve Driver ZecApi.
From S2P Require Import CloudTypes Ctrl Controller Locks System.

Local Open Scope Z_scope.

Record world : Type := mkWorld {
  w_disks : list DiskInfo;
  w_snaps : list SnapshotInfo;
  (** instance ids and statuses *)
  w_vms : list (string * string);
  (** the ids and serials of the disks to be created *)
  w_fresh : list (string * string)
}.

Definition with_disks (w : world) (l : list DiskInfo) : world :=
  mkWorld l (w_snaps w) (w_vms w) (w_fresh w).
Definition with_snaps (w : world) (l : list SnapshotInfo) : world :=
  mkWorld (w_disks w) l (w_vms w) (w_fresh w).

Definition opt_eqb (a : option string) (b : string) : bool :=
  match a with Some x => String.eqb x b | None => false end.

Definition disk_is (volId : string) (d : DiskInfo) : bool := opt_eqb (di_DiskId d) volId.

Definition set_disk (d : DiskInfo) (status instance : string) (size : Z) : DiskInfo :=
  {| di_DiskId := di_DiskId d; di_DiskName := di_DiskName d; di_ZoneId := di_ZoneId d;
     di_DiskCategory := di_DiskCategory d; di_DiskSize := Some size;
     di_DiskStatus := Some status; di_InstanceId := Some instance; di_Serial := di_Serial d;
     di_Portable := di_Portable d; di_SnapshotAbility := di_SnapshotAbility d;
     di_ResourceGroupId := di_ResourceGroupId d |}.

Definition size_of (d : DiskInfo) : Z := default 0 (di_DiskSize d).
Definition status_of (d : DiskInfo) : string := default "" (di_DiskStatus d).
Definition instance_of (d : DiskInfo) : string := default "" (di_InstanceId d).

Definition update (volId : string) (f : DiskInfo → DiskInfo) (w : world) : world :=
  with_disks w ((fun d => if disk_is volId d then f d else d) <$> w_disks w).

Definition page_of {T : Set} (all : list T) (ps pn : option Z) : page T :=
  let data := match ps, pn with
              | Some ps, Some pn => take (Z.to_nat ps) (drop (Z.to_nat ((pn - 1) * ps)) all)
              | _, _ => all
              end in
  {| TotalCount := Some (Z.of_nat (length all)); DataSet := Some <$> data |}.

Definition matches_disk (req : DescribeDisksRequest) (d : DiskInfo) : bool :=
  match ddr_DiskIds req with
  | [] => match ddr_DiskName req, di_DiskName d with
          | Some n, Some m => String.eqb n ("^" +:+ m +:+ "$")
          | _, _ => true
          end
  | ids => existsb (fun i => disk_is i d) ids
  end.

Definition matches_snap (req : DescribeSnapshotsRequest) (s : SnapshotInfo) : bool :=
  match dsr_SnapshotIds req with
  | [] => match dsr_SnapshotName req, si_SnapshotName s with
          | Some n, Some m => String.eqb n ("^" +:+ m +:+ "$")
          | _, _ => true
          end
  | ids => existsb (opt_eqb (si_SnapshotId s)) ids
  end.

Definition release (volId : string) (w : world) : sdk unit * world :=
  match filter (fun d => disk_is volId d = true) (w_disks w) with
  | [] => (Err (ZenlayerCloudSdkError OPERATION_FAILED_RESOURCE_NOT_FOUND), w)
  | d :: _ =>
    if String.eqb (status_of d) DiskStatusRecycled
    then (Ok tt, with_disks w (filter (fun d => disk_is volId d = false) (w_disks w)))
    else (Ok tt, update volId (fun d => set_disk d DiskStatusRecycled "" (size_of d)) w)
  end.

Definition create (req : CreateDisksRequest) (w : world) : sdk (option (list string)) * world :=
  match w_fresh w with
  | [] => (Err OtherError, w)
  | (id, serial) :: fresh =>
    let d := {| di_DiskId := Some id; di_DiskName := Some (cdr_DiskName req);
                di_ZoneId := Some (cdr_ZoneId req);
                di_DiskCategory := Some (cdr_DiskCategory req);
                di_DiskSize := Some (cdr_DiskSize req);
                di_DiskStatus := Some DiskStatusAvailable; di_InstanceId := None;
                di_Serial := Some serial; di_Portable := Some true;
                di_SnapshotAbility := Some true;
                di_ResourceGroupId := Some (cdr_ResourceGroupId req) |} in
    (Ok (Some [id]), mkWorld (w_disks w ++ [d]) (w_snaps w) (w_vms w) fresh)
  end.

Definition snapshot (volId name : string) (w : world) : sdk (option (option string)) * world :=
  let id := "snap-" +:+ name in
  let s := {| si_SnapshotId := Some id; si_SnapshotName := Some name; si_ZoneId := None;
              si_Status := Some SnapStatusAvailable; si_DiskId := Some volId;
              si_CreateTime := Some "2025-01-01T00:00:00Z"; si_DiskAbility := Some true;
              si_ResourceGroup := None |} in
  (Ok (Some (Some id)), with_snaps w (w_snaps w ++ [s])).

Definition api_env : env ZecE world := fun R o =>
  match o in ZecE R return world → R * world with
  | DescribeDiskRegions => fun w => (Ok (Some []), w)
  | CreateDisks req => create req
  | ReleaseDisk volId => release volId
  | AttachDisks ids vmId => fun w =>
      (Ok tt, foldr (fun i => update i (fun d => set_disk d DiskStatusInUse vmId (size_of d))) w ids)
  | DetachDisks ids _ => fun w =>
      (Ok (Some []), foldr (fun i => update i (fun d => set_disk d DiskStatusAvailable "" (size_of d)))
                       w ids)
  | ResizeDisk volId size => fun w =>
      (Ok tt, update volId (fun d => set_disk d (status_of d) (instance_of d) size) w)
  | DescribeDisks req => fun w =>
      (Ok (Some (page_of (filter (fun d => matches_disk req d = true) (w_disks w))
                   (ddr_PageSize req) (ddr_PageNum req))), w)
  | DescribeInstances ids => fun w =>
      (Ok (Some (page_of ((fun v => {| ii_InstanceId := Some v.1; ii_Status := Some v.2;
                                       ii_ZoneId := None |})
                          <$> filter (fun v => v.1 ∈ ids) (w_vms w)) None None)), w)
  | DescribeZones => fun w => (Ok tt, w)
  | DescribeInstancesStatus ids => fun w =>
      (Ok (Some (page_of ((fun v => {| is_InstanceId := Some v.1; is_InstanceStatus := Some v.2 |})
                          <$> filter (fun v => v.1 ∈ ids) (w_vms w)) None None)), w)
  | CreateSnapshotApi volId name => snapshot volId name
  | DeleteSnapshots ids => fun w =>
      (Ok (Some []), with_snaps w (filter (fun s => existsb (opt_eqb (si_SnapshotId s)) ids = false)
                                     (w_snaps w)))
  | DescribeSnapshots req => fun w =>
      (Ok (Some (page_of (filter (fun s => matches_snap req s = true) (w_snaps w))
                   (dsr_PageSize req) (dsr_PageNum req))), w)
  end.

Definition cloud_env : env CloudE world := fun R o =>
  match o in CloudE R return world → R * world with
  | Api a => api_env _ a
  | SelectTicks timeout interval => fun w => (Z.to_nat (timeout / interval), w)
  end.

Definition rt_env (R : Type) (o : RtE R) : R :=
  match o in RtE R return R with
  | Now => {| seconds := 0; nanos := 0 |}
  | RangeOrder m => map_to_list m
  end.

Definition back_env : env BackE world := fun R e =>
  match e in BackE R return world → R * world with
  | ToSdk o => cloud_env _ o
  | ToBackRt o => fun w => (rt_env _ o, w)
  end.

Definition sys_env : env SysE (ResourceLocks * world) := locked_env back_env.

Lemma rt_env_ok R (o : RtE R) : rt_ok R o (rt_env R o).
Proof. destruct o; [done|]. simpl. unfold range_of. reflexivity. Qed.

Lemma back_env_ok R (o : BackE R) w : back_ok R o (back_env R o w).1.
Proof. destruct o as [R o|R o]; [done|apply rt_env_ok]. Qed.

(** ** An example configuration *)

Module Example.
Definition driver : DiskDriver :=
  InitDiskDriver GetDiskDriver (Some
    {| in_Name := "disk.csi.zenlayer.com"; in_Version := "v1"; in_NodeId := "vm-1";
       in_ZoneId := "asia-a"; in_MaxVolume := 9;
       in_VolumeCap := DefaultVolumeAccessModeType;
       in_ControllerCap := DefaultControllerServiceCapability;
       in_NodeCap := DefaultNodeServiceCapability; in_PluginCap := DefaultPluginCapability |}).
Definition globals : Globals :=
  {| FeatureGates := []; DefaultZone := ""; DefaultResourceGroup := ""; MixDriver := false |}.
Definition diskId : string := "1234567890123456789".
Definition serial : string := "abcdeabcdeabcdeabcde".
Definition csiId : string := GenCsiVolId diskId serial.
Definition writer : VolumeCapability :=
  {| AccessMode_ := Some AccessMode.SINGLE_NODE_WRITER; AccessType_ := Some Block |}.
Definition disk (status instance : string) (size : Z) : DiskInfo :=
  {| di_DiskId := Some diskId; di_DiskName := Some "pvc-1"; di_ZoneId := Some "asia-a";
     di_DiskCategory := Some BasicNvmeName; di_DiskSize := Some size;
     di_DiskStatus := Some status; di_InstanceId := Some instance; di_Serial := Some serial;
     di_Portable := Some true; di_SnapshotAbility := Some true;
     di_ResourceGroupId := Some "group" |}.
(** One free disk of 20 GiB and one running instance. *)
Definition cloud0 : world :=
  mkWorld [disk DiskStatusAvailable "" 20] [] [("vm-1", VmStatusRunning)] [].
(** The disk attached to the instance. *)
Definition cloud1 : world :=
  mkWorld [disk DiskStatusInUse "vm-1" 20] [] [("vm-1", VmStatusRunning)] [].
(** No disk, and one that can be created. *)
Definition cloud2 : world := mkWorld [] [] [("vm-1", VmStatusRunning)] [(diskId, serial)].
Definition create_request : CreateVolumeRequest :=
  {| cv_Name := "pvc-1";
     cv_CapacityRange := Some {| RequiredBytes := 21474836481; LimitBytes := 0 |};
     cv_VolumeCapabilities := Some [writer];
     cv_Parameters := <["zoneID" := "asia-a"]> {[ "placeGroupID" := "group" ]};
     cv_VolumeContentSource := None; cv_AccessibilityRequirements := None |}.
Definition publish_request : ControllerPublishVolumeRequest :=
  {| cp_VolumeId := csiId; cp_NodeId := "vm-1"; cp_VolumeCapability := Some writer;
     cp_Readonly := false |}.
End Example.
