(* ===== verification/CloudSpec.v ===== *)
(** * Properties of the zec cloud manager

    For every answer of the SDK and of the timers: what a success of an
    operation proves about the cloud, how often it waits and releases, what the
    searches return, and what a node's manager may do. *)

From S2P Require Import Prelude GoStd Prog Locking ZecApi CloudTypes Driver Cloud Locks.
From S2P Require Import CloudProps Ctrl System Sim.

Local Open Scope Z_scope.

Definition example_cm : zecCloudManager := {| zecClient := true; Iscontroller := true |}.

Lemma any_answer_env R (e : CloudE R) w : any_answer R e (cloud_env R e w).1.
Proof. done. Qed.

(** A trace of the example cloud. *)
Lemma example_trace {A} (p : cloud A) w :
  traces any_answer p (run_log cloud_env p w) (run cloud_env p w).1.
Proof. apply run_log_traces, any_answer_env. Qed.

(** ** Changes are confirmed *)

(** When attaching, detaching or resizing a disk succeeds, the first call
    asked the cloud for it and was accepted (with no failed disk in the answer to
    a detach), and the last call described that disk, alone, in the status the
    operation ends in. *)
Theorem disk_changes_are_confirmed (cm : zecCloudManager) (volId vmId : string) (size : Z) t :
  (traces any_answer (zec.AttachVolume cm volId vmId) t (Ok tt) →
   ∃ t' ev, t = Event (Api (AttachDisks [volId] vmId)) (Ok tt) :: t' ++ [ev] ∧
            shows_status volId is_in_use ev) ∧
  (traces any_answer (zec.DetachVolume cm volId) t (Ok tt) →
   ∃ failed t' ev, t = Event (Api (DetachDisks [volId] false)) (Ok failed) :: t' ++ [ev] ∧
            (failed = None ∨ failed = Some []) ∧ shows_status volId is_available ev) ∧
  (traces any_answer (zec.ResizeVolume cm volId size) t (Ok tt) →
   ∃ t' ev, t = Event (Api (ResizeDisk volId size)) (Ok tt) :: t' ++ [ev] ∧
            shows_status volId is_stable ev).
Proof.
  split_and!; intros Ht.
  - destruct (wp_hist_trace _ _ _ _ _ _ (wp_AttachVolume cm volId vmId) Ht) as [Hc _].
    destruct (Hc tt eq_refl) as (e1 & t' & e2 & -> & -> & Hs). by exists t', e2.
  - destruct (wp_hist_trace _ _ _ _ _ _ (wp_DetachVolume cm volId) Ht) as [Hc _].
    destruct (Hc tt eq_refl) as (e1 & t' & e2 & -> & (f & -> & Hf) & Hs). by exists f, t', e2.
  - destruct (wp_hist_trace _ _ _ _ _ _ (wp_ResizeVolume cm volId size) Ht) as [Hc _].
    destruct (Hc tt eq_refl) as (e1 & t' & e2 & -> & -> & Hs). by exists t', e2.
Qed.

Lemma disk_changes_are_confirmed_witness :
  let t := run_log cloud_env (zec.AttachVolume example_cm Example.diskId "vm-1") Example.cloud0 in
  ∃ t' ev, t = Event (Api (AttachDisks [Example.diskId] "vm-1")) (Ok tt) :: t' ++ [ev] ∧
           shows_status Example.diskId is_in_use ev.
Proof.
  exact (proj1 (disk_changes_are_confirmed example_cm Example.diskId "vm-1" 0 _)
           (example_trace (zec.AttachVolume example_cm Example.diskId "vm-1") Example.cloud0)).
Defined.

(** When creating a disk succeeds with an id, the first call asked for one
    disk of the given name, size, category, zone and group (and snapshot), the
    answer named that id, and the last call described that disk, alone, as
    AVAILABLE. *)
Theorem disk_creation_is_confirmed (cm : zecCloudManager) (name : string) (size : Z)
    (category zone group : string) (snapshotId : option string) (burst : bool) (volId : string) t :
  traces any_answer (match snapshotId with
                     | None => zec.CreateVolume cm name size category zone group burst
                     | Some s => zec.CreateVolumeFromSnapshot cm name size category zone group s burst
                     end) t (Ok volId) →
  ∃ request rest t' ev,
    t = Event (Api (CreateDisks request)) (Ok (Some (volId :: rest))) :: t' ++ [ev] ∧
    cdr_DiskName request = name ∧ cdr_DiskSize request = size ∧ cdr_ZoneId request = zone ∧
    cdr_DiskCategory request = category ∧ cdr_ResourceGroupId request = group ∧
    cdr_DiskAmount request = 1 ∧ cdr_SnapshotId request = snapshotId ∧
    cdr_BurstingEnabled request = burst ∧
    shows_status volId is_available ev.
Proof.
  intros Ht.
  set (request := {| cdr_DiskName := name; cdr_DiskSize := size; cdr_ZoneId := zone;
    cdr_DiskAmount := 1; cdr_ResourceGroupId := group; cdr_DiskCategory := category;
    cdr_SnapshotId := snapshotId; cdr_BurstingEnabled := burst |}).
  assert (Hcreate : traces any_answer (zec.create_disk request) t (Ok volId)).
  { destruct snapshotId as [s|]; revert Ht; unfold zec.CreateVolume, zec.CreateVolumeFromSnapshot;
      repeat case_match; first [done | by intros [_ ?]]. }
  destruct (wp_hist_trace _ _ _ _ _ _ (wp_create_disk request) Hcreate) as [Hc _].
  destruct (Hc volId eq_refl) as (e1 & t' & e2 & -> & (rest & ->) & Hs).
  exists request, rest, t', e2. by split_and!.
Qed.

Lemma disk_creation_is_confirmed_witness :
  ∃ request rest t' ev,
    run_log cloud_env (zec.CreateVolume example_cm "pvc-1" 20 BasicNvmeName "asia-a" "group" false)
      Example.cloud2 =
    Event (Api (CreateDisks request)) (Ok (Some (Example.diskId :: rest))) :: t' ++ [ev] ∧
    cdr_DiskSize request = 20 ∧ shows_status Example.diskId is_available ev.
Proof.
  destruct (disk_creation_is_confirmed example_cm "pvc-1" 20 BasicNvmeName "asia-a" "group" None
    false Example.diskId _
    (example_trace (zec.CreateVolume example_cm "pvc-1" 20 BasicNvmeName "asia-a" "group" false)
       Example.cloud2)) as (rq & rest & t' & ev & Ht & _ & Hs & _ & _ & _ & _ & _ & _ & Hev).
  exists rq, rest, t', ev. by split_and!.
Defined.

(** When creating a snapshot succeeds with an id, the first call asked the
    cloud for it and was answered with that id, and the last call described that
    snapshot as AVAILABLE; when deleting one succeeds, either the cloud answered
    that it does not exist, or the cloud accepted and the last call found none. *)
Theorem snapshot_changes_are_confirmed (cm : zecCloudManager) (name volId id : string) t :
  (traces any_answer (zec.CreateSnapshot cm name volId) t (Ok id) →
   ∃ t' ev, t = Event (Api (CreateSnapshotApi volId name)) (Ok (Some (Some id))) :: t' ++ [ev] ∧
            shows_snapshot id ev) ∧
  (traces any_answer (zec.DeleteSnapshot cm id) t (Ok tt) →
   t = [Event (Api (DeleteSnapshots [id]))
          (Err (ZenlayerCloudSdkError INVALID_DISK_SNAPSHOT_NOT_FOUND))] ∨
   ∃ t' ev, t = Event (Api (DeleteSnapshots [id])) (Ok (Some [])) :: t' ++ [ev] ∧
            shows_no_snapshot id ev).
Proof.
  split; intros Ht.
  - destruct (wp_hist_trace _ _ _ _ _ _ (wp_CreateSnapshot cm name volId) Ht) as [Hc _].
    destruct (Hc id eq_refl) as (e1 & t' & e2 & -> & -> & Hs). by exists t', e2.
  - by apply (wp_hist_trace _ _ _ _ _ _ (wp_DeleteSnapshot cm id) Ht).
Qed.

Lemma snapshot_changes_are_confirmed_witness :
  ∃ t' ev,
    run_log cloud_env (zec.CreateSnapshot example_cm "s" Example.diskId) Example.cloud0 =
    Event (Api (CreateSnapshotApi Example.diskId "s")) (Ok (Some (Some "snap-s"))) :: t' ++ [ev] ∧
    shows_snapshot "snap-s" ev.
Proof.
  exact (proj1 (snapshot_changes_are_confirmed example_cm "s" Example.diskId "snap-s" _)
           (example_trace (zec.CreateSnapshot example_cm "s" Example.diskId) Example.cloud0)).
Defined.

(** ** Deleting a disk *)

Definition is_release (ev : event CloudE) : nat :=
  match ev_call ev with Api (ReleaseDisk _) => 1 | _ => 0 end.

(** The waits of an operation: each is one timer of [WaitStatusTimeout]. *)
Definition is_wait (ev : event CloudE) : nat :=
  match ev_call ev with SelectTicks _ _ => 1 | _ => 0 end.

Definition is_recycled (st : string) : bool := String.eqb st DiskStatusRecycled.

Lemma total_cons c ev t : total c (ev :: t) = (c ev + total c t)%nat.
Proof. done. Qed.

Lemma releases_cost R (o : ZecE R) a :
  (is_release (Event (Api o) a) ≤ match o with ReleaseDisk _ => 1 | _ => 0 end)%nat.
Proof. by destruct o; cbn; repeat constructor. Qed.

Lemma waits_cost R (o : ZecE R) a :
  (is_wait (Event (Api o) a) ≤ match o with ReleaseDisk _ => 0 | _ => 0 end)%nat.
Proof. by destruct o; cbn; repeat constructor. Qed.

(** The request and the answer of a call that describes disks. *)
Definition describe_of (ev : event CloudE)
    : option (DescribeDisksRequest * sdk (option (page DiskInfo))) :=
  match ev_call ev in CloudE R return R → _ with
  | Api o =>
    match o in ZecE R return R → _ with
    | DescribeDisks req => fun a => Some (req, a)
    | _ => fun _ => None
    end
  | SelectTicks _ _ => fun _ => None
  end (ev_answer ev).

(** [FindVolume] makes one call, unless it fails before, and returns the disk
    that the answer shows. *)
Lemma FindVolume_trace cm volId t a :
  traces any_answer (zec.FindVolume cm volId) t a →
  (t = [] ∧ ∃ e, a = Err e) ∨
  ∃ ev, t = [ev] ∧ ∀ d rest,
    ev = Event (Api (DescribeDisks (disks_by_id volId)))
           (Ok (Some {| TotalCount := Some 1; DataSet := Some d :: rest |})) →
    a = Ok (Some (volume_of_disk d)).
Proof.
  unfold zec.FindVolume. case_match; [intros [-> ->]; left; eauto|].
  case_match; [intros [-> ->]; left; eauto|].
  intros (x & t1 & -> & _ & Ht). right. exists (Event (Api (DescribeDisks (disks_by_id volId))) x).
  assert (Hend : t1 = []).
  { revert Ht. destruct x as [x|]; cbn; repeat case_match; by intros [? _]. }
  subst t1. split; [done|]. intros d rest Hev. apply (f_equal describe_of) in Hev.
  cbn in Hev. injection Hev as ->. by destruct Ht.
Qed.

(** When the disk is already in the recycle bin, one release is all. *)
Lemma release_loop_recycled cm volId n ev t' r :
  traces any_answer (zec.release_loop cm volId (S n)) (ev :: t') r →
  shows_status volId is_recycled ev → (total is_release (ev :: t') ≤ 1)%nat.
Proof.
  intros Ht (d & st & rest & -> & Hd & Hst). cbn [zec.release_loop] in Ht.
  apply traces_bind in Ht as (t1 & t2 & a & Heq & Hfind & Ht).
  apply FindVolume_trace in Hfind as [[-> [e ->]]|(ev & -> & Hv)].
  { simpl in Heq. subst t2. by destruct Ht. }
  injection Heq as <- <-. rewrite (Hv d rest eq_refl) in Ht. revert Ht.
  assert (ZecVolume_Status (volume_of_disk d) = st) as -> by (simpl; by rewrite Hd).
  unfold is_recycled in Hst. rewrite Hst, total_cons. apply at_most_traces.
  apply (at_most_bind1 is_release (call _) _ 1).
  - apply at_most_call. intros. apply releases_cost.
  - intros [[]|[c|]]; [|case_match; apply at_most_ret|apply at_most_ret].
    apply at_most_bind1; [|intros []; apply at_most_ret].
    by apply (at_most_waitDiskStatus is_release 0 1 releases_cost).
Qed.

(** C18: When [DeleteVolume] succeeds, its last call showed that the disk is gone.
    Whatever happens, it releases the disk at most twice, and only once when its
    first call shows the disk in the recycle bin, where an earlier deletion left
    it. *)
Theorem DeleteVolume_removes (cm : zecCloudManager) (volId : string) t r :
  traces any_answer (zec.DeleteVolume cm volId) t r →
  (r = Ok tt → ∃ t' ev, t = t' ++ [ev] ∧ evidence_gone volId ev) ∧
  (total is_release t ≤ maxReleaseDiskTimes)%nat ∧
  (∀ ev t', t = ev :: t' → shows_status volId is_recycled ev → (total is_release t ≤ 1)%nat).
Proof.
  intros Ht. split_and!.
  - intros ->. revert Ht. unfold zec.DeleteVolume.
    case_match; [by intros [_ ?]|]. case_match; [by intros [_ ?]|]. intros Ht.
    destruct (wp_hist_trace _ _ _ _ _ _ (wp_release_loop cm volId _ []) Ht) as [Hc _].
    destruct (Hc tt eq_refl) as (t' & ev & -> & Hs). by exists t', ev.
  - eapply (at_most_traces is_release maxReleaseDiskTimes); [|exact Ht].
    apply (at_most_cost is_release 0 1 releases_cost ltac:(done) cm _ (DeleteVolume volId)).
  - intros ev t'. revert Ht. unfold zec.DeleteVolume.
    case_match; [by intros [-> _]|]. case_match; [by intros [-> _]|].
    intros Ht -> Hev. by eapply release_loop_recycled.
Qed.

Lemma DeleteVolume_removes_witness :
  let t := run_log cloud_env (zec.DeleteVolume example_cm Example.diskId) Example.cloud0 in
  (∃ t' ev, t = t' ++ [ev] ∧ evidence_gone Example.diskId ev) ∧ total is_release t = 2%nat.
Proof.
  split; [|reflexivity].
  exact (proj1 (DeleteVolume_removes example_cm Example.diskId _ _
           (example_trace (zec.DeleteVolume example_cm Example.diskId) Example.cloud0)) eq_refl).
Defined.

(** The driver's waiting is bounded as [utils.go] promises the sidecars: an
    operation of the cloud manager starts at most one timer, [DeleteVolume] at most
    two, the searches none, and every timer is [WaitStatusTimeout]. *)
Theorem waiting_is_bounded (cm : zecCloudManager) R (o : CmE R) t r :
  traces any_answer (zec_impl cm R o) t r →
  (total is_wait t ≤ match o with
                     | DeleteVolume _ => maxReleaseDiskTimes
                     | CreateVolume _ _ _ _ _ _ | CreateVolumeFromSnapshot _ _ _ _ _ _ _
                     | AttachVolume _ _ | DetachVolume _ | ResizeVolume _ _
                     | CreateSnapshot _ _ | DeleteSnapshot _ => 1
                     | _ => 0
                     end)%nat ∧
  Forall (fun ev => standard_timer (ev_call ev)) t.
Proof.
  intros Ht. split.
  - eapply (at_most_traces is_wait _); [|exact Ht].
    pose proof (at_most_cost is_wait 1 0 waits_cost ltac:(done) cm R o) as Hc.
    by destruct o.
  - eapply all_calls_traces, Forall_impl in Ht; [exact Ht| |apply zec_calls].
    by intros ev [_ Htimer].
Qed.

Lemma waiting_is_bounded_witness :
  let t := run_log cloud_env (zec_impl example_cm _ (DeleteVolume Example.diskId)) Example.cloud0 in
  (total is_wait t ≤ 2)%nat.
Proof.
  exact (proj1 (waiting_is_bounded example_cm _ (DeleteVolume Example.diskId) _ _
           (example_trace (zec_impl example_cm _ (DeleteVolume Example.diskId)) Example.cloud0))).
Defined.

(** ** The node's manager *)

Ltac nil_client :=
  match goal with |- traces _ (zec_impl _ _ ?o) _ _ → _ =>
    destruct o; cbn [zec_impl];
    unfold zec.CreateVolume, zec.DeleteVolume, zec.AttachVolume, zec.DetachVolume,
      zec.ResizeVolume, zec.FindVolume, zec.FindVolumeByName, zec.CloneVolume,
      zec.FindInstance, zec.GetZone, zec.GetZoneList, zec.IsController, zec.Probe,
      zec.GetVmStatus, zec.FindTag, zec.IsValidTags, zec.AttachTags, zec.FindSnapshot,
      zec.FindSnapshotByName, zec.CreateSnapshot, zec.DeleteSnapshot,
      zec.CreateVolumeFromSnapshot
  end.

(** The manager that [NewZecCloudManager] gives to a node driver reports that
    it is no controller and makes no SDK call in any operation, and every
    operation that needs the cloud fails, with its argument error or with
    [nilClientMsg]; no operation dereferences the missing client. *)
Theorem node_manager_makes_no_call (NewClient : string → string → result unit bool)
    (ak sk : string) (cm : zecCloudManager) R (o : CmE R) t r :
  NewZecCloudManager NewClient ak sk "node" = Ok cm →
  traces any_answer (zec_impl cm R o) t r →
  t = [] ∧
  match o in CmE R return R → Prop with
  | IsController => fun r => r = false
  | IsValidTags => fun r => r = false
  | CloneVolume | FindTag | AttachTags => fun r => r = Ok tt
  | FindVolumeByName _ _ _ _ _ => fun r =>
      r = (None, Some ErrNilClient) ∨ r = (None, Some ErrArgs)
  | FindSnapshotByName _ _ _ _ => fun r =>
      r = (None, Some ErrNilClient) ∨ r = (None, Some ErrArgs)
  | CreateVolume _ _ _ _ _ _ => fun r => r = Err ErrNilClient ∨ r = Err ErrArgs
  | DeleteVolume _ => fun r => r = Err ErrNilClient ∨ r = Err ErrArgs
  | AttachVolume _ _ => fun r => r = Err ErrNilClient ∨ r = Err ErrArgs
  | DetachVolume _ => fun r => r = Err ErrNilClient ∨ r = Err ErrArgs
  | ResizeVolume _ _ => fun r => r = Err ErrNilClient ∨ r = Err ErrArgs
  | FindVolume _ => fun r => r = Err ErrNilClient ∨ r = Err ErrArgs
  | FindInstance _ => fun r => r = Err ErrNilClient ∨ r = Err ErrArgs
  | GetZone _ => fun r => r = Err ErrNilClient
  | GetZoneList => fun r => r = Err ErrNilClient
  | Probe => fun r => r = Err ErrNilClient
  | GetVmStatus _ => fun r => r = Err ErrNilClient ∨ r = Err ErrArgs
  | FindSnapshot _ => fun r => r = Err ErrNilClient ∨ r = Err ErrArgs
  | CreateSnapshot _ _ => fun r => r = Err ErrNilClient ∨ r = Err ErrArgs
  | DeleteSnapshot _ => fun r => r = Err ErrNilClient ∨ r = Err ErrArgs
  | CreateVolumeFromSnapshot _ _ _ _ _ _ _ => fun r => r = Err ErrNilClient ∨ r = Err ErrArgs
  end r.
Proof.
  intros [= <-]. nil_client; cbn [zecClient negb];
    repeat case_match; intros [-> ->]; auto.
Qed.

Lemma node_manager_makes_no_call_witness :
  run_log cloud_env (zec_impl {| zecClient := false; Iscontroller := false |} _
                       (DeleteVolume Example.diskId)) Example.cloud0 = [].
Proof.
  exact (proj1 (node_manager_makes_no_call (fun _ _ => Ok true) "ak" "sk"
    {| zecClient := false; Iscontroller := false |} _ (DeleteVolume Example.diskId) _ _ eq_refl
    (example_trace (zec_impl {| zecClient := false; Iscontroller := false |} _
       (DeleteVolume Example.diskId)) Example.cloud0))).
Defined.

(** ** Searches *)

(** A page of a list. *)
Definition slice {T} (ps pn : Z) (l : list T) : list T :=
  take (Z.to_nat ps) (drop (Z.to_nat (ps * (pn - 1))) l).

Section pages.
Context {W : Type} (hd : env CloudE W) (name zoneID group : string) (L : list (option DiskInfo)).

(** The cloud holds the list [L] of the disks of that name, zone and group, and
    answers its pages. *)
Definition answers_pages : Prop := ∀ pn w, 1 <= pn →
  hd _ (Api (DescribeDisks (disks_by_name name zoneID group 20 pn))) w =
  (Ok (Some {| TotalCount := Some (Z.of_nat (length L)); DataSet := slice 20 pn L |}), w).

Context (Hpages : answers_pages).

Lemma run_disk_pages n pn acc w :
  1 <= pn →
  run hd (disk_pages name zoneID group 20 n pn acc) w =
  (Ok (acc ++ take (20 * n) (drop (Z.to_nat (20 * (pn - 1))) L)), w).
Proof.
  revert pn acc w. induction n as [|n IH]; intros pn acc w Hpn.
  - cbn [disk_pages]. by rewrite take_0, app_nil_r.
  - cbn [disk_pages]. unfold api. rewrite !run_bind. cbn [run call]. rewrite Hpages by done.
    cbn [run mret prog_ret]. rewrite IH by lia. do 2 f_equal. cbn [DataSet]. unfold slice.
    rewrite <-app_assoc. f_equal.
    replace (20 * S n)%nat with (20 + 20 * n)%nat by lia.
    rewrite <-take_take_drop, drop_drop.
    do 3 f_equal. lia.
Qed.

Lemma page_calls_covers count :
  0 <= count → (Z.to_nat count <= 20 * page_calls count 20)%nat.
Proof.
  intros Hc. unfold page_calls.
  rewrite Z.quot_div_nonneg, Z.rem_mod_nonneg by lia.
  pose proof (Z.div_mod count 20 ltac:(lia)). pose proof (Z.mod_pos_bound count 20 ltac:(lia)).
  case_match; lia.
Qed.
End pages.

(** C19: [FindVolumeByName] searches every page: when the cloud answers the pages
    of 20 of its list of the disks of that name, zone and group, however long, the
    result is a disk of the list that is not in the recycle bin, in the zone and
    of the type, with an error exactly when its size differs; it finds nothing
    only when the list has no such disk. *)
Theorem FindVolumeByName_searches_all {W} (hd : env CloudE W) (cm : zecCloudManager)
    (volName zoneID : string) (sizeGB : Z) (diskType group : string)
    (L : list (option DiskInfo)) (w : W) :
  zecClient cm = true → volName ≠ "" →
  answers_pages hd ("^" +:+ volName +:+ "$") zoneID group L →
  match (run hd (zec.FindVolumeByName cm volName zoneID sizeGB diskType group) w).1 with
  | (None, e) => e = None ∧ ∀ d, Some d ∈ L → ¬ live_match zoneID diskType d
  | (Some v, e) => ∃ d, Some d ∈ L ∧ v = volume_of_disk d ∧ live_match zoneID diskType d ∧
      e = if ZecVolume_Size v =? sizeGB then None else Some ErrDiffSize
  end.
Proof.
  intros Hcm Hname Hpages.
  enough (run hd (zec.FindVolumeByName cm volName zoneID sizeGB diskType group) w =
          (pick_volume zoneID sizeGB diskType L, w)) as -> by apply pick_volume_result.
  unfold zec.FindVolumeByName. rewrite (proj2 (String.eqb_neq volName "") Hname), Hcm.
  cbn [negb]. cbv zeta. unfold api. rewrite !run_bind. cbn [run call].
  rewrite (Hpages 1 w) by done. cbn [run mret prog_ret].
  destruct (Z.eqb_spec (Z.of_nat (length L)) 0) as [H0|H0].
  { by destruct L. }
  rewrite run_bind. destruct (Z.ltb_spec 20 (Z.of_nat (length L))) as [H20|H20].
  - rewrite (run_disk_pages hd _ zoneID group L Hpages) by done.
    cbn [run mret prog_ret app]. rewrite drop_0, take_ge; [done|].
    pose proof (page_calls_covers (Z.of_nat (length L)) ltac:(lia)). lia.
  - cbn [run mret prog_ret]. unfold slice. rewrite drop_0, take_ge by lia. done.
Qed.

(** A cloud that does not change. *)
Definition frozen (w0 : world) : env CloudE unit := fun R e u => ((cloud_env R e w0).1, u).

Lemma frozen_answers_pages disks name zoneID group :
  filter (fun d => matches_disk (disks_by_name name zoneID group 20 1) d = true) disks = disks →
  answers_pages (frozen (mkWorld disks [] [] [])) name zoneID group (Some <$> disks).
Proof.
  intros Hall pn [] Hpn. unfold frozen. cbn [cloud_env api_env fst].
  change (matches_disk (disks_by_name name zoneID group 20 pn))
    with (matches_disk (disks_by_name name zoneID group 20 1)).
  cbn [w_disks]. rewrite Hall, length_fmap. do 3 f_equal. unfold page_of. cbn. f_equal.
  unfold slice. rewrite fmap_take, fmap_drop. do 2 f_equal. lia.
Qed.

(** 21 disks in the recycle bin, and one on the second page. *)
Lemma FindVolumeByName_searches_all_witness :
  let disks := repeat (Example.disk DiskStatusRecycled "" 20) 21
                 ++ [Example.disk DiskStatusAvailable "" 20] in
  ∃ d, Some d ∈ Some <$> disks ∧ live_match "asia-a" BasicNvmeName d.
Proof.
  intros disks.
  destruct (FindVolumeByName_searches_all (frozen (mkWorld disks [] [] [])) example_cm "pvc-1"
    "asia-a" 20 BasicNvmeName "group" (Some <$> disks) tt eq_refl ltac:(done)
    (frozen_answers_pages disks "^pvc-1$" "asia-a" "group" ltac:(vm_compute; reflexivity))) as (d & Hd & _ & Hlive & _).
  exists d. exact (conj Hd Hlive).
Defined.
