(* ===== verification/CtrlSpec.v ===== *)
(** * Properties of the controller's handlers

    Each theorem is about every trace of a handler: the calls it makes to the
    locks, the cloud manager and the runtime, whatever these answer, and its
    response.  A call of the cloud manager is one event here; [CloudSpec.v] says
    what each means for the cloud. *)

From S2P Require Import Prelude GoStd GoTime Csi Common Prog Locking Driver ZecApi.
From S2P Require Import CloudTypes Cloud Ctrl Controller CtrlProps System Sim.

Local Open Scope Z_scope.

(** ** Examples *)

(** A trace of a handler against the example cloud, seen at the cloud manager. *)
Definition ctrl_env : env CtrlE (ResourceLocks * world) := fun R e s =>
  run sys_env (sys_impl (zec_impl {| zecClient := true; Iscontroller := true |}) R e) s.

Lemma example_ctrl_trace {A} (p : ctrl A) w :
  traces ctrl_ok p (run_log ctrl_env p (NewResourceLocks, w)) (run ctrl_env p (NewResourceLocks, w)).1.
Proof. apply run_log_traces. intros R [R' o|R' [T o|T o]] s; try done. apply rt_env_ok. Qed.

(** ** Volumes *)

(** C14: [CreateVolume] is idempotent.  Every call comes after the request's
    checks (the driver can create volumes, it has the access mode of each of the
    volume's capabilities, the name has 1 to 64 bytes).  The disk it searches for is the one asked for: the type, group and
    burst of the storage class that the request's parameters give, the size that
    the class and the capacity range require, and the zone of the first preferred
    or requisite topology, or of the class when there is none.  It asks the cloud
    for a disk at most once, for that same disk, only after a search by name that
    found none.  A success describes either the disk of that name that the search
    found, with no change made, whose capacity is within the request's range, whose
    topology is a requisite one when there are any, and whose type is the one the
    parameters ask for; or the disk just created.  Its volume id is that disk's id
    and serial. *)
Theorem CreateVolume_idempotent (g : Globals) (d : DiskDriver) (req : CreateVolumeRequest) t r :
  traces ctrl_ok (cs.CreateVolume g d req) t r →
  (∀ t1 R (o : CmE R) a t2, t = t1 ++ Event (CCloud o) a :: t2 → create_allows g d req t1 R o) ∧
  (∀ vol, r = Ok vol → provisioned g d req t vol).
Proof.
  intros Ht. destruct (monitored_trace _ _ _ _ _ (wp_create g d req) Ht) as [HQ Hall].
  by split.
Qed.

Lemma CreateVolume_idempotent_witness :
  ∃ vol,
    (run ctrl_env (cs.CreateVolume Example.globals Example.driver Example.create_request)
       (NewResourceLocks, Example.cloud2)).1 = Ok vol ∧
    provisioned Example.globals Example.driver Example.create_request
      (run_log ctrl_env (cs.CreateVolume Example.globals Example.driver Example.create_request)
         (NewResourceLocks, Example.cloud2)) vol.
Proof.
  eexists. split; [vm_compute; reflexivity|].
  apply (proj2 (CreateVolume_idempotent Example.globals Example.driver Example.create_request _ _
    (example_ctrl_trace (cs.CreateVolume Example.globals Example.driver Example.create_request)
       Example.cloud2))).
  vm_compute. reflexivity.
Defined.

(** A volume that [CreateVolume] returns, created or found, has a capacity
    within the request's range: at least the required bytes and at most the limit,
    when these are set (and the required bytes are at most 2^63 - 2^30). *)
Theorem CreateVolume_capacity (g : Globals) (d : DiskDriver) (req : CreateVolumeRequest)
    (r : CapacityRange) (vol : Volume) t :
  cv_CapacityRange req = Some r → is_int64 (RequiredBytes r) → is_int64 (LimitBytes r) →
  RequiredBytes r <= 2 ^ 63 - Gib →
  traces ctrl_ok (cs.CreateVolume g d req) t (Ok vol) →
  (0 < RequiredBytes r → RequiredBytes r <= CapacityBytes vol) ∧
  (0 < LimitBytes r → CapacityBytes vol <= LimitBytes r).
Proof.
  intros Hr Hreq Hlim Hsmall Ht.
  destruct (monitored_trace _ _ _ _ _ (wp_create g d req) Ht) as [Hprov _].
  destruct (Hprov vol eq_refl) as (info & sc & n & Hc & _ & _ & _ & _ & _ & _ & Hcase).
  pose proof (class_asked_wf _ _ _ _ Hc) as Hsc. destruct Hc as [Hn _]. rewrite Hr in Hn.
  destruct (GetRequired_Ok sc r n) as [(_ & _ & ? & ?) Hrt]; [done..|].
  destruct Hcase as [(_ & _ & _ & Hv & _)|(_ & _ & _ & ->)].
  - by apply Hv.
  - by rewrite Hrt.
Qed.

Lemma CreateVolume_capacity_witness :
  match (run ctrl_env (cs.CreateVolume Example.globals Example.driver Example.create_request)
           (NewResourceLocks, Example.cloud2)).1 with
  | Ok vol => 21474836481 <= CapacityBytes vol
  | Err _ => False
  end.
Proof.
  pose proof (example_ctrl_trace (cs.CreateVolume Example.globals Example.driver
    Example.create_request) Example.cloud2) as Ht.
  destruct (run ctrl_env _ _).1 as [vol|c] eqn:Hrun; [|vm_compute in Hrun; discriminate].
  refine (proj1 (CreateVolume_capacity Example.globals Example.driver Example.create_request
    {| RequiredBytes := 21474836481; LimitBytes := 0 |} vol _ eq_refl _ _ _ Ht) eq_refl);
    vm_compute; [split|split|]; discriminate.
Defined.

(** [DeleteVolume], on every branch.  An id that no disk of the driver has is
    deleted already: the answer is success, with no call at all.  Otherwise the
    disk is locked, deleted and unlocked; the answer is [Aborted] when another
    request holds the disk, and success exactly when the cloud manager's is. *)
Theorem DeleteVolume_behaviour (d : DiskDriver) (req : DeleteVolumeRequest) t r :
  ValidateControllerServiceRequest d ControllerRPC.CREATE_DELETE_VOLUME = true →
  dv_VolumeId req ≠ "" →
  traces ctrl_ok (cs.DeleteVolume d req) t r ↔
  match ParseCsiVolId (dv_VolumeId req) with
  | Err _ => t = [] ∧ r = Ok tt
  | Ok (volId, _) =>
    t = [Event (CLock (TryAcquireE volId)) false] ∧ r = Err codes.Aborted ∨
    ∃ a, t = [Event (CLock (TryAcquireE volId)) true;
              Event (CCloud (DeleteVolume volId)) a; Event (CLock (ReleaseE volId)) tt] ∧
         r = match a with Ok _ => Ok tt | Err _ => Err codes.Internal end
  end.
Proof. apply DeleteVolume_traces. Qed.

Lemma DeleteVolume_behaviour_witness :
  traces ctrl_ok (cs.DeleteVolume Example.driver {| dv_VolumeId := "not-a-disk" |}) [] (Ok tt).
Proof. apply DeleteVolume_behaviour; [reflexivity|discriminate|]. split; reflexivity. Defined.

(** ** Attachments *)

(** C15: [ControllerPublishVolume] attaches the disk of the request to the
    request's node only when the disk was described as attached to no instance and
    the instance as RUNNING, the access mode is one the driver reports and the
    volume is not read-only; it never detaches or changes anything else.  When it
    succeeds, the last description of the disk shows it attached to that node. *)
Theorem ControllerPublishVolume_safe (d : DiskDriver) (req : ControllerPublishVolumeRequest) t r :
  traces ctrl_ok (cs.ControllerPublishVolume d req) t r →
  (∀ t1 R (o : CmE R) a t2, t = t1 ++ Event (CCloud o) a :: t2 → publish_allows d req t1 R o) ∧
  (r = Ok tt → ∃ volId serial,
     ParseCsiVolId (cp_VolumeId req) = Ok (volId, serial) ∧
     ZecVolume_InstanceId <$> last_found volId t = Some (cp_NodeId req) ∧ (changes t ≤ 1)%nat).
Proof.
  intros Ht. destruct (monitored_trace _ _ _ _ _ (wp_publish d req) Ht) as [HQ Hall]. by split.
Qed.

Lemma ControllerPublishVolume_safe_witness :
  ∃ volId serial,
    ParseCsiVolId Example.csiId = Ok (volId, serial) ∧
    ZecVolume_InstanceId <$> last_found volId
      (run_log ctrl_env (cs.ControllerPublishVolume Example.driver Example.publish_request)
         (NewResourceLocks, Example.cloud0)) = Some "vm-1".
Proof.
  destruct (proj2 (ControllerPublishVolume_safe Example.driver Example.publish_request _ _
    (example_ctrl_trace (cs.ControllerPublishVolume Example.driver Example.publish_request)
       Example.cloud0))) as (v & s & H1 & H2 & _); [vm_compute; reflexivity|].
  exists v, s. exact (conj H1 H2).
Defined.

(** C28: [ControllerUnpublishVolume] detaches the disk of the request only when its
    last description shows it attached to the request's node, so never from another
    node, and makes no other call than this and the search for the disk.  A success
    means that it was detached, by the only change, or that nothing was changed
    because there was nothing to undo: the id is of no disk (then no call at all),
    the disk does not exist, or it was last seen attached elsewhere or nowhere. *)
Theorem ControllerUnpublishVolume_safe (d : DiskDriver) (req : ControllerUnpublishVolumeRequest)
    t r :
  traces ctrl_ok (cs.ControllerUnpublishVolume d req) t r →
  (∀ t1 R (o : CmE R) a t2, t = t1 ++ Event (CCloud o) a :: t2 → unpublish_allows req t1 R o) ∧
  (r = Ok tt → unpublished req t).
Proof.
  intros Ht. destruct (monitored_trace _ _ _ _ _ (wp_unpublish d req) Ht) as [HQ Hall]. by split.
Qed.

Lemma ControllerUnpublishVolume_safe_witness :
  let req := {| cu_VolumeId := Example.csiId; cu_NodeId := "vm-1" |} in
  unpublished req (run_log ctrl_env (cs.ControllerUnpublishVolume Example.driver req)
                     (NewResourceLocks, Example.cloud1)).
Proof.
  intros req. apply (proj2 (ControllerUnpublishVolume_safe Example.driver req _ _
    (example_ctrl_trace (cs.ControllerUnpublishVolume Example.driver req) Example.cloud1))).
  vm_compute. reflexivity.
Defined.

(** ** Expansion *)

(** C27: [ControllerExpandVolume] never shrinks a volume: it resizes only to a
    size larger than the disk's, the one the request's range needs, and reports
    the larger of the two; it changes nothing when the disk is large enough.  The
    node must expand the file system unless the volume is a block volume. *)
Theorem ControllerExpandVolume_grows (d : DiskDriver) (req : ControllerExpandVolumeRequest) t r :
  traces ctrl_ok (cs.ControllerExpandVolume d req) t r →
  (∀ t1 R (o : CmE R) a t2, t = t1 ++ Event (CCloud o) a :: t2 → expand_allows req t1 R o) ∧
  (∀ resp, r = Ok resp → expanded req t resp).
Proof.
  intros Ht. destruct (monitored_trace _ _ _ _ _ (wp_expand d req) Ht) as [HQ Hall]. by split.
Qed.

Lemma ControllerExpandVolume_grows_witness :
  let req := {| ce_VolumeId := Example.csiId;
                ce_CapacityRange := Some {| RequiredBytes := 32212254720; LimitBytes := 0 |};
                ce_VolumeCapability := None |} in
  expanded req (run_log ctrl_env (cs.ControllerExpandVolume Example.driver req)
                  (NewResourceLocks, Example.cloud1))
    {| cer_CapacityBytes := 32212254720; cer_NodeExpansionRequired := true |}.
Proof.
  intros req. apply (proj2 (ControllerExpandVolume_grows Example.driver req _ _
    (example_ctrl_trace (cs.ControllerExpandVolume Example.driver req) Example.cloud1))).
  vm_compute. reflexivity.
Defined.

(** C39: A request of more than 2^63 - 2^30 bytes, which no disk can hold, is not
    refused: when its limit allows it and the disk's size is not negative,
    [ControllerExpandVolume] succeeds without any change and reports the current
    size, less than required. *)
Theorem ControllerExpandVolume_overflow (d : DiskDriver) (req : ControllerExpandVolumeRequest)
    (r : CapacityRange) (volId serial : string) (info : ZecVolume) :
  ValidateControllerServiceRequest d ControllerRPC.EXPAND_VOLUME = true →
  ParseCsiVolId (ce_VolumeId req) = Ok (volId, serial) →
  ce_CapacityRange req = Some r → 2 ^ 63 - Gib < RequiredBytes r <= MaxInt64 →
  LimitBytes r = 0 ∨ RequiredBytes r <= LimitBytes r →
  VolumeType_IsValid (ZecVolume_Type info) = true → 0 <= ZecVolume_Size info <= 32768 →
  ∃ resp,
    traces ctrl_ok (cs.ControllerExpandVolume d req)
      [Event (CLock (TryAcquireE volId)) true; Event (CCloud (FindVolume volId)) (Ok (Some info));
       Event (CLock (ReleaseE volId)) tt] (Ok resp) ∧
    cer_CapacityBytes resp = ZecVolume_Size info * Gib ∧ cer_CapacityBytes resp < RequiredBytes r.
Proof.
  intros Hcap Hid Hr Hreq Hlim Hty Hsz.
  destruct (NewDefaultZecStorageClassFromType (ZecVolume_Type info)) as [sc|] eqn:Hsc;
    [|unfold NewDefaultZecStorageClassFromType in Hsc; by rewrite Hty in Hsc].
  pose proof (GetRequired_overflow sc r (NewDefault_wf _ _ Hsc) Hreq Hlim) as Hover.
  eexists {| cer_CapacityBytes := GibToByte (ZecVolume_Size info); cer_NodeExpansionRequired := _ |}.
  split; [|cbn [cer_CapacityBytes]; rewrite GibToByte_small by lia; gib].
  unfold cs.ControllerExpandVolume. rewrite Hcap, Hid. cbn [negb].
  assert (ce_VolumeId req ≠ "") as Hne by (intros H; by rewrite H in Hid).
  destruct (Z.eqb_spec (len (ce_VolumeId req)) 0) as [H0|_]; [by apply len_0 in H0|].
  eexists true, _. split_and!; [done..|]. eexists (Ok (Some info)), _. split_and!; [done..|].
  unfold cs.expand_locked. cbn. rewrite Hsc, Hr, Hover.
  change (ByteCeilToGib (- 2 ^ 63)) with 0. change (GibToByte 0) with 0.
  rewrite (proj2 (Z.leb_le _ _)) by (rewrite GibToByte_small by lia; gib).
  eexists tt, []. done.
Qed.

Lemma ControllerExpandVolume_overflow_witness :
  let req := {| ce_VolumeId := Example.csiId;
                ce_CapacityRange := Some {| RequiredBytes := MaxInt64; LimitBytes := 0 |};
                ce_VolumeCapability := None |} in
  ∃ t resp, traces ctrl_ok (cs.ControllerExpandVolume Example.driver req) t (Ok resp) ∧
    cer_CapacityBytes resp < MaxInt64.
Proof.
  intros req.
  destruct (ControllerExpandVolume_overflow Example.driver req
    {| RequiredBytes := MaxInt64; LimitBytes := 0 |} Example.diskId Example.serial
    {| ZecVolume_Id := Example.diskId; ZecVolume_Name := "pvc-1"; ZecVolume_Size := 20;
       ZecVolume_Type := BasicVolumeType; ZecVolume_Status := DiskStatusInUse;
       ZecVolume_Zone := "asia-a"; ZecVolume_Serial := Example.serial;
       ZecVolume_InstanceId := "vm-1"; ZecVolume_Portable := true;
       ZecVolume_SnapshotAbility := true; ZecVolume_ResourceGroupId := "group" |})
    as (resp & Ht & _ & Hlt);
    [reflexivity|reflexivity|reflexivity|vm_compute; split; [reflexivity|discriminate]
    |left; reflexivity|reflexivity|vm_compute; split; discriminate|].
  eexists _, resp. exact (conj Ht Hlt).
Defined.

(** ** Snapshots *)

(** C30: [CreateSnapshot] is idempotent.  It asks for a snapshot at most once, of
    the request's disk, which allows snapshots, and only after a search by name
    that found none.  A success describes the snapshot that was there, of the same
    disk, or the one just created: its id, size and whether it is ready. *)
Theorem CreateSnapshot_idempotent (d : DiskDriver) (req : CreateSnapshotRequest) t r :
  traces ctrl_ok (cs.CreateSnapshot d req) t r →
  (∀ t1 R (o : CmE R) a t2, t = t1 ++ Event (CCloud o) a :: t2 → snapshot_allows req t1 R o) ∧
  (∀ s, r = Ok s → snapshotted req t s).
Proof.
  intros Ht. destruct (monitored_trace _ _ _ _ _ (wp_create_snapshot d req) Ht) as [HQ Hall].
  by split.
Qed.

Lemma CreateSnapshot_idempotent_witness :
  let req := {| cs_SourceVolumeId := Example.csiId; cs_Name := "backup"; cs_Parameters := ∅ |} in
  match (run ctrl_env (cs.CreateSnapshot Example.driver req) (NewResourceLocks, Example.cloud0)).1 with
  | Ok s => snapshotted req (run_log ctrl_env (cs.CreateSnapshot Example.driver req)
                               (NewResourceLocks, Example.cloud0)) s
  | Err _ => False
  end.
Proof.
  intros req.
  pose proof (example_ctrl_trace (cs.CreateSnapshot Example.driver req) Example.cloud0) as Ht.
  destruct (run ctrl_env _ _).1 as [s|c] eqn:Hrun; [|vm_compute in Hrun; discriminate].
  exact (proj2 (CreateSnapshot_idempotent Example.driver req _ _ Ht) s eq_refl).
Defined.

(** C40: The source volume of an existing snapshot that [CreateSnapshot] returns is
    the disk's id and never the volume id of the request, which CSI calls the
    source volume's identity. *)
Theorem CreateSnapshot_source_is_disk_id (d : DiskDriver) (req : CreateSnapshotRequest) t s :
  traces ctrl_ok (cs.CreateSnapshot d req) t (Ok s) → changes t = 0%nat →
  (∃ serial, ParseCsiVolId (cs_SourceVolumeId req) = Ok (SourceVolumeId s, serial)) ∧
  SourceVolumeId s ≠ cs_SourceVolumeId req.
Proof.
  intros Ht Hc. destruct (monitored_trace _ _ _ _ _ (wp_create_snapshot d req) Ht) as [Hs _].
  destruct (Hs s eq_refl) as (v & serial & info & snap & Hp & _ & _ & Hsrc & _ & _ & Hcase).
  destruct Hcase as [(_ & _ & Hv)|(H1 & _)]; [|by rewrite H1 in Hc].
  rewrite Hsrc, Hv. split; [by exists serial|].
  apply ParseCsiVolId_Ok in Hp as (-> & _ & _ & _). unfold GenCsiVolId. intros Heq.
  apply (f_equal String.length) in Heq. rewrite length_append in Heq. simpl in Heq. lia.
Qed.

Lemma CreateSnapshot_source_is_disk_id_witness :
  let req := {| cs_SourceVolumeId := Example.csiId; cs_Name := "backup"; cs_Parameters := ∅ |} in
  let w := (run ctrl_env (cs.CreateSnapshot Example.driver req)
              (NewResourceLocks, Example.cloud0)).2.2 in
  match (run ctrl_env (cs.CreateSnapshot Example.driver req) (NewResourceLocks, w)).1 with
  | Ok s => SourceVolumeId s ≠ Example.csiId
  | Err _ => False
  end.
Proof.
  intros req w.
  pose proof (example_ctrl_trace (cs.CreateSnapshot Example.driver req) w) as Ht.
  destruct (run ctrl_env (cs.CreateSnapshot Example.driver req) (NewResourceLocks, w)).1
    as [s|c] eqn:Hrun; [|vm_compute in Hrun; discriminate].
  refine (proj2 (CreateSnapshot_source_is_disk_id Example.driver req _ s Ht _)).
  vm_compute. reflexivity.
Defined.

(** [DeleteSnapshot] deletes only the snapshot of the request, after finding
    it, and is idempotent: it succeeds when the cloud manager has deleted it or,
    with no change, when there is none. *)
Theorem DeleteSnapshot_idempotent (d : DiskDriver) (req : DeleteSnapshotRequest) t r :
  traces ctrl_ok (cs.DeleteSnapshot d req) t r →
  (∀ t1 R (o : CmE R) a t2, t = t1 ++ Event (CCloud o) a :: t2 →
     delete_snapshot_allows req t1 R o) ∧
  (r = Ok tt →
     Event (CCloud (DeleteSnapshot (ds_SnapshotId req))) (Ok tt) ∈ t ∨
     Event (CCloud (FindSnapshot (ds_SnapshotId req))) (Ok None) ∈ t ∧ changes t = 0%nat).
Proof.
  intros Ht. destruct (monitored_trace _ _ _ _ _ (wp_delete_snapshot d req) Ht) as [HQ Hall].
  by split.
Qed.

Lemma DeleteSnapshot_idempotent_witness :
  let req := {| ds_SnapshotId := "snap-1" |} in
  let t := run_log ctrl_env (cs.DeleteSnapshot Example.driver req)
             (NewResourceLocks, Example.cloud0) in
  Event (CCloud (DeleteSnapshot "snap-1")) (Ok tt) ∈ t ∨
  Event (CCloud (FindSnapshot "snap-1")) (Ok None) ∈ t ∧ changes t = 0%nat.
Proof.
  intros req t. apply (proj2 (DeleteSnapshot_idempotent Example.driver req _ _
    (example_ctrl_trace (cs.DeleteSnapshot Example.driver req) Example.cloud0))).
  vm_compute. reflexivity.
Defined.

(** ** Capabilities and topologies *)

Lemma first_unsupported_spec d caps :
  match cs.first_unsupported d caps with
  | None => ∀ c, c ∈ caps → GetMode c ∈ d_volumeCap d
  | Some m => ∃ c, c ∈ caps ∧ GetMode c = m ∧ m ∉ d_volumeCap d
  end.
Proof.
  induction caps as [|c caps IH]; cbn [cs.first_unsupported]; [by intros c []%not_elem_of_nil|].
  assert (Hc : existsb (fun c1 => c1 =? GetMode c) (d_volumeCap d) = true ↔
               GetMode c ∈ d_volumeCap d).
  { rewrite <-existsb_eqb_elem. rewrite !existsb_exists. by setoid_rewrite (Z.eqb_sym (GetMode c)). }
  destruct (existsb _ _); cbn [negb].
  - destruct (cs.first_unsupported d caps) as [m|].
    + destruct IH as (c' & ? & ? & ?). exists c'. split; [by right|done].
    + intros c' [->|?]%elem_of_cons; [by apply Hc|auto].
  - exists c. split; [by left|]. split; [done|]. intros Hm. by apply Hc in Hm.
Qed.

(** [ValidateVolumeCapabilities] on an existing volume: the capabilities are
    confirmed, with the request's own context, capabilities and parameters,
    exactly when the driver reports every requested access mode; otherwise the
    answer is a success that names an unsupported mode.  It only reads: one
    [FindVolume] and no lock. *)
Theorem ValidateVolumeCapabilities_confirms (d : DiskDriver)
    (req : ValidateVolumeCapabilitiesRequest) t r :
  traces ctrl_ok (cs.ValidateVolumeCapabilities d req) t (Ok r) →
  (∃ volId serial v, ParseCsiVolId (vc_VolumeId req) = Ok (volId, serial) ∧
     t = [Event (CCloud (FindVolume volId)) (Ok (Some v))]) ∧
  ((∀ c, c ∈ vc_VolumeCapabilities req → GetMode c ∈ d_volumeCap d) ↔
   r = Confirmed (vc_VolumeContext req) (vc_VolumeCapabilities req) (vc_Parameters req)) ∧
  (∀ m, r = Unsupported m → ∃ c, c ∈ vc_VolumeCapabilities req ∧ GetMode c = m ∧
     m ∉ d_volumeCap d).
Proof.
  unfold cs.ValidateVolumeCapabilities.
  case_match; [by intros [_ ?]|]. case_match; [by intros [_ ?]|].
  destruct (ParseCsiVolId _) as [[volId serial]|] eqn:Hid; [|by intros [_ ?]].
  intros (a & t1 & -> & _ & Ht). destruct a as [[v|]|e]; [|by destruct Ht..]. cbn in Ht.
  pose proof (first_unsupported_spec d (vc_VolumeCapabilities req)) as Hspec.
  destruct (cs.first_unsupported d _) as [m|]; destruct Ht as [-> [= ->]].
  - destruct Hspec as (c & Hc & Hm & Hno). split; [by exists volId, serial, v|].
    split; [|by intros m' [= <-]; exists c]. split; [|done].
    intros Hall. destruct Hno. rewrite <-Hm. auto.
  - split; [by exists volId, serial, v|]. by split.
Qed.

Lemma ValidateVolumeCapabilities_confirms_witness :
  GetMode Example.writer ∈ d_volumeCap Example.driver.
Proof.
  set (req := {| vc_VolumeId := Example.csiId; vc_VolumeContext := ∅;
                 vc_VolumeCapabilities := [Example.writer]; vc_Parameters := ∅ |}).
  apply (proj2 (proj1 (proj2 (ValidateVolumeCapabilities_confirms Example.driver req _
    (Confirmed ∅ [Example.writer] ∅)
    (example_ctrl_trace (cs.ValidateVolumeCapabilities Example.driver req) Example.cloud0))))).
  - reflexivity.
  - apply list_elem_of_here.
Defined.

(** The topology the driver gives to a disk is the one it picks back: asked
    for a disk of a valid type where an existing disk is, [PickTopology] returns
    that disk's zone and the only instance type, in whatever order Go ranges over
    the segments, and the existing disk is valid for exactly the requirements that
    have its topology among the requisite ones (or none). *)
Theorem topology_roundtrip (d : DiskDriver) (v : ZecVolume) (requisite : list Segments) t r :
  VolumeType_IsValid (ZecVolume_Type v) = true →
  (traces ctrl_ok (PickTopology d (Some {| Requisite := requisite;
                                           Preferred := GetVolumeTopology d (Some v) |})) t r →
   r = Ok (Some (mkTopology (ZecVolume_Zone v) BasicVmType))) ∧
  (∀ preferred,
    IsValidTopology d (Some v) (Some {| Requisite := requisite; Preferred := preferred |}) = true ↔
    requisite = [] ∨ ∃ segments, segments ∈ requisite ∧ segments ∈ GetVolumeTopology d (Some v)).
Proof.
  intros Hv. rewrite (GetVolumeTopology_valid d v Hv). split.
  - intros (order & t1 & -> & Hok & Ht). destruct Ht as [_ ->].
    by rewrite (pick_disk_segments d (ZecVolume_Zone v)).
  - intros preferred. unfold IsValidTopology. rewrite (GetVolumeTopology_valid d v Hv).
    cbn [Requisite]. destruct requisite as [|s l]; [tauto|].
    rewrite existsb_exists. setoid_rewrite <-list_elem_of_In. cbn [existsb].
    setoid_rewrite orb_false_r. setoid_rewrite bool_decide_eq_true.
    setoid_rewrite list_elem_of_singleton. split; [by right|]. by intros [?|?].
Qed.

Lemma topology_roundtrip_witness :
  let v := volume_of_disk (Example.disk DiskStatusAvailable "" 20) in
  IsValidTopology Example.driver (Some v)
    (Some {| Requisite := GetVolumeTopology Example.driver (Some v); Preferred := [] |}) = true.
Proof.
  intros v. apply (proj2 (topology_roundtrip Example.driver v
    (GetVolumeTopology Example.driver (Some v)) [] (Err tt) eq_refl)).
  right. eexists. split; [apply list_elem_of_here|apply list_elem_of_here].
Defined.
