(* ===== verification/SystemProps.v ===== *)
(** * What the lock table guarantees to the controller's requests

    Properties of the executions of the controller ([System.v]): any number of
    requests, interleaved in any order, against a cloud that answers anything. *)

From S2P Require Import Prelude GoStd Csi Common Prog Locking Serve Driver ZecApi.
From S2P Require Import CloudTypes Cloud Ctrl Controller Locks CloudProps System Sim.

Section properties.
Context (g : Globals) (d : DiskDriver) (impl : ∀ R, CmE R → prog CloudE R).
Context `{!CloudDiscipline impl}.

(** C1: Mutual exclusion.  In every execution of the controller, each SDK call
    that changes a disk or a snapshot is made by a request that holds its lock at
    that time, no other request holds it, and two requests never have calls in
    flight that change the same one. *)
Theorem changes_are_exclusive (s : system (controller g d impl)) (r : string) :
  served (controller g d impl) s →
  (∀ l1 i R (o : CloudE R) a l2,
     log s = l1 ++ (i, Event (SCloud o) a) :: l2 → r ∈ api_scope o →
     ∀ j, r ∈ held_by j l1 ↔ j = i) ∧
  (∀ i j q1 q2 R1 R2 (o1 : CloudE R1) (o2 : CloudE R2) k1 k2,
     pool s !! i = Some (q1, Vis (SCloud o1) k1) → pool s !! j = Some (q2, Vis (SCloud o2) k2) →
     r ∈ api_scope o1 → r ∈ api_scope o2 → i = j).
Proof.
  intros Hs. destruct (served_exclusive _ s r Hs) as [Hlog Hpool]. split.
  - intros l1 i R o a l2 Heq Hr. destruct (served_origin _ _ _ _ _ _ Hs Heq) as [[q p] Hi].
    by apply (Hlog _ _ _ _ _ _ _ (ToSdk o) a Heq Hi eq_refl).
  - intros i j q1 q2 R1 R2 o1 o2 k1 k2 Hi Hj. exact (Hpool _ _ _ _ _ _ _ _ _ _ Hi Hj).
Qed.

(** C21: No lock leaks.  In every execution, a request that has returned,
    whatever it returned, holds no lock; when all have returned, the table is
    empty. *)
Theorem locks_are_released (s : system (controller g d impl)) :
  served (controller g d impl) s →
  (∀ i q a, pool s !! i = Some (q, Ret a) → held_by i (log s) = ∅) ∧
  ((∀ i q p, pool s !! i = Some (q, p) → ∃ a, p = Ret a) → locks (table s) = ∅).
Proof. apply served_released, _. Qed.

(** A lock is refused, and its request answers [Aborted], only for a
    resource that a request holds at that time. *)
Theorem refused_lock_is_held (s : system (controller g d impl)) l1 i (id : string) l2 :
  served (controller g d impl) s →
  log s = l1 ++ (i, Event (SLock (TryAcquireE id)) false) :: l2 →
  ∃ j, id ∈ held_by j l1.
Proof. intros Hs Heq. exact (served_refused _ s l1 i id l2 Hs Heq). Qed.
End properties.

(** ** Witnesses: one request served to its end *)

Definition example_manager : zecCloudManager := {| zecClient := true; Iscontroller := true |}.

Definition example_controller : server :=
  controller Example.globals Example.driver (zec_impl example_manager).

Definition example_end (r : request) (w : world) : system example_controller :=
  served_alone example_controller back_env r w.

Lemma example_served r w : served example_controller (example_end r w).
Proof. apply served_alone_served, back_env_ok. Qed.

Lemma changes_are_exclusive_witness :
  ∃ l1 l2,
    log (example_end (ReqPublish Example.publish_request) Example.cloud0) =
      l1 ++ (0, Event (SCloud (Api (AttachDisks [Example.diskId] "vm-1"))) (Ok tt)) :: l2 ∧
    Example.diskId ∈ held_by 0 l1 ∧ Example.diskId ∉ held_by 1 l1.
Proof.
  set (s := example_end (ReqPublish Example.publish_request) Example.cloud0).
  exists (take 3 (log s)), (drop 4 (log s)).
  assert (Hlog : log s = take 3 (log s) ++
    (0, Event (SCloud (Api (AttachDisks [Example.diskId] "vm-1"))) (Ok tt)) :: drop 4 (log s))
    by (vm_compute; reflexivity).
  pose proof (proj1 (changes_are_exclusive Example.globals Example.driver
    (zec_impl example_manager) s Example.diskId (example_served _ _)) _ _ _ _ _ _ Hlog
    (list_elem_of_here _ _)) as Hheld.
  split; [exact Hlog|]. split; [by apply Hheld|]. by intros ?%Hheld.
Defined.

Lemma locks_are_released_witness :
  locks (table (example_end (ReqPublish Example.publish_request) Example.cloud0)) = ∅.
Proof.
  apply (proj2 (locks_are_released Example.globals Example.driver (zec_impl example_manager)
    _ (example_served _ _))).
  intros i q p. unfold example_end, served_alone.
  destruct (run _ _ _) as [a [t w']]. simpl.
  intros [_ [= _ <-]]%lookup_singleton_Some. by exists a.
Defined.

(** Two requests on one disk: the second is refused while the first runs. *)
Lemma refused_lock_is_held_witness :
  ∃ (s : system example_controller) l1 l2,
    served example_controller s ∧
    log s = l1 ++ (1, Event (SLock (TryAcquireE Example.diskId)) false) :: l2 ∧
    ∃ j, Example.diskId ∈ held_by j l1.
Proof.
  set (q0 := ReqPublish Example.publish_request).
  set (q1 := ReqDeleteVolume {| dv_VolumeId := Example.csiId |}).
  assert (H0 : ∃ k, sv_serve example_controller q0 = Vis (SLock (TryAcquireE Example.diskId)) k)
    by (eexists; reflexivity).
  assert (H1 : ∃ k, sv_serve example_controller q1 = Vis (SLock (TryAcquireE Example.diskId)) k)
    by (eexists; reflexivity).
  destruct H0 as [k0 H0], H1 as [k1 H1].
  assert (Hs : served example_controller
    (mkSystem (srv := example_controller) (mkResourceLocks ({[Example.diskId]} ∪ ∅))
       (<[1 := (q1, k1 false)]> (<[1 := (q1, sv_serve example_controller q1)]>
        (<[0 := (q0, k0 true)]> (<[0 := (q0, sv_serve example_controller q0)]> ∅))))
       [(0, Event (SLock (TryAcquireE Example.diskId)) true);
        (1, Event (SLock (TryAcquireE Example.diskId)) false)])).
  { eapply rtc_l; [by apply (step_start example_controller 0 q0)|].
    eapply rtc_l; [by eapply (step_lock example_controller 0 q0 _ (TryAcquireE Example.diskId) k0);
                      [exact (f_equal (fun p => Some (q0, p)) H0)|]|].
    eapply rtc_l; [by apply (step_start example_controller 1 q1)|].
    eapply rtc_l; [by eapply (step_lock example_controller 1 q1 _ (TryAcquireE Example.diskId) k1);
                      [exact (f_equal (fun p => Some (q1, p)) H1)|]|].
    reflexivity. }
  eexists _, [_], []. split; [exact Hs|]. split; [reflexivity|].
  exact (refused_lock_is_held _ _ _ _ [_] 1 Example.diskId [] Hs eq_refl).
Defined.
