(* ===== verification/WellFormed.v ===== *)
(** * The requests that reach the cloud are well formed

    What a change that the driver asks of the SDK looks like, whatever the request
    it serves and whatever the cloud has answered so far: sizes, categories, names
    and ids.  The handlers are proved to call the cloud manager with well-formed
    arguments, the manager to build well-formed requests of them. *)

From S2P Require Import Prelude GoStd Csi Common Prog Locking Serve Driver ZecApi CloudTypes.
From S2P Require Import Cloud Ctrl Controller CtrlProps Locks CloudProps System Sim SystemProps.

Local Open Scope Z_scope.

(** ** Well-formed arguments *)

Definition size_wf (n : Z) : Prop := 20 <= n <= 32768.
Definition name_wf (n : string) : Prop := 0 < len n <= 64.
Definition category_wf (c : string) : Prop := c = BasicNvmeName ∨ c = StandardNvmeName.
Definition disk_id_wf (v : string) : Prop := len v = ZECVOLID_LEN ∧ has_byte "-"%char v = false.

Definition creation_wf (r : CreateDisksRequest) : Prop :=
  name_wf (cdr_DiskName r) ∧ size_wf (cdr_DiskSize r) ∧ category_wf (cdr_DiskCategory r) ∧
  cdr_DiskAmount r = 1 ∧ cdr_ZoneId r ≠ "" ∧ cdr_ResourceGroupId r ≠ "" ∧
  cdr_SnapshotId r ≠ Some "".

(** A call of the SDK. *)
Definition sdk_wf {R} (c : CloudE R) : Prop :=
  match c with
  | Api (CreateDisks r) => creation_wf r
  | Api (ReleaseDisk v) => disk_id_wf v
  | Api (AttachDisks ids vm) => ∃ v, ids = [v] ∧ disk_id_wf v ∧ vm ≠ ""
  | Api (DetachDisks ids check) => ∃ v, ids = [v] ∧ disk_id_wf v ∧ check = false
  | Api (ResizeDisk v n) => disk_id_wf v ∧ size_wf n
  | Api (CreateSnapshotApi v name) => disk_id_wf v ∧ name_wf name
  | Api (DeleteSnapshots ids) => ∃ s, ids = [s] ∧ s ≠ ""
  | _ => True
  end.

(** A call of the cloud manager. *)
Definition cm_wf {R} (o : CmE R) : Prop :=
  match o with
  | CreateVolume n s c _ _ _ | CreateVolumeFromSnapshot n s c _ _ _ _ =>
      name_wf n ∧ size_wf s ∧ category_wf c
  | DeleteVolume v | AttachVolume v _ | DetachVolume v => disk_id_wf v
  | ResizeVolume v n => disk_id_wf v ∧ size_wf n
  | CreateSnapshot n v => disk_id_wf v ∧ name_wf n
  | _ => True
  end.

(** ** The cloud manager *)

Definition wf_call (R : Type) (c : CloudE R) : Prop := sdk_wf c.

(** A well-formed call of the cloud manager makes well-formed calls of the SDK. *)
Lemma zec_wf cm R (o : CmE R) : cm_wf o → all_calls wf_call (zec_impl cm R o).
Proof.
  intros Ho. eapply all_calls_mono; [|apply zec_asks].
  intros R' c Hc. unfold wf_call. destruct c as [R'' a|]; [|done].
  destruct a; try done; destruct o; cbn in Ho, Hc |- *; try done; destruct_and?; subst; eauto;
    unfold creation_wf; cbn; split_and!; congruence || done.
Qed.

(** ** The handlers *)

(** The capacity range of a request, in bytes. *)
Definition capacity_of (q : request) : option CapacityRange :=
  match q with
  | ReqCreateVolume r => cv_CapacityRange r
  | ReqExpand r => ce_CapacityRange r
  | _ => None
  end.

(** The range is one of [int64], and what it requires does not overflow when it is
    rounded up to GiB. *)
Definition moderate (q : request) : Prop :=
  ∀ r, capacity_of q = Some r →
    is_int64 (RequiredBytes r) ∧ is_int64 (LimitBytes r) ∧ RequiredBytes r <= 2 ^ 63 - Gib.

Definition wf_manager (R : Type) (e : CtrlE R) : Prop :=
  match e with CCloud o => cm_wf o | _ => True end.

Lemma required_size_wf sc range n :
  sc_wf sc →
  (∀ r, range = Some r → is_int64 (RequiredBytes r) ∧ is_int64 (LimitBytes r) ∧ RequiredBytes r <= 2 ^ 63 - Gib) →
  GetRequiredVolumeSizeByte sc range = Ok n → size_wf (ByteCeilToGib n).
Proof.
  intros Hsc Hr Hn. pose proof Hsc as (_ & Hmin & Hmax).
  destruct range as [r|]; cbn in Hn.
  - destruct (Hr r eq_refl) as (H1 & H2 & H3).
    destruct (GetRequired_Ok sc r n Hsc H1 H2 H3 Hn) as [((gb & ->) & [Hlo Hhi] & _) _].
    rewrite Hmin in Hlo. rewrite Hmax in Hhi. revert Hlo Hhi.
    change ZEC_MIN_DISK_SIZE_BYTES with 21474836480.
    change ZEC_MAX_DISK_SIZE_BYTES with 35184372088832. intros Hlo Hhi.
    rewrite ByteCeilToGib_aligned by gib. unfold size_wf. gib.
  - injection Hn as <-. rewrite Hmin. vm_compute. by split.
Qed.

Lemma category_of_wf sc : sc_wf sc → category_wf (VolumeType_String (sc_diskType sc)).
Proof.
  intros (Hty & _). apply VolumeType_IsValid_iff in Hty as [-> | ->]; [by left|by right].
Qed.

Lemma checked_name_wf n : (len n =? 0) = false → (64 <? len n) = false → name_wf n.
Proof. unfold name_wf. pose proof (len_nonneg n). lia. Qed.

Lemma created_name_wf d req u : cs.CreateVolume_check d req = Ok u → name_wf (cv_Name req).
Proof.
  unfold cs.CreateVolume_check. intros H. repeat case_match; simplify_eq. by apply checked_name_wf.
Qed.

Lemma parsed_id_wf id v s : ParseCsiVolId id = Ok (v, s) → disk_id_wf v.
Proof. by intros (_ & ? & ? & _)%ParseCsiVolId_Ok. Qed.

Ltac wf_walk := walk_with ltac:(cbn [pre only wf_manager cm_wf]; try done).

Ltac wf_facts :=
  conditions;
  repeat match goal with
  | H : cs.CreateVolume_check _ _ = Ok _ |- _ => apply created_name_wf in H
  | H : ParseCsiVolId _ = Ok (_, _) |- _ => apply parsed_id_wf in H
  | H : NewZecStorageClassFromMap _ _ = Ok _ |- _ => apply NewZecStorageClassFromMap_wf in H
  | H : NewDefaultZecStorageClassFromType _ = Some _ |- _ => apply NewDefault_wf in H
  | H : GetRequiredVolumeSizeByte _ _ = Ok _ |- _ => apply required_size_wf in H; [|assumption..]
  end;
  eauto using category_of_wf, checked_name_wf.

(** A handler makes well-formed calls of the cloud manager. *)
Lemma handle_wf g d q : moderate q → all_calls wf_manager (handle g d q).
Proof.
  intros Hq. unfold all_calls. unfold moderate in Hq.
  destruct q; cbn [handle capacity_of] in *; wf_walk; wf_facts.
Qed.

(** ** Down to the SDK *)

Definition wf_sdk (R : Type) (e : SysE R) : Prop :=
  match e with SCloud c => sdk_wf c | _ => True end.

Lemma served_wf g d cm q :
  moderate q → all_calls wf_sdk (sv_serve (controller g d (zec_impl cm)) q).
Proof.
  intros Hq. apply (all_calls_interp wf_manager); [|by apply handle_wf].
  intros R [R' o|R' [R'' o|R'' o]] He; [by apply all_calls_call| |by apply all_calls_call].
  cbn [sys_impl locked_impl handler_impl]. unfold lift.
  apply (all_calls_interp (fun R (e : BackE R) => match e with ToSdk c => sdk_wf c | _ => True end));
    [by intros; apply all_calls_call|].
  apply (all_calls_interp wf_call); [by intros; apply all_calls_call|]. by apply zec_wf.
Qed.

(** ** Every execution *)

(** C23: What the cloud is asked for is well formed.  In every execution of the
    controller whose requests ask for at most 2^63 - 2^30 bytes, interleaved in any
    order and whatever the cloud answers, each change that reaches the SDK has a
    disk of 20 to 32768 GiB in one of the two categories, with a name of 1 to 64
    bytes, a zone and a resource group; one disk at a time, named by an id of 19
    bytes; and no field that the API requires is empty. *)
Theorem sdk_requests_wf (g : Globals) (d : DiskDriver) (cm : zecCloudManager)
    (s : system (controller g d (zec_impl cm))) :
  served (controller g d (zec_impl cm)) s →
  (∀ i q p, pool s !! i = Some (q, p) → moderate q) →
  ∀ i R (c : CloudE R) a, (i, Event (SCloud c) a) ∈ log s → sdk_wf c.
Proof.
  intros Hs Hq i R c a Hin.
  destruct (served_calls (controller g d (zec_impl cm)) moderate (fun _ => wf_sdk) s
    (served_wf g d cm) Hs) as [_ Hlog].
  apply list_elem_of_split in Hin as (l1 & l2 & Heq).
  destruct (served_origin _ _ _ _ _ _ Hs Heq) as [[q p] Hi].
  refine (Hlog i (Event (SCloud c) a) q p _ Hi (Hq _ _ _ Hi)). rewrite Heq.
  apply elem_of_app. right. apply list_elem_of_here.
Qed.

(** A volume of 30 GiB, created. *)
Lemma sdk_requests_wf_witness :
  let s := example_end (ReqCreateVolume Example.create_request) Example.cloud0 in
  ∃ r a, (0%nat, Event (SCloud (Api (CreateDisks r))) a) ∈ log s ∧ creation_wf r.
Proof.
  cbv zeta. set (s := example_end (ReqCreateVolume Example.create_request) Example.cloud0).
  assert (Hin : ∃ r a, (0%nat, Event (SCloud (Api (CreateDisks r))) a) ∈ log s).
  { eexists _, _. vm_compute. repeat first [apply list_elem_of_here | apply list_elem_of_further]. }
  assert (Hm : ∀ i q p, pool s !! i = Some (q, p) → moderate q).
  { intros i q p Hi. assert (q = ReqCreateVolume Example.create_request) as ->.
    { revert Hi. unfold s, example_end, served_alone. destruct (run _ _ _) as [x [t w]]. simpl.
      by intros [_ [= <- _]]%lookup_singleton_Some. }
    intros r [= <-]. vm_compute. split_and!; discriminate. }
  destruct Hin as (r & a & Hin). exists r, a. split; [exact Hin|].
  exact (sdk_requests_wf Example.globals Example.driver example_manager s (example_served _ _) Hm
    0%nat _ (Api (CreateDisks r)) a Hin).
Defined.
