(* ===== verification/Bounded.v ===== *)
(** * How much a request does

    Bounds on the calls of the controller's requests, and through the cloud
    manager on their timers: [utils.go] promises the sidecars that a request waits
    for at most one [WaitStatusTimeout], a deletion for two. *)

From S2P Require Import Prelude GoStd Csi Common Prog Locking Serve Driver ZecApi CloudTypes.
From S2P Require Import Cloud Ctrl Controller Locks CloudProps System Sim CloudSpec SystemProps.

(** ** Budgets *)

Section budget.
Context {E : Type → Type} (w : ∀ R, E R → nat).

(** Each call spends its weight. *)
Definition spend : protocol E nat :=
  Protocol (fun R n e => (w R e ≤ n)%nat) (fun _ _ _ _ => True) (fun R n e _ => (n - w R e)%nat).

(** No execution of the program spends more than [n]. *)
Definition costs_at_most {A} (n : nat) (p : prog E A) : Prop := wp spend p (fun _ _ => True) n.

Definition spent (t : list (event E)) : nat := list_sum ((fun ev => w _ (ev_call ev)) <$> t).

Lemma costs_traces {A} ok n (p : prog E A) t a :
  costs_at_most n p → traces ok p t a → (spent t ≤ n)%nat.
Proof.
  unfold costs_at_most, spent. revert n t. induction p as [b|R e k IH]; intros n t; simpl.
  - intros _ [-> _]. simpl. lia.
  - intros [He Hk] (r & t' & -> & _ & Ht). specialize (IH r _ t' (Hk r I) Ht). csimpl. simpl in *. lia.
Qed.

Lemma spent_app t1 t2 : spent (t1 ++ t2) = (spent t1 + spent t2)%nat.
Proof. unfold spent. by rewrite fmap_app, list_sum_app. Qed.
End budget.

(** The execution [t] of the implementation, cut into the executions of the
    calls [t']: each with the answer that it returned. *)
Inductive expands {E F : Type → Type} (okF : answers F) (h : ∀ R, E R → prog F R) :
    list (event E) → list (event F) → Prop :=
| expands_nil : expands okF h [] []
| expands_cons R (e : E R) r t' t1 t2 :
    traces okF (h R e) t1 r → expands okF h t' t2 →
    expands okF h (Event e r :: t') (t1 ++ t2).

(** A call is worth what its implementation spends. *)
Lemma spent_interp {E F A} (wE : ∀ R, E R → nat) (wF : ∀ R, F R → nat) okE okF
    (h : ∀ R, E R → prog F R) (p : prog E A) t a :
  (∀ R (e : E R) t r, traces okF (h R e) t r → okE R e r ∧ (spent wF t ≤ wE R e)%nat) →
  traces okF (interp h p) t a →
  ∃ t', traces okE p t' a ∧ expands okF h t' t ∧ (spent wF t ≤ spent wE t')%nat.
Proof.
  intros Hh. revert t. induction p as [b|R e k IH]; intros t.
  - intros [-> ->]. exists []. split_and!; [done|constructor|done].
  - cbn [interp]. intros (t1 & t2 & r & -> & H1 & H2)%traces_bind.
    destruct (Hh _ _ _ _ H1) as [Hok Hw]. destruct (IH r t2 H2) as (t' & Ht' & Hx & Hs).
    exists (Event e r :: t'). split; [simpl; eauto 10|]. split; [by constructor|].
    rewrite spent_app. unfold spent at 3. csimpl. fold (spent wE t'). simpl. lia.
Qed.

(** ** Calls and timers *)

(** A handler's call of the locks, the cloud manager or the runtime. *)
Definition one_each (R : Type) (e : CtrlE R) : nat := 1.

(** The timers an operation of the cloud manager starts. *)
Definition timers_of (R : Type) (e : CtrlE R) : nat :=
  match e with CCloud o => cost 1 0 o | _ => 0 end.

Definition timer (R : Type) (e : SysE R) : nat :=
  match e with SCloud (SelectTicks _ _) => 1 | _ => 0 end.

Definition timers_allowed (q : request) : nat :=
  match q with ReqDeleteVolume _ => 2 | _ => 1 end.

Ltac count := repeat first
  [ progress walk_with ltac:(cbv beta iota delta [pre spend next one_each timers_of cost maxReleaseDiskTimes]; lia)
  | done ].

Lemma handle_calls g d q : costs_at_most one_each 11 (handle g d q).
Proof. unfold costs_at_most. destruct q; cbn [handle]; count. Qed.

Lemma handle_timers g d q : costs_at_most timers_of (timers_allowed q) (handle g d q).
Proof. unfold costs_at_most. destruct q; cbn [handle timers_allowed]; count. Qed.

(** ** Down to the SDK *)

Definition sdk_event (ev : event CloudE) : event BackE := Event (ToSdk (ev_call ev)) (ev_answer ev).

Lemma traces_sdk {A} (p : prog CloudE A) t a :
  traces back_ok (interp (fun R o => call (ToSdk o)) p) t a →
  ∃ t', t = sdk_event <$> t' ∧ traces any_answer p t' a.
Proof.
  revert t. induction p as [b|R e k IH]; intros t.
  - intros [-> ->]. by exists [].
  - intros (r & t1 & -> & _ & (t' & -> & Ht)%IH). exists (Event e r :: t').
    split; [done|]. exists r, t'. by split_and!.
Qed.

Lemma spent_timers (t : list (event CloudE)) :
  spent timer (outer <$> (sdk_event <$> t)) = total is_wait t.
Proof.
  unfold spent, total. induction t as [|[R e r] t IH]; [done|]. csimpl. simpl in *. rewrite IH.
  by destruct e.
Qed.

Lemma sys_impl_timers cm R (e : CtrlE R) t r :
  traces (locked_ok back_ok) (sys_impl (zec_impl cm) R e) t r →
  ctrl_ok R e r ∧ (spent timer t ≤ timers_of R e)%nat.
Proof.
  destruct e as [R o|R o].
  - intros (r' & t' & -> & _ & -> & ->). split; [done|]. unfold spent. csimpl. simpl. lia.
  - cbn [sys_impl locked_impl]. intros (t1 & -> & Ht)%traces_lift. destruct o as [R o|R o].
    + apply traces_sdk in Ht as (t2 & -> & Ht). split; [done|]. rewrite spent_timers.
      eapply at_most_traces; [|exact Ht]. by apply (at_most_cost is_wait 1 0 waits_cost).
    + destruct Ht as (r' & t' & -> & Hr & -> & ->). split; [exact Hr|]. unfold spent. csimpl. simpl. lia.
Qed.

(** C24: A request does a bounded amount of work.  Every execution of a request of
    the controller, down to the SDK, is the sequence of the executions of at most
    eleven calls of the lock table, the cloud manager and the runtime, whatever they
    answer; and it starts at most one timer of [WaitStatusTimeout], a deletion at
    most two: what [utils.go] promises the sidecars, whose timeouts must exceed
    it. *)
Theorem requests_are_bounded (g : Globals) (d : DiskDriver) (cm : zecCloudManager)
    (q : request) t r :
  traces (locked_ok back_ok) (sv_serve (controller g d (zec_impl cm)) q) t r →
  (∃ t', traces ctrl_ok (handle g d q) t' r ∧
         expands (locked_ok back_ok) (sys_impl (zec_impl cm)) t' t ∧ (length t' ≤ 11)%nat) ∧
  (spent timer t ≤ timers_allowed q)%nat.
Proof.
  intros (t' & Ht' & Hx & Hs)%(spent_interp timers_of timer ctrl_ok _ _ _ _ _ (sys_impl_timers cm)).
  split.
  - exists t'. split_and!; [done..|]. pose proof (costs_traces _ _ _ _ _ _ (handle_calls g d q) Ht') as H.
    enough (spent one_each t' = length t') by lia. unfold spent. clear.
    induction t' as [|ev t' IH]; [done|]. csimpl. simpl in *. by rewrite IH.
  - etrans; [exact Hs|]. eapply costs_traces, Ht'. apply handle_timers.
Qed.

Lemma requests_are_bounded_witness :
  let q := ReqDeleteVolume {| dv_VolumeId := Example.csiId |} in
  let t := run_log sys_env (sv_serve example_controller q) (NewResourceLocks, Example.cloud0) in
  (spent timer t ≤ 2)%nat.
Proof.
  cbv zeta. set (q := ReqDeleteVolume {| dv_VolumeId := Example.csiId |}).
  eapply (requests_are_bounded Example.globals Example.driver example_manager q).
  apply run_log_traces. intros R e [t w]. destruct e as [R o|R o]; cbn; [done|].
  pose proof (back_env_ok R o w) as H. by destruct (back_env R o w).
Defined.
