(* ===== verification/Disk.v ===== *)
(** * The life of a disk: abstract specifications

    The cloud's view of one disk, [option disk], and two machines on it.  [disk_api v]
    is what the driver relies on of the cloud's API for the disk [v] (the
    statuses of [pkg/cloud/types.go], tasks that complete by themselves, changes
    refused on a busy disk); the API is not part of the repository, and [disk_api] is
    only used as a hypothesis on its environment ([obeys]).  [disk_manager v] is what the
    interface [CloudManager] promises to its clients: each operation happens once,
    and has completed when it is answered without an error.  [CmRefine.v] proves that
    [zec_impl] refines [disk_manager] on any cloud that obeys [disk_api]. *)

From S2P Require Import Prelude GoStd Prog ZecApi CloudTypes Machine Driver Cloud.

Local Open Scope Z_scope.

(** ** Disks *)

Inductive task : Type :=
| Creating
| Attaching (vm : string)
| Detaching
| Resizing (size : Z)
| Recycling
| Destroying.

Record disk : Type := mkDisk {
  (** the request that made it *)
  k_made : CreateDisksRequest;
  k_size : Z;
  k_instance : string;
  (** in the recycle bin *)
  k_bin : bool;
  k_task : option task
}.

Definition with_task (t : task) (d : disk) : disk :=
  mkDisk (k_made d) (k_size d) (k_instance d) (k_bin d) (Some t).
Definition with_size (n : Z) (d : disk) : disk :=
  mkDisk (k_made d) n (k_instance d) (k_bin d) None.
Definition with_instance (vm : string) (d : disk) : disk :=
  mkDisk (k_made d) (k_size d) vm (k_bin d) None.
Definition in_bin (d : disk) : disk :=
  mkDisk (k_made d) (k_size d) (k_instance d) true None.
Definition new_disk (req : CreateDisksRequest) : disk :=
  mkDisk req (cdr_DiskSize req) "" false None.

Definition at_rest (s : option disk) : Prop :=
  match s with Some d => k_task d = None | None => True end.

(** The state in which the task of the disk, if it has one, is done. *)
Definition settle (s : option disk) : option disk :=
  match s with
  | None => None
  | Some d =>
    match k_task d with
    | None => Some d
    | Some Creating => Some (new_disk (k_made d))
    | Some (Attaching vm) => Some (with_instance vm d)
    | Some Detaching => Some (with_instance "" d)
    | Some (Resizing n) => Some (with_size n d)
    | Some Recycling => Some (in_bin d)
    | Some Destroying => None
    end
  end.

(** What happens to a disk while nobody changes it. *)
Definition progress (s s' : option disk) : Prop := s' = s ∨ s' = settle s.

(** ** Changes *)

Inductive change : Type :=
| Create (req : CreateDisksRequest)
| Release
| Attach (vm : string)
| Detach
| Resize (size : Z).

(** The task a change starts; [None] when the cloud refuses it. *)
Definition accept (c : change) (s : option disk) : option (option disk) :=
  match c, s with
  | Create req, None => Some (Some (with_task Creating (new_disk req)))
  | _, None | Create _, _ => None
  | _, Some d =>
    if negb (is_nil (k_task d)) then None else
    match c with
    | Release =>
      if String.eqb (k_instance d) ""
      then Some (Some (with_task (if k_bin d then Destroying else Recycling) d)) else None
    | Attach vm =>
      if String.eqb (k_instance d) "" && negb (k_bin d)
      then Some (Some (with_task (Attaching vm) d)) else None
    | Detach =>
      if String.eqb (k_instance d) "" || k_bin d then None
      else Some (Some (with_task Detaching d))
    | Resize n => if k_bin d then None else Some (Some (with_task (Resizing n) d))
    | Create _ => None
    end
  end.

(** The change happens at some moment between the two states. *)
Definition effect (c : change) (s s' : option disk) : Prop :=
  ∃ s1 s2, progress s s1 ∧ accept c s1 = Some s2 ∧ progress s2 s'.

(** It may not have happened. *)
Definition attempt (c : change) (s s' : option disk) : Prop := progress s s' ∨ effect c s s'.

(** ** What the API tells of a disk *)

(** The statuses of a disk at rest that the driver waits for. *)
Definition status_law (d : disk) (st : string) : Prop :=
  (st = DiskStatusAvailable → k_task d = None ∧ k_instance d = "" ∧ k_bin d = false) ∧
  (st = DiskStatusInUse → k_task d = None ∧ k_instance d ≠ "" ∧ k_bin d = false) ∧
  (st = DiskStatusRecycled → k_task d = None ∧ k_bin d = true).

(** A task may show in the size and the instance before or after it is done. *)
Definition shows (v : string) (d : disk) (i : DiskInfo) : Prop :=
  di_DiskId i = Some v ∧
  di_DiskCategory i = Some (cdr_DiskCategory (k_made d)) ∧
  di_ZoneId i = Some (cdr_ZoneId (k_made d)) ∧
  (∃ st, di_DiskStatus i = Some st ∧ status_law d st) ∧
  (k_task d = None → di_DiskSize i = Some (k_size d) ∧ default "" (di_InstanceId i) = k_instance d).

Definition describes (v : string) (s : option disk) (p : page DiskInfo) : Prop :=
  match s with
  | None => TotalCount p = Some 0
  | Some d => TotalCount p = Some 1 ∧ ∃ i, DataSet p = [Some i] ∧ shows v d i
  end.

(** ** The machine of the API *)

Inductive verdict : Type := Accepted | Refused | Unknown.

(** A typed error refuses the call; after any other error (a lost answer) the
    cloud may have accepted it. *)
Definition verdict_of {T} (r : sdk T) : verdict :=
  match r with
  | Ok _ => Accepted
  | Err (ZenlayerCloudSdkError _) => Refused
  | Err OtherError => Unknown
  end.

Definition takes (c : change) (u : verdict) (s s' : option disk) : Prop :=
  match u with
  | Accepted => accept c s = Some s'
  | Refused => s' = s
  | Unknown => s' = s ∨ accept c s = Some s'
  end.

Definition sdk_op (v : string) (R : Type) (o : ZecE R) (s : option disk)
    : R → option disk → Prop :=
  match o in ZecE R return R → option disk → Prop with
  | CreateDisks req => fun r s' =>
      match r with
      | Ok (Some (id :: _)) => if String.eqb id v then takes (Create req) Accepted s s' else s' = s
      | Err (ZenlayerCloudSdkError _) => s' = s
      | _ => takes (Create req) Unknown s s'
      end
  | ReleaseDisk u => fun r s' =>
      if String.eqb u v
      then takes Release (verdict_of r) s s' ∧
           (r = Err (ZenlayerCloudSdkError OPERATION_FAILED_RESOURCE_NOT_FOUND) → s = None)
      else s' = s
  | AttachDisks ids vm => fun r s' =>
      if existsb (String.eqb v) ids then takes (Attach vm) (verdict_of r) s s' else s' = s
  | DetachDisks ids _ => fun r s' =>
      if existsb (String.eqb v) ids
      then takes Detach (match r with Ok (Some (_ :: _)) => Unknown | _ => verdict_of r end) s s'
      else s' = s
  | ResizeDisk u n => fun r s' =>
      if String.eqb u v then takes (Resize n) (verdict_of r) s s' else s' = s
  | DescribeDisks req => fun r s' =>
      s' = s ∧ (req = disks_by_id v → ∀ p, r = Ok (Some p) → describes v s p)
  | _ => fun _ s' => s' = s
  end.

(** While a call is on its way, or the driver waits, the disk's task goes on. *)
Definition disk_api (v : string) : machine CloudE (option disk) := fun R o s r s' =>
  match o in CloudE R return R → Prop with
  | Api a => fun r => ∃ s1 s2, progress s s1 ∧ sdk_op v _ a s1 r s2 ∧ progress s2 s'
  | SelectTicks _ _ => fun _ => progress s s'
  end r.

(** ** The machine of [CloudManager] *)

(** What a [ZecVolume] tells of the disk. *)
Definition seen (v : string) (d : disk) (x : ZecVolume) : Prop :=
  ZecVolume_Id x = v ∧
  ZecVolume_Type x = StringToType (cdr_DiskCategory (k_made d)) ∧
  ZecVolume_Zone x = cdr_ZoneId (k_made d) ∧
  status_law d (ZecVolume_Status x) ∧
  (k_task d = None → ZecVolume_Size x = k_size d ∧ ZecVolume_InstanceId x = k_instance d).

(** One operation changes the disk: done when there is no error. *)
Definition performs {T} (c : change) (r : result cerr T) (s s' : option disk) : Prop :=
  match r with
  | Ok _ => effect c s s' ∧ at_rest s' ∧ s' ≠ None
  | Err _ => attempt c s s'
  end.

(** A creation concerns the disk [v] when it returns this id. *)
Definition makes (v : string) (c : change) (r : result cerr string) (s s' : option disk) : Prop :=
  match r with
  | Ok id => if String.eqb id v then performs c r s s' else progress s s'
  | Err _ => attempt c s s'
  end.

(** The states that releases of the disk lead to. *)
Definition releases : option disk → option disk → Prop :=
  rtc (fun s s' => progress s s' ∨ accept Release s = Some s').

Definition disk_manager (v : string) : machine CmE (option disk) := fun R o s r s' =>
  match o in CmE R return R → Prop with
  | CreateVolume n z c zone g b => fun r => makes v (Create (disk_request n z c zone g None b)) r s s'
  | CreateVolumeFromSnapshot n z c zone g snap b => fun r =>
      makes v (Create (disk_request n z c zone g (Some snap) b)) r s s'
  | DeleteVolume u => fun r =>
      if String.eqb u v then releases s s' ∧ (r = Ok tt → s' = None) else progress s s'
  | AttachVolume u vm => fun r => if String.eqb u v then performs (Attach vm) r s s' else progress s s'
  | DetachVolume u => fun r => if String.eqb u v then performs Detach r s s' else progress s s'
  | ResizeVolume u n => fun r => if String.eqb u v then performs (Resize n) r s s' else progress s s'
  | FindVolume u => fun r =>
      if String.eqb u v then
        ∃ s1, progress s s1 ∧ progress s1 s' ∧
          match r with
          | Ok None => s1 = None
          | Ok (Some x) => ∃ d, s1 = Some d ∧ seen v d x
          | Err _ => True
          end
      else progress s s'
  | _ => fun _ => progress s s'
  end r.

(** ** Laws of the abstract disk *)

Lemma settle_at_rest s : at_rest s → settle s = s.
Proof. destruct s as [d|]; simpl; [|done]. by intros ->. Qed.

Lemma at_rest_settle s : at_rest (settle s).
Proof. destruct s as [[m z i b [[]|]]|]; done. Qed.

Lemma settle_idempotent s : settle (settle s) = settle s.
Proof. apply settle_at_rest, at_rest_settle. Qed.

#[export] Instance progress_preorder : PreOrder progress.
Proof.
  split; [by left|]. intros s1 s2 s3 [-> | ->] [-> | ->]; unfold progress;
    rewrite ?settle_idempotent; auto.
Qed.

Lemma progress_rest s s' : at_rest s → progress s s' → s' = s.
Proof. intros Hs [->| ->]; [done|by apply settle_at_rest]. Qed.

Lemma progress_to_rest s s' : progress s s' → at_rest s' → s' = settle s.
Proof. intros [->| ->] Hs; [|done]. by rewrite settle_at_rest. Qed.

Lemma progress_none s : progress None s → s = None.
Proof. by intros [->| ->]. Qed.

Lemma accept_rest c s s' : accept c s = Some s' → at_rest s.
Proof. destruct c, s as [[m z i b [t|]]|]; done. Qed.

Lemma effect_progress_l c s0 s s' : progress s0 s → effect c s s' → effect c s0 s'.
Proof. intros H0 (s1 & s2 & H1 & H). exists s1, s2. split; [by etrans|done]. Qed.

Lemma effect_progress_r c s s' s1 : effect c s s' → progress s' s1 → effect c s s1.
Proof. intros (s2 & s3 & H1 & H2 & H3) H. exists s2, s3. split_and!; [done..|by etrans]. Qed.

(** From rest to rest, a change is a function. *)
Lemma effect_rest c s s' :
  at_rest s → at_rest s' → effect c s s' → ∃ s1, accept c s = Some s1 ∧ s' = settle s1.
Proof.
  intros Hs Hs' (s1 & s2 & Hp1 & Hc & Hp). apply progress_rest in Hp1 as ->; [|done].
  exists s2. split; [done|]. by apply progress_to_rest.
Qed.
