(* ===== verification/CmRefine.v ===== *)
(** * The zec cloud manager refines its abstract specification

    On a cloud whose API obeys [disk_api v], every operation of [zec_impl] does to the
    disk [v] what [disk_manager v] says: [zec_refines].  The polling loops, the two
    releases of a deletion and the lost answers are below the abstraction. *)

From S2P Require Import Prelude GoStd Prog ZecApi CloudTypes Machine Driver Cloud Locks CloudProps Disk.

Local Open Scope Z_scope.
Local Open Scope csi_scope.

(** ** Calls that leave the disk alone *)

Definition calm (v : string) (R : Type) (e : CloudE R) : Prop :=
  ∀ s r s', disk_api v R e s r s' → progress s s'.

Section disk_api.
Context (v : string).

Lemma sat_calm {A} (p : cloud A) s :
  all_calls (calm v) p → sat (disk_api v) p s (fun _ s' => progress s s').
Proof.
  unfold all_calls, sat. revert s. induction p as [a|R e k IH]; intros s; simpl.
  - by intros _ a' s' [-> ->].
  - intros [He Hk] a s' (r & s1 & Hr & Ha). etrans; [by eapply He|]. by eapply IH; [apply Hk|].
Qed.

Lemma calm_ticks t i : calm v nat (SelectTicks t i).
Proof. by intros s r s'. Qed.

(** A call of the API that changes nothing of the disk. *)
Lemma calm_api R (o : ZecE R) :
  (∀ s r s', sdk_op v R o s r s' → s' = s) → calm v R (Api o).
Proof. intros Ho s r s' (s1 & s2 & H1 & ->%Ho & H2). by etrans. Qed.

Lemma calm_describe req : calm v _ (Api (DescribeDisks req)).
Proof. apply calm_api. by intros s r s' [-> _]. Qed.

(** ** Waiting *)

(** The disk was in a state of [P x] on the way. *)
Definition saw {T} (P : T → option disk → Prop) (s : option disk) (x : T) (s' : option disk) : Prop :=
  ∃ s1, progress s s1 ∧ P x s1 ∧ progress s1 s'.

Lemma saw_l {T} (P : T → option disk → Prop) s0 s x s' : progress s0 s → saw P s x s' → saw P s0 x s'.
Proof. intros H0 (s1 & H1 & HP & H2). exists s1. split_and!; [by etrans|done..]. Qed.

Section wait.
Context {T : Type} (P : T → option disk → Prop).

Definition job_spec (f : cloud (result cerr (option T))) : Prop :=
  ∀ s, sat (disk_api v) f s (fun r s' => progress s s' ∧ ∀ x, r = Ok (Some x) → saw P s x s').

Definition wait_spec (s : option disk) (r : result cerr T) (s' : option disk) : Prop :=
  progress s s' ∧ ∀ x, r = Ok x → saw P s x s'.

Lemma wait_spec_l s0 s r s' : progress s0 s → wait_spec s r s' → wait_spec s0 r s'.
Proof.
  intros H0 [Hp Hr]. split; [by etrans|]. intros x ->. eapply saw_l; [done|]. by apply Hr.
Qed.

Context (f : cloud (result cerr (option T))) (Hf : job_spec f).

Lemma sat_wait_loop timeout n s : sat (disk_api v) (wait_loop f timeout n) s (wait_spec s).
Proof.
  revert s. induction n as [|n IH]; intros s; [by apply sat_ret; split; [done|]|]. cbn [wait_loop].
  eapply sat_bind_mono; [apply Hf|]. intros [[x|]|e] s1 [Hp Hx]; cbn.
  - apply sat_ret. split; [done|]. intros ? [= <-]. by apply Hx.
  - eapply sat_mono; [apply IH|]. intros r s2. by apply wait_spec_l.
  - by apply sat_ret.
Qed.

Lemma sat_WaitFor s : sat (disk_api v) (WaitFor f) s (wait_spec s).
Proof.
  unfold WaitFor, WaitForSpecificOrError.
  eapply sat_bind_mono; [apply Hf|]. intros [[x|]|e] s1 [Hp Hx]; cbn.
  - apply sat_ret. split; [done|]. intros ? [= <-]. by apply Hx.
  - intros a s' (ticks & s2 & Ht & Ha). eapply wait_spec_l; [|by eapply sat_wait_loop].
    etrans; [done|]. by apply (calm_ticks _ _ _ _ _ Ht).
  - by apply sat_ret.
Qed.
End wait.

(** ** Polling the disk *)

(** One describe call of the disk, and what the driver makes of its page. *)
Lemma sat_describe {A} (k : result cerr (option (page DiskInfo)) → cloud A) s Q :
  (∀ r s1 s', progress s s1 → progress s1 s' →
     (∀ p, r = Ok (Some p) → describes v s1 p) → sat (disk_api v) (k r) s' Q) →
  sat (disk_api v) (api (DescribeDisks (disks_by_id v)) ≫= k) s Q.
Proof.
  intros Hk a s' (r & s2 & (r0 & s3 & (s1 & s4 & H1 & [-> Hd] & H2) & -> & ->) & Ha)%exec_bind.
  eapply Hk; [exact H1|exact H2| |exact Ha]. intros p.
  destruct r0; simpl; [|done]. intros [= ->]. by apply Hd.
Qed.

(** What [describes] says of a page with one disk on it. *)
Lemma describes_one s count i rest :
  describes v s {| TotalCount := Some count; DataSet := Some i :: rest |} → count = 1 →
  ∃ d, s = Some d ∧ shows v d i.
Proof. destruct s as [d|]; [|by intros [= ->]]. intros [_ (i' & [= -> _] & Hi)] _. eauto. Qed.

Lemma describes_zero s data : describes v s {| TotalCount := Some 0; DataSet := data |} → s = None.
Proof. destruct s as [d|]; [|done]. by intros [[=] _]. Qed.

(** The disk is there and has no task. *)
Definition settled (s : option disk) : Prop := at_rest s ∧ s ≠ None.

Ltac counts := repeat match goal with
  | H : negb (_ =? 1) = false |- _ => apply negb_false_iff, Z.eqb_eq in H; subst
  | H : (_ =? 0) = true |- _ => apply Z.eqb_eq in H; subst
  end.

Ltac poll :=
  let p := fresh "p" in
  intros s; apply sat_describe; intros [[p|]|?] s1 s' H1 H2 Hd; cbn beta iota;
  repeat case_match; apply sat_ret; (split; [by etrans|]); intros; simplify_eq;
  specialize (Hd _ eq_refl); counts; exists s1; (split; [exact H1|]; split; [|exact H2]).

Lemma job_disk_status target :
  (∀ d st, status_law d st → target st = true → k_task d = None) →
  job_spec (fun _ => settled) (disk_status_job v target).
Proof.
  intros Ht. poll. apply describes_one in Hd as (k & -> & Hs); [|done].
  destruct Hs as (_ & _ & _ & (st & Hst & Hlaw) & _). split; [|done].
  simpl in *. simplify_eq. by eapply Ht.
Qed.

Lemma job_disk_deleted : job_spec (fun _ s => s = None) (disk_deleted_job v).
Proof. poll. by eapply describes_zero. Qed.

Lemma job_disk_released :
  job_spec (fun gone s => gone = true → s = None) (disk_released_job v).
Proof. poll; [|done]. intros _. by eapply describes_zero. Qed.

Lemma available_rests d st : status_law d st → is_available st = true → k_task d = None.
Proof. intros [Ha _] Hst%String.eqb_eq. by apply Ha. Qed.

Lemma in_use_rests d st : status_law d st → is_in_use st = true → k_task d = None.
Proof. intros (_ & Hu & _) Hst%String.eqb_eq. by apply Hu. Qed.

Lemma stable_rests d st : status_law d st → is_stable st = true → k_task d = None.
Proof. intros (Ha & Hu & _) [Hst|Hst]%orb_true_iff; apply String.eqb_eq in Hst; naive_solver. Qed.

(** [waitDiskStatus] on the statuses of a disk at rest. *)
Lemma sat_wait_settled status s :
  status ∈ [DiskStatusAvailable; DiskStatusInUse; DiskStatusStable] →
  sat (disk_api v) (waitDiskStatus status v) s (wait_spec (fun _ => settled) s).
Proof.
  intros Hin. unfold waitDiskStatus.
  destruct (String.eqb v ""); [by apply sat_ret|].
  repeat (apply elem_of_cons in Hin as [->|Hin]); [..|by apply elem_of_nil in Hin]; simpl;
    apply sat_WaitFor, job_disk_status;
    eauto using available_rests, in_use_rests, stable_rests.
Qed.

Lemma sat_wait_deleted s :
  sat (disk_api v) (waitDiskStatus DiskStatusDeleted v) s (wait_spec (fun _ s => s = None) s).
Proof.
  unfold waitDiskStatus. destruct (String.eqb v ""); [by apply sat_ret|].
  apply sat_WaitFor, job_disk_deleted.
Qed.

Lemma sat_wait_released s :
  sat (disk_api v) (waitDiskReleased v) s (wait_spec (fun gone s => gone = true → s = None) s).
Proof.
  unfold waitDiskReleased. destruct (String.eqb v ""); [by apply sat_ret|].
  apply sat_WaitFor, job_disk_released.
Qed.
End disk_api.

(** ** The changes *)

Lemma takes_attempt c u s s1 s2 s' :
  progress s s1 → takes c u s1 s2 → progress s2 s' → attempt c s s'.
Proof.
  unfold attempt, effect. destruct u; simpl.
  - eauto 10.
  - intros ? -> ?. left. by etrans.
  - intros ? [->|?] ?; [left; by etrans|eauto 10].
Qed.

Lemma effect_wait {A} c s s1 (r : result cerr A) s' :
  effect c s s1 → wait_spec (fun _ => settled) s1 r s' → performs c r s s'.
Proof.
  intros Hc [Hp Hr]. destruct r as [a|e]; simpl; [|right; by eapply effect_progress_r].
  destruct (Hr a eq_refl) as (s2 & _ & [Hrest Hsome] & Hp2).
  apply progress_rest in Hp2 as ->; [|done]. split; [by eapply effect_progress_r|done].
Qed.

Lemma effect_takes c s s1 s2 s' :
  progress s s1 → takes c Accepted s1 s2 → progress s2 s' → effect c s s'.
Proof. intros. by exists s1, s2. Qed.

Section changes.
Context (v : string).

(** A change is asked for and, when the cloud accepts it, waited for. *)
Lemma sat_change {A} (o : ZecE (sdk A)) c status (k : A → bool) s :
  (∀ s r s', sdk_op v _ o s r s' →
     takes c (match r with Ok a => if k a then Unknown else Accepted | Err _ => verdict_of r end) s s') →
  status ∈ [DiskStatusAvailable; DiskStatusInUse; DiskStatusStable] →
  sat (disk_api v) (try a <- api o ;
                    reject ErrFailedIds when k a ;;
                    try _ <- waitDiskStatus status v ;
                    mret (Ok tt)) s (fun r s' => performs c r s s').
Proof.
  intros Ho Hstatus. apply sat_bind.
  intros r s' (r0 & s3 & (s1 & s2 & H1 & Hs%Ho & H2) & -> & ->). destruct r0 as [a|e]; cbn.
  - destruct (k a); [apply sat_ret; by eapply takes_attempt|].
    eapply sat_bind_mono; [by apply sat_wait_settled|]. intros [[]|e] s4 Hw; apply sat_ret.
    + by apply (effect_wait c s s3 (Ok tt)); [eapply effect_takes|].
    + by apply (effect_wait (A:=unit) c s s3 (Err e)); [eapply effect_takes|].
  - apply sat_ret. by eapply takes_attempt.
Qed.
End changes.

(** ** The operations *)

(** The operation is about other disks, or about none. *)
Definition spares (v : string) (R : Type) (o : CmE R) : bool :=
  match o with
  | CreateVolume _ _ _ _ _ _ | CreateVolumeFromSnapshot _ _ _ _ _ _ _ => false
  | DeleteVolume u | DetachVolume u | AttachVolume u _ | ResizeVolume u _ | FindVolume u =>
    negb (String.eqb u v)
  | _ => true
  end.

(** The other calls that an operation asks for let the disk be. *)
Lemma calm_asked v R (o : CmE R) R' (c : CloudE R') :
  spares v R o = true → asks o R' c → calm v R' c.
Proof.
  intros Ho Hc. destruct c as [R'' a|t i]; [|apply calm_ticks].
  destruct a; try (by apply calm_api); try apply calm_describe; apply calm_api; intros s r s';
    destruct o; cbn in Ho, Hc |- *; try done; destruct_and?; subst; apply negb_true_iff in Ho;
    cbn [existsb]; rewrite ?(String.eqb_sym v), ?Ho; cbn; tauto.
Qed.

Lemma calm_spared cm v R (o : CmE R) :
  spares v R o = true → all_calls (calm v) (zec_impl cm R o).
Proof.
  intros Ho. eapply all_calls_mono; [|apply zec_asks]. intros R' c. by apply calm_asked.
Qed.

(** Searches change no disk. *)
Lemma calm_find cm v u : all_calls (calm v) (zec.FindVolume cm u).
Proof.
  sdk_calls ltac:(first [apply calm_ticks | apply calm_describe]).
Qed.

Section operations.
Context (cm : zecCloudManager) (v : string).

Ltac guards :=
  repeat match goal with |- sat _ (if ?b then _ else _) _ _ =>
    destruct b; [by apply sat_ret; left|] end.

Lemma sat_AttachVolume vm s :
  sat (disk_api v) (zec.AttachVolume cm v vm) s (fun r s' => performs (Attach vm) r s s').
Proof.
  unfold zec.AttachVolume. guards.
  apply (sat_change v (AttachDisks [v] vm) (Attach vm) DiskStatusInUse (fun _ => false)).
  - cbn. rewrite String.eqb_refl. by intros ? [].
  - set_solver.
Qed.

Lemma sat_DetachVolume s :
  sat (disk_api v) (zec.DetachVolume cm v) s (fun r s' => performs Detach r s s').
Proof.
  unfold zec.DetachVolume. guards.
  apply (sat_change v (DetachDisks [v] false) Detach DiskStatusAvailable
    (fun response => match response with Some (_ :: _) => true | _ => false end)).
  - cbn. rewrite String.eqb_refl. by intros ? [[[]|]|].
  - set_solver.
Qed.

Lemma sat_ResizeVolume n s :
  sat (disk_api v) (zec.ResizeVolume cm v n) s (fun r s' => performs (Resize n) r s s').
Proof.
  unfold zec.ResizeVolume. guards.
  apply (sat_change v (ResizeDisk v n) (Resize n) DiskStatusStable (fun _ => false)).
  - cbn. rewrite String.eqb_refl. by intros ? [].
  - set_solver.
Qed.

(** A created disk is waited for under its own id: another disk's id leaves [v]
    alone. *)
Lemma sat_wait_other u s :
  u ≠ v → sat (disk_api v) (waitDiskStatus DiskStatusAvailable u) s (fun _ s' => progress s s').
Proof. intros _. apply sat_calm. sdk_calls ltac:(first [apply calm_ticks | apply calm_describe]). Qed.

Lemma sat_create_disk req s :
  sat (disk_api v) (zec.create_disk req) s (fun r s' => makes v (Create req) r s s').
Proof.
  unfold zec.create_disk. apply sat_bind.
  intros r s' (r0 & s3 & (s1 & s2 & H1 & Hs & H2) & -> & ->).
  assert (Hunknown : takes (Create req) Unknown s1 s2 → attempt (Create req) s s3)
    by (intros; by eapply takes_attempt).
  destruct r0 as [[[|id rest]|]|[c|]]; cbn in *; try (apply sat_ret; by apply Hunknown);
    [|apply sat_ret; cbn; subst s2; left; by etrans].
  destruct (String.eqb_spec id v) as [->|Hne].
  - eapply sat_bind_mono; [apply sat_wait_settled; set_solver|].
    intros [[]|e] s4 Hw; apply sat_ret; cbn; rewrite ?String.eqb_refl.
    + apply (effect_wait (Create req) s s3 (Ok tt) s4); [|done]. by eapply effect_takes.
    + apply (effect_wait (A:=unit) (Create req) s s3 (Err e) s4); [|done]. by eapply effect_takes.
  - subst s2. eapply sat_bind_mono; [by apply sat_wait_other|].
    intros [[]|e] s4 Hw; apply sat_ret; cbn.
    + apply String.eqb_neq in Hne. rewrite Hne. do 2 (etrans; [done|]). done.
    + left. do 2 (etrans; [done|]). done.
Qed.

(** ** FindVolume *)

Lemma shows_seen d i : shows v d i → seen v d (volume_of_disk i).
Proof.
  intros (Hid & Hcat & Hzone & (st & Hst & Hlaw) & Hrest). unfold seen, volume_of_disk. cbn.
  rewrite Hid, Hcat, Hzone, Hst. cbn. split_and!; [done..|].
  intros Ht. destruct (Hrest Ht) as [-> Hi]. by destruct (di_InstanceId i).
Qed.

Definition found (s : option disk) (r : result cerr (option ZecVolume)) (s' : option disk) : Prop :=
  ∃ s1, progress s s1 ∧ progress s1 s' ∧
    match r with
    | Ok None => s1 = None
    | Ok (Some x) => ∃ d, s1 = Some d ∧ seen v d x
    | Err _ => True
    end.

Lemma sat_FindVolume s : sat (disk_api v) (zec.FindVolume cm v) s (found s).
Proof.
  assert (Herr : ∀ e s', progress s s' → found s (Err e) s') by (intros e s' Hs; by exists s).
  unfold zec.FindVolume.
  repeat match goal with |- sat _ (if ?b then _ else _) _ _ =>
    destruct b; [by apply sat_ret, Herr|] end.
  apply sat_describe. intros r s1 s' H1 H2 Hd.
  assert (Hout : ∀ o, match o with None => s1 = None | Some x => ∃ d, s1 = Some d ∧ seen v d x end →
    sat (disk_api v) (mret (Ok o)) s' (found s)).
  { intros o Ho. apply sat_ret. exists s1. by destruct o. }
  assert (Herr' : ∀ e, sat (disk_api v) (mret (Err e)) s' (found s)).
  { intros e. apply sat_ret, Herr. by etrans. }
  destruct r as [[[[count|] data]|]|e]; cbn; try apply Herr'.
  specialize (Hd _ eq_refl). destruct (Z.eqb_spec count 0) as [->|_].
  { apply Hout. by eapply describes_zero. }
  destruct (Z.eqb_spec count 1) as [->|_]; cbn; [|apply Herr'].
  destruct data as [|[i|] rest]; try apply Herr'. apply Hout.
  apply describes_one in Hd as (d & -> & Hs); [|done]. exists d. split; [done|]. by apply shows_seen.
Qed.

(** ** DeleteVolume *)

Lemma releases_progress s s' : progress s s' → releases s s'.
Proof. intros H. apply rtc_once. by left. Qed.

Lemma releases_takes u s s' : takes Release u s s' → releases s s'.
Proof.
  destruct u; simpl; [intros H; apply rtc_once; by right|by intros ->|].
  intros [->|H]; [done|apply rtc_once; by right].
Qed.

Definition deleted (s : option disk) (r : result cerr unit) (s' : option disk) : Prop :=
  releases s s' ∧ (r = Ok tt → s' = None).

Lemma deleted_l s0 s r s' : releases s0 s → deleted s r s' → deleted s0 r s'.
Proof. intros H0 [H Hr]. split; [by etrans|done]. Qed.

Lemma progress_gone s s' : s = None → progress s s' → s' = None.
Proof. intros ->. apply progress_none. Qed.

(** One call of the API that releases the disk. *)
Lemma sat_release s :
  sat (disk_api v) (call (Api (ReleaseDisk v))) s (fun r s' =>
    releases s s' ∧
    (r = Err (ZenlayerCloudSdkError OPERATION_FAILED_RESOURCE_NOT_FOUND) → s' = None)).
Proof.
  apply sat_call. intros r s' (s1 & s2 & H1 & Hop & H2). cbn [sdk_op] in Hop.
  rewrite String.eqb_refl in Hop. destruct Hop as [Ht Hgone]. split.
  - etrans; [by apply releases_progress|]. etrans; [by eapply releases_takes|].
    by apply releases_progress.
  - intros Hr. specialize (Hgone Hr). subst r s1. simpl in Ht. subst s2. by eapply progress_gone.
Qed.

Lemma sat_release_loop n s : sat (disk_api v) (zec.release_loop cm v n) s (deleted s).
Proof.
  revert s. induction n as [|n IH]; intros s; [by apply sat_ret|]. cbn [zec.release_loop].
  eapply sat_bind_mono; [apply sat_FindVolume|]. intros r s1 (s2 & H1 & H2 & Hr).
  assert (Hp : releases s s1) by (apply releases_progress; by etrans).
  destruct r as [[x|]|e]; cbn beta iota zeta; [|apply sat_ret; split; [done|]; intros _; by eapply progress_gone
    |by apply sat_ret].
  eapply sat_bind_mono; [apply sat_release|]. intros r s3 [Hp3 Hgone].
  eapply sat_mono with (Q := deleted s3); [|intros r' s'; apply deleted_l; by etrans].
  destruct r as [[]|[c|]]; [|destruct (String.eqb_spec c OPERATION_FAILED_RESOURCE_NOT_FOUND) as [->|]|];
    [|apply sat_ret; (split; [done|]); (done || auto)..].
  destruct (String.eqb (ZecVolume_Status x) DiskStatusRecycled).
  - eapply sat_bind_mono; [apply sat_wait_deleted|]. intros [[]|e] s4 [Hp4 Hsaw];
      apply sat_ret; (split; [by apply releases_progress|]); [|done].
    intros _. destruct (Hsaw tt eq_refl) as (s5 & _ & Hnone & H5). by eapply progress_gone.
  - eapply sat_bind_mono; [apply sat_wait_released|]. intros [gone|e] s4 [Hp4 Hsaw]; cbn;
      [|by apply sat_ret; split; [apply releases_progress|]].
    destruct gone.
    + apply sat_ret. split; [by apply releases_progress|]. intros _.
      destruct (Hsaw true eq_refl) as (s5 & _ & Hnone & H5). eapply progress_gone; [|done]. auto.
    + eapply sat_mono; [apply IH|]. intros r' s'. apply deleted_l. by apply releases_progress.
Qed.

Lemma sat_DeleteVolume s : sat (disk_api v) (zec.DeleteVolume cm v) s (deleted s).
Proof.
  unfold zec.DeleteVolume.
  repeat match goal with |- sat _ (if ?b then _ else _) _ _ => destruct b; [by apply sat_ret|] end.
  apply sat_release_loop.
Qed.
End operations.

(** ** Refinement *)

(** Every operation of the zec manager does to a disk what [disk_manager] says. *)
Lemma zec_refines cm v :
  refines (implemented (disk_api v) (zec_impl cm)) (disk_manager v) id.
Proof.
  intros R o s r s' Hexec. unfold implemented in Hexec. cbv [id].
  destruct (spares v R o) eqn:Ho.
  - pose proof (sat_calm v _ s (calm_spared cm v R o Ho) _ _ Hexec) as Hp.
    destruct o; cbn [spares disk_manager] in *; try done; apply negb_true_iff in Ho; by rewrite Ho.
  - revert r s' Hexec.
    match goal with |- ∀ r s', _ → @?Q r s' => change (sat (disk_api v) (zec_impl cm R o) s Q) end.
    assert (Hstop : ∀ c e s', progress s s' → makes v c (Err e) s s') by (by left).
    destruct o; cbn [spares disk_manager zec_impl] in *; try done;
      try (apply negb_false_iff, String.eqb_eq in Ho; subst; rewrite String.eqb_refl);
      [..|apply sat_DeleteVolume|apply sat_AttachVolume|apply sat_DetachVolume
      |apply sat_ResizeVolume|apply sat_FindVolume|];
      unfold zec.CreateVolume, zec.CreateVolumeFromSnapshot;
      repeat match goal with |- sat _ (if ?b then _ else _) _ _ =>
        destruct b; [by apply sat_ret, Hstop|] end; apply sat_create_disk.
Qed.
