(* ===== verification/VolumeSpec.v ===== *)
(** * The controller refines an abstract volume service

    [csi_apply] is the specification a CSI client has in mind: what each request
    does to a disk, as a function of the disk.  The controller's handlers, run on
    [zec_impl] on a cloud that obeys [disk_api], refine it: a request answered
    without an error has done to its disk exactly what [csi_apply] says
    ([handle_refines]); after an error the disk is as it was, or its change is
    on its way; and the disks of other requests are left alone. *)

From S2P Require Import Prelude GoStd Csi Common Prog Locking Driver ZecApi CloudTypes.
From S2P Require Import Machine Bracket Cloud Ctrl Controller System Disk CmRefine.

Local Open Scope Z_scope.
Local Open Scope csi_scope.

(** ** The machines of the handlers *)

(** The cloud manager, or the cloud, beside the runtime. *)
Definition handled {S} (M : machine CmE S) : machine HandlerE S := fun R e s r s' =>
  match e in HandlerE R return R → Prop with
  | ToCloud o => fun r => M _ o s r s'
  | ToRt o => fun r => rt_ok _ o r ∧ s' = s
  end r.

Definition backed {S} (M : machine CloudE S) : machine BackE S := fun R e s r s' =>
  match e in BackE R return R → Prop with
  | ToSdk o => fun r => M _ o s r s'
  | ToBackRt o => fun r => rt_ok _ o r ∧ s' = s
  end r.

Definition handler_machine (v : string) : machine HandlerE (option disk) := handled (disk_manager v).
Definition back_machine (v : string) : machine BackE (option disk) := backed (disk_api v).

(** ** Down to the SDK *)

(** The interface: an implementation of the cloud manager that refines the
    machine of its promises. *)
Class RefinesManager (impl : ∀ R, CmE R → prog CloudE R) : Prop :=
  impl_refines v : refines (implemented (disk_api v) impl) (disk_manager v) id.

#[export] Instance zec_refines_manager (cm : zecCloudManager) : RefinesManager (zec_impl cm).
Proof. intros v. apply zec_refines. Qed.

(** What is implemented below the handlers stays so beside the locks. *)
Lemma sys_refines {S} (impl : ∀ R, CmE R → prog CloudE R) (L : machine LockE S)
    (A : machine CloudE S) (B : machine CmE S) :
  refines (implemented A impl) B id →
  refines (implemented (with_locks L (backed A)) (sys_impl impl)) (with_locks L (handled B)) id.
Proof.
  intros HAB R e s r s' H. destruct e as [R o|R o]; [by destruct H as (? & ? & ? & -> & ->)|].
  apply (exec_renamed (backed A)) in H; [|done]. destruct o as [R o|R o].
  - apply (exec_renamed A) in H; [|done]. by apply HAB.
  - by destruct H as (? & ? & ? & -> & ->).
Qed.

(** What holds of the handlers over a specification of the cloud manager holds of
    them down to the SDK. *)
Lemma exec_sys {S T} (impl : ∀ R, CmE R → prog CloudE R) (L : machine LockE S)
    (A : machine CloudE S) (B : machine CmE S) (p : ctrl T) s a s' :
  refines (implemented A impl) B id →
  exec (with_locks L (backed A)) (interp (sys_impl impl) p) s a s' →
  exec (with_locks L (handled B)) p s a s'.
Proof. intros HAB. rewrite exec_interp. by apply (exec_refines _ _ id), sys_refines. Qed.

(** ** The abstract service *)

Definition disk_id (csiVolId : string) : option string :=
  match ParseCsiVolId csiVolId with Ok (v, _) => Some v | Err _ => None end.

(** The disk a request changes, unless it is one that it creates. *)
Definition about (q : request) : option string :=
  match q with
  | ReqDeleteVolume r => disk_id (dv_VolumeId r)
  | ReqPublish r => disk_id (cp_VolumeId r)
  | ReqUnpublish r => disk_id (cu_VolumeId r)
  | ReqExpand r => disk_id (ce_VolumeId r)
  | _ => None
  end.

(** The size in GiB an expansion asks for. *)
Definition expand_target (d : disk) (range : option CapacityRange) : option Z :=
  match NewDefaultZecStorageClassFromType (StringToType (cdr_DiskCategory (k_made d))) with
  | None => None
  | Some sc =>
    match GetRequiredVolumeSizeByte sc range with
    | Ok bytes => Some (ByteCeilToGib bytes)
    | Err _ => None
    end
  end.

(** What a request does to its disk, and [None] where it cannot be served. *)
Definition csi_apply (q : request) (s : option disk) : option (option disk) :=
  match q, s with
  | ReqDeleteVolume _, None => Some None
  | ReqDeleteVolume _, Some d => if String.eqb (k_instance d) "" then Some None else None
  | ReqPublish _, None => None
  | ReqPublish r, Some d =>
    if String.eqb (k_instance d) (cp_NodeId r) then Some s
    else if String.eqb (k_instance d) "" && negb (k_bin d)
    then Some (Some (with_instance (cp_NodeId r) d)) else None
  | ReqUnpublish _, None => Some None
  | ReqUnpublish r, Some d =>
    if String.eqb (k_instance d) (cu_NodeId r)
    then if k_bin d then None else Some (Some (with_instance "" d)) else Some s
  | ReqExpand _, None => None
  | ReqExpand r, Some d =>
    match expand_target d (ce_CapacityRange r) with
    | None => None
    | Some n =>
      if GibToByte n <=? GibToByte (k_size d) then Some s
      else if k_bin d then None else Some (Some (with_size n d))
    end
  | _, _ => Some s
  end.

(** The change a request may leave unfinished. *)
Definition csi_interrupted (q : request) (s s' : option disk) : Prop :=
  s' = s ∨
  match q with
  | ReqDeleteVolume _ => releases s s'
  | ReqPublish r => effect (Attach (cp_NodeId r)) s s'
  | ReqUnpublish _ => effect Detach s s'
  | ReqExpand r => ∃ n, effect (Resize n) s s'
  | _ => False
  end.

Definition csi_outcome {A} (q : request) (s : option disk) (r : rpc A) (s' : option disk) : Prop :=
  match r with
  | Ok _ => csi_apply q s = Some s'
  | Err _ => csi_interrupted q s s'
  end.

(** A request that has been served is served again, and changes nothing. *)
Lemma csi_apply_again q s s' : csi_apply q s = Some s' → csi_apply q s' = Some s'.
Proof.
  unfold csi_apply. destruct q, s as [d|]; try (by intros [= <-]); try done.
  - by destruct (String.eqb _ _); [intros [= <-]|].
  - destruct (String.eqb (k_instance d) (cp_NodeId r)) eqn:Hi; [intros [= <-]; by rewrite Hi|].
    destruct (_ && _); [|done]. intros [= <-]. cbn [k_instance with_instance]. by rewrite String.eqb_refl.
  - destruct (String.eqb (k_instance d) (cu_NodeId r)) eqn:Hi; [|intros [= <-]; by rewrite Hi].
    destruct (k_bin d) eqn:Hb; [done|]. intros [= <-]. cbn [k_instance with_instance k_bin].
    rewrite Hb. by destruct (String.eqb "" (cu_NodeId r)).
  - destruct (expand_target d _) as [n|] eqn:Ht; [|done]. destruct (_ <=? _) eqn:Hle; [intros [= <-]; by rewrite Ht, Hle|].
    destruct (k_bin d); [done|]. intros [= <-].
    change (expand_target (with_size n d) (ce_CapacityRange r)) with (expand_target d (ce_CapacityRange r)).
    rewrite Ht. cbn [k_size with_size]. by rewrite Z.leb_refl.
Qed.

Lemma csi_apply_rest q s s' : at_rest s → csi_apply q s = Some s' → at_rest s'.
Proof. intros Hs. destruct q, s as [d|]; cbn; intros; repeat case_match; by simplify_eq. Qed.

(** ** CreateVolume *)

(** The disk of a volume that a request created. *)
Definition made_for (v : string) (req : CreateVolumeRequest) (vol : Volume) (s : option disk) : Prop :=
  ∃ d serial, s = Some d ∧ k_task d = None ∧ k_instance d = "" ∧ k_bin d = false ∧
    cdr_DiskName (k_made d) = cv_Name req ∧ CapacityBytes vol = GibToByte (k_size d) ∧
    VolumeId vol = GenCsiVolId v serial.

(** A volume that already exists is left alone; a disk that is made is made
    once, at rest when the request is answered. *)
Definition create_outcome (v : string) (req : CreateVolumeRequest) (s : option disk) (r : rpc Volume)
    (s' : option disk) : Prop :=
  match r with
  | Ok vol => s' = s ∨ s = None ∧ made_for v req vol s'
  | Err _ => s' = s ∨ ∃ cr, cdr_DiskName cr = cv_Name req ∧ effect (Create cr) s s'
  end.

(** ** The step of a request *)

Definition creates (q : request) : bool := match q with ReqCreateVolume _ => true | _ => false end.

(** What the request [q], answered by [r], does to the disk [v]. *)
Definition csi_step (v : string) (q : request) (s : option disk) (r : rpc response)
    (s' : option disk) : Prop :=
  match q with
  | ReqCreateVolume req =>
    ∃ r', create_outcome v req s r' s' ∧
      r = match r' with Ok vol => Ok (RespVolume vol) | Err e => Err e end
  | _ => if decide (about q = Some v) then csi_outcome q s r s' else s' = s
  end.
