(* ===== verification/VolumeRefine.v ===== *)
(** * The controller refines the abstract volume service

    The handlers of [Controller.v] over the specification of the cloud manager
    ([handler_machine]), each against the abstract service of [VolumeSpec.v]; then
    the whole controller, down to the SDK, on a cloud that obeys [disk_api]. *)

From S2P Require Import Prelude GoStd Csi Common Prog Locking Serve Driver ZecApi CloudTypes.
From S2P Require Import Machine Bracket Cloud Ctrl Controller System Disk CmRefine VolumeSpec.

Local Open Scope Z_scope.
Local Open Scope csi_scope.

(** ** The handlers over the specification of the cloud manager *)

Section handlers.
Context (v : string).

Abbreviation M := (locked_machine (handler_machine v)).

Lemma sat_cloud_try {R} c (o : CmE (result cerr R)) s (Q : rpc R → option disk → Prop) :
  (∀ r s', disk_manager v _ o s r s' → Q (match r with Ok x => Ok x | Err _ => Err c end) s') →
  sat M (cloud_try c o) s Q.
Proof. intros HQ. apply sat_bind, sat_call. intros r s' Hr. by apply sat_ret, HQ. Qed.

(** The disk as [FindVolume] shows it while it is at rest. *)
Definition found_rest (s : option disk) (r : rpc (option ZecVolume)) : Prop :=
  match r with
  | Ok None => s = None
  | Ok (Some x) => ∃ d, s = Some d ∧ seen v d x ∧ ZecVolume_Size x = k_size d ∧
                        ZecVolume_InstanceId x = k_instance d
  | Err _ => True
  end.

Lemma sat_find c s :
  at_rest s →
  sat M (cloud_try c (FindVolume v)) s (fun r s' => s' = s ∧ found_rest s r).
Proof.
  intros Hs. apply sat_cloud_try. cbn. rewrite String.eqb_refl. intros r s' (s1 & H1 & H2 & Hr).
  apply progress_rest in H1 as ->; [|done]. apply progress_rest in H2 as ->; [|done].
  split; [done|]. destruct r as [[x|]|e]; [|done..]. destruct Hr as (d & -> & Hd).
  pose proof Hd as (_ & _ & _ & _ & Hrest). destruct (Hrest Hs). by exists d.
Qed.

(** An operation that spares the disk. *)
Lemma sat_spared {R} c (o : CmE (result cerr R)) s :
  at_rest s → (∀ r s', disk_manager v _ o s r s' → progress s s') →
  sat M (cloud_try c o) s (fun _ s' => s' = s).
Proof. intros Hs Ho. apply sat_cloud_try. intros r s' Hr%Ho. by apply progress_rest. Qed.

Definition performed (c : change) {T} (s : option disk) (r : rpc T) (s' : option disk) : Prop :=
  match r with
  | Ok _ => ∃ s1, accept c s = Some s1 ∧ s' = settle s1
  | Err _ => s' = s ∨ effect c s s'
  end.

Lemma performs_performed {T} c code (r : result cerr T) s s' :
  at_rest s → performs c r s s' →
  performed c s (match r with Ok x => Ok x | Err _ => Err code end : rpc T) s'.
Proof.
  intros Hs. destruct r as [x|e]; cbn.
  - intros (He & Hs' & _). by apply effect_rest.
  - intros [Hp|He]; [left|by right]. by apply progress_rest.
Qed.

Lemma sat_change_rest {T} c code (o : CmE (result cerr T)) s :
  at_rest s → (∀ r s', disk_manager v _ o s r s' → performs c r s s') →
  sat M (cloud_try code o) s (performed c s).
Proof. intros Hs Ho. apply sat_cloud_try. intros r s' Hr%Ho. by apply performs_performed. Qed.

(** An accepted change of a disk at rest. *)
Lemma accept_attach vm s s1 :
  accept (Attach vm) s = Some s1 →
  ∃ d, s = Some d ∧ k_instance d = "" ∧ k_bin d = false ∧ settle s1 = Some (with_instance vm d).
Proof.
  destruct s as [[m z i b [t|]]|]; cbn; [done| |done].
  destruct (String.eqb_spec i "") as [->|]; cbn; [|done]. destruct b; cbn; [done|].
  intros [= <-]. by eexists.
Qed.

Lemma accept_detach s s1 :
  accept Detach s = Some s1 →
  ∃ d, s = Some d ∧ k_instance d ≠ "" ∧ k_bin d = false ∧ settle s1 = Some (with_instance "" d).
Proof.
  destruct s as [[m z i b [t|]]|]; cbn; [done| |done].
  destruct (String.eqb_spec i ""); [done|]. destruct b; [done|]. intros [= <-]. by eexists.
Qed.

Lemma accept_resize n s s1 :
  accept (Resize n) s = Some s1 →
  ∃ d, s = Some d ∧ k_bin d = false ∧ settle s1 = Some (with_size n d).
Proof.
  destruct s as [[m z i b [t|]]|]; cbn; [done| |done].
  destruct b; [done|]. intros [= <-]. by eexists.
Qed.

(** A deletion that succeeds has released a disk that was not attached. *)
Lemma releases_gone s : at_rest s → releases s None → csi_apply (ReqDeleteVolume {| dv_VolumeId := "" |}) s = Some None.
Proof.
  intros Hs Hrel. destruct s as [d|]; [|done]. cbn.
  destruct (String.eqb_spec (k_instance d) "") as [|Hne]; [done|exfalso].
  remember (Some d) as s eqn:Hd. remember None as s' eqn:Hnone.
  induction Hrel as [s|s s1 s2 [Hp|Ha] Hrel IH]; subst; [done|..].
  - apply progress_rest in Hp as ->; [|done]. auto.
  - cbn in Ha. cbn in Hs. rewrite Hs in Ha. cbn in Ha.
    apply String.eqb_neq in Hne. by rewrite Hne in Ha.
Qed.

(** A request that fails before it changes anything. *)
Lemma outcome_unchanged {A} q s (e : codes.code) : csi_outcome (A:=A) q s (Err e) s.
Proof. by left. Qed.

Ltac step_find :=
  eapply sat_bind_mono; [by apply sat_find|]; intros [[x|]|?] ? [-> Hx]; cbn beta iota;
  try (apply sat_ret; by apply outcome_unchanged).

Lemma sat_publish r s :
  at_rest s → cp_NodeId r ≠ "" →
  sat M (cs.publish_locked v (cp_NodeId r)) s (csi_outcome (ReqPublish r) s).
Proof.
  intros Hs Hvm. unfold cs.publish_locked. step_find.
  destruct Hx as (d & -> & _ & _ & Hi). eapply sat_bind_mono;
    [by apply sat_spared|]. intros [[vmexist vmstatus]|?] ? ->; cbn beta iota;
    [|apply sat_ret, outcome_unchanged].
  destruct (negb vmexist); [apply sat_ret, outcome_unchanged|].
  destruct (negb (String.eqb vmstatus VmStatusRunning)); [apply sat_ret, outcome_unchanged|].
  rewrite Hi. destruct (len (k_instance d) =? 0) eqn:Hlen; cbn [negb].
  - apply Z.eqb_eq, len_0 in Hlen. eapply sat_bind_mono.
    { apply (sat_change_rest (Attach (cp_NodeId r))); [done|]. cbn. by rewrite String.eqb_refl. }
    intros [u|e] s1 Hp; cbn beta iota in *; [|by apply sat_ret].
    destruct Hp as (s2 & Hacc & ->). pose proof Hacc as (d' & [= <-] & _ & Hb & Hset)%accept_attach.
    assert (Heff : effect (Attach (cp_NodeId r)) (Some d) (settle s2))
      by (exists (Some d), s2; split_and!; [done..|by right]).
    eapply sat_bind_mono; [apply sat_find, at_rest_settle|].
    intros [[y|]|?] s3 [-> Hy]; cbn beta iota; [|apply sat_ret; by right..].
    destruct (String.eqb _ _); cbn [negb]; apply sat_ret; [|by right].
    rewrite Hset. unfold csi_outcome, csi_apply. rewrite Hlen, Hb.
    apply not_eq_sym, String.eqb_neq in Hvm. by rewrite Hvm.
  - destruct (String.eqb_spec (k_instance d) (cp_NodeId r)) as [Heq|];
      [|apply sat_ret, outcome_unchanged].
    apply sat_ret. cbn. by rewrite Heq, String.eqb_refl.
Qed.

Lemma sat_unpublish r s :
  at_rest s → cu_NodeId r ≠ "" →
  sat M (cs.unpublish_locked v (cu_NodeId r)) s (csi_outcome (ReqUnpublish r) s).
Proof.
  intros Hs Hvm. unfold cs.unpublish_locked. step_find; [|by apply sat_ret; rewrite Hx].
  destruct Hx as (d & -> & _ & _ & Hi). rewrite Hi.
  assert (Hsame : k_instance d ≠ cu_NodeId r →
    sat M (mret (Ok tt)) (Some d) (csi_outcome (ReqUnpublish r) (Some d))).
  { intros Hne%String.eqb_neq. apply sat_ret. cbn. by rewrite Hne. }
  destruct (String.eqb_spec (k_instance d) "") as [Heq|]; [apply Hsame; congruence|].
  destruct (String.eqb_spec (k_instance d) (cu_NodeId r)) as [Heq|Hne]; cbn [negb]; [|by apply Hsame].
  eapply sat_bind_mono.
  { apply (sat_change_rest Detach); [done|]. cbn. by rewrite String.eqb_refl. }
  intros [u|e] s1 Hp; cbn beta iota in *; apply sat_ret; [|by cbn].
  destruct Hp as (s2 & (d' & [= <-] & _ & Hb & ->)%accept_detach & ->). cbn.
  by rewrite Heq, String.eqb_refl, Hb.
Qed.

Lemma sat_delete r s :
  at_rest s →
  sat M (try _ <- cloud_try codes.Internal (CloudTypes.DeleteVolume v) ; mret (Ok tt)) s
    (csi_outcome (ReqDeleteVolume r) s).
Proof.
  intros Hs. eapply sat_bind_mono with
    (Q1 := fun (x : rpc unit) s' => releases s s' ∧ (x = Ok tt → s' = None)).
  { apply sat_cloud_try. cbn. rewrite String.eqb_refl. intros [[]|e] s' [Hr Hn]; by split; auto. }
  intros [[]|e] s' [Hr Hn]; apply sat_ret; [|by right].
  rewrite (Hn eq_refl) in *. exact (releases_gone s Hs Hr).
Qed.

Lemma sat_expand r s :
  at_rest s →
  sat M (cs.expand_locked r v) s (csi_outcome (ReqExpand r) s).
Proof.
  intros Hs. unfold cs.expand_locked. step_find.
  destruct Hx as (k & -> & Hseen & Hz & Hi).
  destruct (NewDefaultZecStorageClassFromType (ZecVolume_Type x)) as [sc|] eqn:Hsc;
    [|apply sat_ret, outcome_unchanged].
  destruct (GetRequiredVolumeSizeByte sc (ce_CapacityRange r)) as [bytes|e] eqn:Hb;
    [|apply sat_ret, outcome_unchanged].
  assert (Ht : expand_target k (ce_CapacityRange r) = Some (ByteCeilToGib bytes)).
  { destruct Hseen as (_ & Htype & _). unfold expand_target. by rewrite <-Htype, Hsc, Hb. }
  cbv zeta. rewrite Hz.
  destruct (GibToByte (ByteCeilToGib bytes) <=? GibToByte (k_size k)) eqn:Hle.
  - apply sat_ret. cbn. by rewrite Ht, Hle.
  - eapply sat_bind_mono.
    { apply (sat_change_rest (Resize (ByteCeilToGib bytes))); [done|]. cbn.
      by rewrite String.eqb_refl. }
    intros [u|e] s1 Hp; cbn beta iota in *; apply sat_ret.
    + destruct Hp as (s2 & (d' & [= <-] & Hbin & ->)%accept_resize & ->). cbn.
      by rewrite Ht, Hle, Hbin.
    + destruct Hp as [->|He]; [by left|right; eauto].
Qed.

(** ** The requests *)

Lemma disk_id_parse id u serial : ParseCsiVolId id = Ok (u, serial) → disk_id id = Some u.
Proof. unfold disk_id. by intros ->. Qed.

Lemma len_nonzero s : (len s =? 0) = false → s ≠ "".
Proof. by intros H%Z.eqb_neq ->. Qed.

(** The parts of a request's guards that the abstract service needs. *)
Lemma handle_refines_about g d q s :
  at_rest s → creates q = false → about q = Some v → sat M (handle g d q) s (csi_outcome q s).
Proof.
  intros Hs _ Hv.
  assert (Hend : ∀ A (f : A → response) (p : ctrl (rpc A)), sat M p s (csi_outcome q s) →
    sat M (respond f p) s (csi_outcome q s)).
  { intros A f p Hp. unfold respond. eapply sat_bind_mono; [exact Hp|].
    by intros [x|e] s1 H; apply sat_ret. }
  destruct q; cbn [about] in Hv; try done; cbn [handle]; apply Hend; clear Hend;
    unfold cs.DeleteVolume, cs.ControllerPublishVolume, cs.ControllerUnpublishVolume,
      cs.ControllerExpandVolume; unfold disk_id in Hv;
    repeat match goal with
    | |- sat _ (if ?b then _ else _) _ _ => destruct b eqn:?; [apply sat_ret, outcome_unchanged|]
    | |- sat _ (match ?x with _ => _ end) _ _ =>
        destruct x as [?|] eqn:?; [|first [done | apply sat_ret, outcome_unchanged]]
    | H : Some _ = Some _ |- _ => injection H as ->
    | x : (_ * _)%type |- _ => destruct x
    end;
    (apply sat_with_lock; [apply outcome_unchanged|]);
    [by apply sat_delete|apply sat_publish|apply sat_unpublish|by apply sat_expand]; try done;
    by apply len_nonzero.
Qed.

(** ** Requests about other disks *)

(** A call that leaves the disk alone while it is at rest. *)
Definition quiet (R : Type) (e : CtrlE R) : Prop :=
  ∀ s r s', at_rest s → M R e s r s' → s' = s.

Lemma sat_quiet {A} (p : ctrl A) s :
  at_rest s → all_calls quiet p → sat M p s (fun _ s' => s' = s).
Proof.
  unfold all_calls, sat. intros Hs. induction p as [a|R e k IH]; simpl.
  - by intros _ a' s' [-> ->].
  - intros [He Hk] a s' (r & s1 & Hr & Ha). apply He in Hr as ->; [|done].
    eapply IH; [by apply Hk|exact Ha].
Qed.

Lemma quiet_lock R (o : LockE R) : quiet R (CLock o).
Proof. by intros s r s' _ H. Qed.

Lemma quiet_rt R (o : RtE R) : quiet R (CRt o).
Proof. by intros s r s' _ [_ H]. Qed.

Lemma quiet_progress R (o : CmE R) :
  (∀ s r s', disk_manager v R o s r s' → progress s s') → quiet R (CCloud o).
Proof. intros Ho s r s' Hs H%Ho. by apply progress_rest. Qed.

Lemma quiet_find u : quiet _ (CCloud (FindVolume u)).
Proof.
  apply quiet_progress. cbn. intros s r s'. case_match; [|done].
  intros (s1 & H1 & H2 & _). by etrans.
Qed.

Lemma quiet_spared R (o : CmE R) : spares v R o = true → quiet R (CCloud o).
Proof.
  intros Ho. apply quiet_progress. intros s r s'.
  destruct o; cbn in *; try done; apply negb_true_iff in Ho; by rewrite Ho.
Qed.

Ltac quiet_call :=
  first [ apply quiet_lock | apply quiet_rt | apply quiet_find
        | apply quiet_spared; cbn [spares]; first [done | apply negb_true_iff, String.eqb_neq; by eauto] ].

Ltac quietly :=
  repeat lazymatch goal with
    | |- ∀ _, _ => intros ?
    | |- all_calls _ (Ret _) => apply all_calls_ret
    | |- all_calls _ (mret _) => apply all_calls_ret
    | |- all_calls _ (call _) => apply all_calls_call; quiet_call
    | |- all_calls _ (_ ≫= _) => apply all_calls_bind
    | |- all_calls _ (let _ := _ in _) => cbv zeta
    | |- all_calls _ (match ?x with _ => _ end) => destruct x eqn:?
    | |- all_calls _ ?p => let f := head_of p in progress unfold f
    end.

Lemma handle_spares_others g d q s :
  at_rest s → creates q = false → about q ≠ Some v →
  sat M (handle g d q) s (fun _ s' => s' = s).
Proof.
  intros Hs Hq Hv. apply sat_quiet; [done|].
  assert (Hne : ∀ id u serial, ParseCsiVolId id = Ok (u, serial) → disk_id id ≠ Some v → u ≠ v)
    by (intros id u serial ->%disk_id_parse; congruence).
  destruct q; cbn [creates about] in *; try done; quietly.
Qed.

(** ** CreateVolume *)

(** The creation of a disk while [v] is at rest. *)
Definition created (cr : CreateDisksRequest) (s : option disk) (r : rpc string) (s' : option disk)
    : Prop :=
  match r with
  | Ok id => if String.eqb id v then s = None ∧ s' = Some (new_disk cr) else s' = s
  | Err _ => s' = s ∨ effect (Create cr) s s'
  end.

Lemma makes_created cr (r : result cerr string) s s' :
  at_rest s → makes v (Create cr) r s s' →
  created cr s (match r with Ok x => Ok x | Err _ => Err codes.Internal end) s'.
Proof.
  intros Hs. destruct r as [id|e]; cbn.
  - destruct (String.eqb id v); [|by apply progress_rest].
    intros (He & Hs' & _). apply effect_rest in He as (s1 & Ha & ->); [|done..].
    destruct s as [k|]; [|by injection Ha as <-]. done.
  - intros [Hp|He]; [left|by right]. by apply progress_rest.
Qed.

(** [CreateVolume] or [CreateVolumeFromSnapshot] of the cloud manager, then
    the description of the new volume. *)
Lemma sat_create d req (o : CmE (result cerr string)) cr size parameters source s :
  at_rest s → cdr_DiskName cr = cv_Name req → cdr_DiskSize cr = size →
  (∀ r s', disk_manager v _ o s r s' → makes v (Create cr) r s s') →
  sat M (try newVolId <- cloud_try codes.Internal o ;
         cs.CreateVolume_created d newVolId size parameters source) s (create_outcome v req s).
Proof.
  intros Hs Hname Hsize Ho. eapply sat_bind_mono with (Q1 := created cr s).
  { apply sat_cloud_try. intros r s' Hr%Ho. by apply makes_created. }
  intros [id|e] s1 Hc; cbn in Hc; [|apply sat_ret; destruct Hc; [by left|right; eauto]].
  unfold cs.CreateVolume_created. destruct (String.eqb_spec id v) as [->|Hne].
  - destruct Hc as [-> ->].
    assert (Herr : ∀ e, create_outcome v req None (Err e) (Some (new_disk cr))).
    { intros e. right. exists cr. split; [done|].
      exists None, (Some (with_task Creating (new_disk cr))). split_and!; [by left|done|by right]. }
    eapply sat_bind_mono; [by apply sat_find|]. intros [[x|]|e] s2 [-> Hx]; cbn beta iota;
      [|by apply sat_ret..]. cbn [is_nil].
    destruct Hx as (k & [= <-] & (Hid & _) & Hz & _).
    destruct (genCsiVolId (Some x)) as [csi|] eqn:Hgen; [|by apply sat_ret].
    apply sat_ret. right. split; [done|]. exists (new_disk cr), (ZecVolume_Serial x).
    unfold genCsiVolId in Hgen. rewrite Hid in Hgen.
    destruct (_ || _); [done|]. injection Hgen as <-. cbn. by rewrite Hsize.
  - subst s1. eapply sat_mono with (Q := fun _ s' => s' = s); [|intros [] ? ->; by left].
    apply sat_quiet; [done|]. quietly.
Qed.

Lemma sat_CreateVolume g d req s :
  at_rest s → sat M (cs.CreateVolume g d req) s (create_outcome v req s).
Proof.
  intros Hs. assert (Herr : ∀ e, create_outcome v req s (Err e) s) by (by left).
  assert (Hsame : ∀ r, create_outcome v req s r s) by (intros []; by left).
  unfold cs.CreateVolume. destruct (cs.CreateVolume_check d req); [|by apply sat_ret].
  apply sat_with_lock; [done|]. unfold cs.CreateVolume_locked.
  eapply sat_bind_mono; [apply sat_quiet; [done|]; quietly|]. intros order s1 ->.
  destruct (NewZecStorageClassFromMap g order) as [sc|]; [|by apply sat_ret].
  eapply sat_bind_mono; [apply sat_quiet; [done|]; quietly|]. intros [[topo ps]|] s1 ->;
    cbn beta iota; [|by apply sat_ret].
  destruct (GetRequiredVolumeSizeByte sc (cv_CapacityRange req)) as [bytes|]; [|by apply sat_ret].
  eapply sat_bind_mono; [apply sat_quiet; [done|]; quietly|]. intros [[x|] [e|]] s1 ->;
    cbn beta iota; try (by apply sat_ret).
  destruct (cv_VolumeContentSource req) as [[snapId|u|]|]; try (by apply sat_ret).
  - unfold cs.CreateVolume_from_snapshot.
    repeat match goal with |- sat _ (if ?b then _ else _) _ _ => destruct b; [by apply sat_ret|] end.
    apply sat_with_lock; [done|].
    eapply sat_bind_mono; [apply sat_quiet; [done|]; quietly|]. intros [[snap|]|] s1 ->;
      cbn beta iota; try (by apply sat_ret).
    destruct (negb _); [by apply sat_ret|]. cbv zeta.
    eapply sat_create; [done| | |intros r s' Hr; exact Hr]; done.
  - unfold cs.CreateVolume_empty. cbv zeta.
    eapply sat_create; [done| | |intros r s' Hr; exact Hr]; done.
Qed.
End handlers.

(** ** The controller *)

Lemma handle_refines g d v q s :
  at_rest s → sat (locked_machine (handler_machine v)) (handle g d q) s (csi_step v q s).
Proof.
  intros Hs. destruct (creates q) eqn:Hq.
  - destruct q as [req| | | | | | |]; try done. cbn [handle]. unfold respond.
    eapply sat_bind_mono; [by apply sat_CreateVolume|].
    intros [vol|e] s' H; apply sat_ret; by eexists.
  - unfold csi_step. destruct (decide (about q = Some v)) as [Hv|Hv].
    + eapply sat_mono; [by apply handle_refines_about|]. intros r s' H. by destruct q.
    + eapply sat_mono; [by apply handle_spares_others|]. intros r s' H. by destruct q.
Qed.

(** The cloud beside the runtime. *)
Definition beside_rt {W} (hd : env CloudE W) (rt : ∀ R, RtE R → R) : env BackE W := fun R e =>
  match e in BackE R return W → R * W with
  | ToSdk o => fun w => hd _ o w
  | ToBackRt o => fun w => (rt _ o, w)
  end.

Section controller.
Context (g : Globals) (d : DiskDriver) (impl : ∀ R, CmE R → prog CloudE R).
Context `{!RefinesManager impl}.
Context {W : Type} (hd : env CloudE W) (rt : ∀ R, RtE R → R).

(** One request, served to its end. *)
Definition serve_request (q : request) (s : ResourceLocks * W)
    : rpc response * (ResourceLocks * W) :=
  run (locked_env (beside_rt hd rt)) (sv_serve (controller g d impl) q) s.

(** Requests served one after the other. *)
Fixpoint serve_requests (qs : list request) (s : ResourceLocks * W)
    : list (rpc response) * (ResourceLocks * W) :=
  match qs with
  | [] => ([], s)
  | q :: qs =>
    let '(r, s1) := serve_request q s in
    let '(rs, s2) := serve_requests qs s1 in (r :: rs, s2)
  end.

(** The disk [v] of the cloud, which obeys its API. *)
Context (v : string) (disk_of : W → option disk).
Context (Hcloud : obeys hd disk_of (disk_api v)) (Hrt : ∀ R (o : RtE R), rt_ok R o (rt R o)).

Lemma obeys_back :
  obeys (locked_env (beside_rt hd rt)) (fun s => disk_of s.2) (locked_machine (back_machine v)).
Proof.
  intros R e [t w]. destruct e as [R o|R o]; cbn; [by destruct (lock_exec t o)|].
  destruct o as [R o|R o]; cbn; [|by split; [apply Hrt|]].
  pose proof (Hcloud R o w) as H. by destruct (hd R o w).
Qed.

Lemma serve_request_refines q s :
  at_rest (disk_of s.2) →
  csi_step v q (disk_of s.2) (serve_request q s).1 (disk_of (serve_request q s).2.2).
Proof.
  intros Hs. eapply (handle_refines g d); [done|]. eapply (exec_sys impl); [by apply (impl_refines v)|].
  apply (run_exec _ (fun s : ResourceLocks * W => disk_of s.2)), obeys_back.
Qed.

Lemma serve_requests_refines qs s :
  at_rest (disk_of s.2) →
  Forall (fun q => creates q = false) qs →
  Forall (fun r => is_ok r = true) (serve_requests qs s).1 →
  foldl (fun o q => x ← o; if decide (about q = Some v) then csi_apply q x else Some x)
    (Some (disk_of s.2)) qs = Some (disk_of (serve_requests qs s).2.2).
Proof.
  revert s. induction qs as [|q qs IH]; intros s Hs Hqs Hok; [done|].
  apply list.Forall_cons in Hqs as [Hq Hqs]. cbn [serve_requests] in *.
  pose proof (serve_request_refines q s Hs) as Hstep.
  destruct (serve_request q s) as [r s1]. specialize (IH s1).
  destruct (serve_requests qs s1) as [rs s2]. cbn [fst snd] in *.
  apply list.Forall_cons in Hok as [Hr Hok].
  assert (Hnext : (if decide (about q = Some v) then csi_apply q (disk_of s.2)
                   else Some (disk_of s.2)) = Some (disk_of s1.2)).
  { destruct r as [x|]; [|done]. unfold csi_step in Hstep.
    destruct q; try done; by destruct (decide _); [|rewrite Hstep]. }
  cbn [foldl mbind option_bind]. rewrite Hnext. apply IH; [|done..].
  destruct (decide _); [|by injection Hnext as <-]. by eapply csi_apply_rest.
Qed.
End controller.
