(* ===== verification/Serial.v ===== *)
(** * Concurrent requests of the controller are serialized

    The controller as an instance of [Bracket.v]: the state is the disk [v], as the
    machine of the cloud's API changes it; the requests about [v] work on it under its
    lock, and do what the abstract service of [VolumeSpec.v] says; the others spare it. *)

From S2P Require Import Prelude GoStd Csi Common Prog Locking Serve Driver ZecApi CloudTypes Bracket.
From S2P Require Import Machine Cloud Ctrl Controller Locks CloudProps System Disk CmRefine.
From S2P Require Import VolumeSpec VolumeRefine.

Local Open Scope csi_scope.

(** ** The controller's handlers *)

Lemma bracketed_respond {A} v (f : A → response) (p : ctrl (rpc A)) :
  bracketed v is_ok p → bracketed v is_ok (respond f p).
Proof.
  destruct p as [[x|e]|R e k]; [done..|]. destruct e as [R o|R o]; [|done].
  destruct o as [id|id]; [|done]. intros (-> & ([x|c] & Hc & ?) & Hk); [done|]. split; [done|]. split.
  - exists (Err c). split; [|done].
    change ((x ← k false; match x with Ok x => mret (Ok (f x)) | Err e => mret (Err e) end)
      = Ret (Err c)). by rewrite Hc.
  - apply (section_map v); [exact Hk|]. intros [x|e]; eauto.
Qed.


Ltac unlocked :=
  repeat lazymatch goal with
    | |- ∀ _, _ => intros ?
    | |- all_calls _ (Ret _) => apply all_calls_ret
    | |- all_calls _ (mret _) => apply all_calls_ret
    | |- all_calls _ (call _) => by apply all_calls_call
    | |- all_calls _ (_ ≫= _) => apply all_calls_bind
    | |- all_calls _ (let _ := _ in _) => cbv zeta
    | |- all_calls _ (match ?x with _ => _ end) => destruct x
    | |- all_calls _ ?p => let f := head_of p in progress unfold f
    end.

Lemma handle_bracketed g d q v :
  creates q = false → about q = Some v → bracketed v is_ok (handle g d q).
Proof.
  intros _ Hv. destruct q; cbn [about] in Hv; try done; cbn [handle]; apply bracketed_respond;
    unfold cs.DeleteVolume, cs.ControllerPublishVolume, cs.ControllerUnpublishVolume,
      cs.ControllerExpandVolume; unfold disk_id in Hv;
    repeat match goal with
    | |- bracketed _ _ (if ?b then _ else _) => destruct b; [done|]
    | |- bracketed _ _ (match ?x with _ => _ end) => destruct x as [?|] eqn:?; [|done]
    | H : Some _ = Some _ |- _ => injection H as ->
    | x : (_ * _)%type |- _ => destruct x
    end;
    apply bracketed_with_lock; unlocked.
Qed.

(** ** What the other requests do to the disk *)

(** The interface: the operations that spare a disk make no call that changes it. *)
Class SparesOthers (impl : ∀ R, CmE R → prog CloudE R) : Prop := {
  impl_spares v R (o : CmE R) : spares v R o = true → all_calls (calm v) (impl R o);
  impl_find v u : all_calls (calm v) (impl _ (FindVolume u))
}.

#[export] Instance zec_spares_others (cm : zecCloudManager) : SparesOthers (zec_impl cm).
Proof.
  split; [by intros v R o; apply calm_spared|]. intros v u. apply calm_find.
Qed.

(** The calls of the cloud manager that leave the disk [v] alone. *)
Definition sparing (v : string) (R : Type) (e : CtrlE R) : Prop :=
  match e with
  | CCloud (FindVolume _) => True
  | CCloud o => spares v _ o = true
  | _ => True
  end.

Definition calm_sys (v : string) (R : Type) (e : SysE R) : Prop :=
  match e with SCloud c => calm v _ c | _ => True end.

Ltac sparingly :=
  repeat lazymatch goal with
    | |- ∀ _, _ => intros ?
    | |- all_calls _ (Ret _) => apply all_calls_ret
    | |- all_calls _ (mret _) => apply all_calls_ret
    | |- all_calls _ (call _) => apply all_calls_call; cbn [sparing spares];
        first [done | apply negb_true_iff, String.eqb_neq; by eauto]
    | |- all_calls _ (_ ≫= _) => apply all_calls_bind
    | |- all_calls _ (let _ := _ in _) => cbv zeta
    | |- all_calls _ (match ?x with _ => _ end) => destruct x eqn:?
    | |- all_calls _ ?p => let f := head_of p in progress unfold f
    end.

Lemma handle_sparing g d q v :
  creates q = false → about q ≠ Some v → all_calls (sparing v) (handle g d q).
Proof.
  intros Hq Hv.
  assert (Hne : ∀ id u serial, ParseCsiVolId id = Ok (u, serial) → disk_id id ≠ Some v → u ≠ v)
    by (intros id u serial ->%disk_id_parse; congruence).
  destruct q; cbn [creates about] in *; try done; sparingly.
Qed.

Section controller.
Context (g : Globals) (d : DiskDriver) (impl : ∀ R, CmE R → prog CloudE R).
Context `{!CloudDiscipline impl} `{!RefinesManager impl} `{!SparesOthers impl}.
Context (v : string).

Abbreviation srv := (controller g d impl).
Abbreviation M := (locked_machine (back_machine v)).

Lemma serve_calm q :
  creates q = false ∧ about q ≠ Some v → all_calls (calm_sys v) (sv_serve srv q).
Proof.
  intros [Hq Hv]. apply (all_calls_interp (sparing v)); [|by apply handle_sparing].
  intros R [R' o|R' [R'' o|R'' o]] He; [by apply all_calls_call| |by apply all_calls_call].
  cbn [sys_impl locked_impl handler_impl]. unfold lift.
  apply (all_calls_interp (fun R (e : BackE R) => match e with ToSdk c => calm v _ c | _ => True end));
    [by intros; apply all_calls_call|].
  apply (all_calls_interp (calm v)); [by intros; apply all_calls_call|].
  destruct o; cbn [sparing] in He; try (by apply impl_spares). apply impl_find.
Qed.

Lemma serve_bracketed q :
  creates q = false → about q = Some v → bracketed v is_ok (sv_serve srv q).
Proof. intros Hq Hv. by apply (bracketed_impl (handler_impl impl)), handle_bracketed. Qed.

Lemma serve_outcome q y r s :
  creates q = false → about q = Some v → at_rest y →
  exec M (sv_serve srv q) y r s → csi_outcome q y r s.
Proof.
  intros Hq Hv Hy Hexec. eapply (handle_refines_about v g d q y Hy Hq Hv).
  eapply (exec_sys impl); [by apply (impl_refines v)|exact Hexec].
Qed.

(** ** The instance *)

Lemma lock_stays R (o : LockE R) s r s' : M R (OnLocks o) s r s' ↔ s' = s.
Proof. done. Qed.

Lemma back_drift R (o : BackE R) s r s2 s3 :
  M R (Other o) s r s2 → progress s2 s3 → ∃ s1, progress s s1 ∧ M R (Other o) s1 r s3.
Proof.
  cbn. destruct o as [R' o|R' o]; cbn.
  - intros HM Hp. exists s. split; [done|]. destruct o as [R'' o|t n]; cbn in *; [|by etrans].
    destruct HM as (a & b & Ha & Hb & Hs). exists a, b. split_and!; [done..|by etrans].
  - intros [Hr ->] Hp. by exists s3.
Qed.

Lemma calm_progress R (e : SysE R) s r s' : calm_sys v R e → M R e s r s' → progress s s'.
Proof.
  destruct e as [R' o|R' [R'' o|R'' o]]; cbn.
  - intros _ Hs. change (s' = s) in Hs. by subst s'.
  - intros Hc. apply Hc.
  - by intros _ [_ ->].
Qed.

Lemma outcome_settled q y (r : rpc response) s :
  at_rest y → is_ok r = true → csi_outcome q y r s → at_rest s.
Proof. intros Hy Hr. destruct r as [a|]; [|done]. intros H. by eapply csi_apply_rest. Qed.

Lemma serve_harmless q :
  creates q = false → about q ≠ Some v → gentle M progress (sv_serve srv q) (fun _ => True).
Proof.
  intros Hq Hv. apply (all_calls_gentle _ _ (calm_sys v)); [exact calm_progress|by apply serve_calm].
Qed.

Lemma rest_drifts (s s' : option disk) : at_rest s → progress s s' → at_rest s'.
Proof. intros Hs Hp. by rewrite (progress_rest s s' Hs Hp). Qed.

Lemma outcome_absorbs q y y1 (r : rpc response) s :
  at_rest y → progress y y1 → csi_outcome q y1 r s → csi_outcome q y r s.
Proof. intros Hy Hp. by rewrite (progress_rest y y1 Hy Hp). Qed.

(** Requests that succeed are a run of the abstract service. *)
Lemma took_run (m : gmap nat (request * sys srv)) os x y :
  (∀ i q r, (i, q) ∈ os → m !! i = Some (q, Ret r) → is_ok r = true) → at_rest x →
  took srv csi_outcome m os x y →
  at_rest y ∧ foldl (fun o q => x ← o; csi_apply q x) (Some x) os.*2 = Some y.
Proof.
  revert x. induction os as [|[i q] os IH]; intros x Hgood Hx; cbn; [by intros ->|].
  intros (r & z & Hi & Hout & Ht). specialize (Hgood i q r (list_elem_of_here _ _)) as Hr.
  destruct r as [a|e]; [|by specialize (Hr Hi)].
  pose proof (outcome_settled q x (Ok a) z Hx eq_refl Hout) as Hz.
  unfold csi_outcome in Hout. rewrite Hout. cbn. apply IH; [|done..].
  intros j q' r Hj. apply Hgood. by right.
Qed.

(** The requests about [v] that have returned without an error, in the order in
    which they released the disk, are a run of the abstract service. *)
Lemma controller_serializes (σ : system srv) x s :
  served srv σ → at_rest x → follows M (log σ) x s →
  (∀ i q p, pool σ !! i = Some (q, p) → creates q = false) →
  (∀ i q e, pool σ !! i = Some (q, Ret (Err e)) → about q = Some v → i ∉ released v (log σ)) →
  ∃ os : list (nat * request), os.*1 `sublist_of` released v (log σ) ∧ NoDup os.*1 ∧
    (∀ i q, (i, q) ∈ os ↔ about q = Some v ∧ ∃ a, pool σ !! i = Some (q, Ret (Ok a))) ∧
    ∃ y, foldl (fun o q => x ← o; csi_apply q x) (Some x) os.*2 = Some y ∧
      (v ∉ locks (table σ) → s = y).
Proof.
  intros Hs Hx Hfol Had Hnf.
  pose proof (served_serialized srv is_ok M progress at_rest rest_drifts
    lock_stays back_drift v (fun q => creates q = false)
    (fun q => about q = Some v) _ csi_outcome (fun r => is_ok r = true) serve_bracketed
    serve_outcome outcome_settled outcome_absorbs serve_harmless σ x s Hx Hs Had) as H.
  assert (Hgood : ∀ i q r, pool σ !! i = Some (q, Ret r) → about q = Some v →
    i ∈ released v (log σ) → is_ok r = true).
  { intros i q [a|e] Hi Hm Hr; [done|]. by destruct (Hnf i q e Hi Hm). }
  destruct H as (Hnd & Hos & Hearly & y & Hrun & Hend); [exact Hgood|done|].
  exists (order srv (fun q => about q = Some v) _ (pool σ) (released v (log σ))).
  split; [apply (order_sublist srv)|]. split_and!; [exact Hnd| |].
  - intros i q. rewrite Hos. split.
    + intros (Hr & Hm & a & Hi). split; [done|]. pose proof (Hgood i q a Hi Hm Hr) as Ha.
      destruct a as [a|]; [by exists a|done].
    + intros [Hm (a & Hi)]. split_and!; [|done|by exists (Ok a)].
      destruct (decide (i ∈ released v (log σ))) as [|Hn]; [done|]. by specialize (Hearly i q _ Hi Hm Hn).
  - exists y. apply took_run in Hrun as [Hy Hrun]; [| |done].
    + split; [done|]. intros Hl. by apply progress_rest, Hend.
    + intros i q r (Hr & Hm & _)%Hos Hi. by eapply Hgood.
Qed.
End controller.
