(* ===== verification/DiskSim.v ===== *)
(** * A concrete cloud of one disk

    A cloud whose tasks take a while: a change is only started by its call, and
    is done when the next call arrives.  It is no part of the driver; it obeys
    [disk_api], and the examples of the refinement run the driver on it. *)

From S2P Require Import Prelude GoStd Csi Common Prog Locking Serve Driver ZecApi CloudTypes.
From S2P Require Import Machine Cloud Ctrl Controller System Sim Disk VolumeSpec VolumeRefine.

Local Open Scope Z_scope.

Definition rest_status (d : disk) : string :=
  if k_bin d then DiskStatusRecycled
  else if String.eqb (k_instance d) "" then DiskStatusAvailable else DiskStatusInUse.

Definition info_of (v serial : string) (d : disk) : DiskInfo :=
  {| di_DiskId := Some v; di_DiskName := Some (cdr_DiskName (k_made d));
     di_ZoneId := Some (cdr_ZoneId (k_made d)); di_DiskCategory := Some (cdr_DiskCategory (k_made d));
     di_DiskSize := Some (k_size d);
     di_DiskStatus := Some (if is_nil (k_task d) then rest_status d else "CHANGING");
     di_InstanceId := Some (k_instance d); di_Serial := Some serial;
     di_Portable := Some true; di_SnapshotAbility := Some true;
     di_ResourceGroupId := Some (cdr_ResourceGroupId (k_made d)) |}.

Definition page_of_disk (v serial : string) (s : option disk) : page DiskInfo :=
  match s with
  | None => {| TotalCount := Some 0; DataSet := [] |}
  | Some d => {| TotalCount := Some 1; DataSet := [Some (info_of v serial d)] |}
  end.

Definition not_now {T} (s : option disk) : sdk T * option disk :=
  (Err (ZenlayerCloudSdkError (if is_nil s then OPERATION_FAILED_RESOURCE_NOT_FOUND
                               else "INVALID_DISK_STATUS")), s).

(** The change [c], answered by [r] when it can be made. *)
Definition answer {T} (c : change) (r : T) (s : option disk) : sdk T * option disk :=
  match accept c s with Some s' => (Ok r, s') | None => not_now s end.

Section one_disk.
Context (v serial : string).

Definition one_api : env ZecE (option disk) := fun R o =>
  match o in ZecE R return option disk → R * option disk with
  | CreateDisks req => fun s => answer (Create req) (Some [v]) (settle s)
  | ReleaseDisk u => fun s => if String.eqb u v then answer Release tt (settle s) else not_now (settle s)
  | AttachDisks ids vm => fun s =>
      if existsb (String.eqb v) ids then answer (Attach vm) tt (settle s) else not_now (settle s)
  | DetachDisks ids _ => fun s =>
      if existsb (String.eqb v) ids then answer Detach (Some []) (settle s) else not_now (settle s)
  | ResizeDisk u n => fun s =>
      if String.eqb u v then answer (Resize n) tt (settle s) else not_now (settle s)
  | DescribeDisks req => fun s =>
      (Ok (Some (page_of_disk v serial
        (if existsb (String.eqb v) (ddr_DiskIds req) then settle s else None))), settle s)
  | DescribeInstancesStatus ids => fun s =>
      (Ok (Some {| TotalCount := Some 1;
                   DataSet := [Some {| is_InstanceId := None; is_InstanceStatus := Some VmStatusRunning |}] |}), s)
  | DescribeInstances _ => fun s => (Err OtherError, s)
  | DescribeDiskRegions => fun s => (Ok (Some []), s)
  | DescribeZones => fun s => (Ok tt, s)
  | CreateSnapshotApi _ _ => fun s => (Err OtherError, s)
  | DeleteSnapshots _ => fun s => (Err OtherError, s)
  | DescribeSnapshots _ => fun s => (Err OtherError, s)
  end.

Definition one_cloud : env CloudE (option disk) := fun R o =>
  match o in CloudE R return option disk → R * option disk with
  | Api a => one_api _ a
  | SelectTicks timeout interval => fun s => (Z.to_nat (timeout / interval), s)
  end.

Lemma status_law_rest d : status_law d (if is_nil (k_task d) then rest_status d else "CHANGING").
Proof.
  destruct d as [m z i b [t|]]; unfold status_law, rest_status; cbn; [done|].
  destruct b, (String.eqb_spec i ""); cbn; naive_solver.
Qed.

Lemma shows_info d : shows v d (info_of v serial d).
Proof. unfold shows. cbn. eauto 10 using status_law_rest. Qed.

Lemma takes_answer {T} c (x : T) s :
  takes c (verdict_of (answer c x s).1) s (answer c x s).2.
Proof. unfold answer. destruct (accept c s) as [s'|] eqn:Hc; [exact Hc|done]. Qed.

(** A call that settles the disk and then works at once. *)
Lemma api_settled R (o : ZecE R) s r s' :
  sdk_op v R o (settle s) r s' → disk_api v R (Api o) s r s'.
Proof. intros H. exists (settle s), s'. split_and!; [by right|done|by left]. Qed.

Lemma one_cloud_obeys : obeys one_cloud id (disk_api v).
Proof.
  intros R o s. unfold id. destruct o as [R o|t i]; [|by left].
  cbn [one_cloud]. destruct o; cbn [one_api fst snd];
    try (exists s, s; split_and!; [by left|done|by left]; fail); apply api_settled; cbn [sdk_op].
  - unfold answer. destruct (accept _ _) as [s'|] eqn:Hc; cbn; [|done]. by rewrite String.eqb_refl.
  - destruct (String.eqb DiskId v); [|done]. split; [apply takes_answer|].
    unfold answer. destruct (accept Release (settle s)); cbn; [done|]. by destruct (settle s).
  - destruct (existsb _ DiskIds); [|done]. apply takes_answer.
  - destruct (existsb _ DiskIds); [|done].
    pose proof (takes_answer Detach (T:=option (list string)) (Some []) (settle s)) as H.
    unfold answer in *. by destruct (accept Detach (settle s)).
  - destruct (String.eqb DiskId v); [|done]. apply takes_answer.
  - split; [done|]. intros -> p [= <-]. cbn [disks_by_id ddr_DiskIds existsb].
    rewrite String.eqb_refl. cbn [orb]. destruct (settle s) as [d|]; cbn; [|done].
    split; [done|]. eexists. split; [done|]. apply shows_info.
Qed.
End one_disk.

(** ** A slow cloud

    Each task takes [lag] polls. *)

Section slow.
Context (v serial : string) (lag : nat).

(** One poll: the task is done when it needs no more. *)
Definition poll (x : option disk * nat) : option disk * nat :=
  match x.2 with O => (settle x.1, O) | S n => (x.1, n) end.

Definition start {T} (c : change) (yes : T) (x : option disk * nat) : sdk T * (option disk * nat) :=
  match accept c x.1 with
  | Some s' => (Ok yes, (s', lag))
  | None => ((not_now x.1).1, x)
  end.

Definition slow_api : env ZecE (option disk * nat) := fun R o =>
  match o in ZecE R return option disk * nat → R * (option disk * nat) with
  | CreateDisks req => start (Create req) (Some [v])
  | ReleaseDisk u => fun x => if String.eqb u v then start Release tt x else ((not_now x.1).1, x)
  | AttachDisks ids vm => fun x =>
      if existsb (String.eqb v) ids then start (Attach vm) tt x else ((not_now x.1).1, x)
  | DetachDisks ids _ => fun x =>
      if existsb (String.eqb v) ids then start Detach (Some []) x else ((not_now x.1).1, x)
  | ResizeDisk u n => fun x =>
      if String.eqb u v then start (Resize n) tt x else ((not_now x.1).1, x)
  | DescribeDisks req => fun x =>
      let x' := poll x in
      (Ok (Some (page_of_disk v serial
        (if existsb (String.eqb v) (ddr_DiskIds req) then x'.1 else None))), x')
  | DescribeInstancesStatus ids => fun x =>
      (Ok (Some {| TotalCount := Some 1;
                   DataSet := [Some {| is_InstanceId := None; is_InstanceStatus := Some VmStatusRunning |}] |}), x)
  | DescribeInstances _ => fun x => (Err OtherError, x)
  | DescribeDiskRegions => fun x => (Ok (Some []), x)
  | DescribeZones => fun x => (Ok tt, x)
  | CreateSnapshotApi _ _ => fun x => (Err OtherError, x)
  | DeleteSnapshots _ => fun x => (Err OtherError, x)
  | DescribeSnapshots _ => fun x => (Err OtherError, x)
  end.

(** The timer fires when the task is done at the latest. *)
Definition slow_cloud : env CloudE (option disk * nat) := fun R o =>
  match o in CloudE R return option disk * nat → R * (option disk * nat) with
  | Api a => slow_api _ a
  | SelectTicks timeout interval => fun x => (S x.2 + Z.to_nat (timeout / interval), x)%nat
  end.
End slow.
