(* ===== verification/RefineSpec.v ===== *)
(** * What the refinement says

    The properties of the abstract specifications, with the concrete cloud of
    [DiskSim.v] as their instance. *)

From S2P Require Import Prelude GoStd Csi Common Prog Locking Serve Driver ZecApi CloudTypes.
From S2P Require Import Machine Cloud Ctrl Controller System Sim SystemProps Disk CmRefine VolumeSpec.
From S2P Require Import VolumeRefine DiskSim.

Local Open Scope Z_scope.

(** ** The cloud manager *)

(** C12: The cloud manager implements its interface.  On a cloud whose API answers
    as documented for a disk ([disk_api]), an operation of the zec manager is, in
    the view of that disk, one step of the interface's specification: a creation,
    attachment, detachment or resize that returns no error has happened once and is
    complete; one that returns an error happened at most once; a deletion that
    returns no error leaves no disk; [FindVolume] shows the disk as it is; and no
    operation touches a disk it was not asked to change. *)
Theorem zec_manager_refines {W} (cm : zecCloudManager) (v : string) (hd : env CloudE W)
    (disk_of : W → option disk) (R : Type) (o : CmE R) (w : W) :
  obeys hd disk_of (disk_api v) →
  disk_manager v R o (disk_of w) (run hd (zec_impl cm R o) w).1
    (disk_of (run hd (zec_impl cm R o) w).2).
Proof. intros Hhd. apply (zec_refines cm v). by apply (run_exec hd disk_of). Qed.

Definition example_made : CreateDisksRequest :=
  disk_request "pvc-1" 20 BasicNvmeName "asia-a" "group" None false.
Definition example_disk (vm : string) : disk := mkDisk example_made 20 vm false None.
Definition example_cloud : env CloudE (option disk) := one_cloud Example.diskId Example.serial.

(** An attachment that takes a while. *)
Lemma zec_manager_refines_witness :
  let run_attach := run example_cloud
    (zec_impl example_manager _ (AttachVolume Example.diskId "vm-1")) (Some (example_disk "")) in
  run_attach.1 = Ok tt ∧
  effect (Attach "vm-1") (Some (example_disk "")) (Some (example_disk "vm-1")).
Proof.
  assert (Hrun : run example_cloud (zec_impl example_manager _ (AttachVolume Example.diskId "vm-1"))
    (Some (example_disk "")) = (Ok tt, Some (example_disk "vm-1"))) by (vm_compute; reflexivity).
  pose proof (zec_manager_refines example_manager Example.diskId example_cloud id _
    (AttachVolume Example.diskId "vm-1") (Some (example_disk ""))
    (one_cloud_obeys Example.diskId Example.serial)) as H.
  rewrite Hrun in H. split; [by rewrite Hrun|]. exact (proj1 H).
Defined.

(** ** The controller *)

(** C3: The controller refines the abstract volume service.  On a cloud that
    obeys [disk_api v], a request that finds the disk [v] at rest and is served to
    its end does to it what [csi_step] says: answered without an error, exactly
    what the abstract service does ([csi_apply]: published to that node and to no
    other, unpublished, grown to the size asked for, deleted, or created once with
    the id returned); answered with an error, nothing, or its own change and no
    other is on its way; and a request about another volume leaves the disk alone. *)
Theorem controller_refines_service (g : Globals) (d : DiskDriver)
    (impl : ∀ R, CmE R → prog CloudE R) `{!RefinesManager impl} {W} (hd : env CloudE W)
    (rt : ∀ R, RtE R → R) (v : string) (disk_of : W → option disk) (q : request)
    (s : ResourceLocks * W) :
  obeys hd disk_of (disk_api v) → (∀ R (o : RtE R), rt_ok R o (rt R o)) →
  at_rest (disk_of s.2) →
  let '(r, s') := serve_request g d impl hd rt q s in
  csi_step v q (disk_of s.2) r (disk_of s'.2).
Proof.
  intros Hcloud Hrt Hs.
  pose proof (serve_request_refines g d impl hd rt v disk_of Hcloud Hrt q s Hs) as H.
  by destruct (serve_request g d impl hd rt q s).
Qed.

Definition example_serve (q : request) (s : option disk) : rpc response * option disk :=
  let '(r, s') := serve_request Example.globals Example.driver (zec_impl example_manager)
    example_cloud rt_env q (NewResourceLocks, s) in (r, s'.2).

Lemma controller_refines_service_witness :
  let q := ReqPublish Example.publish_request in
  let s' := (example_serve q (Some (example_disk ""))).2 in
  (example_serve q (Some (example_disk ""))).1 = Ok RespEmpty ∧
  csi_apply q (Some (example_disk "")) = Some s' ∧ s' = Some (example_disk "vm-1").
Proof.
  cbv zeta. set (q := ReqPublish Example.publish_request).
  pose proof (controller_refines_service Example.globals Example.driver (zec_impl example_manager)
    example_cloud rt_env Example.diskId id q (NewResourceLocks, Some (example_disk ""))
    (one_cloud_obeys Example.diskId Example.serial) rt_env_ok eq_refl) as H.
  assert (Hrun : serve_request Example.globals Example.driver (zec_impl example_manager)
    example_cloud rt_env q (NewResourceLocks, Some (example_disk "")) =
    (Ok RespEmpty, (NewResourceLocks, Some (example_disk "vm-1")))) by (vm_compute; reflexivity).
  unfold example_serve. rewrite Hrun in *. cbn [fst snd]. split_and!; [done| |done].
  unfold csi_step in H. rewrite decide_True in H by (vm_compute; reflexivity). exact H.
Defined.

(** Successful requests are a run of the abstract service.  When requests other
    than creations are served one after the other and each is answered without an
    error, the disk [v] ends as the abstract service, applied to the requests about
    it in their order, says, whatever requests about other disks are among them. *)
Theorem successful_requests_are_a_run (g : Globals) (d : DiskDriver)
    (impl : ∀ R, CmE R → prog CloudE R) `{!RefinesManager impl} {W} (hd : env CloudE W)
    (rt : ∀ R, RtE R → R) (v : string) (disk_of : W → option disk) (qs : list request)
    (s : ResourceLocks * W) :
  obeys hd disk_of (disk_api v) → (∀ R (o : RtE R), rt_ok R o (rt R o)) →
  at_rest (disk_of s.2) → Forall (fun q => creates q = false) qs →
  let '(rs, s') := serve_requests g d impl hd rt qs s in
  Forall (fun r => is_ok r = true) rs →
  foldl (fun o q => x ← o; if decide (about q = Some v) then csi_apply q x else Some x)
    (Some (disk_of s.2)) qs = Some (disk_of s'.2).
Proof.
  intros Hcloud Hrt Hs Hqs.
  pose proof (serve_requests_refines g d impl hd rt v disk_of Hcloud Hrt qs s Hs Hqs) as H.
  by destruct (serve_requests g d impl hd rt qs s).
Qed.

(** A volume's life after its creation. *)
Definition example_requests : list request :=
  [ ReqPublish Example.publish_request;
    ReqExpand {| ce_VolumeId := Example.csiId;
                 ce_CapacityRange := Some {| RequiredBytes := 32212254720; LimitBytes := 0 |};
                 ce_VolumeCapability := Some Example.writer |};
    ReqUnpublish {| cu_VolumeId := Example.csiId; cu_NodeId := "vm-1" |};
    ReqDeleteVolume {| dv_VolumeId := Example.csiId |} ].

Lemma successful_requests_are_a_run_witness :
  let '(rs, s') := serve_requests Example.globals Example.driver (zec_impl example_manager)
    example_cloud rt_env example_requests (NewResourceLocks, Some (example_disk "")) in
  length rs = 4%nat ∧ s'.2 = None ∧
  foldl (fun o q => x ← o; if decide (about q = Some Example.diskId) then csi_apply q x else Some x)
    (Some (Some (example_disk ""))) example_requests = Some s'.2.
Proof.
  pose proof (successful_requests_are_a_run Example.globals Example.driver (zec_impl example_manager)
    example_cloud rt_env Example.diskId id example_requests
    (NewResourceLocks, Some (example_disk "")) (one_cloud_obeys Example.diskId Example.serial)
    rt_env_ok eq_refl ltac:(repeat constructor)) as H.
  assert (Hrun : Forall (fun r => is_ok r = true) (serve_requests Example.globals Example.driver
    (zec_impl example_manager) example_cloud rt_env example_requests
    (NewResourceLocks, Some (example_disk ""))).1) by (vm_compute; repeat constructor).
  assert (Hend : (serve_requests Example.globals Example.driver
    (zec_impl example_manager) example_cloud rt_env example_requests
    (NewResourceLocks, Some (example_disk ""))).2.2 = None) by (vm_compute; reflexivity).
  assert (Hlen : length (serve_requests Example.globals Example.driver
    (zec_impl example_manager) example_cloud rt_env example_requests
    (NewResourceLocks, Some (example_disk ""))).1 = 4%nat) by (vm_compute; reflexivity).
  destruct (serve_requests _ _ _ _ _ _ _) as [rs s']. cbn [fst snd] in *.
  split_and!; [done..|]. exact (H Hrun).
Defined.
