(* ===== verification/Naming.v ===== *)
(** * The disks of one name: abstract specifications

    What a CSI client relies on when it repeats a creation, or makes the same one
    twice at once, is that a name stands for one volume.  The state here is the live
    disks of the name [n], each with its place: its zone, its group and its type.
    [naming_api n] is what the driver relies on of the cloud's API for them,
    [naming_manager n] what [CloudManager] promises, and [name_outcome] what a creation
    of the name does.  The disks of a name only go while none of it is created. *)

From S2P Require Import Prelude GoStd Csi Common Prog Locking Machine Bracket Driver ZecApi CloudTypes.
From S2P Require Import Cloud Ctrl Controller System VolumeSpec.

Local Open Scope Z_scope.

(** ** Places *)

(** Zone, group and type. *)
Abbreviation place := (string * string * Z)%type.
(** The live disks of the name. *)
Abbreviation disks := (gmap string place).

Definition place_of (req : CreateDisksRequest) : place :=
  (cdr_ZoneId req, cdr_ResourceGroupId req, StringToType (cdr_DiskCategory req)).

Definition vacant (p : place) (s : disks) : Prop := ∀ id, s !! id ≠ Some p.

Definition one_per_place (s : disks) : Prop :=
  ∀ id1 id2 p, s !! id1 = Some p → s !! id2 = Some p → id1 = id2.

(** ** The machine of the API *)

(** An entry of a page for a live disk of the name. *)
Definition lists_disk (id : string) (p : place) (i : DiskInfo) : Prop :=
  di_DiskId i = Some id ∧ di_ZoneId i = Some p.1.1 ∧
  (StringToType <$> di_DiskCategory i) = Some p.2 ∧
  ∃ st, di_DiskStatus i = Some st ∧ st ≠ DiskStatusRecycled.

(** The first page of a search by name in a zone and a group, where no more disks
    match than fit on it: all the live disks there, and no other live ones. *)
Definition lists_all (zone group : string) (s : disks) (pg : page DiskInfo) : Prop :=
  TotalCount pg = Some (Z.of_nat (length (DataSet pg))) ∧ (length (DataSet pg) ≤ 20)%nat ∧
  (∀ id t, s !! id = Some (zone, group, t) →
     ∃ i, Some i ∈ DataSet pg ∧ lists_disk id (zone, group, t) i) ∧
  (∀ i, Some i ∈ DataSet pg → di_DiskStatus i ≠ Some DiskStatusRecycled →
     ∃ id t, s !! id = Some (zone, group, t) ∧ lists_disk id (zone, group, t) i).

Definition search (n zone group : string) : DescribeDisksRequest :=
  disks_by_name ("^" +:+ n +:+ "$") zone group 20 1.

(** A creation that may have been made. *)
Definition may_add (p : place) (s s' : disks) : Prop := s' = s ∨ ∃ id, s' = <[id := p]> s.

Definition naming_sdk (n : string) (R : Type) (o : ZecE R) (s : disks) : R → disks → Prop :=
  match o in ZecE R return R → disks → Prop with
  | CreateDisks req => fun r s' =>
      if String.eqb (cdr_DiskName req) n then
        match r with
        | Ok (Some (id :: _)) => s' = <[id := place_of req]> s
        | Err (ZenlayerCloudSdkError _) => s' = s
        | _ => may_add (place_of req) s s'
        end
      else s' = s
  | DescribeDisks req => fun r s' =>
      s' = s ∧ (∀ zone group pg, req = search n zone group → r = Ok (Some pg) →
                  lists_all zone group s pg) ∧
      (∀ u pg i, req = disks_by_id u → r = Ok (Some pg) → Some i ∈ DataSet pg → di_DiskId i = Some u)
  | _ => fun _ s' => s' ⊆ s
  end.

(** Disks are released at any time. *)
Definition naming_api (n : string) : machine CloudE disks := fun R o s r s' =>
  match o in CloudE R return R → Prop with
  | Api a => fun r => ∃ s1 s2, s1 ⊆ s ∧ naming_sdk n _ a s1 r s2 ∧ s' ⊆ s2
  | SelectTicks _ _ => fun _ => s' ⊆ s
  end r.

(** ** The machine of [CloudManager] *)

(** A disk is made at a place, whatever is there already. *)
Definition makes_at (p : place) (r : result cerr string) (s s' : disks) : Prop :=
  match r with
  | Ok id => s' ⊆ <[id := p]> s
  | Err _ => s' ⊆ s ∨ ∃ id, s' ⊆ <[id := p]> s
  end.

(** The result of a search for the disk at a place. *)
Definition found_at (p : place) (r : option ZecVolume * option cerr) (s : disks) : Prop :=
  match r with
  | (None, None) => vacant p s
  | (Some x, None) => s !! ZecVolume_Id x = Some p
  | (_, Some _) => True
  end.

Definition naming_manager (n : string) : machine CmE disks := fun R o s r s' =>
  match o in CmE R return R → Prop with
  | CreateVolume m _ c zone g _ | CreateVolumeFromSnapshot m _ c zone g _ _ => fun r =>
      if String.eqb m n then makes_at (zone, g, StringToType c) r s s' else s' ⊆ s
  | FindVolumeByName m zone _ c g => fun r =>
      if String.eqb m n then
        ∃ s1, s1 ⊆ s ∧ s' ⊆ s1 ∧ found_at (zone, g, StringToType c) r s1
      else s' ⊆ s
  | FindVolume u => fun r => s' ⊆ s ∧ ∀ x, r = Ok (Some x) → ZecVolume_Id x = u
  | _ => fun _ => s' ⊆ s
  end r.

(** The interface. *)
Class NamesDisks (impl : ∀ R, CmE R → prog CloudE R) : Prop := {
  impl_names n : refines (implemented (naming_api n) impl) (naming_manager n) id;
  (** disks are made by the two operations that create them, and of the name they are given *)
  impl_creates n R (o : CmE R) :
    match o with
    | CreateVolume m _ _ _ _ _ | CreateVolumeFromSnapshot m _ _ _ _ _ _ => m ≠ n
    | _ => True
    end →
    all_calls (fun R c => ∀ s r s', naming_api n R c s r s' → s' ⊆ s) (impl R o)
}.

(** ** What a creation does *)

(** The request is answered with a disk of the name that is there, or it makes one
    where there is none; after an error it may have made one, where there is none. *)
Definition name_outcome (s : disks) (r : rpc Volume) (s' : disks) : Prop :=
  match r with
  | Ok vol => ∃ id serial p, VolumeId vol = GenCsiVolId id serial ∧
      (s !! id = Some p ∧ s' ⊆ s ∨ ∃ s1, s1 ⊆ s ∧ vacant p s1 ∧ s' ⊆ <[id := p]> s1)
  | Err _ => s' ⊆ s ∨ ∃ id p s1, s1 ⊆ s ∧ vacant p s1 ∧ s' ⊆ <[id := p]> s1
  end.

Definition creation_outcome (q : request) (s : disks) (r : rpc response) (s' : disks) : Prop :=
  match r with
  | Ok (RespVolume vol) => name_outcome s (Ok vol) s'
  | Ok _ => False
  | Err e => name_outcome s (Err e) s'
  end.

(** The name a request creates a volume of. *)
Definition names (q : request) : option string :=
  match q with ReqCreateVolume r => Some (cv_Name r) | _ => None end.

(** ** Laws *)

Lemma vacant_subset p (s s' : disks) : s' ⊆ s → vacant p s → vacant p s'.
Proof. intros Hs Hp id Hid. by eapply (Hp id), lookup_weaken. Qed.

Lemma one_per_place_subset (s s' : disks) : s' ⊆ s → one_per_place s → one_per_place s'.
Proof. intros Hs H id1 id2 p H1 H2. eapply H; by eapply lookup_weaken. Qed.

(** A disk that is made where there is none is alone there. *)
Lemma one_per_place_insert id p (s : disks) :
  vacant p s → one_per_place s → one_per_place (<[id := p]> s).
Proof.
  intros Hp Hs id1 id2 p'. rewrite !lookup_insert_Some.
  intros [[<- <-]|[_ H1]] [[<- E]|[_ H2]]; subst; [done|by destruct (Hp _ H2)|by destruct (Hp _ H1)|eauto].
Qed.

Lemma name_outcome_one r s s' : one_per_place s → name_outcome s r s' → one_per_place s'.
Proof.
  intros Hs. assert (Hmade : ∀ id p s1, s1 ⊆ s → vacant p s1 → s' ⊆ <[id := p]> s1 → one_per_place s').
  { intros id p s1 H1 Hp H2. eapply one_per_place_subset; [exact H2|].
    by eapply one_per_place_insert, one_per_place_subset. }
  destruct r as [vol|e]; cbn.
  - intros (id & serial & p & _ & [[_ H]|(s1 & H1 & Hp & H2)]); [by eapply one_per_place_subset|eauto].
  - intros [H|(id & p & s1 & H1 & Hp & H2)]; [by eapply one_per_place_subset|eauto].
Qed.

(** Disks that go before are part of the outcome. *)
Lemma name_outcome_l s0 s r s' : s ⊆ s0 → name_outcome s r s' → name_outcome s0 r s'.
Proof.
  intros H0. destruct r as [vol|e]; cbn.
  - intros (id & serial & p & Hid & [[Hs H]|(s1 & H1 & H2)]); exists id, serial, p; (split; [done|]).
    + left. split; [by eapply lookup_weaken|by etrans].
    + right. exists s1. split; [by etrans|done].
  - intros [H|(id & p & s1 & H1 & H2)]; [left; by etrans|right]. exists id, p, s1. split; [by etrans|done].
Qed.
