(* ===== verification/NameRefine.v ===== *)
(** * The controller makes one disk of a name

    The cloud manager refines the machine of [Naming.v], a creation does to the disks
    of its name what [name_outcome] says, and concurrent requests are serialized by
    the name's lock: the controller as an instance of [Bracket.v], for creations. *)

From S2P Require Import Prelude GoStd Csi Common Prog Locking Serve Driver ZecApi CloudTypes Bracket.
From S2P Require Import Machine Cloud Ctrl Controller CtrlProps Locks CloudProps System.
From S2P Require Import VolumeSpec VolumeRefine CmRefine Serial Naming.

Local Open Scope Z_scope.
Local Open Scope csi_scope.

Definition shrinks (s s' : disks) : Prop := s' ⊆ s.

#[export] Instance shrinks_preorder : PreOrder shrinks.
Proof. unfold shrinks. split; [by intros s|]. intros s1 s2 s3 H1 H2. by etrans. Qed.

(** ** The cloud manager *)

Section manager.
Context (n : string).

Definition frugal (R : Type) (c : CloudE R) : Prop :=
  ∀ s r s', naming_api n R c s r s' → shrinks s s'.

Lemma frugal_api R (o : ZecE R) : (∀ s r s', naming_sdk n R o s r s' → s' ⊆ s) → frugal R (Api o).
Proof. intros Ho s r s' (s1 & s2 & H1 & H2%Ho & H3). unfold shrinks. by do 2 (etrans; [eassumption|]). Qed.

(** The calls that make no disk of the name. *)
Lemma frugal_call R (c : CloudE R) :
  match c with Api (CreateDisks req) => cdr_DiskName req ≠ n | _ => True end → frugal R c.
Proof.
  destruct c as [R o|t i]; [|by intros _ s r s'].
  destruct o; intros Hc; apply frugal_api; cbn; try done; [|by intros s r s' [-> _]].
  apply String.eqb_neq in Hc. rewrite Hc. by intros s r s' ->.
Qed.

Lemma zec_frugal cm R (o : CmE R) :
  match o with
  | CreateVolume m _ _ _ _ _ | CreateVolumeFromSnapshot m _ _ _ _ _ _ => m ≠ n
  | _ => True
  end →
  all_calls frugal (zec_impl cm R o).
Proof.
  intros Ho. eapply all_calls_mono; [|apply zec_asks]. intros R' c Hc. apply frugal_call.
  destruct c as [R'' a|]; [|done]. destruct a; try done.
  destruct o; cbn in Hc; try done; by destruct Hc as [-> _].
Qed.

Lemma sat_frugal {A} (p : cloud A) s :
  all_calls frugal p → sat (naming_api n) p s (fun _ s' => s' ⊆ s).
Proof.
  intros Hp. eapply sat_mono; [apply (gentle_sat _ shrinks); [apply _|]|].
  - eapply all_calls_gentle; [|exact Hp]. intros R c s0 r s' Hc. apply Hc.
  - by intros a s' [H _].
Qed.

Lemma frugal_wait status u : all_calls frugal (waitDiskStatus status u).
Proof. sdk_calls ltac:(by apply frugal_call). Qed.

Lemma sat_create_named req s :
  cdr_DiskName req = n →
  sat (naming_api n) (zec.create_disk req) s (fun r s' => makes_at (place_of req) r s s').
Proof.
  intros Hn. unfold zec.create_disk. apply sat_bind.
  intros r s' (r0 & s3 & (s1 & s2 & H1 & Hs & H2) & -> & ->). cbn in Hs. rewrite Hn, String.eqb_refl in Hs.
  assert (Hins : ∀ id, s2 = <[id := place_of req]> s1 → s3 ⊆ <[id := place_of req]> s).
  { intros id ->. etrans; [exact H2|]. by apply insert_mono. }
  assert (Hmay : may_add (place_of req) s1 s2 → makes_at (place_of req) (Err ErrNilResponse) s s3).
  { intros [->|[id Hid]]; [left; by etrans|right; eauto]. }
  destruct r0 as [[[|id rest]|]|[c|]]; cbn; try (apply sat_ret; by apply Hmay).
  - eapply sat_bind_mono; [apply sat_frugal, frugal_wait|].
    intros [[]|e] s4 H4; apply sat_ret; cbn; [|right; exists id]; (etrans; [exact H4|]); auto.
  - apply sat_ret. left. subst s2. by etrans.
Qed.

(** ** Searches *)

Lemma searched zone size c g s pg :
  lists_all zone g s pg →
  found_at (zone, g, StringToType c) (pick_volume zone size c (DataSet pg)) s.
Proof.
  intros (_ & _ & Hall & Honly). pose proof (pick_volume_result zone size c (DataSet pg)) as H.
  destruct (pick_volume zone size c (DataSet pg)) as [[x|] [e|]]; try done; cbn [found_at].
  - destruct H as (i & Hi & -> & (Hst & _ & Hty) & _). destruct (Honly i Hi) as (id & t & Hid & Hl).
    { intros E. apply Hst. cbn. by rewrite E. }
    destruct Hl as (Hi1 & Hi2 & Hi3 & _). replace (ZecVolume_Id _) with id by (cbn; by rewrite Hi1).
    rewrite Hid. do 2 f_equal. cbn in *.
    destruct (di_DiskCategory i); [|done]. cbn in *. congruence.
  - destruct H as [_ H]. intros id Hid. destruct (Hall id _ Hid) as (i & Hi & Hi1 & Hi2 & Hi3 & st & Hi4 & Hst).
    apply (H i Hi). unfold live_match. cbn in *. rewrite Hi2, Hi4. split_and!; [done..|].
    destruct (di_DiskCategory i); [|done]. cbn in *. congruence.
Qed.

Lemma sat_search cm zone size c g s :
  sat (naming_api n) (zec.FindVolumeByName cm n zone size c g) s
    (fun r s' => naming_manager n _ (FindVolumeByName n zone size c g) s r s').
Proof.
  cbn. rewrite String.eqb_refl.
  assert (Herr : ∀ e s', s' ⊆ s → ∃ s1, s1 ⊆ s ∧ s' ⊆ s1 ∧
    found_at (zone, g, StringToType c) (None, Some e) s1) by (intros e s' Hs'; by exists s).
  unfold zec.FindVolumeByName. destruct (String.eqb n ""); [by apply sat_ret, Herr|].
  destruct (negb (zecClient cm)); [by apply sat_ret, Herr|]. cbv zeta. apply sat_bind.
  intros r s' (r0 & s3 & (s1 & s2 & H1 & (-> & Hd & _) & H2) & -> & ->).
  assert (H3 : s3 ⊆ s) by (by etrans).
  destruct r0 as [[[[count|] data]|]|e]; try (by apply sat_ret, Herr).
  pose proof (Hd zone g _ eq_refl eq_refl) as Hl. pose proof Hl as (Hc & Hlen & _). cbn in Hc, Hlen.
  injection Hc as ->.
  destruct (Z.eqb_spec (Z.of_nat (length data)) 0) as [H0|H0].
  { apply sat_ret. exists s1. split_and!; [done..|]. intros id Hid.
    destruct Hl as (_ & _ & Hall & _). destruct (Hall id _ Hid) as (i & Hi & _). cbn in Hi.
    destruct data; [by apply elem_of_nil in Hi|done]. }
  replace (20 <? Z.of_nat (length data)) with false by (symmetry; apply Z.ltb_ge; lia).
  apply sat_ret. exists s1. split_and!; [done..|]. by apply (searched zone size c g s1 _ Hl).
Qed.

(** A disk that is looked up is shown under its own id. *)
Lemma sat_find_named cm u s :
  sat (naming_api n) (zec.FindVolume cm u) s
    (fun r s' => s' ⊆ s ∧ ∀ x, r = Ok (Some x) → ZecVolume_Id x = u).
Proof.
  unfold zec.FindVolume.
  repeat match goal with |- sat _ (if ?b then _ else _) _ _ => destruct b; [by apply sat_ret|] end.
  apply sat_bind. intros r s' (r0 & s3 & (s1 & s2 & H1 & (-> & _ & Hd) & H2) & -> & ->).
  assert (H3 : s3 ⊆ s) by (by etrans).
  destruct r0 as [[[[count|] data]|]|e]; try (by apply sat_ret).
  destruct (count =? 0); [by apply sat_ret|]. destruct (negb (count =? 1)); [by apply sat_ret|].
  destruct data as [|[i|] data]; try (by apply sat_ret).
  apply sat_ret. split; [done|]. intros x [= <-]. cbn.
  by rewrite (Hd u _ i eq_refl eq_refl (list_elem_of_here _ _)).
Qed.

Lemma zec_names_refines cm : refines (implemented (naming_api n) (zec_impl cm)) (naming_manager n) id.
Proof.
  intros R o s r s' Hexec.
  cut (sat (naming_api n) (zec_impl cm R o) s (fun r s' => naming_manager n R o s r s'));
    [by intros H; apply H|]. clear r s' Hexec.
  assert (Hother : match o with
    | CreateVolume m _ _ _ _ _ | CreateVolumeFromSnapshot m _ _ _ _ _ _ => m ≠ n
    | _ => True
    end → sat (naming_api n) (zec_impl cm R o) s (fun _ s' => s' ⊆ s))
    by (intros Ho; by apply sat_frugal, zec_frugal).
  destruct o; cbn [naming_manager]; try (by apply Hother); [|apply sat_find_named|..];
    destruct (String.eqb_spec volName n) as [->|Hne]; try (by apply Hother).
  - cbn [zec_impl]. unfold zec.CreateVolume.
    repeat match goal with |- sat _ (if ?b then _ else _) _ _ => destruct b; [by apply sat_ret; left|] end.
    by apply (sat_create_named (disk_request n volSize volCategory zoneId resouceGroupID None burstEnable)).
  - pose proof (sat_search cm zoneID sizeGB diskType ResourceGroupId s) as H.
    cbn [naming_manager] in H. by rewrite String.eqb_refl in H.
  - cbn [zec_impl]. unfold zec.CreateVolumeFromSnapshot.
    repeat match goal with |- sat _ (if ?b then _ else _) _ _ => destruct b; [by apply sat_ret; left|] end.
    by apply (sat_create_named (disk_request n volSize volCategory zoneId resourceGroupID (Some snapshotId) burstEnable)).
Qed.
End manager.

#[export] Instance zec_names_disks (cm : zecCloudManager) : NamesDisks (zec_impl cm).
Proof.
  split; [intros n; apply (zec_names_refines n)|]. intros n R o Ho. by apply zec_frugal.
Qed.

(** ** The handlers *)

Section handlers.
Context (n : string).

Abbreviation M := (locked_machine (handled (naming_manager n))).

(** The calls that create no volume of the name. *)
Definition creates_none (R : Type) (e : CtrlE R) : Prop :=
  match e with
  | CCloud (CreateVolume m _ _ _ _ _) | CCloud (CreateVolumeFromSnapshot m _ _ _ _ _ _) => m ≠ n
  | _ => True
  end.

Lemma creates_none_shrinks R (e : CtrlE R) s r s' : creates_none R e → M R e s r s' → shrinks s s'.
Proof.
  destruct e as [R' o|R' [R'' o|R'' o]]; [by intros _ -> | |by intros _ [_ ->]].
  unfold shrinks. destruct o; cbn; try done; intros Hc; try (by intros [? _]);
    try (apply String.eqb_neq in Hc; by rewrite Hc).
  destruct (String.eqb volName n); [|done]. intros (s1 & H1 & H2 & _). by etrans.
Qed.

Lemma sat_shrinks {A} (p : ctrl A) s :
  all_calls creates_none p → sat M p s (fun _ s' => s' ⊆ s).
Proof.
  intros Hp. eapply sat_mono; [apply (gentle_sat _ shrinks); [apply _|]|].
  - eapply all_calls_gentle; [|exact Hp]. intros R e s0 r s'. apply creates_none_shrinks.
  - by intros a s' [H _].
Qed.

Ltac none_created :=
  repeat lazymatch goal with
    | |- ∀ _, _ => intros ?
    | |- all_calls _ (Ret _) => apply all_calls_ret
    | |- all_calls _ (mret _) => apply all_calls_ret
    | |- all_calls _ (call _) => apply all_calls_call; cbn [creates_none]; done
    | |- all_calls _ (_ ≫= _) => apply all_calls_bind
    | |- all_calls _ (let _ := _ in _) => cbv zeta
    | |- all_calls _ (match ?x with _ => _ end) => destruct x eqn:?
    | |- all_calls _ ?p => let f := head_of p in progress unfold f
    end.

(** A creation where there is no disk, and the description of the volume. *)
Lemma sat_create_at d (o : CmE (result cerr string)) p size parameters source s0 s1 :
  (∀ s r s', naming_manager n _ o s r s' → makes_at p r s s') →
  s1 ⊆ s0 → vacant p s1 →
  sat M (try newVolId <- cloud_try codes.Internal o ;
         cs.CreateVolume_created d newVolId size parameters source) s1 (name_outcome s0).
Proof.
  intros Ho H0 Hp. unfold cloud_try at 1. apply sat_bind, sat_bind, sat_call. intros r s2 H2%Ho. apply sat_ret.
  assert (Herr : ∀ e s3, makes_at p (Err ErrNilResponse) s1 s3 → name_outcome s0 (Err e) s3).
  { intros e s3 [H|[id H]]; [left; by etrans|right; by exists id, p, s1]. }
  destruct r as [id|e]; [|by apply sat_ret, Herr]. cbn in H2.
  unfold cs.CreateVolume_created, cloud_try. apply sat_bind, sat_bind, sat_call.
  intros r s3 [H3 Hid]. apply sat_ret. cbn in H3.
  assert (H4 : s3 ⊆ <[id := p]> s1) by (by etrans).
  assert (Herr' : ∀ e, sat M (mret (Err e)) s3 (name_outcome s0))
    by (intros e; apply sat_ret, Herr; right; eauto).
  destruct r as [[x|]|e]; [|apply Herr'..]. cbn [is_nil].
  destruct (genCsiVolId (Some x)) as [csi|] eqn:Hgen; [|apply Herr'].
  apply genCsiVolId_Ok in Hgen as [-> _]. apply sat_ret. rewrite (Hid x eq_refl).
  exists id, (ZecVolume_Serial x), p. split; [done|]. right. by exists s1.
Qed.

Lemma existing_outcome d req sc ps x p s0 s1 s' :
  s1 ⊆ s0 → s' ⊆ s1 → s1 !! ZecVolume_Id x = Some p →
  name_outcome s0 (cs.CreateVolume_existing d req sc ps x) s'.
Proof.
  intros H0 H1 Hp. assert (H2 : s' ⊆ s0) by (by etrans).
  unfold cs.CreateVolume_existing. cbv zeta.
  destruct (_ && _); [|by left]. destruct (genCsiVolId (Some x)) as [csi|] eqn:Hgen; [|by left].
  apply genCsiVolId_Ok in Hgen as [-> _]. exists (ZecVolume_Id x), (ZecVolume_Serial x), p.
  split; [done|]. left. split; [by eapply lookup_weaken|done].
Qed.

Lemma sat_CreateVolume_locked g d req s :
  cv_Name req = n → sat M (cs.CreateVolume_locked g d req) s (name_outcome s).
Proof.
  intros Hn. assert (Herr : ∀ e s', s' ⊆ s → sat M (mret (Err e)) s' (name_outcome s))
    by (intros e s' H; apply sat_ret; by left).
  unfold cs.CreateVolume_locked.
  eapply sat_bind_mono; [apply sat_shrinks; none_created|]. intros order s1 H1.
  destruct (NewZecStorageClassFromMap g order) as [sc|]; [|by apply Herr].
  eapply sat_bind_mono; [apply sat_shrinks; none_created|]. intros [[topo ps]|] s2 H2;
    [|apply Herr; by etrans].
  assert (H2' : s2 ⊆ s) by (by etrans). clear H1 H2.
  destruct (GetRequiredVolumeSizeByte sc (cv_CapacityRange req)) as [bytes|]; [|by apply Herr].
  unfold cloud_call. apply sat_bind, sat_call. intros found s3. cbn [locked_machine with_locks handled naming_manager].
  rewrite Hn, String.eqb_refl. intros (s4 & H4 & H3 & Hfound).
  assert (H3' : s3 ⊆ s) by (do 2 (etrans; [eassumption|]); done).
  assert (H4' : s4 ⊆ s) by (by etrans).
  destruct found as [[x|] [e|]]; cbn [found_at] in Hfound; try (by apply Herr).
  { apply sat_ret. by apply (existing_outcome d req sc ps x _ s s4 s3 H4' H3 Hfound). }
  destruct (cv_VolumeContentSource req) as [[snapId|u|]|]; try (by apply Herr).
  - unfold cs.CreateVolume_from_snapshot.
    repeat match goal with |- sat _ (if ?b then _ else _) _ _ => destruct b; [by apply Herr|] end.
    apply sat_with_lock; [by left|].
    eapply sat_bind_mono; [apply sat_shrinks; none_created|]. intros r s5 H5.
    cbn beta in H5. assert (H5' : s5 ⊆ s) by (by trans s3).
    destruct r as [[snap|]|e]; try (by apply Herr). destruct (negb _); [by apply Herr|]. cbv zeta.
    eapply sat_create_at; [|done|].
    + intros t r t'. cbn. rewrite String.eqb_refl. intros H. exact H.
    + eapply vacant_subset; [|exact Hfound]. by trans s3.
  - unfold cs.CreateVolume_empty. cbv zeta. eapply sat_create_at; [|done|].
    + intros t r t'. cbn. rewrite String.eqb_refl. intros H. exact H.
    + eapply vacant_subset; [exact H3|exact Hfound].
Qed.

Lemma handle_creation g d q s :
  names q = Some n → sat M (handle g d q) s (creation_outcome q s).
Proof.
  destruct q as [req| | | | | | |]; try done. intros [= Hn]. cbn [handle]. unfold respond.
  eapply sat_bind_mono with (Q1 := name_outcome s).
  - unfold cs.CreateVolume. destruct (cs.CreateVolume_check d req); [|apply sat_ret; by left].
    apply sat_with_lock; [by left|]. by apply sat_CreateVolume_locked.
  - intros [vol|e] s' H; by apply sat_ret.
Qed.

(** The other requests create no volume of the name. *)
Lemma handle_creates_none g d q : names q ≠ Some n → all_calls creates_none (handle g d q).
Proof.
  intros Hq.
  assert (Hname : ∀ r, q = ReqCreateVolume r → cv_Name r ≠ n) by (intros r ->; cbn in Hq; congruence).
  destruct q as [r| | | | | | |]; [specialize (Hname r eq_refl)|clear Hname..]; none_created.
Qed.
End handlers.

(** ** Concurrent requests *)

(** A creation from a snapshot takes the snapshot's lock inside that of its name: the
    two are not the same. *)
Definition well_named (n : string) (q : request) : Prop :=
  ∀ r, q = ReqCreateVolume r → cv_Name r = n → cv_VolumeContentSource r ≠ Some (SourceSnapshot n).

Section controller.
Context (g : Globals) (d : DiskDriver) (impl : ∀ R, CmE R → prog CloudE R).
Context `{!CloudDiscipline impl} `{!NamesDisks impl}.
Context (n : string).

Abbreviation srv := (controller g d impl).
Abbreviation M := (locked_machine (backed (naming_api n))).

Ltac sparing :=
  repeat lazymatch goal with
    | |- ∀ _, _ => intros ?
    | |- all_calls _ (Ret _) => apply all_calls_ret
    | |- all_calls _ (mret _) => apply all_calls_ret
    | |- all_calls _ (call _) => apply all_calls_call; cbn [spares_lock]; first [done | congruence]
    | |- all_calls _ (_ ≫= _) => apply all_calls_bind
    | |- all_calls _ (let _ := _ in _) => cbv zeta
    | |- all_calls _ (match ?x with _ => _ end) => destruct x eqn:?
    | |- all_calls _ ?p => let f := head_of p in progress unfold f
    end.

Lemma creation_bracketed q :
  well_named n q → names q = Some n → bracketed n is_ok (sv_serve srv q).
Proof.
  intros Hq Hn. destruct q as [r| | | | | | |]; try done. injection Hn as Hn.
  specialize (Hq r eq_refl Hn).
  apply (bracketed_impl (handler_impl impl)), bracketed_respond. unfold cs.CreateVolume.
  destruct (cs.CreateVolume_check d r); [|done]. rewrite Hn. apply bracketed_with_lock. sparing.
Qed.

Lemma creation_exec q y r s :
  well_named n q → names q = Some n → True → exec M (sv_serve srv q) y r s → creation_outcome q y r s.
Proof.
  intros _ Hn _ Hexec. eapply (handle_creation n g d q y Hn).
  eapply (exec_sys impl); [by apply (impl_names n)|exact Hexec].
Qed.

Lemma others_harmless q :
  well_named n q → names q ≠ Some n → gentle M shrinks (sv_serve srv q) (fun _ => True).
Proof.
  intros _ Hn.
  set (φ := fun R (e : SysE R) => match e with SCloud c => frugal n _ c | _ => True end).
  apply (all_calls_gentle _ _ φ).
  { intros R [R' o|R' [R'' o|R'' o]] s r s'; cbn; [by intros _ -> |intros Hc; apply Hc|by intros _ [_ ->]]. }
  apply (all_calls_interp (creates_none n)); [|by apply handle_creates_none].
  intros R [R' o|R' [R'' o|R'' o]] He; [by apply all_calls_call| |by apply all_calls_call].
  cbn [sys_impl locked_impl handler_impl]. unfold lift.
  apply (all_calls_interp (fun R (e : BackE R) => match e with ToSdk c => frugal n _ c | _ => True end));
    [by intros; apply all_calls_call|].
  apply (all_calls_interp (frugal n)); [by intros; apply all_calls_call|].
  apply impl_creates. destruct o; cbn [creates_none] in He; done.
Qed.

Lemma naming_lock R (o : LockE R) s r s' : M R (OnLocks o) s r s' ↔ s' = s.
Proof. done. Qed.

Lemma naming_drift R (o : BackE R) s r s2 s3 :
  M R (Other o) s r s2 → shrinks s2 s3 → ∃ s1, shrinks s s1 ∧ M R (Other o) s1 r s3.
Proof.
  unfold shrinks. cbn. destruct o as [R' o|R' o]; cbn.
  - intros HM Hs. exists s. split; [done|]. destruct o as [R'' o|t i]; cbn in *; [|by etrans].
    destruct HM as (a & b & Ha & Hb & H2). exists a, b. split_and!; [done..|by etrans].
  - intros [Hr ->] Hs. by exists s3.
Qed.

Lemma creation_absorbs q y y1 (r : rpc response) s :
  True → shrinks y y1 → creation_outcome q y1 r s → creation_outcome q y r s.
Proof.
  intros _ Hs. destruct r as [[vol| | | |]|e]; cbn [creation_outcome]; try done;
    by apply name_outcome_l.
Qed.

Lemma took_one_per_place (m : gmap nat (request * sys srv)) os x y :
  one_per_place x → took srv creation_outcome m os x y → one_per_place y.
Proof.
  revert x. induction os as [|[i q] os IH]; intros x Hx; cbn; [by intros ->|].
  intros (r & z & _ & Hout & Ht). eapply (IH z); [|exact Ht].
  destruct r as [[vol| | | |]|e]; try done; (eapply name_outcome_one; [exact Hx|exact Hout]).
Qed.

(** The creations of the name that have had its lock and have returned are, in the
    order of their releases, a run of the abstract service, answer by answer. *)
Lemma creations_serialize (σ : system srv) x s :
  served srv σ → follows M (log σ) x s → one_per_place x →
  (∀ i q p, pool σ !! i = Some (q, p) → well_named n q) →
  ∃ os : list (nat * request), os.*1 `sublist_of` released n (log σ) ∧ NoDup os.*1 ∧
    (∀ i q, (i, q) ∈ os ↔
       i ∈ released n (log σ) ∧ names q = Some n ∧ ∃ r, pool σ !! i = Some (q, Ret r)) ∧
    (∀ i q a, pool σ !! i = Some (q, Ret (Ok a)) → names q = Some n → (i, q) ∈ os) ∧
    ∃ y, took srv creation_outcome (pool σ) os x y ∧ one_per_place y ∧
      (n ∉ locks (table σ) → s ⊆ y).
Proof.
  intros Hs Hfol Hx Had.
  pose proof (served_serialized srv is_ok M shrinks (fun _ => True) (fun _ _ _ _ => I)
    naming_lock naming_drift n (well_named n) (fun q => names q = Some n) _ creation_outcome
    (fun _ => True) creation_bracketed creation_exec (fun _ _ _ _ _ _ _ => I) creation_absorbs
    others_harmless σ x s I Hs Had) as H.
  destruct H as (Hnd & Hos & Hearly & y & Hrun & Hend); [done|done|].
  exists (order srv (fun q => names q = Some n) _ (pool σ) (released n (log σ))).
  split; [apply (order_sublist srv)|]. split_and!; [exact Hnd|exact Hos| |].
  - intros i q a Hi Hm. apply Hos. split_and!; [|done|by exists (Ok a)].
    destruct (decide (i ∈ released n (log σ))) as [|Hn]; [done|]. by specialize (Hearly i q _ Hi Hm Hn).
  - exists y. split_and!; [done|by eapply took_one_per_place|exact Hend].
Qed.
End controller.
