(* ===== verification/NamingSpec.v ===== *)
(** * What the name's lock guarantees

    Concurrent creations of one name, on a small cloud that keeps the disks by their
    requests. *)

From stdpp Require Import pretty.
From S2P Require Import Prelude GoStd Csi Common Prog Locking Serve Driver ZecApi CloudTypes Bracket Overlap.
From S2P Require Import Machine Cloud Ctrl Controller Locks CloudProps System Sim SystemProps.
From S2P Require Import VolumeSpec VolumeRefine Naming NameRefine.

Local Open Scope Z_scope.

(** ** A small cloud *)

(** The disks of the name [n], each as it was asked for. *)
Abbreviation orders := (gmap string CreateDisksRequest).

Definition places (w : orders) : disks := place_of <$> w.

Definition order_info (x : string * CreateDisksRequest) : option DiskInfo :=
  Some {| di_DiskId := Some x.1; di_DiskName := Some (cdr_DiskName x.2);
          di_ZoneId := Some (cdr_ZoneId x.2); di_DiskCategory := Some (cdr_DiskCategory x.2);
          di_DiskSize := Some (cdr_DiskSize x.2); di_DiskStatus := Some DiskStatusAvailable;
          di_InstanceId := None; di_Serial := Some ("serial-" +:+ x.1); di_Portable := Some true;
          di_SnapshotAbility := Some true; di_ResourceGroupId := Some (cdr_ResourceGroupId x.2) |}.

Definition wanted (n : string) (req : DescribeDisksRequest) (x : string * CreateDisksRequest) : bool :=
  match ddr_DiskIds req with
  | u :: _ => String.eqb x.1 u
  | [] => opt_eqb (ddr_DiskName req) ("^" +:+ n +:+ "$") &&
          opt_eqb (ddr_ZoneId req) (cdr_ZoneId x.2) &&
          opt_eqb (ddr_ResourceGroupId req) (cdr_ResourceGroupId x.2)
  end.

Definition wanted_page (n : string) (req : DescribeDisksRequest) (w : orders) : page DiskInfo :=
  let data := order_info <$> filter (fun x => wanted n req x = true) (map_to_list w) in
  {| TotalCount := Some (Z.of_nat (length data)); DataSet := data |}.

Section named_cloud.
Context (n : string).

Definition named_api : env ZecE orders := fun R o =>
  match o in ZecE R return orders → R * orders with
  | CreateDisks req => fun w =>
      if String.eqb (cdr_DiskName req) n
      then let id := "disk-" +:+ pretty (size w) in (Ok (Some [id]), <[id := req]> w)
      else (Ok (Some ["other"]), w)
  | ReleaseDisk u => fun w => (Ok tt, delete u w)
  | DescribeDisks req => fun w =>
      let pg := wanted_page n req w in
      (if (length (DataSet pg) <=? 20)%nat then Ok (Some pg) else Err OtherError, w)
  | AttachDisks _ _ => fun w => (Ok tt, w)
  | DetachDisks _ _ => fun w => (Ok (Some []), w)
  | ResizeDisk _ _ => fun w => (Ok tt, w)
  | DescribeDiskRegions => fun w => (Ok (Some []), w)
  | DescribeInstances _ => fun w => (Err OtherError, w)
  | DescribeZones => fun w => (Ok tt, w)
  | DescribeInstancesStatus _ => fun w => (Err OtherError, w)
  | CreateSnapshotApi _ _ => fun w => (Err OtherError, w)
  | DeleteSnapshots _ => fun w => (Err OtherError, w)
  | DescribeSnapshots _ => fun w => (Err OtherError, w)
  end.

Definition named_cloud : env CloudE orders := fun R o =>
  match o in CloudE R return orders → R * orders with
  | Api a => named_api _ a
  | SelectTicks timeout interval => fun w => (Z.to_nat (timeout / interval), w)
  end.

Lemma wanted_info req i w :
  Some i ∈ DataSet (wanted_page n req w) →
  ∃ id order, order_info (id, order) = Some i ∧ wanted n req (id, order) = true ∧ w !! id = Some order.
Proof.
  cbn. intros ([id order] & Hi & [Hw Hin]%list_elem_of_filter)%list_elem_of_fmap.
  apply elem_of_map_to_list in Hin. by exists id, order.
Qed.

Lemma opt_eqb_refl s : opt_eqb (Some s) s = true.
Proof. apply String.eqb_refl. Qed.

Lemma search_lists zone group w :
  (length (DataSet (wanted_page n (search n zone group) w)) ≤ 20)%nat →
  lists_all zone group (places w) (wanted_page n (search n zone group) w).
Proof.
  intros Hlen. split_and!; [done|done|..].
  - intros id t. unfold places. rewrite lookup_fmap. intros (order & Ho & Hp)%fmap_Some.
    injection Hp as Hz Hg Ht. eexists. split.
    + cbn. apply list_elem_of_fmap. exists (id, order). split; [done|]. apply list_elem_of_filter.
      split; [|by apply elem_of_map_to_list]. unfold wanted, search. cbn. subst.
      by rewrite !String.eqb_refl.
    + split_and!; [done|by subst..|]. by exists DiskStatusAvailable.
  - intros i (id & order & Hi & Hw & Ho)%wanted_info _. injection Hi as <-. unfold wanted, search in Hw.
    cbn in Hw. apply andb_true_iff in Hw as [[_ Hz%String.eqb_eq]%andb_true_iff Hg%String.eqb_eq].
    exists id, (StringToType (cdr_DiskCategory order)). unfold places. rewrite lookup_fmap, Ho. subst.
    split; [done|]. split_and!; [done..|]. by exists DiskStatusAvailable.
Qed.

Lemma named_cloud_obeys : obeys named_cloud places (naming_api n).
Proof.
  assert (Hapi : ∀ R (o : ZecE R) w,
    naming_sdk n R o (places w) (named_api R o w).1 (places (named_api R o w).2)).
  { intros R o w. destruct o; cbn [named_api fst snd naming_sdk]; try done.
    - destruct (String.eqb _ _); [|done]. cbn. apply fmap_insert.
    - unfold places. rewrite fmap_delete. apply delete_subseteq.
    - split; [done|]. destruct (Nat.leb_spec (length (DataSet (wanted_page n req w))) 20); split.
      + intros zone group pg -> [= <-]. by apply search_lists.
      + intros u pg i -> [= <-] (id & order & Hi & Hw & _)%wanted_info. injection Hi as <-.
        apply String.eqb_eq in Hw. cbn in *. by subst.
      + by intros.
      + by intros. }
  intros R [R' o|t i] w; [|by cbn]. exists (places w), (places (named_api R' o w).2).
  split_and!; [done|apply Hapi|done].
Qed.
End named_cloud.

(** ** Concurrent creations *)

(** C7: A name has one disk at each place.  Any number of requests, of any kind,
    interleaved in any order at every call, on a cloud that does to the disks of the
    name [n] what its API promises ([naming_api n], along the execution's log: a search
    shows all of them, and only the driver makes them): the creations of the name
    that have had its lock and have returned, failed ones included, are in the order
    of their releases a run of the abstract service, each with its own answer (a
    disk that is there, or one made where there is none); every one that succeeded
    is among them; and when nobody holds the lock, no zone, group and type has two
    disks of the name. *)
Theorem concurrent_creations_make_one_disk (g : Globals) (d : DiskDriver)
    (impl : ∀ R, CmE R → prog CloudE R) `{!CloudDiscipline impl} `{!NamesDisks impl} (n : string)
    (σ : system (controller g d impl)) (x s : disks) :
  served (controller g d impl) σ →
  follows (locked_machine (backed (naming_api n))) (log σ) x s → one_per_place x →
  (∀ i q p, pool σ !! i = Some (q, p) → well_named n q) →
  (n ∉ locks (table σ) → one_per_place s) ∧
  ∃ os : list (nat * request), os.*1 `sublist_of` released n (log σ) ∧ NoDup os.*1 ∧
    (∀ i q, (i, q) ∈ os ↔
       i ∈ released n (log σ) ∧ names q = Some n ∧ ∃ r, pool σ !! i = Some (q, Ret r)) ∧
    (∀ i q a, pool σ !! i = Some (q, Ret (Ok a)) → names q = Some n → (i, q) ∈ os) ∧
    ∃ y, took (controller g d impl) creation_outcome (pool σ) os x y ∧
      (n ∉ locks (table σ) → s ⊆ y).
Proof.
  intros Hs Hfol Hx Had.
  destruct (creations_serialize g d impl n σ x s Hs Hfol Hx Had)
    as (os & Hsub & Hnd & Hos & Hok & y & Hrun & Hy & Hend).
  split; [|by exists os; split_and!; eauto].
  intros Hl. eapply one_per_place_subset; [by apply Hend|exact Hy].
Qed.

Definition create_q : request := ReqCreateVolume Example.create_request.
Definition naming_back : env BackE orders := beside_rt (named_cloud "pvc-1") rt_env.

Lemma naming_back_fine R (o : BackE R) w : back_ok R o (naming_back R o w).1.
Proof. destruct o as [R' o|R' o]; [done|]. apply rt_env_ok. Qed.

Lemma naming_back_obeys : obeys naming_back places (backed (naming_api "pvc-1")).
Proof.
  intros R [R' o|R' o] w; cbn; [|by split; [apply rt_env_ok|]].
  pose proof (named_cloud_obeys "pvc-1" R' o w) as H. by destruct (named_cloud "pvc-1" R' o w).
Qed.

(** The same creation twice at once: one has the lock, the other is refused it. *)
Abbreviation twice :=
  (overlap_end example_controller naming_back ∅ "pvc-1" create_q create_q).

Lemma begins_create : begins_locked example_controller "pvc-1" create_q.
Proof. eexists. reflexivity. Qed.

Lemma twice_named i q p : pool twice !! i = Some (q, p) → well_named "pvc-1" q.
Proof.
  intros Hi. apply (overlap_pool example_controller naming_back _ "pvc-1" create_q create_q i q p) in Hi.
  assert (q = create_q) as -> by naive_solver. intros r [= <-] _. done.
Qed.

Lemma concurrent_creations_make_one_disk_witness :
  pool twice !! 1%nat = Some (create_q, Ret (Err codes.Aborted)) ∧
  let s := places (overlap_run example_controller naming_back ∅ "pvc-1" create_q).2.2 in
  s = {[ "disk-0" := ("asia-a", "group", StandardVolumeType) ]} ∧ one_per_place s.
Proof.
  split; [exact (overlap_pool_1 example_controller naming_back _ "pvc-1" create_q create_q)|].
  cbv zeta. split; [vm_compute; reflexivity|].
  refine (proj1 (concurrent_creations_make_one_disk Example.globals Example.driver
    (zec_impl example_manager) "pvc-1" twice (places ∅) _
    (overlap_end_served example_controller naming_back _ naming_back_fine _ _ _ begins_create begins_create)
    (overlap_follows example_controller naming_back _ _ _ _ _ places naming_back_obeys)
    _ twice_named) _).
  - intros id1 id2 p Hp. unfold places in Hp. by rewrite lookup_fmap, lookup_empty in Hp.
  - apply (bool_decide_unpack _). vm_compute. exact I.
Defined.

(** ** Another type *)

Definition other_type_q : request :=
  ReqCreateVolume {|
    cv_Name := "pvc-1";
    cv_CapacityRange := Some {| RequiredBytes := 42949672960; LimitBytes := 0 |};
    cv_VolumeCapabilities := Some [Example.writer];
    cv_Parameters := <["type" := "1"]> (cv_Parameters Example.create_request);
    cv_VolumeContentSource := None; cv_AccessibilityRequirements := None |}.

(** The search of a creation sees only disks of the type asked for, so a request with
    the name of a volume that exists, another type and another size is answered
    with a second volume of that name. *)
Lemma other_type_makes_second_disk :
  let '(rs, s) := serve_requests Example.globals Example.driver (zec_impl example_manager)
    (named_cloud "pvc-1") rt_env [create_q; other_type_q] (NewResourceLocks, ∅) in
  Forall (fun r => is_ok r = true) rs ∧
  (fun o => (cdr_DiskName o, cdr_DiskSize o, cdr_DiskCategory o)) <$> s.2 =
    {[ "disk-0" := ("pvc-1", 21, StandardNvmeName); "disk-1" := ("pvc-1", 40, BasicNvmeName) ]}.
Proof. vm_compute. split; [repeat constructor|reflexivity]. Qed.
