(* ===== verification/SerialSpec.v ===== *)
(** * What serialization says

    The concurrent controller against the abstract volume service of [VolumeSpec.v],
    and an execution in which requests overlap. *)

From S2P Require Import Prelude GoStd Csi Common Prog Locking Serve Driver ZecApi CloudTypes Bracket Overlap.
From S2P Require Import Machine Cloud Ctrl Controller Locks CloudProps System Sim SystemProps Disk.
From S2P Require Import CmRefine VolumeSpec VolumeRefine DiskSim RefineSpec Serial.

Local Open Scope Z_scope.

(** C2: Concurrent requests are serialized.  Any number of requests other than
    creations, interleaved in any order at every call, on a cloud that does to the disk
    [v] what its API promises ([disk_api v], followed along the execution's log): when
    the requests about [v] that got its lock and have returned have done so without
    an error, the abstract service, applied to exactly these requests, once each and
    in the order in which they released the lock, gives the state of the disk
    whenever nobody holds the lock; requests that were refused it, and requests about
    other disks, leave no trace. *)
Theorem concurrent_requests_serialize (g : Globals) (d : DiskDriver)
    (impl : ∀ R, CmE R → prog CloudE R) `{!CloudDiscipline impl} `{!RefinesManager impl}
    `{!SparesOthers impl} (v : string) (σ : system (controller g d impl)) (x s : option disk) :
  served (controller g d impl) σ →
  at_rest x → follows (locked_machine (back_machine v)) (log σ) x s →
  (∀ i q p, pool σ !! i = Some (q, p) → creates q = false) →
  (∀ i q e, pool σ !! i = Some (q, Ret (Err e)) → about q = Some v → i ∉ released v (log σ)) →
  ∃ os : list (nat * request), os.*1 `sublist_of` released v (log σ) ∧ NoDup os.*1 ∧
    (∀ i q, (i, q) ∈ os ↔ about q = Some v ∧ ∃ a, pool σ !! i = Some (q, Ret (Ok a))) ∧
    ∃ y, foldl (fun o q => x ← o; csi_apply q x) (Some x) os.*2 = Some y ∧
      (v ∉ locks (table σ) → s = y).
Proof. intros. by apply (controller_serializes g d impl v). Qed.

(** ** Requests that overlap *)

Definition publish_q : request := ReqPublish Example.publish_request.
Definition delete_q : request := ReqDeleteVolume {| dv_VolumeId := Example.csiId |}.

Definition back : env BackE (option disk) := beside_rt example_cloud rt_env.

Lemma back_fine R (o : BackE R) w : back_ok R o (back R o w).1.
Proof. destruct o as [R' o|R' o]; [done|]. apply rt_env_ok. Qed.

Lemma back_obeys : obeys back id (back_machine Example.diskId).
Proof.
  intros R [R' o|R' o] w; cbn; [|by split; [apply rt_env_ok|]].
  pose proof (one_cloud_obeys Example.diskId Example.serial R' o w) as H.
  change (one_cloud Example.diskId Example.serial) with example_cloud in H.
  by destruct (example_cloud R' o w).
Qed.

(** The publication has the lock, the deletion is refused it, and the publication
    goes on to its end. *)
Abbreviation overlapping :=
  (overlap_end example_controller back (Some (example_disk "")) Example.diskId publish_q delete_q).

Lemma begins_publish : begins_locked example_controller Example.diskId publish_q.
Proof. eexists. reflexivity. Qed.
Lemma begins_delete : begins_locked example_controller Example.diskId delete_q.
Proof. eexists. reflexivity. Qed.

Lemma publish_run :
  (overlap_run example_controller back (Some (example_disk "")) Example.diskId publish_q).1 = Ok RespEmpty.
Proof. vm_compute. reflexivity. Qed.

Lemma delete_refused :
  resume false (sv_serve example_controller delete_q) = Ret (Err codes.Aborted).
Proof. reflexivity. Qed.

Lemma overlapping_pool i q p :
  pool overlapping !! i = Some (q, p) →
  i = 0%nat ∧ q = publish_q ∧ p = Ret (Ok RespEmpty) ∨
  i = 1%nat ∧ q = delete_q ∧ p = Ret (Err codes.Aborted).
Proof.
  intros Hi. rewrite <-publish_run, <-delete_refused.
  exact (overlap_pool example_controller back _ Example.diskId publish_q delete_q i q p Hi).
Qed.

(** The publication counts, the refused deletion does not: the disk is attached. *)
Lemma concurrent_requests_serialize_witness :
  pool overlapping !! 1%nat = Some (delete_q, Ret (Err codes.Aborted)) ∧
  ∃ os : list (nat * request),
    (0%nat, publish_q) ∈ os ∧
    foldl (fun o q => x ← o; csi_apply q x) (Some (Some (example_disk ""))) os.*2 =
      Some (Some (example_disk "vm-1")).
Proof.
  split; [exact (overlap_pool_1 example_controller back _ Example.diskId publish_q delete_q)|].
  assert (Hcreates : ∀ i q p, pool overlapping !! i = Some (q, p) → creates q = false)
    by (by intros i q p [(_ & -> & _)|(_ & -> & _)]%overlapping_pool).
  assert (Hrel : released Example.diskId (log overlapping) = [0%nat]) by (vm_compute; reflexivity).
  assert (Hfail : ∀ i q e, pool overlapping !! i = Some (q, Ret (Err e)) →
    about q = Some Example.diskId → i ∉ released Example.diskId (log overlapping)).
  { intros i q e [(_ & _ & [=])|(-> & _ & _)]%overlapping_pool _.
    rewrite Hrel. by intros [=]%list_elem_of_singleton. }
  destruct (concurrent_requests_serialize Example.globals Example.driver (zec_impl example_manager)
    Example.diskId overlapping (Some (example_disk "")) _
    (overlap_end_served example_controller back _ back_fine _ _ _ begins_publish begins_delete)
    eq_refl (overlap_follows example_controller back _ _ _ _ _ id back_obeys)
    Hcreates Hfail) as (os & _ & _ & Hos & y & Hrun & Hend).
  exists os. split.
  - apply Hos. split; [vm_compute; reflexivity|]. exists RespEmpty.
    etrans; [exact (overlap_pool_0 example_controller back _ Example.diskId publish_q delete_q)|]. by rewrite publish_run.
  - assert (Hfree : Example.diskId ∉ locks (table overlapping))
      by (apply (bool_decide_unpack _); vm_compute; exact I).
    etrans; [exact Hrun|]. f_equal. symmetry. etrans; [|exact (Hend Hfree)]. vm_compute. reflexivity.
Defined.
