(* ===== verification/Waiting.v ===== *)
(** * Waiting for a task of the cloud

    The states are those of a thing of the cloud, with the number of polls that its
    task still needs.  A polled job that goes on until the task is done stops in
    time, when the ticker of [WaitFor] is received often enough before its timer. *)

From S2P Require Import Prelude GoStd Prog ZecApi CloudTypes Machine Cloud.

Local Open Scope Z_scope.

Section waiting.
Context {S : Type} (settle : S → S) (M : machine CloudE (S * nat)).
Context (Hidem : ∀ s, settle (settle s) = settle s).

(** One poll: the task is done when it needs no more. *)
Definition polled (x : S * nat) : S * nat :=
  match x.2 with O => (settle x.1, O) | Datatypes.S n => (x.1, n) end.

(** The ticker is received more often than the task needs polls. *)
Definition ticks_enough : Prop := ∀ timeout interval x n x',
  M _ (SelectTicks timeout interval) x n x' → timeout = WaitStatusTimeout →
  interval = WaitStatusInterval → x' = x ∧ (x.2 < n)%nat.

Context (Hticks : ticks_enough).

Lemma settle_polled x : settle (polled x).1 = settle x.1.
Proof. unfold polled. destruct x.2; [apply Hidem|done]. Qed.

Lemma polled_rest x : settle x.1 = x.1 → (polled x).1 = x.1.
Proof. unfold polled. by destruct x.2. Qed.

(** The job goes on while the task is under way, and stops with [val] when it is
    done, in [s]. *)
Definition awaits_in {T} (f : cloud (result cerr (option T))) (val : T) (s : S) : Prop :=
  ∀ x, settle x.1 = s →
    sat M f x (fun r x' => x' = polled x ∧ (x'.1 = s ∧ r = Ok (Some val) ∨ x'.1 ≠ s ∧ r = Ok None)).

Context {T : Type} (f : cloud (result cerr (option T))) (val : T) (s : S).
Context (Hf : awaits_in f val s).

Lemma sat_wait_loop_in timeout n x :
  settle x.1 = s → (x.2 < n)%nat →
  sat M (wait_loop f timeout n) x (fun r x' => r = Ok val ∧ x'.1 = s).
Proof.
  revert x. induction n as [|n IH]; intros x Hx Hlt; [lia|]. cbn [wait_loop].
  eapply sat_bind_mono; [by apply Hf|]. intros r x' (-> & [[Hs ->]|[Hbusy ->]]);
    [by apply sat_ret|].
  destruct x as [s0 [|m]]; [by destruct Hbusy|]. apply IH; cbn in *; [done|lia].
Qed.

Lemma sat_WaitFor_in x :
  settle x.1 = s → sat M (WaitFor f) x (fun r x' => r = Ok val ∧ x'.1 = s).
Proof.
  intros Hx. unfold WaitFor, WaitForSpecificOrError.
  eapply sat_bind_mono; [by apply Hf|]. intros r x' (-> & [[Hs ->]|[Hbusy ->]]);
    [by apply sat_ret|].
  apply sat_bind, sat_call. intros n x' Hn. destruct (Hticks _ _ _ _ _ Hn eq_refl eq_refl) as [-> Hlt].
  apply sat_wait_loop_in; [|done]. by rewrite settle_polled.
Qed.
End waiting.
