(* ===== verification/Prompt.v ===== *)
(** * A cloud that keeps up

    [prompt_api machines v] is a cloud that does what it is asked for, in time: its
    calls are answered, it accepts a change it can make, a started task is done
    before the driver's timer fires, and it says that each of [machines] is running
    (of another machine it may say anything).  Its states carry the number of polls
    the task of the disk still needs.  On such a cloud the operations of [zec_impl]
    succeed ([prompt_refines]). *)

From S2P Require Import Prelude GoStd Prog ZecApi CloudTypes Machine Driver Cloud Disk CmRefine.
From S2P Require Import VolumeRefine DiskSim Waiting.

Local Open Scope Z_scope.
Local Open Scope csi_scope.

Abbreviation pstate := (option disk * nat)%type.

(** ** The cloud *)

(** The page shows the disk, a disk at rest with its status. *)
Definition displays (v : string) (s : option disk) (p : page DiskInfo) : Prop :=
  match s with
  | None => TotalCount p = Some 0
  | Some d => TotalCount p = Some 1 ∧ ∃ i, DataSet p = [Some i] ∧ shows v d i ∧
                (k_task d = None → di_DiskStatus i = Some (rest_status d))
  end.

(** A change that can be made is accepted, with the answer [yes]. *)
Definition starts {T} (c : change) (yes : T → Prop) (x : pstate) (r : sdk T) (x' : pstate) : Prop :=
  ∀ s1, accept c x.1 = Some s1 → x'.1 = s1 ∧ ∃ a, r = Ok a ∧ yes a.

Definition prompt_op (machines : gset string) (v : string) (R : Type) (o : ZecE R) (x : pstate) : R → pstate → Prop :=
  match o in ZecE R return R → pstate → Prop with
  | DescribeDisks req => fun r x' =>
      req = disks_by_id v → x' = poll x ∧ ∃ p, r = Ok (Some p) ∧ displays v x'.1 p
  | ReleaseDisk u => fun r x' => u = v → starts Release (fun _ => True) x r x'
  | AttachDisks ids vm => fun r x' => ids = [v] → starts (Attach vm) (fun _ => True) x r x'
  | DetachDisks ids _ => fun r x' => ids = [v] → starts Detach (fun failed => failed = Some []) x r x'
  | ResizeDisk u n => fun r x' => u = v → starts (Resize n) (fun _ => True) x r x'
  | DescribeInstancesStatus ids => fun r x' =>
      x' = x ∧ (∀ m, ids = [m] → m ∈ machines →
        ∃ i, r = Ok (Some {| TotalCount := Some 1; DataSet := [Some i] |}) ∧
             is_InstanceStatus i = Some VmStatusRunning)
  | _ => fun _ _ => True
  end.

(** The ticker of [WaitFor] is received often enough before its timer. *)
Definition prompt_api (machines : gset string) (v : string) : machine CloudE pstate := fun R o x r x' =>
  match o in CloudE R return R → Prop with
  | Api a => fun r => prompt_op machines v _ a x r x'
  | SelectTicks timeout interval => fun n =>
      timeout = WaitStatusTimeout → interval = WaitStatusInterval → x' = x ∧ (x.2 < n)%nat
  end r.

(** ** What its cloud manager promises *)

(** The change is made, when it can be made to a disk at rest. *)
Definition fulfils {T} (c : change) (x : pstate) (r : result cerr T) (x' : pstate) : Prop :=
  ∀ s1, accept c x.1 = Some s1 → x'.1 = settle s1 ∧ ∃ a, r = Ok a.

Definition prompt_manager (machines : gset string) (v : string) : machine CmE pstate := fun R o x r x' =>
  match o in CmE R return R → Prop with
  | FindVolume u => fun r => u = v → at_rest x.1 →
      x'.1 = x.1 ∧
      match x.1 with
      | None => r = Ok None
      | Some d => ∃ vol, r = Ok (Some vol) ∧ seen v d vol
      end
  | GetVmStatus m => fun r =>
      m ≠ "" → x' = x ∧ (m ∈ machines → r = Ok (true, VmStatusRunning))
  | AttachVolume u vm => fun r => u = v → vm ≠ "" → fulfils (Attach vm) x r x'
  | DetachVolume u => fun r => u = v → fulfils Detach x r x'
  | ResizeVolume u n => fun r => u = v → n ≠ 0 → fulfils (Resize n) x r x'
  | DeleteVolume u => fun r => u = v → at_rest x.1 →
      (∀ d, x.1 = Some d → k_instance d = "") → x'.1 = None ∧ r = Ok tt
  | _ => fun _ => True
  end r.

Section prompt.
Context (machines : gset string) (v : string).

(** A call of the cloud, its error kept as it is. *)
Lemma sat_api {R} (o : ZecE (sdk R)) {A} (k : result cerr R → cloud A) x Q :
  (∀ r x', prompt_op machines v _ o x r x' →
     sat (prompt_api machines v) (k (match r with Ok a => Ok a | Err e => Err (ErrApi e) end)) x' Q) →
  sat (prompt_api machines v) (api o ≫= k) x Q.
Proof.
  intros Hk. apply sat_bind, sat_bind, sat_call. intros r x' Hr. apply sat_ret. by apply Hk.
Qed.

Lemma sat_show {A} (k : result cerr (option (page DiskInfo)) → cloud A) x Q :
  (∀ p, displays v (poll x).1 p → sat (prompt_api machines v) (k (Ok (Some p))) (poll x) Q) →
  sat (prompt_api machines v) (api (DescribeDisks (disks_by_id v)) ≫= k) x Q.
Proof.
  intros Hk. apply sat_api. intros r x' Hr. destruct (Hr eq_refl) as (-> & p & -> & Hp). by apply Hk.
Qed.

Lemma settle_poll x : settle (poll x).1 = settle x.1.
Proof. unfold poll. destruct x.2; [apply settle_idempotent|done]. Qed.

(** ** Waiting *)

(** The job goes on while the disk has a task, and stops with [val] when it has
    come to rest in [s]. *)
Definition awaits {T} (f : cloud (result cerr (option T))) (val : T) (s : option disk) : Prop :=
  ∀ x, settle x.1 = s →
    sat (prompt_api machines v) f x (fun r x' => x' = poll x ∧
      (x'.1 = s ∧ r = Ok (Some val) ∨ ¬ at_rest x'.1 ∧ r = Ok None)).

Section wait.
Context {T : Type} (f : cloud (result cerr (option T))) (val : T) (s : option disk).
Context (Hf : awaits f val s).

Lemma awaits_prompt : awaits_in settle (prompt_api machines v) f val s.
Proof.
  intros x Hx. eapply sat_mono; [by apply Hf|]. intros r x' (Hx' & [H|[Hbusy Hr]]); split; auto.
  right. split; [|done]. intros H. destruct Hbusy. rewrite H, <-Hx. apply at_rest_settle.
Qed.

Lemma sat_WaitFor_prompt x :
  settle x.1 = s → sat (prompt_api machines v) (WaitFor f) x (fun r x' => r = Ok val ∧ x'.1 = s).
Proof.
  apply (sat_WaitFor_in settle); [apply settle_idempotent| |exact awaits_prompt].
  intros timeout interval y n y' H. exact H.
Qed.
End wait.

(** ** The polled jobs *)

(** The status is one that the cloud shows of disks at rest only. *)
Definition tells_rest (target : string → bool) : Prop :=
  ∀ d st, status_law d st → target st = true → k_task d = None.

Lemma awaits_disk_status target d :
  tells_rest target → target (rest_status d) = true →
  awaits (disk_status_job v target) tt (Some d).
Proof.
  intros Htarget Hd x Hx. apply sat_show. intros p Hp. rewrite <-settle_poll in Hx.
  destruct (poll x) as [s0 n0]. cbn [fst] in *. destruct s0 as [d0|]; [|done].
  destruct p as [tc ds]. destruct Hp as [Hc (i & Hi & (_ & _ & _ & (st & Hst & Hlaw) & _) & Hrest)].
  cbn in Hc, Hi. subst tc ds. cbn. rewrite Hst. cbn.
  destruct (k_task d0) as [t|] eqn:Ht.
  - destruct (target st) eqn:Hts; [pose proof (Htarget _ _ Hlaw Hts); congruence|].
    apply sat_ret. split; [done|]. right. split; [|done]. cbn. by rewrite Ht.
  - assert (d0 = d) as -> by (cbn in Hx; rewrite Ht in Hx; congruence).
    rewrite Hrest in Hst by done. injection Hst as <-. rewrite Hd. apply sat_ret. by auto.
Qed.

Lemma awaits_disk_deleted : awaits (disk_deleted_job v) tt None.
Proof.
  intros x Hx. apply sat_show. intros p Hp. rewrite <-settle_poll in Hx.
  destruct (poll x) as [s0 n0]. cbn [fst] in *. destruct p as [tc ds].
  destruct s0 as [d0|]; [|cbn in Hp; subst tc; apply sat_ret; by auto].
  destruct Hp as [Hc _]. cbn in Hc. subst tc. cbn. apply sat_ret. split; [done|]. right.
  split; [|done]. intros Hrest. cbn in Hrest, Hx. by rewrite Hrest in Hx.
Qed.

Lemma awaits_disk_released d : k_bin d = true → awaits (disk_released_job v) false (Some d).
Proof.
  intros Hbin x Hx. apply sat_show. intros p Hp. rewrite <-settle_poll in Hx.
  destruct (poll x) as [s0 n0]. cbn [fst] in *. destruct s0 as [d0|]; [|done].
  destruct p as [tc ds]. destruct Hp as [Hc (i & Hi & (_ & _ & _ & (st & Hst & Hlaw) & _) & Hrest)].
  cbn in Hc, Hi. subst tc ds. cbn. rewrite Hst. destruct (k_task d0) as [t|] eqn:Ht.
  - destruct (String.eqb_spec st DiskStatusRecycled) as [->|].
    + destruct Hlaw as (_ & _ & Hr). destruct (Hr eq_refl). congruence.
    + apply sat_ret. split; [done|]. right. split; [|done]. cbn. by rewrite Ht.
  - assert (d0 = d) as -> by (cbn in Hx; rewrite Ht in Hx; congruence).
    rewrite Hrest in Hst by done. injection Hst as <-. unfold rest_status. rewrite Hbin.
    apply sat_ret. by auto.
Qed.
End prompt.

(** ** The operations *)

Section operations.
Context (cm : zecCloudManager) (Hcm : zecClient cm = true) (machines : gset string) (v : string) (Hv : v ≠ "").

Ltac guards := rewrite ?Hcm, ?(proj2 (String.eqb_neq v "") Hv); cbn [negb orb].

Lemma sat_wait_status status target d x :
  waitDiskStatus status v = (reject ErrArgs when String.eqb v "" ;;
                             WaitFor (disk_status_job v target)) →
  tells_rest target → target (rest_status d) = true → settle x.1 = Some d →
  sat (prompt_api machines v) (waitDiskStatus status v) x (fun r x' => r = Ok tt ∧ x'.1 = Some d).
Proof.
  intros -> Ht Hd Hx. guards.
  apply sat_WaitFor_prompt; [by apply awaits_disk_status|done].
Qed.

Lemma sat_wait_deleted_prompt x :
  settle x.1 = None →
  sat (prompt_api machines v) (waitDiskStatus DiskStatusDeleted v) x (fun r x' => r = Ok tt ∧ x'.1 = None).
Proof.
  intros Hx. unfold waitDiskStatus. guards. apply sat_WaitFor_prompt; [apply awaits_disk_deleted|done].
Qed.

Lemma sat_wait_released_prompt d x :
  k_bin d = true → settle x.1 = Some d →
  sat (prompt_api machines v) (waitDiskReleased v) x (fun r x' => r = Ok false ∧ x'.1 = Some d).
Proof.
  intros Hd Hx. unfold waitDiskReleased. guards.
  apply sat_WaitFor_prompt; [by apply awaits_disk_released|done].
Qed.

(** The change is accepted, waited for, and confirmed. *)
Ltac confirmed d :=
  eapply sat_bind_mono;
    [ eapply (sat_wait_status _ _ d); [reflexivity|exact available_rests || exact in_use_rests || exact stable_rests|..]
    | intros r' x' [-> Hx']; apply sat_ret; rewrite Hx'; eauto ].

Lemma sat_AttachVolume_prompt vm x :
  vm ≠ "" → sat (prompt_api machines v) (zec.AttachVolume cm v vm) x (fulfils (Attach vm) x).
Proof.
  intros Hvm r x' Hr s1 Hs1. pose proof Hs1 as (d & Hd & Hi & Hb & Hset)%accept_attach.
  revert r x' Hr. change (sat (prompt_api machines v) (zec.AttachVolume cm v vm) x
    (fun r x' => x'.1 = settle s1 ∧ ∃ a, r = Ok a)).
  unfold zec.AttachVolume. guards. rewrite (proj2 (String.eqb_neq vm "") Hvm).
  apply sat_api. intros r x1 Hr. destruct (Hr eq_refl s1 Hs1) as (Hx1 & [] & -> & _).
  rewrite Hset. confirmed (with_instance vm d); [|by rewrite Hx1].
  unfold rest_status. cbn. apply String.eqb_neq in Hvm. by rewrite Hb, Hvm.
Qed.

Lemma sat_DetachVolume_prompt x :
  sat (prompt_api machines v) (zec.DetachVolume cm v) x (fulfils Detach x).
Proof.
  intros r x' Hr s1 Hs1. pose proof Hs1 as (d & Hd & Hi & Hb & Hset)%accept_detach.
  revert r x' Hr. change (sat (prompt_api machines v) (zec.DetachVolume cm v) x
    (fun r x' => x'.1 = settle s1 ∧ ∃ a, r = Ok a)).
  unfold zec.DetachVolume. guards.
  apply sat_api. intros r x1 Hr. destruct (Hr eq_refl s1 Hs1) as (Hx1 & a & -> & ->). cbn beta iota.
  rewrite Hset. confirmed (with_instance "" d); [|by rewrite Hx1].
  unfold rest_status. cbn. by rewrite Hb.
Qed.

Lemma sat_ResizeVolume_prompt n x :
  n ≠ 0 → sat (prompt_api machines v) (zec.ResizeVolume cm v n) x (fulfils (Resize n) x).
Proof.
  intros Hn r x' Hr s1 Hs1. pose proof Hs1 as (d & Hd & Hb & Hset)%accept_resize.
  revert r x' Hr. change (sat (prompt_api machines v) (zec.ResizeVolume cm v n) x
    (fun r x' => x'.1 = settle s1 ∧ ∃ a, r = Ok a)).
  unfold zec.ResizeVolume. guards. rewrite (proj2 (Z.eqb_neq n 0) Hn).
  apply sat_api. intros r x1 Hr. destruct (Hr eq_refl s1 Hs1) as (Hx1 & [] & -> & _).
  rewrite Hset. confirmed (with_size n d); [|by rewrite Hx1].
  unfold rest_status. cbn. rewrite Hb. by destruct (String.eqb _ _).
Qed.
(** [FindVolume] of a disk at rest. *)
Lemma sat_FindVolume_prompt x :
  at_rest x.1 →
  sat (prompt_api machines v) (zec.FindVolume cm v) x (fun r x' => x'.1 = x.1 ∧
    match x.1 with
    | None => r = Ok None
    | Some d => ∃ vol, r = Ok (Some vol) ∧ seen v d vol ∧ ZecVolume_Status vol = rest_status d
    end).
Proof.
  intros Hx. unfold zec.FindVolume. guards. apply sat_show. intros p Hp.
  assert (Hpoll : (poll x).1 = x.1).
  { unfold poll. destruct x.2; [by apply settle_at_rest|done]. }
  rewrite Hpoll in Hp. destruct p as [tc ds], (x.1) as [d|] eqn:Hd.
  - destruct Hp as [Hc (i & Hi & Hs & Hrest)]. cbn in Hc, Hi. subst tc ds. cbn.
    apply sat_ret. split; [done|]. eexists. split; [done|]. split; [by apply shows_seen|].
    cbn. by rewrite (Hrest Hx).
  - cbn in Hp. subst tc. by apply sat_ret.
Qed.

Lemma sat_GetVmStatus_prompt m x :
  m ≠ "" →
  sat (prompt_api machines v) (zec.GetVmStatus cm m) x (fun r x' =>
    x' = x ∧ (m ∈ machines → r = Ok (true, VmStatusRunning))).
Proof.
  intros Hm. unfold zec.GetVmStatus. guards. rewrite (proj2 (String.eqb_neq m "") Hm).
  apply sat_api. intros r x' (-> & Hr). destruct (decide (m ∈ machines)) as [Hin|Hout].
  - destruct (Hr m eq_refl Hin) as ([id st] & -> & Hst). cbn in Hst. subst st. cbn. by apply sat_ret.
  - clear Hr. repeat case_match; by apply sat_ret.
Qed.

(** A release of a disk at rest that is not attached. *)
Lemma accept_release d :
  k_task d = None → k_instance d = "" →
  accept Release (Some d) = Some (Some (with_task (if k_bin d then Destroying else Recycling) d)).
Proof. intros Ht Hi. cbn. by rewrite Ht, Hi. Qed.

(** The deletion of a disk in the recycle bin takes one release, of another two. *)
Lemma sat_release_loop_prompt n x :
  at_rest x.1 → (∀ d, x.1 = Some d → k_instance d = "") →
  (match x.1 with Some d => if k_bin d then 1 else 2 | None => 1 end ≤ n)%nat →
  sat (prompt_api machines v) (zec.release_loop cm v n) x (fun r x' => x'.1 = None ∧ r = Ok tt).
Proof.
  revert x. induction n as [|n IH]; intros x Hx Hi Hn.
  { exfalso. revert Hn. destruct (x.1) as [[? ? ? [] ?]|]; cbn; lia. }
  cbn [zec.release_loop]. eapply sat_bind_mono; [by apply sat_FindVolume_prompt|].
  intros r x1 [Hx1 Hr]. destruct (x.1) as [d|] eqn:Hd; [|subst r; by apply sat_ret].
  destruct Hr as (vol & -> & _ & Hst). cbn beta iota zeta. rewrite Hst.
  pose proof (accept_release d Hx (Hi d eq_refl)) as Hacc.
  apply sat_bind, sat_call. intros r x2 Hr. rewrite <-Hx1 in Hacc.
  destruct (Hr eq_refl _ Hacc) as (Hx2 & [] & -> & _). unfold rest_status.
  destruct (k_bin d) eqn:Hb.
  - cbn [String.eqb]. rewrite String.eqb_refl. eapply sat_bind_mono;
      [apply sat_wait_deleted_prompt; by rewrite Hx2|]. intros r x3 [-> Hx3]. by apply sat_ret.
  - rewrite (Hi d eq_refl). replace (String.eqb _ _) with false by reflexivity.
    eapply sat_bind_mono; [apply (sat_wait_released_prompt (in_bin d)); [done|]; by rewrite Hx2|].
    intros r x3 [-> Hx3]. cbn beta iota. apply IH; rewrite Hx3; [done|intros ? [= <-]; exact (Hi d eq_refl)|cbn; lia].
Qed.

Lemma sat_DeleteVolume_prompt x :
  at_rest x.1 → (∀ d, x.1 = Some d → k_instance d = "") →
  sat (prompt_api machines v) (zec.DeleteVolume cm v) x (fun r x' => x'.1 = None ∧ r = Ok tt).
Proof.
  intros Hx Hi. unfold zec.DeleteVolume. guards. apply sat_release_loop_prompt; [done..|].
  unfold maxReleaseDiskTimes. destruct (x.1) as [[? ? ? [] ?]|]; cbn; lia.
Qed.
End operations.

(** The zec manager keeps the promises of [prompt_manager]. *)
Lemma prompt_refines cm machines v :
  zecClient cm = true → v ≠ "" →
  refines (implemented (prompt_api machines v) (zec_impl cm)) (prompt_manager machines v) id.
Proof.
  intros Hcm Hv R o x r x' H. unfold implemented in H. cbv [id].
  destruct o; cbn [prompt_manager]; try done; cbn [zec_impl] in H.
  - intros -> Hx Hi. exact (sat_DeleteVolume_prompt cm Hcm machines v Hv x Hx Hi _ _ H).
  - intros -> Hvm. exact (sat_AttachVolume_prompt cm Hcm machines v Hv vmId x Hvm _ _ H).
  - intros ->. exact (sat_DetachVolume_prompt cm Hcm machines v Hv x _ _ H).
  - intros -> Hn. exact (sat_ResizeVolume_prompt cm Hcm machines v Hv requestSize x Hn _ _ H).
  - intros -> Hx. destruct (sat_FindVolume_prompt cm Hcm machines v Hv x Hx _ _ H) as [Hx' Hr].
    split; [done|]. destruct (x.1) as [d|]; [|done]. destruct Hr as (vol & -> & Hs & _). eauto.
  - intros Hm. exact (sat_GetVmStatus_prompt cm Hcm machines v vmId x Hm _ _ H).
Qed.

(** ** The slow cloud keeps up *)

Lemma slow_cloud_prompt machines v serial lag : obeys (slow_cloud v serial lag) id (prompt_api machines v).
Proof.
  intros R o x. unfold id. destruct o as [R o|t i]; cbn; [|intros _ _; split; [done|lia]].
  assert (Hstart : ∀ T c (yes : T) s1, accept c x.1 = Some s1 →
    (start lag c yes x).2.1 = s1 ∧ (start lag c yes x).1 = Ok yes)
    by (intros T c yes s1 H; unfold start; by rewrite H).
  destruct o; cbn [prompt_op slow_api fst snd]; try done.
  - intros -> s1 H. rewrite String.eqb_refl. destruct (Hstart unit _ tt s1 H). eauto.
  - intros -> s1 H. cbn. rewrite String.eqb_refl. destruct (Hstart unit _ tt s1 H). eauto.
  - intros -> s1 H. cbn. rewrite String.eqb_refl.
    destruct (Hstart (option (list string)) _ (Some []) s1 H). eauto.
  - intros -> s1 H. rewrite String.eqb_refl. destruct (Hstart unit _ tt s1 H). eauto.
  - intros ->. cbn [disks_by_id ddr_DiskIds existsb]. rewrite String.eqb_refl. cbn [orb].
    split; [done|]. eexists. split; [done|]. destruct (poll x).1 as [k|]; cbn; [|done].
    split; [done|]. eexists. split; [done|]. split; [apply shows_info|]. cbn. by intros ->.
  - split; [done|]. intros m _ _. eauto.
Qed.
