(* ===== verification/Creating.v ===== *)
(** * A cloud that creates

    [creating_api machines n v serial snaps] is a cloud that keeps up ([prompt_api]) and has
    no disk of the name [n] but [v]: it makes [v] when it is asked for a disk of the
    name, finds it by its name where it is, shows its serial number, and has the
    usable snapshots [snaps].  On it the operations of [zec_impl] that a creation
    calls succeed ([creating_refines]). *)

From S2P Require Import Prelude GoStd Prog ZecApi CloudTypes Machine Driver Cloud Disk CmRefine.
From S2P Require Import VolumeRefine DiskSim Naming Prompt.

Local Open Scope Z_scope.
Local Open Scope csi_scope.

(** ** The cloud *)

(** What a search for the name in a zone and a group finds. *)
Definition of_search (n zone group : string) (s : option disk) : option disk :=
  match s with
  | Some d =>
    if String.eqb (cdr_DiskName (k_made d)) n && String.eqb (cdr_ZoneId (k_made d)) zone
       && String.eqb (cdr_ResourceGroupId (k_made d)) group
    then Some d else None
  | None => None
  end.

Definition shows_snapshot (pg : page SnapshotInfo) : Prop :=
  ∃ i, pg = {| TotalCount := Some 1; DataSet := [Some i] |} ∧ si_DiskAbility i = Some true.

Section api.
Context (machines : gset string) (n v serial : string) (snaps : gset string).

Definition creating_op (R : Type) (o : ZecE R) (x : pstate) : R → pstate → Prop :=
  match o in ZecE R return R → pstate → Prop with
  | CreateDisks req => fun r x' =>
      cdr_DiskName req = n → from_option (.∈ snaps) True (cdr_SnapshotId req) →
      starts (Create req) (fun ids => ids = Some [v]) x r x'
  | DescribeDisks req => fun r x' =>
      (∀ zone group, req = search n zone group →
         x' = poll x ∧ ∃ p, r = Ok (Some p) ∧ displays v (of_search n zone group x'.1) p) ∧
      (∀ p i, r = Ok (Some p) → Some i ∈ DataSet p → di_DiskId i = Some v → di_Serial i = Some serial)
  | DescribeSnapshots req => fun r x' =>
      ∀ u, req = snaps_by_id u → u ∈ snaps → x' = x ∧ ∃ p, r = Ok (Some p) ∧ shows_snapshot p
  | _ => fun _ _ => True
  end.

Definition creating_api : machine CloudE pstate := fun R o x r x' =>
  prompt_api machines v R o x r x' ∧
  match o in CloudE R return R → Prop with
  | Api a => fun r => creating_op _ a x r x'
  | SelectTicks _ _ => fun _ => True
  end r.

(** ** What its cloud manager promises *)

(** A disk of the name is made where there is none. *)
Definition makes (req : CreateDisksRequest) (x : pstate) (r : result cerr string) (x' : pstate) : Prop :=
  cdr_DiskName req = n → from_option (.∈ snaps) True (cdr_SnapshotId req) →
  cdr_DiskSize req ≠ 0 → cdr_DiskCategory req ≠ "" → cdr_ZoneId req ≠ "" →
  cdr_ResourceGroupId req ≠ "" → x.1 = None →
  x'.1 = Some (new_disk req) ∧ r = Ok v.

(** The answer to a search for the name: the disk at rest, if it is there. *)
Definition finds (zone category : string) (size : Z) (s : option disk)
    (r : option ZecVolume * option cerr) : Prop :=
  match s with
  | None => r = (None, None)
  | Some d =>
    k_bin d = false → cdr_ZoneId (k_made d) = zone →
    StringToType (cdr_DiskCategory (k_made d)) = StringToType category → k_size d = size →
    ∃ vol, r = (Some vol, None) ∧ seen v d vol ∧ ZecVolume_Serial vol = serial
  end.

Definition creating_manager : machine CmE pstate := fun R o x r x' =>
  prompt_manager machines v R o x r x' ∧
  match o in CmE R return R → Prop with
  | CreateVolume m size c zone g burst => fun r =>
      makes {| cdr_DiskName := m; cdr_DiskSize := size; cdr_ZoneId := zone; cdr_DiskAmount := 1;
               cdr_ResourceGroupId := g; cdr_DiskCategory := c; cdr_SnapshotId := None;
               cdr_BurstingEnabled := burst |} x r x'
  | CreateVolumeFromSnapshot m size c zone g snap burst => fun r =>
      snap ≠ "" →
      makes {| cdr_DiskName := m; cdr_DiskSize := size; cdr_ZoneId := zone; cdr_DiskAmount := 1;
               cdr_ResourceGroupId := g; cdr_DiskCategory := c; cdr_SnapshotId := Some snap;
               cdr_BurstingEnabled := burst |} x r x'
  | FindVolumeByName m zone size c g => fun r =>
      m = n → at_rest x.1 → x'.1 = x.1 ∧ finds zone c size (of_search n zone g x.1) r
  | FindVolume u => fun r =>
      u = v → ∀ vol, r = Ok (Some vol) → ZecVolume_Id vol = v → ZecVolume_Serial vol = serial
  | FindSnapshot u => fun r =>
      u ∈ snaps → u ≠ "" → x' = x ∧ ∃ s, r = Ok (Some s) ∧ ZecVolumeSnap_DiskAbility s = true
  | _ => fun _ => True
  end r.
End api.

(** What holds on a cloud that keeps up holds here. *)
Lemma creating_prompt machines n v serial snaps : refines (creating_api machines n v serial snaps) (prompt_api machines v) id.
Proof. by intros R o s r s' []. Qed.

Lemma creating_manager_prompt machines n v serial snaps :
  refines (creating_manager machines n v serial snaps) (prompt_manager machines v) id.
Proof. by intros R o s r s' []. Qed.

(** ** The operations *)

Section operations.
Context (cm : zecCloudManager) (Hcm : zecClient cm = true).
Context (machines : gset string) (n v serial : string) (snaps : gset string) (Hn : n ≠ "") (Hv : v ≠ "").

Abbreviation M := (creating_api machines n v serial snaps).
Abbreviation eqb_ne H := (proj2 (String.eqb_neq _ _) H).

(** A call of the cloud. *)
Lemma sat_creating {R} (o : ZecE (sdk R)) {A} (k : result cerr R → cloud A) x Q :
  (∀ r x', prompt_op machines v _ o x r x' → creating_op n v serial snaps _ o x r x' →
     sat M (k (match r with Ok a => Ok a | Err e => Err (ErrApi e) end)) x' Q) →
  sat M (api o ≫= k) x Q.
Proof.
  intros Hk. apply sat_bind, sat_bind, sat_call. intros r x' [Hr Hc]. apply sat_ret. by apply Hk.
Qed.

Lemma sat_create_promptly req x :
  sat M (zec.create_disk req) x (fun r x' =>
    cdr_DiskName req = n → from_option (.∈ snaps) True (cdr_SnapshotId req) → x.1 = None →
    x'.1 = Some (new_disk req) ∧ r = Ok v).
Proof.
  intros r x' H Hname Hsnap Hx. revert r x' H.
  change (sat M (zec.create_disk req) x (fun r x' => x'.1 = Some (new_disk req) ∧ r = Ok v)).
  apply sat_creating. intros r x1 _ Hr.
  destruct (Hr Hname Hsnap (Some (with_task Creating (new_disk req)))) as (Hx1 & ids & -> & ->);
    [by rewrite Hx|]. cbn beta iota.
  eapply sat_bind_mono.
  { eapply sat_stronger; [apply creating_prompt|].
    eapply (sat_wait_status machines v Hv _ is_available (new_disk req)); [reflexivity|exact available_rests|done|].
    by rewrite Hx1. }
  intros r2 x2 [-> Hx2]. by apply sat_ret.
Qed.

Lemma sat_makes req (ok : bool) x :
  (cdr_DiskSize req ≠ 0 → cdr_DiskCategory req ≠ "" → cdr_ZoneId req ≠ "" →
   cdr_ResourceGroupId req ≠ "" → cdr_DiskName req = n → ok = false) →
  sat M (reject ErrArgs when ok ;; reject ErrNilClient when negb (zecClient cm) ;;
         zec.create_disk req) x (makes n v snaps req x).
Proof.
  intros Hok r x' H Hname Hsnap Hsize Hcat Hzone Hg Hx. rewrite Hok, Hcm in H by done.
  by apply (sat_create_promptly req x r x' H).
Qed.

Lemma sat_serial x :
  sat M (zec.FindVolume cm v) x (fun r _ =>
    ∀ vol, r = Ok (Some vol) → ZecVolume_Id vol = v → ZecVolume_Serial vol = serial).
Proof.
  unfold zec.FindVolume. rewrite Hcm, (eqb_ne Hv). cbn [negb].
  apply sat_creating. intros r x' _ [_ Hs]. destruct r as [[[tc ds]|]|e]; try (apply sat_ret; done).
  destruct tc as [count|]; [|by apply sat_ret]. cbn beta iota.
  destruct (count =? 0); [by apply sat_ret|]. destruct (negb _); [by apply sat_ret|].
  destruct ds as [|[i|] ds]; try (apply sat_ret; done). apply sat_ret. intros vol [= <-] Hid.
  cbn in Hid |- *. rewrite (Hs _ i eq_refl); [done|apply list_elem_of_here|].
  destruct (di_DiskId i); cbn in Hid; congruence.
Qed.

Lemma sat_find_by_name zone size c g x :
  at_rest x.1 →
  sat M (zec.FindVolumeByName cm n zone size c g) x (fun r x' =>
    x'.1 = x.1 ∧ finds v serial zone c size (of_search n zone g x.1) r).
Proof.
  intros Hx. unfold zec.FindVolumeByName. rewrite Hcm, (eqb_ne Hn). cbn [negb]. cbv zeta.
  apply sat_creating. intros r x' _ [Hr Hs]. destruct (Hr zone g eq_refl) as (-> & p & -> & Hp).
  assert (Hpoll : (poll x).1 = x.1).
  { unfold poll. destruct x.2; [by apply settle_at_rest|done]. }
  rewrite Hpoll in Hp. destruct p as [tc ds], (of_search n zone g x.1) as [d|] eqn:Hd.
  - destruct Hp as [Hc (i & Hi & Hsh & Hrest)]. cbn in Hc, Hi. subst tc ds.
    assert (Ht : k_task d = None).
    { unfold of_search in Hd. destruct (x.1); [|done]. destruct (_ && _); [|done].
      by injection Hd as ->. }
    cbn beta iota. cbn [Z.eqb Z.ltb Z.compare Pos.compare Pos.compare_cont negb]. apply sat_bind, sat_ret.
    apply sat_ret. split; [done|]. intros Hbin Hzone Htype Hsize. exists (volume_of_disk i).
    pose proof (shows_seen _ _ _ Hsh) as Hseen. pose proof Hseen as (Hid & Hty & Hz & Hlaw & Hsz).
    destruct (Hsz Ht) as [Hsz' _]. split_and!; [|done|].
    + cbn [pick_volume]. rewrite Hty, Hz, Htype, Hzone, Hsz', Hsize, !String.eqb_refl, !Z.eqb_refl.
      cbn [andb negb]. destruct (String.eqb_spec (ZecVolume_Status (volume_of_disk i)) DiskStatusRecycled) as [Hst|];
        [|done]. destruct Hlaw as (_ & _ & Hlaw). destruct (Hlaw Hst). congruence.
    + cbn. rewrite (Hs _ i eq_refl); [done|apply list_elem_of_here|].
      by destruct Hsh as [-> _].
  - cbn in Hp. subst tc. by apply sat_ret.
Qed.

Lemma sat_find_snapshot u x :
  u ∈ snaps → u ≠ "" →
  sat M (zec.FindSnapshot cm u) x (fun r x' =>
    x' = x ∧ ∃ s, r = Ok (Some s) ∧ ZecVolumeSnap_DiskAbility s = true).
Proof.
  intros Hu Hne. unfold zec.FindSnapshot. rewrite Hcm, (eqb_ne Hne). cbn [negb].
  apply sat_creating. intros r x' _ Hr. destruct (Hr u eq_refl Hu) as (-> & p & -> & i & -> & Hi).
  cbn beta iota. cbn [Z.eqb Z.compare Pos.compare Pos.compare_cont negb]. apply sat_ret.
  split; [done|]. eexists. split; [done|]. cbn. by rewrite Hi.
Qed.
End operations.

(** The zec manager keeps the promises of [creating_manager]. *)
Lemma creating_refines cm machines n v serial snaps :
  zecClient cm = true → n ≠ "" → v ≠ "" →
  refines (implemented (creating_api machines n v serial snaps) (zec_impl cm))
    (creating_manager machines n v serial snaps) id.
Proof.
  intros Hcm Hn Hv R o x r x' H. split.
  { apply (prompt_refines cm machines v Hcm Hv). eapply (exec_refines _ _ id); [apply creating_prompt|done]. }
  unfold implemented in H. cbv [id]. destruct o; try done; cbn [zec_impl] in H.
  - revert H. apply (sat_makes cm Hcm machines n v serial snaps Hv). cbn.
    intros ?%Z.eqb_neq ?%String.eqb_neq ?%String.eqb_neq ?%String.eqb_neq ->.
    apply String.eqb_neq in Hn. rewrite Hn. repeat (apply orb_false_iff; split); done.
  - intros ->. exact (sat_serial cm Hcm machines n v serial snaps Hv x _ _ H).
  - intros ->. intros Hx. exact (sat_find_by_name cm Hcm machines n v serial snaps Hn _ _ _ _ x Hx _ _ H).
  - intros Hu Hne. exact (sat_find_snapshot cm Hcm machines n v serial snaps _ x Hu Hne _ _ H).
  - intros Hsnap. revert H. apply (sat_makes cm Hcm machines n v serial snaps Hv). cbn.
    intros ?%Z.eqb_neq ?%String.eqb_neq ?%String.eqb_neq ?%String.eqb_neq ->.
    apply String.eqb_neq in Hn, Hsnap. rewrite Hn. repeat (apply orb_false_iff; split); done.
Qed.

(** ** A slow cloud that creates

    [slow_cloud] with the searches and the snapshots. *)

Section cloud.
Context (n v serial : string) (lag : nat).

(** The disk that a describe call is about. *)
Definition described (req : DescribeDisksRequest) (s : option disk) : option disk :=
  match ddr_DiskName req, ddr_ZoneId req, ddr_ResourceGroupId req with
  | Some name, Some zone, Some group =>
    if String.eqb name ("^" +:+ n +:+ "$") then of_search n zone group s else None
  | _, _, _ => if existsb (String.eqb v) (ddr_DiskIds req) then s else None
  end.

Definition creating_sdk : env ZecE pstate := fun R o =>
  match o in ZecE R return pstate → R * pstate with
  | DescribeDisks req => fun x =>
      (Ok (Some (page_of_disk v serial (described req (poll x).1))), poll x)
  | DescribeSnapshots req => fun x =>
      (Ok (Some {| TotalCount := Some 1;
                   DataSet := [Some {| si_SnapshotId := None; si_SnapshotName := None;
                                       si_Status := Some SnapStatusAvailable; si_DiskId := None;
                                       si_DiskAbility := Some true; si_ZoneId := None;
                                       si_ResourceGroup := None; si_CreateTime := None |}] |}), x)
  | o => slow_api v serial lag _ o
  end.

Definition creating_cloud : env CloudE pstate := fun R o =>
  match o in CloudE R return pstate → R * pstate with
  | Api a => creating_sdk _ a
  | o => slow_cloud v serial lag _ o
  end.

Lemma page_displays s : displays v s (page_of_disk v serial s).
Proof.
  destruct s as [k|]; cbn; [|done]. split; [done|]. eexists. split; [done|].
  split; [apply shows_info|]. cbn. by intros ->.
Qed.

Lemma creating_cloud_obeys machines snaps : obeys creating_cloud id (creating_api machines n v serial snaps).
Proof.
  intros R o x. pose proof (slow_cloud_prompt machines v serial lag R o x) as Hslow. unfold id in *.
  split.
  - destruct o as [R o|t i]; [|exact Hslow]. destruct o; try exact Hslow; try exact I; cbn.
    intros ->. split; [done|]. eexists. split; [done|]. cbn. rewrite String.eqb_refl. apply page_displays.
  - destruct o as [R o|t i]; [|done]. destruct o; try done; cbn [creating_op creating_cloud creating_sdk fst snd].
    + intros _ _ s1 Hs1. cbn. unfold start. rewrite Hs1. cbn. eauto.
    + split.
      * intros zone group ->. split; [done|]. eexists. split; [done|].
        unfold described, search, disks_by_name. cbn [ddr_DiskName ddr_ZoneId ddr_ResourceGroupId].
        rewrite String.eqb_refl. apply page_displays.
      * intros p i [= <-]. destruct (described _ _); cbn; [|by intros ?%elem_of_nil].
        by intros [= ->]%list_elem_of_singleton.
    + intros u _ _. split; [done|]. eexists. split; [done|]. by eexists.
Qed.
End cloud.
