(* ===== verification/Complete.v ===== *)
(** * The controller completes its requests

    On a cloud that keeps up ([prompt_api]) and with its locks free, the
    controller answers a valid request with success whenever the abstract service
    can serve it, and the disk is then what [csi_apply] says. *)

From S2P Require Import Prelude GoStd Csi Common Prog Locking Serve Driver ZecApi CloudTypes.
From S2P Require Import Machine Bracket Cloud Ctrl Controller System Disk CmRefine VolumeSpec VolumeRefine.
From S2P Require Import DiskSim Prompt.

Local Open Scope Z_scope.
Local Open Scope csi_scope.

(** ** The lock table, and the machines *)

Abbreviation tstate := (ResourceLocks * pstate)%type.

Definition served_by (machines : gset string) (v : string) : machine CtrlE tstate :=
  with_locks lock_table (handled (on_snd (prompt_manager machines v))).

(** ** Handlers over the promises of a cloud manager *)

Section asking.
Context {X : Type} (N : machine CmE X).

Abbreviation H := (with_locks lock_table (handled (on_snd N))).

Lemma sat_range {A} m (f : list (string * string) → ctrl A) (y : ResourceLocks * X) Q :
  (∀ order, range_of m order → sat H (f order) y Q) → sat H (order ← range m; f order) y Q.
Proof.
  intros Hf. apply sat_bind, sat_call. intros order y' [Hm ->]. by apply Hf.
Qed.

Lemma sat_ask {R} (o : CmE R) {A} (k : R → ctrl A) (t : ResourceLocks) (x : X) Q :
  (∀ r x', N _ o x r x' → sat H (k r) (t, x') Q) →
  sat H (r ← cloud_call o; k r) (t, x) Q.
Proof.
  intros Hk. apply sat_bind, sat_call. intros r [t' x'] [Ht Hr]. cbn in Ht, Hr. subst t'. by apply Hk.
Qed.

Lemma sat_ask_try {R} c (o : CmE (result cerr R)) {A} (k : rpc R → ctrl A) (t : ResourceLocks) (x : X) Q :
  (∀ r x', N _ o x r x' → sat H (k (match r with Ok a => Ok a | Err _ => Err c end)) (t, x') Q) →
  sat H (cloud_try c o ≫= k) (t, x) Q.
Proof.
  intros Hk. apply sat_bind. unfold cloud_try. apply sat_bind, sat_call.
  intros r [t' x'] [Ht Hr]. cbn in Ht, Hr. subst t'. apply sat_ret. by apply Hk.
Qed.
End asking.

(** ** Valid requests *)

(** What the handlers check of a request before they look for its disk. *)
Definition valid (d : DiskDriver) (q : request) : bool :=
  match q with
  | ReqDeleteVolume r =>
    ValidateControllerServiceRequest d ControllerRPC.CREATE_DELETE_VOLUME
  | ReqPublish r =>
    ValidateControllerServiceRequest d ControllerRPC.PUBLISH_UNPUBLISH_VOLUME
    && negb (String.eqb (cp_NodeId r) "") && negb (cp_Readonly r)
    && match cp_VolumeCapability r with Some cap => ValidateVolumeCapability d cap | None => false end
  | ReqUnpublish r =>
    ValidateControllerServiceRequest d ControllerRPC.PUBLISH_UNPUBLISH_VOLUME
    && negb (String.eqb (cu_NodeId r) "")
  | ReqExpand r =>
    ValidateControllerServiceRequest d ControllerRPC.EXPAND_VOLUME
  | _ => false
  end.

(** A publication is to a running machine. *)
Definition runs (machines : gset string) (q : request) : Prop :=
  match q with ReqPublish r => cp_NodeId r ∈ machines | _ => True end.

(** The disk has a size that [int64] holds in bytes. *)
Definition sized (s : option disk) : Prop := ∀ d, s = Some d → 0 <= GibToByte (k_size d).

Lemma csi_apply_sized q s s' : sized s → csi_apply q s = Some s' → sized s'.
Proof.
  intros Hs. unfold csi_apply. destruct q, s as [d|]; try (by intros [= <-]); try done;
    specialize (Hs d eq_refl).
  - by destruct (String.eqb _ _); [intros [= <-]|].
  - destruct (String.eqb _ _); [intros [= <-]; by intros k [= <-]|].
    destruct (_ && _); [|done]. intros [= <-]. by intros k [= <-].
  - destruct (String.eqb _ _); [destruct (k_bin d); [done|]|]; intros [= <-]; by intros k [= <-].
  - destruct (expand_target _ _) as [n|]; [|done]. destruct (_ <=? _) eqn:Hle; [intros [= <-]; by intros k [= <-]|].
    destruct (k_bin d); [done|]. intros [= <-] k [= <-]. cbn [k_size with_size]. apply Z.leb_gt in Hle. lia.
Qed.

(** ** The handlers *)

Section handlers.
Context (machines : gset string) (v : string).

Abbreviation P := (served_by machines v).

(** The request is answered without an error, and leaves the disk in [s]. *)
Definition completes {A} (t : ResourceLocks) (s : option disk) (r : rpc A) (y : tstate) : Prop :=
  y.1 = t ∧ y.2.1 = s ∧ is_ok r = true.

Lemma sat_locked {A} (body : ctrl (rpc A)) (t : ResourceLocks) x s :
  v ∉ locks t →
  (∀ t1, sat P body (t1, x) (completes t1 s)) →
  sat P (with_lock v body) (t, x) (completes t s).
Proof.
  intros Hv Hbody. apply (sat_with_free_lock _ v body t x (fun r x' => x'.1 = s ∧ is_ok r = true));
    [done|]. intros t1 _. apply Hbody.
Qed.

Lemma sat_try {R} c (o : CmE (result cerr R)) t x (Q : rpc R → tstate → Prop) :
  (∀ r x', prompt_manager machines v _ o x r x' → Q (match r with Ok a => Ok a | Err _ => Err c end) (t, x')) →
  sat P (cloud_try c o) (t, x) Q.
Proof.
  intros HQ. apply sat_bind, sat_call. intros r [t' x'] [Ht Hr]. cbn in Ht, Hr. subst t'.
  apply sat_ret. by apply HQ.
Qed.

(** The disk at rest, found. *)
Lemma sat_find_prompt c t x d :
  x.1 = Some d → k_task d = None →
  sat P (cloud_try c (FindVolume v)) (t, x) (fun r y => y.1 = t ∧ y.2.1 = Some d ∧
    ∃ vol, r = Ok (Some vol) ∧ seen v d vol ∧ ZecVolume_Size vol = k_size d ∧
           ZecVolume_InstanceId vol = k_instance d).
Proof.
  intros Hd Ht. apply sat_try. intros r x' H. destruct (H eq_refl) as [Hx' Hr]; [by rewrite Hd|].
  rewrite Hd in Hx', Hr. destruct Hr as (vol & -> & Hs). cbn. split_and!; [done..|].
  exists vol. pose proof Hs as (_ & _ & _ & _ & Hrest). by destruct (Hrest Ht).
Qed.

Lemma sat_find_none c t x :
  x.1 = None →
  sat P (cloud_try c (FindVolume v)) (t, x) (fun r y => y.1 = t ∧ y.2.1 = None ∧ r = Ok None).
Proof.
  intros Hd. apply sat_try. intros r x' H. destruct (H eq_refl) as [Hx' Hr]; [by rewrite Hd|].
  rewrite Hd in Hx', Hr. by rewrite Hr.
Qed.

(** A change of the disk that can be made. *)
Lemma sat_fulfils {T} code (o : CmE (result cerr T)) ch t x s1 :
  (∀ r x', prompt_manager machines v _ o x r x' → fulfils ch x r x') → accept ch x.1 = Some s1 →
  sat P (cloud_try code o) (t, x) (fun r y => y.1 = t ∧ y.2.1 = settle s1 ∧ ∃ a, r = Ok a).
Proof.
  intros Ho Hs1. apply sat_try. intros r x' H. destruct (Ho _ _ H s1 Hs1) as (Hx' & a & ->). eauto.
Qed.

Ltac found_disk := eapply sat_bind_mono; [by eapply sat_find_prompt|];
  intros ? [? ?] (? & ? & ? & -> & ? & Hsize & Hinst); cbn [fst snd] in *; subst; cbn beta iota.

Ltac rest_disk := repeat match goal with H : fst ?x = Some _ |- context [fst ?x] => rewrite H end;
  cbn; match goal with H : at_rest _ |- _ => cbn in H; rewrite H end; cbn.

Lemma complete_publish r t x s' :
  at_rest x.1 → cp_NodeId r ≠ "" → cp_NodeId r ∈ machines → csi_apply (ReqPublish r) x.1 = Some s' →
  sat P (cs.publish_locked v (cp_NodeId r)) (t, x) (completes t s').
Proof.
  intros Hx Hvm Hruns Happly. destruct (x.1) as [d|] eqn:Hd; [|done]. cbn [csi_apply] in Happly.
  unfold cs.publish_locked. found_disk.
  eapply sat_bind_mono with (Q1 := fun r0 y => y.1 = t ∧ y.2.1 = Some d ∧ r0 = Ok (true, VmStatusRunning)).
  { apply sat_try. intros r0 x' H. destruct (H Hvm) as [-> ->]; done. }
  intros ? [? [? ?]] (? & ? & ->). cbn [fst snd] in *. subst. cbn beta iota. cbn [negb].
  rewrite String.eqb_refl, Hinst. cbn [negb].
  destruct (String.eqb_spec (k_instance d) (cp_NodeId r)) as [Heq|Hne].
  - injection Happly as <-. rewrite Heq. destruct (len (cp_NodeId r) =? 0) eqn:Hlen.
    { by apply Z.eqb_eq, len_0 in Hlen. }
    by apply sat_ret.
  - destruct (String.eqb_spec (k_instance d) "") as [Hi|]; cbn [andb] in Happly; [|done].
    destruct (k_bin d) eqn:Hb; [done|]. injection Happly as <-. rewrite Hi. cbn [len].
    eapply sat_bind_mono.
    { apply (sat_fulfils _ _ (Attach (cp_NodeId r))); [by intros ? ? H; apply H|].
      cbn. rewrite Hx. by rewrite Hi, Hb. }
    intros ? [? ?] (? & Hset & ? & ->). cbn [fst snd] in *. subst. cbn beta iota. cbn in Hset.
    clear Hsize Hinst. found_disk. rewrite Hinst. cbn [with_instance k_instance].
    rewrite String.eqb_refl. by apply sat_ret.
Qed.

Lemma complete_unpublish r t x s' :
  at_rest x.1 → cu_NodeId r ≠ "" → csi_apply (ReqUnpublish r) x.1 = Some s' →
  sat P (cs.unpublish_locked v (cu_NodeId r)) (t, x) (completes t s').
Proof.
  intros Hx Hvm Happly. unfold cs.unpublish_locked. destruct (x.1) as [d|] eqn:Hd.
  - cbn [csi_apply] in Happly. found_disk. rewrite Hinst.
    destruct (String.eqb_spec (k_instance d) (cu_NodeId r)) as [Heq|Hne]; cbn [negb].
    + rewrite Heq. apply String.eqb_neq in Hvm as Hvm'. rewrite Hvm'.
      destruct (k_bin d) eqn:Hb; [done|]. injection Happly as <-.
      eapply sat_bind_mono.
      { apply (sat_fulfils _ _ Detach); [by intros ? ? H; apply H|].
        rest_disk. by rewrite Heq, Hvm', Hb. }
      intros ? [? ?] (? & Hset & ? & ->). cbn [fst snd] in *. subst. by apply sat_ret.
    + injection Happly as <-. destruct (String.eqb _ _); by apply sat_ret.
  - injection Happly as <-. eapply sat_bind_mono; [by apply sat_find_none|].
    intros ? [? ?] (? & ? & ->). by apply sat_ret.
Qed.

Lemma complete_delete r t x s' :
  at_rest x.1 → csi_apply (ReqDeleteVolume r) x.1 = Some s' →
  sat P (try _ <- cloud_try codes.Internal (CloudTypes.DeleteVolume v) ; mret (Ok tt)) (t, x)
    (completes t s').
Proof.
  intros Hx Happly. eapply sat_bind_mono with (Q1 := completes t s').
  - apply sat_try. intros r0 x' H.
    assert (Hfree : ∀ d, x.1 = Some d → k_instance d = "" ∧ s' = None).
    { intros d Hd. rewrite Hd in Happly. cbn in Happly.
      destruct (String.eqb_spec (k_instance d) ""); [by injection Happly as <-|done]. }
    destruct (H eq_refl Hx) as [Hx' ->]; [intros d Hd; by apply (Hfree d)|].
    split_and!; [done| |done]. cbn. rewrite Hx'. destruct (x.1) as [d|] eqn:Hd.
    + symmetry. by apply (Hfree d).
    + by injection Happly as <-.
  - intros [[]|e] [? ?] (? & ? & ?); [|done]. by apply sat_ret.
Qed.

Lemma complete_expand r t x s' :
  at_rest x.1 → sized x.1 → csi_apply (ReqExpand r) x.1 = Some s' →
  sat P (cs.expand_locked r v) (t, x) (completes t s').
Proof.
  intros Hx Hsized Happly. unfold cs.expand_locked. destruct (x.1) as [d|] eqn:Hd; [|done].
  cbn [csi_apply] in Happly. unfold expand_target in Happly.
  eapply sat_bind_mono; [by eapply sat_find_prompt|].
  intros ? [? ?] (? & ? & vol & -> & (_ & Htype & _) & Hsize & Hinst).
  cbn [fst snd] in *; subst; cbn beta iota. rewrite Htype, Hsize.
  destruct (NewDefaultZecStorageClassFromType _) as [sc|]; [|done].
  destruct (GetRequiredVolumeSizeByte sc (ce_CapacityRange r)) as [bytes|]; [|done].
  cbv zeta. destruct (_ <=? _) eqn:Hle.
  - injection Happly as <-. by apply sat_ret.
  - destruct (k_bin d) eqn:Hb; [done|]. injection Happly as <-. eapply sat_bind_mono.
    { apply (sat_fulfils _ _ (Resize (ByteCeilToGib bytes))).
      - intros ? ? H. apply H; [done|]. intros Hzero. rewrite Hzero in Hle.
        apply Z.leb_gt in Hle. specialize (Hsized d eq_refl).
        change (GibToByte 0) with 0 in Hle. lia.
      - rest_disk. by rewrite Hb. }
    intros ? [? ?] (? & Hset & ? & ->). cbn [fst snd] in *. subst. by apply sat_ret.
Qed.

Lemma sat_respond {A} (f : A → response) (p : ctrl (rpc A)) t x s :
  sat P p (t, x) (completes t s) → sat P (respond f p) (t, x) (completes t s).
Proof.
  intros Hp. unfold respond. eapply sat_bind_mono; [exact Hp|].
  intros [a|e] y (? & ? & ?); by apply sat_ret.
Qed.

Lemma complete_handle g d q t x s' :
  valid d q = true → runs machines q → about q = Some v → at_rest x.1 → sized x.1 → v ∉ locks t →
  csi_apply q x.1 = Some s' →
  sat P (handle g d q) (t, x) (completes t s').
Proof.
  intros Hvalid Hruns Hv Hx Hsized Hlock Happly.
  assert (Hlen : ∀ id, disk_id id = Some v → (len id =? 0) = false).
  { intros id H. apply Z.eqb_neq. intros ->%len_0. done. }
  destruct q; try done; cbn [about valid handle] in *; apply sat_respond;
    unfold cs.DeleteVolume, cs.ControllerPublishVolume, cs.ControllerUnpublishVolume,
      cs.ControllerExpandVolume;
    rewrite (Hlen _ Hv); unfold disk_id in Hv;
    destruct (ParseCsiVolId _) as [[u serial]|]; try done; injection Hv as ->.
  - rewrite Hvalid. cbn [negb]. apply sat_locked; [done|]. intros t1. by eapply complete_delete.
  - apply andb_true_iff in Hvalid as [[[Hcap Hnode]%andb_true_iff Hro]%andb_true_iff Hvc].
    destruct (cp_VolumeCapability r); [|done]. rewrite Hcap, Hvc, (proj1 (negb_true_iff _) Hro).
    apply negb_true_iff, String.eqb_neq in Hnode. cbn [negb].
    destruct (len (cp_NodeId r) =? 0) eqn:Hl; [by apply Z.eqb_eq, len_0 in Hl|].
    apply sat_locked; [done|]. intros t1. by apply complete_publish.
  - apply andb_true_iff in Hvalid as [Hcap Hnode]. rewrite Hcap. cbn [negb].
    apply negb_true_iff, String.eqb_neq in Hnode.
    destruct (len (cu_NodeId r) =? 0) eqn:Hl; [by apply Z.eqb_eq, len_0 in Hl|].
    apply sat_locked; [done|]. intros t1. by apply complete_unpublish.
  - rewrite Hvalid. cbn [negb]. apply sat_locked; [done|]. intros t1. by apply complete_expand.
Qed.
End handlers.

(** ** The controller *)

(** A cloud beside a lock table. *)
Lemma obeys_tables {S W} (N : machine CloudE S) (hd : env CloudE W) (rt : ∀ R, RtE R → R)
    (state_of : W → S) :
  obeys hd state_of N → (∀ R (o : RtE R), rt_ok R o (rt R o)) →
  obeys (locked_env (beside_rt hd rt)) (fun s => (s.1, state_of s.2))
    (with_locks lock_table (backed (on_snd N))).
Proof.
  intros Hcloud Hrt R e [t w]. destruct e as [R o|R o]; cbn.
  - unfold lock_table. cbn. by destruct (lock_exec t o).
  - destruct o as [R o|R o]; cbn; [|by split; [apply Hrt|]].
    pose proof (Hcloud R o w) as H. by destruct (hd R o w).
Qed.

(** A request served is an execution over the promises of the cloud manager. *)
Lemma served_over {X W} (N : machine CloudE X) (M : machine CmE X) g d impl (hd : env CloudE W)
    (rt : ∀ R, RtE R → R) (state_of : W → X) q (s : ResourceLocks * W) Q :
  refines (implemented N impl) M id → obeys hd state_of N → (∀ R (o : RtE R), rt_ok R o (rt R o)) →
  sat (with_locks lock_table (handled (on_snd M))) (handle g d q) (s.1, state_of s.2) Q →
  let '(r, s') := serve_request g d impl hd rt q s in Q r (s'.1, state_of s'.2).
Proof.
  intros HNM Hcloud Hrt HQ.
  pose proof (run_exec _ _ _ (sv_serve (controller g d impl) q) s
    (obeys_tables _ _ rt _ Hcloud Hrt)) as Hexec.
  eapply exec_sys in Hexec; [|by apply refines_on_snd].
  unfold serve_request. destruct (run _ _ _) as [r s']. by apply HQ.
Qed.

Section controller.
Context (g : Globals) (d : DiskDriver) (cm : zecCloudManager) (Hcm : zecClient cm = true).
Context {W : Type} (hd : env CloudE W) (rt : ∀ R, RtE R → R) (machines : gset string) (v : string).
Context (state_of : W → pstate) (Hcloud : obeys hd state_of (prompt_api machines v)).
Context (Hrt : ∀ R (o : RtE R), rt_ok R o (rt R o)).

Lemma serve_request_completes q s x' :
  valid d q = true → runs machines q → about q = Some v → at_rest (state_of s.2).1 → sized (state_of s.2).1 →
  v ∉ locks s.1 → csi_apply q (state_of s.2).1 = Some x' →
  let '(r, s') := serve_request g d (zec_impl cm) hd rt q s in
  is_ok r = true ∧ (state_of s'.2).1 = x' ∧ s'.1 = s.1.
Proof.
  intros Hvalid Hruns Hv Hx Hsized Hlock Happly.
  assert (Hne : v ≠ "").
  { intros ->. assert (∀ id, disk_id id ≠ Some "") as Hid; [|destruct q; cbn in Hv; try done; by eapply Hid].
    intros id H. unfold disk_id in H. destruct (ParseCsiVolId id) as [[u serial]|] eqn:Hp; [|done].
    injection H as ->. unfold ParseCsiVolId in Hp. destruct (Cut id _) as [[? ?] ?].
    repeat case_match; try done. injection Hp as -> ->. done. }
  pose proof (served_over _ _ g d (zec_impl cm) hd rt state_of q s (completes s.1 x')
    (prompt_refines cm machines v Hcm Hne) Hcloud Hrt) as H.
  destruct (serve_request _ _ _ _ _ _ _) as [r s'].
  destruct H as (? & ? & ?); [by apply complete_handle|done].
Qed.
End controller.
