(* ===== verification/CreateComplete.v ===== *)
(** * The controller completes creations

    [creation_plan] is what a valid [CreateVolume] request comes to: the request to
    the cloud for the disk, and the parameters of the volume.  On a cloud that
    creates ([creating_api]) and with the locks free, the controller makes exactly
    that disk where there is none of the name, and answers the request again with
    the same volume where it is there. *)

From S2P Require Import Prelude GoStd Csi Common Prog Locking Serve Driver ZecApi CloudTypes.
From S2P Require Import Machine Bracket Cloud Ctrl Controller CtrlProps System WellFormed.
From S2P Require Import Disk CmRefine VolumeSpec VolumeRefine DiskSim Naming Prompt Creating Complete.

Local Open Scope Z_scope.
Local Open Scope csi_scope.

(** ** The plan of a creation *)

Section plan.
Context (g : Globals) (d : DiskDriver).

(** The topology of the first preferred segments, or else the first requisite ones. *)
Definition picked_topology (r : option TopologyRequirement) : option Topology :=
  match r with
  | None => None
  | Some r =>
    match Preferred r, Requisite r with
    | segments :: _, _ | [], segments :: _ =>
      match pick_segments d (mkTopology "" 0) (map_to_list segments) with
      | Ok topo => Some topo
      | Err _ => None
      end
    | [], [] => None
    end
  end.

(** The zone, and the parameters that name it. *)
Definition planned_place (q : CreateVolumeRequest) (sc : ZecStorageClass) : option (string * gostrmap) :=
  let parameters := cv_Parameters q in
  if negb (is_nil (cv_AccessibilityRequirements q)) &&
     ValidatePluginCapabilityService d PluginService.VOLUME_ACCESSIBILITY_CONSTRAINTS
  then
    (fun topo => (zoneId topo, UpdateParmsZone (map_to_list parameters) parameters (zoneId topo)))
      <$> picked_topology (cv_AccessibilityRequirements q)
  else Some (sc_zoneID sc, parameters).

(** The snapshot to make the disk from, if any. *)
Definition planned_source (q : CreateVolumeRequest) : option (option string) :=
  match cv_VolumeContentSource q with
  | None => Some None
  | Some (SourceSnapshot u) =>
    if ValidateControllerServiceRequest d ControllerRPC.CREATE_DELETE_SNAPSHOT
       && negb (String.eqb u "") && negb (String.eqb u (cv_Name q))
    then Some (Some u) else None
  | Some _ => None
  end.

(** No plan without a zone, or when the size required overflows (its GiB are
    then 0). *)
Definition creation_plan (q : CreateVolumeRequest) : option (CreateDisksRequest * gostrmap) :=
  match cs.CreateVolume_check d q, NewZecStorageClassFromMap g (map_to_list (cv_Parameters q)) with
  | Ok _, Ok sc =>
    match planned_place q sc, planned_source q, GetRequiredVolumeSizeByte sc (cv_CapacityRange q) with
    | Some (zone, parameters), Some source, Ok bytes =>
      if String.eqb zone "" || (ByteCeilToGib bytes =? 0) then None else
      Some ({| cdr_DiskName := cv_Name q; cdr_DiskSize := ByteCeilToGib bytes; cdr_ZoneId := zone;
               cdr_DiskAmount := 1; cdr_ResourceGroupId := sc_placeGroupID sc;
               cdr_DiskCategory := VolumeType_String (sc_diskType sc); cdr_SnapshotId := source;
               cdr_BurstingEnabled := sc_burstEnable sc |}, parameters)
    | _, _, _ => None
    end
  | _, _ => None
  end.

(** The fields of a capacity range are of type [int64]. *)
Definition int64_range (q : CreateVolumeRequest) : Prop :=
  ∀ r, cv_CapacityRange q = Some r → is_int64 (RequiredBytes r) ∧ is_int64 (LimitBytes r).

(** The volume that the request is answered with, made on the disk [v]. *)
Definition planned_volume (q : CreateVolumeRequest) (v serial : string)
    (req : CreateDisksRequest) (parameters : gostrmap) : Volume :=
  {| VolumeId := GenCsiVolId v serial;
     CapacityBytes := GibToByte (cdr_DiskSize req);
     VolumeContext := parameters;
     ContentSource := cv_VolumeContentSource q;
     AccessibleTopology := [disk_segments d (cdr_ZoneId req)] |}.

(** The requirement has room for a volume in the zone. *)
Definition room_for (zone : string) (r : option TopologyRequirement) : bool :=
  match r with
  | None => true
  | Some r =>
    match Requisite r with
    | [] => true
    | l => existsb (fun s => bool_decide (s = disk_segments d zone)) l
    end
  end.

(** A live disk at rest that the request could have made. *)
Definition made_by (req : CreateDisksRequest) (k : disk) : Prop :=
  k_task k = None ∧ k_bin k = false ∧ k_size k = cdr_DiskSize req ∧
  cdr_DiskName (k_made k) = cdr_DiskName req ∧ cdr_ZoneId (k_made k) = cdr_ZoneId req ∧
  cdr_ResourceGroupId (k_made k) = cdr_ResourceGroupId req ∧
  cdr_DiskCategory (k_made k) = cdr_DiskCategory req.

(** No two keys are the same up to case. *)
Definition clear_keys (m : gostrmap) : Prop :=
  ∀ k1 k2, k1 ∈ dom m → k2 ∈ dom m → ToLower k1 = ToLower k2 → k1 = k2.

(** ** The orders of iteration *)

(** The two keys of a topology set different fields. *)
Lemma pick_segments_perm topo l1 l2 :
  l1 ≡ₚ l2 → NoDup l1.*1 → pick_segments d topo l1 = pick_segments d topo l2.
Proof.
  intros Hp. revert topo. induction Hp as [|[k u] l1 l2 _ IH|[k1 u1] [k2 u2] l|l1 l2 l3 Hp1 IH1 _ IH2];
    intros topo Hnd.
  - done.
  - csimpl in Hnd. apply list.NoDup_cons in Hnd as [_ Hnd]. cbn [pick_segments].
    rewrite !IH by done. destruct (String.eqb k _); [done|]. destruct (String.eqb k _); [|done].
    destruct (VmTypeValue !! u); [|done]. by apply IH.
  - csimpl in Hnd. apply list.NoDup_cons in Hnd as [Hne _].
    assert (k2 ≠ k1) by set_solver. cbn [pick_segments].
    pose proof (topology_keys_differ d) as Hkeys.
    repeat match goal with
    | |- context [String.eqb ?a ?b] => destruct (String.eqb_spec a b); try congruence
    end; repeat match goal with |- context [VmTypeValue !! ?u] => destruct (VmTypeValue !! u) end; done.
  - rewrite IH1 by done. apply IH2. by rewrite <-Hp1.
Qed.

Lemma UpdateParmsZone_range order m zone :
  range_of m order → UpdateParmsZone order m zone = UpdateParmsZone (map_to_list m) m zone.
Proof.
  intros Ho. apply map_eq. intros k. rewrite !UpdateParmsZone_lookup.
  rewrite (bool_decide_ext (k ∈ order.*1) (k ∈ (map_to_list m).*1)); [done|]. by rewrite Ho.
Qed.

Lemma storage_class_range order m :
  clear_keys m → range_of m order →
  NewZecStorageClassFromMap g order = NewZecStorageClassFromMap g (map_to_list m).
Proof. intros Hm Ho. apply (NewZecStorageClassFromMap_order g m); [done|by unfold range_of|done]. Qed.
End plan.

(** ** The handler *)

Section handler.
Context (g : Globals) (d : DiskDriver) (machines : gset string) (n v serial : string) (snaps : gset string).

Abbreviation P := (with_locks lock_table (handled (on_snd (creating_manager machines n v serial snaps)))).

Lemma sat_topology q sc zone ps y :
  planned_place d q sc = Some (zone, ps) →
  sat P (cs.CreateVolume_topology d q sc) y (fun r y' =>
    y' = y ∧ ∃ topo, r = Ok (topo, ps) ∧ zoneId topo = zone).
Proof.
  unfold planned_place, cs.CreateVolume_topology. destruct (_ && _).
  - unfold picked_topology, PickTopology.
    destruct (cv_AccessibilityRequirements q) as [r|]; [|done].
    assert (Hpick : ∀ segments,
      (fun topo => (zoneId topo, UpdateParmsZone (map_to_list (cv_Parameters q)) (cv_Parameters q) (zoneId topo)))
        <$> match pick_segments d (mkTopology "" 0) (map_to_list segments) with
            | Ok topo => Some topo | Err _ => None end = Some (zone, ps) →
      sat P (topo ← (order ← range segments;
                     mret (match pick_segments d (mkTopology "" 0) order with
                           | Ok topo => Ok (Some topo) | Err e => Err e end));
             match topo with
             | Err _ | Ok None => mret (Err codes.InvalidArgument)
             | Ok (Some topo) =>
               order ← range (cv_Parameters q);
               mret (Ok (topo, UpdateParmsZone order (cv_Parameters q) (zoneId topo)))
             end) y (fun r y' => y' = y ∧ ∃ topo, r = Ok (topo, ps) ∧ zoneId topo = zone)).
    { intros segments Hplan. apply sat_bind, sat_range. intros order Ho.
      rewrite (pick_segments_perm d _ _ _ Ho) by (by eapply range_of_NoDup).
      destruct (pick_segments _ _ _) as [topo|]; [|done]. injection Hplan as <- <-.
      apply sat_ret, sat_range. intros order' Ho'. apply sat_ret. split; [done|]. exists topo.
      by rewrite (UpdateParmsZone_range order'). }
    destruct (Preferred r) as [|segments l]; [destruct (Requisite r) as [|segments l]|]; [done|..];
      apply Hpick.
  - intros [= <- <-]. apply sat_ret. split; [done|]. by eexists.
Qed.

(** The disk that has been made is shown, and described. *)
Lemma sat_created req ps source t x :
  v ≠ "" → serial ≠ "" → x.1 = Some (new_disk req) →
  VolumeType_IsValid (StringToType (cdr_DiskCategory req)) = true →
  sat P (cs.CreateVolume_created d v (cdr_DiskSize req) ps source) (t, x) (fun r y =>
    y.1 = t ∧ y.2.1 = Some (new_disk req) ∧
    r = Ok {| VolumeId := GenCsiVolId v serial; CapacityBytes := GibToByte (cdr_DiskSize req);
              VolumeContext := ps; ContentSource := source;
              AccessibleTopology := [disk_segments d (cdr_ZoneId req)] |}).
Proof.
  intros Hv Hs Hx Htype. unfold cs.CreateVolume_created. apply sat_ask_try. intros r x' [Hr Hser].
  destruct (Hr eq_refl) as [Hx' Hfound]; [by rewrite Hx|]. rewrite Hx in Hfound.
  destruct Hfound as (vol & -> & Hseen). cbn beta iota. pose proof Hseen as (Hid & Hty & Hz & _).
  specialize (Hser eq_refl vol eq_refl Hid). cbn [is_nil genCsiVolId].
  rewrite Hid, Hser, (proj2 (String.eqb_neq _ _) Hv), (proj2 (String.eqb_neq _ _) Hs). cbn [orb].
  apply sat_ret. rewrite Hx in Hx'. cbn [fst snd]. split_and!; [done..|].
  rewrite GetVolumeTopology_valid; [|by rewrite Hty]. by rewrite Hz.
Qed.

(** What becomes of the disk and what is answered. *)
Definition creation_answer (q : CreateVolumeRequest) (req : CreateDisksRequest) (ps : gostrmap)
    (s : option disk) (r : rpc Volume) (s' : option disk) : Prop :=
  match s with
  | None => s' = Some (new_disk req) ∧ r = Ok (planned_volume d q v serial req ps)
  | Some k =>
    s' = Some k ∧
    r = if room_for d (cdr_ZoneId req) (cv_AccessibilityRequirements q)
        then Ok (planned_volume d q v serial req ps) else Err codes.AlreadyExists
  end.

(** The disk of the name is there. *)
Lemma existing_answer q sc req ps k vol bytes :
  v ≠ "" → serial ≠ "" → made_by req k → seen v k vol → ZecVolume_Serial vol = serial →
  sc_wf sc → cdr_DiskCategory req = VolumeType_String (sc_diskType sc) →
  cdr_DiskSize req = ByteCeilToGib bytes → GetRequiredVolumeSizeByte sc (cv_CapacityRange q) = Ok bytes →
  moderate (ReqCreateVolume q) →
  cs.CreateVolume_existing d q sc ps vol =
    if room_for d (cdr_ZoneId req) (cv_AccessibilityRequirements q)
    then Ok (planned_volume d q v serial req ps) else Err codes.AlreadyExists.
Proof.
  intros Hv Hs (Ht & _ & Hsize & _ & Hzone & _ & Hcat) (Hid & Hty & Hz & _ & Hrest) Hser Hsc Hc Hn Hbytes Hmod.
  destruct (Hrest Ht) as [Hsz _]. pose proof Hsc as (Hvalid & _).
  rewrite Hcat, Hc, StringToType_String in Hty by done.
  unfold cs.CreateVolume_existing. rewrite Hsz, Hsize.
  assert (IsValidCapacityBytes (GibToByte (cdr_DiskSize req)) (cv_CapacityRange q) = true) as ->.
  { rewrite Hn. destruct (cv_CapacityRange q) as [r|] eqn:Hr; [|done].
    destruct (Hmod r Hr) as (H1 & H2 & H3).
    destruct (GetRequired_Ok sc r bytes Hsc H1 H2 H3 Hbytes) as [(_ & _ & ? & ?) ->].
    by apply IsValidCapacityBytes_true. }
  rewrite Hty, Z.eqb_refl, andb_true_r. cbn [andb genCsiVolId].
  rewrite Hid, Hser, (proj2 (String.eqb_neq _ _) Hv), (proj2 (String.eqb_neq _ _) Hs). cbn [orb].
  assert (Htopo : GetVolumeTopology d (Some vol) = [disk_segments d (cdr_ZoneId req)]).
  { rewrite GetVolumeTopology_valid, Hz, Hzone by (by rewrite Hty). done. }
  unfold planned_volume, IsValidTopology, room_for. rewrite Htopo.
  destruct (cv_AccessibilityRequirements q) as [r|]; [|done]. destruct (Requisite r) as [|l0 l]; [done|].
  cut (existsb (fun s0 => existsb (fun t0 => bool_decide (s0 = t0)) [disk_segments d (cdr_ZoneId req)]) (l0 :: l)
       = existsb (fun s0 => bool_decide (s0 = disk_segments d (cdr_ZoneId req))) (l0 :: l)); [by intros ->|].
  generalize (l0 :: l). intros l'. induction l' as [|s0 l' IH]; [done|]. cbn [existsb] in *.
  by rewrite IH, orb_false_r.
Qed.

(** The disk of the name is not there. *)
Lemma sat_create_fresh q req sc topo ps bytes t x :
  n = cv_Name q → n ≠ "" → v ≠ "" → serial ≠ "" → sc_wf sc →
  planned_source d q = Some (cdr_SnapshotId req) →
  req = {| cdr_DiskName := cv_Name q; cdr_DiskSize := ByteCeilToGib bytes; cdr_ZoneId := zoneId topo;
           cdr_DiskAmount := 1; cdr_ResourceGroupId := sc_placeGroupID sc;
           cdr_DiskCategory := VolumeType_String (sc_diskType sc); cdr_SnapshotId := cdr_SnapshotId req;
           cdr_BurstingEnabled := sc_burstEnable sc |} →
  cdr_DiskSize req ≠ 0 → cdr_ZoneId req ≠ "" → cdr_ResourceGroupId req ≠ "" →
  from_option (.∈ snaps) True (cdr_SnapshotId req) →
  from_option (.∉ locks t) True (cdr_SnapshotId req) → x.1 = None →
  sat P (match cv_VolumeContentSource q with
         | None => cs.CreateVolume_empty d (cv_Name q) sc topo ps bytes
         | Some (SourceSnapshot snapId) =>
           cs.CreateVolume_from_snapshot d (cv_Name q) snapId sc topo ps bytes
         | Some (SourceVolume _) => mret (Err codes.Unimplemented)
         | Some SourceUnset => mret (Err codes.Internal)
         end) (t, x) (fun r y => y.1 = t ∧ creation_answer q req ps None r y.2.1).
Proof.
  intros Hname Hn Hv Hs Hsc Hsource Hreq Hsize Hzone Hgroup Hsnap Hlock Hx.
  assert (Hcat : cdr_DiskCategory req ≠ "").
  { rewrite Hreq. cbn [cdr_DiskCategory]. destruct Hsc as [Hvalid _].
    by apply VolumeType_IsValid_iff in Hvalid as [-> | ->]. }
  assert (Htype : VolumeType_IsValid (StringToType (cdr_DiskCategory req)) = true).
  { rewrite Hreq. cbn [cdr_DiskCategory]. destruct Hsc as [Hvalid _]. by rewrite StringToType_String. }
  assert (Hnm : cdr_DiskName req = n) by (rewrite Hreq; done).
  assert (Hmade : ∀ source t1 x1, x1.1 = Some (new_disk req) →
    source = cv_VolumeContentSource q →
    sat P (cs.CreateVolume_created d v (ByteCeilToGib bytes) ps source) (t1, x1) (fun r y =>
      y.1 = t1 ∧ creation_answer q req ps None r y.2.1)).
  { intros source t1 x1 Hx1 ->. replace (ByteCeilToGib bytes) with (cdr_DiskSize req) by (by rewrite Hreq).
    eapply sat_mono; [by apply sat_created|]. intros r y (? & ? & ?). split_and!; done. }
  unfold planned_source in Hsource. destruct (cv_VolumeContentSource q) as [[u|u|]|]; try done.
  - destruct (_ && _) eqn:Hguard; [|done]. injection Hsource as Hu. rewrite <-Hu in *. cbn in Hsnap, Hlock.
    apply andb_true_iff in Hguard as [[Hcap Hne%negb_true_iff%String.eqb_neq]%andb_true_iff _].
    unfold cs.CreateVolume_from_snapshot. rewrite Hcap. cbn [negb].
    destruct (len u =? 0) eqn:Hlen; [by apply Z.eqb_eq, len_0 in Hlen|].
    apply (sat_with_free_lock _ u _ t x (fun r x' => creation_answer q req ps None r x'.1)); [done|].
    intros t1 _. apply sat_ask_try. intros r x1 [_ Hr]. destruct (Hr Hsnap Hne) as (-> & info & -> & Hok).
    cbn beta iota. rewrite Hok. cbn [negb]. apply sat_ask_try. intros r x1 [_ Hr1].
    rewrite <-Hreq in Hr1. destruct (Hr1 Hne Hnm) as [Hx1 ->]; [by rewrite <-Hu|done..|].
    cbn beta iota. by apply Hmade.
  - injection Hsource as Hu. rewrite <-Hu in *. unfold cs.CreateVolume_empty. cbv zeta.
    apply sat_ask_try. intros r x1 [_ Hr1].
    rewrite <-Hreq in Hr1. destruct (Hr1 Hnm) as [Hx1 ->]; [by rewrite <-Hu|done..|].
    cbn beta iota. by apply Hmade.
Qed.

(** A plan does not overflow. *)
Lemma plan_moderate q req ps :
  creation_plan g d q = Some (req, ps) → int64_range q → moderate (ReqCreateVolume q).
Proof.
  unfold creation_plan. intros Hplan Hrange r Hr. cbn in Hr. destruct (Hrange r Hr) as [H1 H2].
  split_and!; [done..|]. destruct (decide (RequiredBytes r <= 2 ^ 63 - Gib)) as [|Hbig]; [done|exfalso].
  destruct (cs.CreateVolume_check d q) as [[]|]; [|done].
  destruct (NewZecStorageClassFromMap g _) as [sc|] eqn:Hclass; [|done].
  apply NewZecStorageClassFromMap_wf in Hclass.
  destruct (planned_place d q sc) as [[zone ps']|]; [|done]. destruct (planned_source d q); [|done].
  rewrite Hr in Hplan. destruct (GetRequiredVolumeSizeByte _ _) as [bytes|] eqn:Hbytes; [|done].
  assert (Hlimit : LimitBytes r = 0 ∨ RequiredBytes r <= LimitBytes r).
  { unfold GetRequiredVolumeSizeByte in Hbytes. repeat case_match; simplify_eq; unfold is_int64 in *; lia. }
  rewrite GetRequired_overflow in Hbytes by (done || unfold is_int64, MaxInt64 in *; lia).
  injection Hbytes as <-. change (ByteCeilToGib (- 2 ^ 63) =? 0) with true in Hplan.
  by rewrite orb_true_r in Hplan.
Qed.

Lemma complete_create_locked q req ps t x :
  n = cv_Name q → n ≠ "" → v ≠ "" → serial ≠ "" → creation_plan g d q = Some (req, ps) →
  clear_keys (cv_Parameters q) → moderate (ReqCreateVolume q) →
  from_option (.∈ snaps) True (cdr_SnapshotId req) →
  from_option (.∉ locks t) True (cdr_SnapshotId req) →
  at_rest x.1 → from_option (made_by req) True x.1 →
  sat P (cs.CreateVolume_locked g d q) (t, x) (fun r y =>
    y.1 = t ∧ creation_answer q req ps x.1 r y.2.1).
Proof.
  intros Hname Hn Hv Hs Hplan Hkeys Hmod Hsnap Hlock Hx Hmade.
  unfold creation_plan in Hplan. destruct (cs.CreateVolume_check d q) as [[]|]; [|done].
  destruct (NewZecStorageClassFromMap g (map_to_list _)) as [sc|] eqn:Hclass; [|done].
  destruct (planned_place d q sc) as [[zone ps']|] eqn:Hplace; [|done].
  destruct (planned_source d q) as [source|] eqn:Hsource; [|done].
  destruct (GetRequiredVolumeSizeByte _ _) as [bytes|] eqn:Hbytes; [|done].
  destruct (String.eqb_spec zone "") as [|Hzone]; [done|].
  destruct (ByteCeilToGib bytes =? 0); [done|]. injection Hplan as <- <-.
  unfold cs.CreateVolume_locked. apply sat_range. intros order Ho.
  rewrite (storage_class_range g order _ Hkeys Ho), Hclass.
  pose proof (NewZecStorageClassFromMap_Ok g _ sc Hclass) as (_ & _ & Hsc & _ & _ & _ & _ & _ & _ & Hgroup).
  pose proof (required_size_wf sc _ bytes Hsc Hmod Hbytes) as Hsize.
  eapply sat_bind_mono; [by eapply sat_topology|]. intros ? ? (-> & topo & -> & Htopo). cbn beta iota.
  rewrite Hbytes, Htopo. apply sat_ask. intros found x1 [_ Hfound].
  destruct (Hfound (eq_sym Hname) Hx) as [Hx1 Hanswer]. destruct (x.1) as [k|] eqn:Hk.
  - pose proof Hmade as (Ht & Hbin & Hsz & Hnm & Hz & Hg & Hcat). cbn in Hsz, Hnm, Hz, Hg, Hcat.
    unfold of_search in Hanswer. rewrite Hnm, Hz, Hg, Hname, !String.eqb_refl in Hanswer.
    destruct Hanswer as (vol & -> & Hseen & Hser); [done|done|by rewrite Hcat|done|].
    cbn beta iota. apply sat_ret. split; [done|]. split; [done|].
    by eapply existing_answer.
  - rewrite Hanswer. cbn beta iota. subst zone. eapply sat_create_fresh; try done.
    unfold size_wf in Hsize. cbn. lia.
Qed.

Lemma plan_size q req ps :
  creation_plan g d q = Some (req, ps) → moderate (ReqCreateVolume q) → size_wf (cdr_DiskSize req).
Proof.
  unfold creation_plan. intros Hplan Hmod. destruct (cs.CreateVolume_check d q) as [[]|]; [|done].
  destruct (NewZecStorageClassFromMap g _) as [sc|] eqn:Hclass; [|done].
  destruct (planned_place d q sc) as [[zone ps']|]; [|done]. destruct (planned_source d q); [|done].
  destruct (GetRequiredVolumeSizeByte _ _) as [bytes|] eqn:Hbytes; [|done].
  destruct (_ || _); [done|]. injection Hplan as <- <-. cbn.
  eapply required_size_wf; [|exact Hmod|exact Hbytes].
  by apply NewZecStorageClassFromMap_Ok in Hclass as (_ & _ & ? & _).
Qed.

(** The plan's source is none of the name. *)
Lemma plan_facts q req ps :
  creation_plan g d q = Some (req, ps) →
  cs.CreateVolume_check d q = Ok tt ∧ cv_Name q ≠ "" ∧ cdr_SnapshotId req ≠ Some (cv_Name q).
Proof.
  unfold creation_plan. destruct (cs.CreateVolume_check d q) as [[]|] eqn:Hcheck; [|done].
  destruct (NewZecStorageClassFromMap g _) as [sc|]; [|done].
  destruct (planned_place d q sc) as [[zone ps']|]; [|done].
  destruct (planned_source d q) as [source|] eqn:Hsource; [|done].
  destruct (GetRequiredVolumeSizeByte _ _); [|done]. destruct (_ || _); [done|].
  intros [= <- <-]. split_and!; [done| |].
  - intros Hempty. unfold cs.CreateVolume_check in Hcheck. rewrite Hempty in Hcheck.
    destruct (negb _), (cv_VolumeCapabilities q); try done. by destruct (negb _).
  - cbn. unfold planned_source in Hsource. intros ->.
    destruct (cv_VolumeContentSource q) as [[u|u|]|]; try done.
    destruct (_ && _) eqn:Hguard; [|done]. injection Hsource as ->.
    apply andb_true_iff in Hguard as [_ Hne]. by rewrite String.eqb_refl in Hne.
Qed.

Lemma complete_create q req ps t x :
  n = cv_Name q → v ≠ "" → serial ≠ "" → creation_plan g d q = Some (req, ps) →
  clear_keys (cv_Parameters q) → moderate (ReqCreateVolume q) →
  from_option (.∈ snaps) True (cdr_SnapshotId req) →
  n ∉ locks t → from_option (.∉ locks t) True (cdr_SnapshotId req) →
  at_rest x.1 → from_option (made_by req) True x.1 →
  sat P (cs.CreateVolume g d q) (t, x) (fun r y => y.1 = t ∧ creation_answer q req ps x.1 r y.2.1).
Proof.
  intros Hname Hv Hs Hplan Hkeys Hmod Hsnap Hfree Hlock Hx Hmade.
  destruct (plan_facts q req ps Hplan) as (Hcheck & Hne & Hsource).
  unfold cs.CreateVolume. rewrite Hcheck, <-Hname.
  apply (sat_with_free_lock _ n _ t x (fun r x' => creation_answer q req ps x.1 r x'.1)); [done|].
  intros t1 Ht1. apply complete_create_locked; try done; [by rewrite Hname|].
  rewrite Ht1. destruct (cdr_SnapshotId req) as [u|]; [|done]. cbn in Hlock |- *.
  rewrite <-Hname in Hsource. set_unfold. intros [->|]; [by destruct Hsource|done].
Qed.
End handler.

(** ** The controller *)

Section controller.
Context (g : Globals) (d : DiskDriver) (cm : zecCloudManager) (Hcm : zecClient cm = true).
Context {W : Type} (hd : env CloudE W) (rt : ∀ R, RtE R → R) (machines : gset string) (n v serial : string) (snaps : gset string).
Context (state_of : W → pstate) (Hcloud : obeys hd state_of (creating_api machines n v serial snaps)).
Context (Hrt : ∀ R (o : RtE R), rt_ok R o (rt R o)).

Lemma serve_creation q req ps (s : ResourceLocks * W) :
  n = cv_Name q → v ≠ "" → serial ≠ "" → creation_plan g d q = Some (req, ps) →
  clear_keys (cv_Parameters q) → int64_range q →
  from_option (.∈ snaps) True (cdr_SnapshotId req) →
  n ∉ locks s.1 → from_option (.∉ locks s.1) True (cdr_SnapshotId req) →
  at_rest (state_of s.2).1 → from_option (made_by req) True (state_of s.2).1 →
  let '(r, s') := serve_request g d (zec_impl cm) hd rt (ReqCreateVolume q) s in
  s'.1 = s.1 ∧
  ∃ r1, r = match r1 with Ok a => Ok (RespVolume a) | Err e => Err e end ∧
        creation_answer d v serial q req ps (state_of s.2).1 r1 (state_of s'.2).1.
Proof.
  intros Hname Hv Hs Hplan Hkeys Hrange Hsnap Hfree Hlock Hx Hmade.
  pose proof (plan_moderate g d q req ps Hplan Hrange) as Hmod.
  destruct (plan_facts g d q req ps Hplan) as (_ & Hne & _).
  apply (served_over (creating_api machines n v serial snaps) (creating_manager machines n v serial snaps) g d (zec_impl cm)
    hd rt state_of (ReqCreateVolume q) s (fun r y => y.1 = s.1 ∧
      ∃ r1, r = match r1 with Ok a => Ok (RespVolume a) | Err e => Err e end ∧
            creation_answer d v serial q req ps (state_of s.2).1 r1 y.2.1));
    [by apply creating_refines; [|rewrite Hname|]|done..|].
  cbn [handle]. unfold respond. eapply sat_bind_mono; [by apply (complete_create g d machines n v serial snaps q req ps)|].
  intros r y [Ht Hr]. destruct r as [a|e]; apply sat_ret; (split; [done|]);
    [by exists (Ok a)|by exists (Err e)].
Qed.
End controller.
