(* ===== verification/Snap.v ===== *)
(** * A snapshot's life: a cloud that keeps up

    The cloud's view of the one snapshot [u] of the name [n], of the disk [v] (of
    [size] GiB, in the place [zone], [group]): where it is in its life, and the polls
    its task still needs.  [snap_api] is a cloud that does what it is asked for, in
    time; on it the operations of [zec_impl] on the snapshot succeed
    ([snap_refines]). *)

From S2P Require Import Prelude GoStd Prog ZecApi CloudTypes Machine Cloud Waiting.

Local Open Scope Z_scope.
Local Open Scope csi_scope.

Inductive phase : Set := Absent | Making | Ready | Dropping.

#[export] Instance phase_eq_dec : EqDecision phase.
Proof. solve_decision. Defined.

(** The phase in which the task, if there is one, is done. *)
Definition settle_phase (p : phase) : phase :=
  match p with Making => Ready | Dropping => Absent | p => p end.

Lemma settle_phase_idempotent p : settle_phase (settle_phase p) = settle_phase p.
Proof. by destruct p. Qed.

Abbreviation sstate := (phase * nat)%type.
Abbreviation spoll := (polled settle_phase).

Section snap.
Context (n v : string) (size : Z) (zone group u raw : string).

(** ** The cloud *)

Definition shows_snap (p : phase) (i : SnapshotInfo) : Prop :=
  si_SnapshotId i = Some u ∧ si_DiskId i = Some v ∧ si_CreateTime i = Some raw ∧
  ∃ st, si_Status i = Some st ∧ String.eqb st SnapStatusAvailable = bool_decide (p = Ready).

Definition lists_snap (p : phase) (pg : page SnapshotInfo) : Prop :=
  match p with
  | Absent => TotalCount pg = Some 0
  | p => ∃ i, pg = {| TotalCount := Some 1; DataSet := [Some i] |} ∧ shows_snap p i
  end.

Definition shows_source (i : DiskInfo) : Prop :=
  di_DiskId i = Some v ∧ di_DiskSize i = Some size ∧ di_ZoneId i = Some zone ∧
  di_ResourceGroupId i = Some group ∧ di_SnapshotAbility i = Some true.

Definition snap_search : DescribeSnapshotsRequest := snaps_by_name ("^" +:+ n +:+ "$") zone group 20 1.

Definition snap_op (R : Type) (o : ZecE R) (y : sstate) : R → sstate → Prop :=
  match o in ZecE R return R → sstate → Prop with
  | DescribeDisks req => fun r y' => req = disks_by_id v →
      y' = y ∧ ∃ i, r = Ok (Some {| TotalCount := Some 1; DataSet := [Some i] |}) ∧ shows_source i
  | CreateSnapshotApi resource name => fun r y' =>
      resource = v → name = n → y.1 = Absent → y'.1 = Making ∧ r = Ok (Some (Some u))
  | DeleteSnapshots ids => fun r y' => ids = [u] →
      match y.1 with
      | Ready => y'.1 = Dropping ∧ r = Ok (Some [])
      | Absent => y' = y ∧ r = Err (ZenlayerCloudSdkError INVALID_DISK_SNAPSHOT_NOT_FOUND)
      | _ => True
      end
  | DescribeSnapshots req => fun r y' => req = snaps_by_id u ∨ req = snap_search →
      y' = spoll y ∧ ∃ pg, r = Ok (Some pg) ∧ lists_snap y'.1 pg
  | _ => fun _ _ => True
  end.

Definition snap_api : machine CloudE sstate := fun R o y r y' =>
  match o in CloudE R return R → Prop with
  | Api a => fun r => snap_op _ a y r y'
  | SelectTicks timeout interval => fun k =>
      timeout = WaitStatusTimeout → interval = WaitStatusInterval → y' = y ∧ (y.2 < k)%nat
  end r.

(** ** What its cloud manager promises *)

Definition seen_source (x : ZecVolume) : Prop :=
  ZecVolume_Size x = size ∧ ZecVolume_Zone x = zone ∧ ZecVolume_ResourceGroupId x = group ∧
  ZecVolume_SnapshotAbility x = true.

Definition seen_snap (p : phase) (x : ZecVolumeSnap) : Prop :=
  ZecVolumeSnap_Id x = u ∧ ZecVolumeSnap_SrcDiskId x = v ∧ ZecVolumeSnap_CreateTime x = raw ∧
  String.eqb (ZecVolumeSnap_status x) SnapStatusAvailable = bool_decide (p = Ready).

(** What is found of the snapshot, in the phase after the poll. *)
Definition found_snap (p : phase) (x : option ZecVolumeSnap) : Prop :=
  match p with Absent => x = None | p => ∃ s, x = Some s ∧ seen_snap p s end.

Definition snap_manager : machine CmE sstate := fun R o y r y' =>
  match o in CmE R return R → Prop with
  | FindVolume w => fun r => w = v → y' = y ∧ ∃ x, r = Ok (Some x) ∧ seen_source x
  | FindSnapshotByName m src z g => fun r =>
      m = n → src = v → z = zone → g = group →
      y' = spoll y ∧ ∃ x, r = (x, None) ∧ found_snap y'.1 x
  | FindSnapshot w => fun r => w = u → y' = spoll y ∧ ∃ x, r = Ok x ∧ found_snap y'.1 x
  | CreateSnapshot m src => fun r => m = n → src = v → y.1 = Absent → y'.1 = Ready ∧ r = Ok u
  | DeleteSnapshot w => fun r => w = u → y.1 = Ready ∨ y.1 = Absent → y'.1 = Absent ∧ r = Ok tt
  | _ => fun _ => True
  end r.

(** ** The operations *)

Lemma sat_snap {R} (o : ZecE (sdk R)) {A} (k : result cerr R → cloud A) y Q :
  (∀ r y', snap_op _ o y r y' →
     sat snap_api (k (match r with Ok a => Ok a | Err e => Err (ErrApi e) end)) y' Q) →
  sat snap_api (api o ≫= k) y Q.
Proof.
  intros Hk. apply sat_bind, sat_bind, sat_call. intros r y' Hr. apply sat_ret. by apply Hk.
Qed.

Lemma ticks_snap : ticks_enough snap_api.
Proof. intros timeout interval y k y' H. exact H. Qed.

Lemma shows_seen_snap p i : shows_snap p i → seen_snap p (snap_of_info i).
Proof.
  intros (Hu & Hv & Hraw & st & Hst & Heq). unfold seen_snap, snap_of_info. cbn.
  by rewrite Hu, Hv, Hraw, Hst.
Qed.

(** The snapshot, described by its id. *)
Lemma sat_describe_snap {A} (k : result cerr (option (page SnapshotInfo)) → cloud A) y Q :
  (∀ pg, lists_snap (spoll y).1 pg → sat snap_api (k (Ok (Some pg))) (spoll y) Q) →
  sat snap_api (api (DescribeSnapshots (snaps_by_id u)) ≫= k) y Q.
Proof.
  intros Hk. apply sat_snap. intros r y' Hr. destruct (Hr (or_introl eq_refl)) as (-> & pg & -> & Hpg).
  by apply Hk.
Qed.

Lemma awaits_available : awaits_in settle_phase snap_api (snap_status_job u) tt Ready.
Proof.
  intros y Hy. apply sat_describe_snap. intros pg Hpg. rewrite <-(settle_polled _ settle_phase_idempotent) in Hy.
  destruct (spoll y) as [p k]. cbn [fst] in *.
  destruct p; try done; destruct Hpg as (i & -> & _ & _ & _ & st & Hst & Heq); cbn; rewrite Hst; cbn;
    rewrite Heq; apply sat_ret; auto.
Qed.

Lemma awaits_deleted : awaits_in settle_phase snap_api (snap_deleted_job u) tt Absent.
Proof.
  intros y Hy. apply sat_describe_snap. intros pg Hpg. rewrite <-(settle_polled _ settle_phase_idempotent) in Hy.
  destruct (spoll y) as [p k]. cbn [fst] in *. destruct pg as [tc ds].
  destruct p; try done; [cbn in Hpg; subst tc|destruct Hpg as (i & [= -> ->] & _)]; cbn; apply sat_ret; auto.
Qed.

Section operations.
Context (cm : zecCloudManager) (Hcm : zecClient cm = true) (Hn : n ≠ "") (Hv : v ≠ "") (Hu : u ≠ "").

Ltac guards := rewrite ?Hcm, ?(proj2 (String.eqb_neq n "") Hn), ?(proj2 (String.eqb_neq v "") Hv),
  ?(proj2 (String.eqb_neq u "") Hu); cbn [negb orb].

Lemma sat_wait_snap status f p y :
  waitDiskSnapStatus status u = (reject ErrArgs when String.eqb u "" ;; WaitFor f) →
  awaits_in settle_phase snap_api f tt p → settle_phase y.1 = p →
  sat snap_api (waitDiskSnapStatus status u) y (fun r y' => r = Ok tt ∧ y'.1 = p).
Proof.
  intros -> Hf Hy. guards.
  by apply (sat_WaitFor_in settle_phase _ settle_phase_idempotent ticks_snap).
Qed.

Lemma sat_CreateSnapshot_snap y :
  y.1 = Absent → sat snap_api (zec.CreateSnapshot cm n v) y (fun r y' => y'.1 = Ready ∧ r = Ok u).
Proof.
  intros Hy. unfold zec.CreateSnapshot. guards. apply sat_snap. intros r y1 Hr.
  destruct (Hr eq_refl eq_refl Hy) as [Hy1 ->]. cbn beta iota. eapply sat_bind_mono.
  - apply (sat_wait_snap _ (snap_status_job u)); [reflexivity|exact awaits_available|by rewrite Hy1].
  - intros r y' [-> Hy']. by apply sat_ret.
Qed.

Lemma sat_DeleteSnapshot_snap y :
  y.1 = Ready ∨ y.1 = Absent →
  sat snap_api (zec.DeleteSnapshot cm u) y (fun r y' => y'.1 = Absent ∧ r = Ok tt).
Proof.
  intros Hy. unfold zec.DeleteSnapshot. guards. apply sat_bind, sat_call. intros r y1 Hr.
  specialize (Hr eq_refl). destruct Hy as [Hy|Hy]; rewrite Hy in Hr; destruct Hr as [Hy1 ->].
  - cbn beta iota. eapply sat_bind_mono.
    + apply (sat_wait_snap _ (snap_deleted_job u)); [reflexivity|exact awaits_deleted|by rewrite Hy1].
    + intros r y' [-> Hy']. by apply sat_ret.
  - rewrite String.eqb_refl. apply sat_ret. by rewrite Hy1.
Qed.

Lemma sat_FindSnapshot_snap y :
  sat snap_api (zec.FindSnapshot cm u) y (fun r y' =>
    y' = spoll y ∧ ∃ x, r = Ok x ∧ found_snap y'.1 x).
Proof.
  unfold zec.FindSnapshot. guards. apply sat_describe_snap. intros pg Hpg.
  destruct (spoll y) as [p k]. cbn [fst] in *. destruct pg as [tc ds].
  destruct p; [cbn in Hpg; subst tc; apply sat_ret; split; [done|]; by exists None|..];
    destruct Hpg as (i & [= -> ->] & Hi); apply sat_ret; (split; [done|]); eexists;
    (split; [done|]); eexists; (split; [done|]); by apply shows_seen_snap.
Qed.

Lemma sat_FindSnapshotByName_snap y :
  sat snap_api (zec.FindSnapshotByName cm n v zone group) y (fun r y' =>
    y' = spoll y ∧ ∃ x, r = (x, None) ∧ found_snap y'.1 x).
Proof.
  unfold zec.FindSnapshotByName. guards. cbv zeta. apply sat_snap. intros r y' Hr.
  destruct (Hr (or_intror eq_refl)) as (-> & pg & -> & Hpg).
  destruct (spoll y) as [p k]. cbn [fst] in *. destruct pg as [tc ds].
  destruct p; [cbn in Hpg; subst tc; apply sat_ret; split; [done|]; by exists None|..];
    destruct Hpg as (i & [= -> ->] & Hi); apply sat_bind, sat_ret; apply sat_ret; (split; [done|]);
    pose proof (shows_seen_snap _ _ Hi) as Hs; pose proof Hs as (_ & Hsrc & _);
    cbn [pick_snapshot]; rewrite Hsrc, String.eqb_refl; eexists; (split; [done|]); by eexists.
Qed.

Lemma sat_FindVolume_source y :
  sat snap_api (zec.FindVolume cm v) y (fun r y' => y' = y ∧ ∃ x, r = Ok (Some x) ∧ seen_source x).
Proof.
  unfold zec.FindVolume. guards. apply sat_snap. intros r y' Hr.
  destruct (Hr eq_refl) as (-> & i & -> & Hi). apply sat_ret. split; [done|]. eexists. split; [done|].
  destruct Hi as (_ & Hs & Hz & Hg & Ha). unfold seen_source, volume_of_disk. cbn. by rewrite Hs, Hz, Hg, Ha.
Qed.
End operations.
End snap.

(** The zec manager keeps the promises of [snap_manager]. *)
Lemma snap_refines cm n v size zone group u raw :
  zecClient cm = true → n ≠ "" → v ≠ "" → u ≠ "" →
  refines (implemented (snap_api n v size zone group u raw) (zec_impl cm))
    (snap_manager n v size zone group u raw) id.
Proof.
  intros Hcm Hn Hv Hu R o y r y' H. unfold implemented in H. cbv [id].
  destruct o; cbn [snap_manager]; try done; cbn [zec_impl] in H.
  - intros ->. by apply (sat_FindVolume_source n v size zone group u raw cm Hcm Hv) in H.
  - intros ->. by apply (sat_FindSnapshot_snap n v size zone group u raw cm Hcm Hu) in H.
  - intros -> -> -> ->. by apply (sat_FindSnapshotByName_snap n v size zone group u raw cm Hcm Hn) in H.
  - intros -> -> Hy. revert H. by apply (sat_CreateSnapshot_snap n v size zone group u raw cm Hcm Hn Hv Hu).
  - intros -> Hy. revert H. by apply (sat_DeleteSnapshot_snap n v size zone group u raw cm Hcm Hu).
Qed.

(** ** A slow cloud of one snapshot

    Each task takes [lag] polls. *)

Section cloud.
Context (n v : string) (size : Z) (zone group u raw : string) (lag : nat).

Definition source_info : DiskInfo :=
  {| di_DiskId := Some v; di_DiskName := None; di_ZoneId := Some zone; di_DiskCategory := None;
     di_DiskSize := Some size; di_DiskStatus := Some DiskStatusAvailable; di_InstanceId := None;
     di_Serial := None; di_Portable := Some true; di_SnapshotAbility := Some true;
     di_ResourceGroupId := Some group |}.

Definition snap_info (p : phase) : SnapshotInfo :=
  {| si_SnapshotId := Some u; si_SnapshotName := Some n; si_ZoneId := Some zone;
     si_Status := Some (if decide (p = Ready) then SnapStatusAvailable else "CHANGING");
     si_DiskId := Some v; si_CreateTime := Some raw; si_DiskAbility := Some true;
     si_ResourceGroup := Some (Some group) |}.

Definition snap_page (p : phase) : page SnapshotInfo :=
  match p with
  | Absent => {| TotalCount := Some 0; DataSet := [] |}
  | p => {| TotalCount := Some 1; DataSet := [Some (snap_info p)] |}
  end.

Definition snap_sdk : env ZecE sstate := fun R o =>
  match o in ZecE R return sstate → R * sstate with
  | CreateSnapshotApi resource name => fun y =>
      if String.eqb resource v && String.eqb name n && bool_decide (y.1 = Absent)
      then (Ok (Some (Some u)), (Making, lag)) else (Err OtherError, y)
  | DeleteSnapshots ids => fun y =>
      match y.1 with
      | Ready => (Ok (Some []), (Dropping, lag))
      | _ => (Err (ZenlayerCloudSdkError INVALID_DISK_SNAPSHOT_NOT_FOUND), y)
      end
  | DescribeSnapshots req => fun y => (Ok (Some (snap_page (spoll y).1)), spoll y)
  | DescribeDisks req => fun y =>
      (Ok (Some {| TotalCount := Some 1; DataSet := [Some source_info] |}), y)
  | DescribeInstancesStatus _ => fun y => (Err OtherError, y)
  | DescribeInstances _ => fun y => (Err OtherError, y)
  | DescribeDiskRegions => fun y => (Ok (Some []), y)
  | DescribeZones => fun y => (Ok tt, y)
  | CreateDisks _ => fun y => (Err OtherError, y)
  | ReleaseDisk _ => fun y => (Err OtherError, y)
  | AttachDisks _ _ => fun y => (Err OtherError, y)
  | DetachDisks _ _ => fun y => (Err OtherError, y)
  | ResizeDisk _ _ => fun y => (Err OtherError, y)
  end.

Definition snap_cloud : env CloudE sstate := fun R o =>
  match o in CloudE R return sstate → R * sstate with
  | Api a => snap_sdk _ a
  | SelectTicks timeout interval => fun y => (S y.2 + Z.to_nat (timeout / interval), y)%nat
  end.

Lemma snap_page_lists p : lists_snap v u raw p (snap_page p).
Proof.
  destruct p; [done|..]; (eexists; split; [reflexivity|]); unfold shows_snap, snap_info; cbn;
    (split_and!; [done..|]); by eexists.
Qed.

Lemma snap_cloud_obeys : obeys snap_cloud id (snap_api n v size zone group u raw).
Proof.
  intros R o y. unfold id. destruct o as [R o|t i]; cbn; [|intros _ _; split; [done|lia]].
  destruct o; cbn [snap_op snap_sdk fst snd]; try done.
  - intros _. split; [done|]. eexists. split; [done|]. by split_and!.
  - intros -> -> Hy. rewrite Hy, !String.eqb_refl. by cbn.
  - intros _. by destruct (y.1).
  - intros _. split; [done|]. eexists. split; [done|]. apply snap_page_lists.
Qed.
End cloud.
