(* ===== verification/SnapComplete.v ===== *)
(** * The controller completes its snapshot requests

    [CreateSnapshot] and [DeleteSnapshot] on a cloud that keeps up ([snap_api]), with
    the lock free. *)

From S2P Require Import Prelude GoStd Csi Common Prog Locking Serve Driver ZecApi CloudTypes.
From S2P Require Import Machine Bracket Cloud Ctrl Controller System VolumeSpec VolumeRefine.
From S2P Require Import Waiting Complete Snap.

Local Open Scope Z_scope.
Local Open Scope csi_scope.

Lemma found_there v u raw p o :
  p ≠ Absent → found_snap v u raw p o → ∃ s, o = Some s ∧ seen_snap v u raw p s.
Proof. by destruct p. Qed.

(** What the handler checks before it takes the lock of the source. *)
Definition valid_snapshot (d : DiskDriver) (q : CreateSnapshotRequest) : bool :=
  ValidateControllerServiceRequest d ControllerRPC.CREATE_DELETE_SNAPSHOT &&
  negb (String.eqb (cs_Name q) "") && (len (cs_Name q) <=? 64).

Section handlers.
Context (d : DiskDriver) (n v : string) (size : Z) (zone group u raw : string) (ts : Timestamp).
Context (Hts : parseSnapCreationTime raw = mret ts).

Abbreviation P := (with_locks lock_table (handled (on_snd (snap_manager n v size zone group u raw)))).

(** The snapshot in the response: of the source disk, ready when it is. *)
Definition snapshot_in (p : phase) : Snapshot :=
  {| SnapshotId := u; SourceVolumeId := v; ReadyToUse := bool_decide (p = Ready);
     CreationTime := ts; SizeBytes := wrap64 (size * Gib) |}.

(** Where there is no snapshot one is made; else the request only looks at it. *)
Definition snapshot_answer (y : sstate) (r : rpc Snapshot) (y' : sstate) : Prop :=
  match y.1 with
  | Absent => y'.1 = Ready ∧ r = Ok (snapshot_in Ready)
  | Making | Ready => y' = spoll y ∧ r = Ok (snapshot_in y'.1)
  | Dropping => True
  end.

Lemma snapshot_described p s :
  seen_snap v u raw p s → cs.snapshot_response s size = mret (Ok (snapshot_in p)).
Proof.
  intros (Hu & Hv & Hraw & Hst). unfold cs.snapshot_response. rewrite Hraw, Hts, Hu, Hv, Hst. done.
Qed.

Lemma complete_create_snapshot q t y :
  n = cs_Name q → sat P (cs.create_snapshot_locked q v) (t, y) (fun r z => z.1 = t ∧ snapshot_answer y r z.2).
Proof.
  intros Hname. unfold cs.create_snapshot_locked. cbv zeta.
  apply sat_ask_try. intros r y1 Hr. destruct (Hr eq_refl) as (-> & x & -> & Hs & Hz & Hg & Ha).
  cbn beta iota. rewrite Ha. cbn [negb].
  apply sat_ask. intros found y1 Hf. destruct (Hf (eq_sym Hname) eq_refl Hz Hg) as (-> & o & -> & Hfound).
  unfold snapshot_answer. destruct (spoll y) as [p k] eqn:Hpoll. cbn [fst] in Hfound.
  assert (Hphase : p = match y.2 with O => settle_phase y.1 | _ => y.1 end).
  { unfold polled in Hpoll. destruct y.2; by injection Hpoll as <- <-. }
  destruct (decide (p = Absent)) as [->|Hthere].
  - cbn in Hfound. subst o. cbn beta iota.
    apply sat_range. intros order _. apply sat_ask_try. intros r1 y1 Hr1.
    destruct (Hr1 (eq_sym Hname) eq_refl eq_refl) as [Hy1 ->]. cbn beta iota.
    apply sat_ask_try. intros r2 y2 Hr2. destruct (Hr2 eq_refl) as (-> & o & -> & Ho).
    rewrite (polled_rest settle_phase y1) in Ho by (by rewrite Hy1). rewrite Hy1 in Ho.
    destruct Ho as (s & -> & Hs2). cbn beta iota. rewrite Hs, (snapshot_described _ _ Hs2).
    apply sat_ret. split; [done|]. cbn [snd].
    destruct (y.1); [|by destruct (y.2)..|done]. split; [|done].
    by rewrite (polled_rest settle_phase y1) by (by rewrite Hy1).
  - destruct (found_there _ _ _ _ _ Hthere Hfound) as (s & -> & Hs2).
    pose proof Hs2 as (_ & Hsrc & _). cbn beta iota.
    rewrite Hsrc, String.eqb_refl, Hs, (snapshot_described _ _ Hs2). apply sat_ret. split; [done|].
    cbn [snd fst]. by destruct (y.1), (y.2).
Qed.

Lemma complete_delete_snapshot t y :
  y.1 = Ready ∨ y.1 = Absent →
  sat P (cs.delete_snapshot_locked u) (t, y) (fun r z => z.1 = t ∧ r = Ok tt ∧ z.2.1 = Absent).
Proof.
  intros Hy. unfold cs.delete_snapshot_locked. apply sat_ask_try. intros r y1 Hr.
  destruct (Hr eq_refl) as (-> & o & -> & Ho). cbn beta iota.
  assert (Hpoll : (spoll y).1 = y.1) by (apply polled_rest; by destruct Hy as [-> | ->]).
  rewrite Hpoll in Ho. destruct (y.1) eqn:Hp; try (by destruct Hy).
  - cbn in Ho. subst o. cbn [is_nil]. apply sat_ret. cbn [fst snd]. by rewrite Hpoll.
  - destruct Ho as (s & -> & _). cbn [is_nil]. apply sat_ask_try. intros r2 y2 Hr2.
    destruct (Hr2 eq_refl) as [Hy2 ->]; [by left|]. cbn beta iota. by apply sat_ret.
Qed.

Lemma complete_CreateSnapshot q x t y :
  n = cs_Name q → valid_snapshot d q = true → ParseCsiVolId (cs_SourceVolumeId q) = Ok (v, x) →
  v ∉ locks t →
  sat P (cs.CreateSnapshot d q) (t, y) (fun r z => z.1 = t ∧ snapshot_answer y r z.2).
Proof.
  intros Hname Hvalid Hid Hlock. unfold cs.CreateSnapshot.
  apply andb_true_iff in Hvalid as [[Hcap Hne%negb_true_iff%String.eqb_neq]%andb_true_iff Hlen%Z.leb_le].
  rewrite Hcap, Hid. cbn [negb].
  destruct (len (cs_SourceVolumeId q) =? 0) eqn:H1.
  { apply Z.eqb_eq, len_0 in H1. by rewrite H1 in Hid. }
  destruct (len (cs_Name q) =? 0) eqn:H2; [by apply Z.eqb_eq, len_0 in H2|].
  rewrite (proj2 (Z.ltb_ge _ _) Hlen).
  apply (sat_with_free_lock _ v _ t y (fun r y' => snapshot_answer y r y')); [done|].
  intros t1 _. by apply complete_create_snapshot.
Qed.

Lemma complete_DeleteSnapshot t y :
  ValidateControllerServiceRequest d ControllerRPC.CREATE_DELETE_SNAPSHOT = true → u ≠ "" →
  u ∉ locks t → y.1 = Ready ∨ y.1 = Absent →
  sat P (cs.DeleteSnapshot d {| ds_SnapshotId := u |}) (t, y) (fun r z =>
    z.1 = t ∧ r = Ok tt ∧ z.2.1 = Absent).
Proof.
  intros Hcap Hu Hlock Hy. unfold cs.DeleteSnapshot. rewrite Hcap. cbn [negb ds_SnapshotId].
  destruct (len u =? 0) eqn:H1; [by apply Z.eqb_eq, len_0 in H1|].
  apply (sat_with_free_lock _ u _ t y (fun r y' => r = Ok tt ∧ y'.1 = Absent)); [done|].
  intros t1 _. by apply complete_delete_snapshot.
Qed.
End handlers.

(** ** The controller *)

Section controller.
Context (g : Globals) (d : DiskDriver) (cm : zecCloudManager) (Hcm : zecClient cm = true).
Context {W : Type} (hd : env CloudE W) (rt : ∀ R, RtE R → R).
Context (n v : string) (size : Z) (zone group u raw : string) (ts : Timestamp) (state_of : W → sstate).
Context (Hcloud : obeys hd state_of (snap_api n v size zone group u raw)).
Context (Hrt : ∀ R (o : RtE R), rt_ok R o (rt R o)).
Context (Hn : n ≠ "") (Hv : v ≠ "") (Hu : u ≠ "").

Definition served_snap q (s : ResourceLocks * W) Q := served_over _ _ g d (zec_impl cm) hd rt state_of q s Q
  (snap_refines cm n v size zone group u raw Hcm Hn Hv Hu) Hcloud Hrt.

Lemma serve_snapshot q x (s : ResourceLocks * W) :
  n = cs_Name q → parseSnapCreationTime raw = mret ts → valid_snapshot d q = true →
  ParseCsiVolId (cs_SourceVolumeId q) = Ok (v, x) → v ∉ locks s.1 →
  let '(r, s') := serve_request g d (zec_impl cm) hd rt (ReqCreateSnapshot q) s in
  s'.1 = s.1 ∧ ∃ r1, r = match r1 with Ok a => Ok (RespSnapshot a) | Err e => Err e end ∧
    snapshot_answer v size u ts (state_of s.2) r1 (state_of s'.2).
Proof.
  intros Hname Hts Hvalid Hid Hlock.
  apply (served_snap (ReqCreateSnapshot q) s (fun r y => y.1 = s.1 ∧
    ∃ r1, r = match r1 with Ok a => Ok (RespSnapshot a) | Err e => Err e end ∧
      snapshot_answer v size u ts (state_of s.2) r1 y.2)).
  cbn [handle]. unfold respond. eapply sat_bind_mono; [by eapply complete_CreateSnapshot|].
  intros [a|e] y [Hy Hr]; apply sat_ret; (split; [done|]); [by exists (Ok a)|by exists (Err e)].
Qed.

Lemma serve_snapshot_deletion (s : ResourceLocks * W) :
  ValidateControllerServiceRequest d ControllerRPC.CREATE_DELETE_SNAPSHOT = true → u ∉ locks s.1 →
  (state_of s.2).1 = Ready ∨ (state_of s.2).1 = Absent →
  let '(r, s') := serve_request g d (zec_impl cm) hd rt (ReqDeleteSnapshot {| ds_SnapshotId := u |}) s in
  s'.1 = s.1 ∧ r = Ok RespEmpty ∧ (state_of s'.2).1 = Absent.
Proof.
  intros Hcap Hlock Hy.
  apply (served_snap (ReqDeleteSnapshot {| ds_SnapshotId := u |}) s (fun r y =>
    y.1 = s.1 ∧ r = Ok RespEmpty ∧ y.2.1 = Absent)).
  cbn [handle]. unfold respond.
  eapply sat_bind_mono; [by apply (complete_DeleteSnapshot d n v size zone group u raw)|].
  intros r y (Hy1 & -> & Hy2). by apply sat_ret.
Qed.
End controller.
