(* ===== verification/Host.v ===== *)
(** * The node's operating system, as effects

    What the node server calls outside the repository: package [os] and
    [unix.Statfs], the commands it runs through [k8s.io/utils/exec], and the
    mounter of [k8s.io/mount-utils].  Each call is an operation of [HostE]; its
    answer is the environment's. *)

From S2P Require Import Prelude Prog.

Local Open Scope Z_scope.

(** ** Errors *)

(** An error of [os] or of the mounter, as far as [os.IsNotExist] tells. *)
Inductive oserr : Set := ErrNotExist | ErrOther.

(** An error of [Cmd.CombinedOutput]. *)
Inductive execerr : Set :=
| ErrExecutableNotFound
| ExitError (ExitStatus : Z)
| ExecOther.

(** An error of [File.Readdir]. *)
Inductive readerr : Set := EOF | ReadErr (e : oserr).

Definition IsNotExist (e : oserr) : bool := match e with ErrNotExist => true | ErrOther => false end.

(** ** Data *)

(** [os.FileMode] is a bit set. *)
Definition ModeDevice : Z := Z.shiftl 1 26.
Definition ModeCharDevice : Z := Z.shiftl 1 21.

(** The fields of [unix.Statfs_t] the driver reads: three [uint64] and an
    [int64]. *)
Record Statfs_t : Set := { Blocks : Z; Bfree : Z; Bavail : Z; Bsize : Z }.

Definition is_uint64 (z : Z) : Prop := 0 <= z < 2 ^ 64.

Definition Statfs_wf (s : Statfs_t) : Prop :=
  is_uint64 (Blocks s) ∧ is_uint64 (Bfree s) ∧ is_uint64 (Bavail s) ∧ is_int64 (Bsize s).

(** ** Effects *)

Inductive HostE : Type → Type :=
(** os, unix *)
| Stat (path : string) : HostE (result oserr Z)
| MkdirAll (path : string) (perm : Z) : HostE (result oserr unit)
| OpenCreate (path : string) (perm : Z) : HostE (result oserr unit)
| Close (path : string) : HostE (result oserr unit)
| Open (path : string) : HostE (result oserr unit)
| Readdir (path : string) (n : Z) : HostE (result readerr (list string))
| ReadFile (path : string) : HostE (result oserr string)
| Statfs (path : string) : HostE (result oserr Statfs_t)
(** exec: the combined output, and the error *)
| CombinedOutput (cmd : string) (args : list string) : HostE (string * option execerr)
(** mount-utils *)
| MountFs (source target fstype : string) (options : list string) : HostE (result oserr unit)
| IsLikelyNotMountPoint (path : string) : HostE (result oserr bool)
| IsMountPoint (path : string) : HostE (result oserr bool)
| CleanupMountPoint (path : string) (extensive : bool) : HostE (result oserr unit)
| GetDiskFormat (disk : string) : HostE (result oserr string)
| NeedResize (device mount : string) : HostE (result oserr bool)
| Resize (device mount : string) : HostE (result oserr bool).

Abbreviation host T := (prog HostE T).

(** The host answers anything of the right width. *)
Definition host_ok : answers HostE := fun R o =>
  match o in HostE R return R → Prop with
  | Statfs _ => fun r => match r with Ok s => Statfs_wf s | Err _ => True end
  | _ => fun _ => True
  end.

(** The calls that change the host.  The commands that only read are the three
    the driver reads from. *)
Definition modifies {R} (o : HostE R) : bool :=
  match o with
  | MkdirAll _ _ | OpenCreate _ _ | MountFs _ _ _ _ | CleanupMountPoint _ _ | Resize _ _ => true
  | CombinedOutput cmd _ =>
    negb (String.eqb cmd "lsblk" || String.eqb cmd "blockdev" || String.eqb cmd "blkid")
  | _ => false
  end.
