(* ===== verification/Mount.v ===== *)
(** * Package [common]: formatting and mounting

    Models [pkg/common/mount.go] ([FormatAndMount], [FormatNewDisk],
    [GetDiskFStypePTtype], [mkfsDefaultArgs]), and its two predicates on paths. *)

From S2P Require Import Prelude GoStd Prog Host.

Local Open Scope Z_scope.
Local Open Scope csi_scope.

(** The errors of [FormatAndMount]; their texts are only logged. *)
Inductive mount_err : Set :=
| FsckUncorrected
| MountFailed (e : oserr)
| FormatUnknown (e : oserr)
| UnformattedReadOnly
| MkfsFailed (e : execerr)
| OtherFilesystem (existingFormat : string).

(** ** Paths *)

(** An error other than "no such file" counts as a file that is there. *)
Definition IsFileExisting (filename : string) : host bool :=
  r ← call (Stat filename);
  mret (match r with Ok _ => true | Err e => negb (IsNotExist e) end).

(** [f.Close] is deferred: it comes after the directory is read. *)
Definition IsDirEmpty (name : string) : host (result oserr bool) :=
  f ← call (Open name);
  match f with
  | Err e => mret (Err e)
  | Ok _ =>
    r ← call (Readdir name 1);
    _ ← call (Close name);
    mret (match r with
          | Err EOF => Ok true
          | Err (ReadErr e) => Err e
          | Ok _ => Ok false
          end)
  end.

(** ** Formatting *)

Definition mkfsDefaultArgs (fstype source : string) : list string :=
  if String.eqb fstype "ext4" || String.eqb fstype "ext3"
  then ["-F"; "-m0"; "-E"; "nodiscard"; source]
  else if String.eqb fstype "xfs" then ["-f"; "-K"; source]
  else [].

Definition FormatNewDisk (readOnly : bool) (source fstype target : string)
    (mkfsOptions mountOptions : list string) : host (result mount_err unit) :=
  reject UnformattedReadOnly when readOnly ;;
  let fstype := if len fstype =? 0 then "ext4" else fstype in
  let args := match mkfsOptions with
              | [] => mkfsDefaultArgs fstype source
              | _ => mkfsOptions ++ [source]
              end in
  r ← call (CombinedOutput ("mkfs." +:+ fstype) args);
  match (r : string * option execerr).2 with
  | None =>
    m ← call (MountFs source target fstype mountOptions);
    mret (match m with Ok _ => Ok tt | Err e => Err (MountFailed e) end)
  | Some e => mret (Err (MkfsFailed e))
  end.

(** The lines of [blkid -o export]: the file system and partition table types. *)
Fixpoint blkid_lines (fstype pttype : string) (lines : list string) : result unit (string * string) :=
  match lines with
  | [] => Ok (fstype, pttype)
  | l :: rest =>
    if len l <=? 0 then blkid_lines fstype pttype rest else
    match Split l "="%char with
    | [key; value] =>
      if String.eqb key "TYPE" then blkid_lines value pttype rest else
      if String.eqb key "PTTYPE" then blkid_lines fstype value rest else
      blkid_lines fstype pttype rest
    | _ => Err tt
    end
  end.

Definition blkid_output (output : string) (err : option execerr) : result unit (string * string) :=
  match err with
  | Some (ExitError s) => if s =? 2 then Ok ("", "") else Err tt
  | Some _ => Err tt
  | None =>
    match blkid_lines "" "" (Split output (ascii_of_nat 10)) with
    | Err e => Err e
    | Ok (fstype, pttype) => if 0 <? len pttype then Ok (fstype, pttype) else Ok (fstype, "")
    end
  end.

Definition GetDiskFStypePTtype (disk : string) : host (result unit (string * string)) :=
  r ← call (CombinedOutput "blkid" ["-p"; "-s"; "TYPE"; "-s"; "PTTYPE"; "-o"; "export"; disk]);
  mret (blkid_output (r : string * option execerr).1 r.2).

(** ** Mounting *)

(** The loop that looks for the option [ro]. *)
Definition read_only (mountOptions : list string) : bool := existsb (String.eqb "ro") mountOptions.

(** What the outcome of [fsck -a] means: only uncorrected errors stop. *)
Definition fsck_outcome (err : option execerr) : result mount_err unit :=
  match err with
  | Some (ExitError status) => if status =? 4 then Err FsckUncorrected else Ok tt
  | _ => Ok tt
  end.

Definition check_device (source : string) (skip : bool) : host (result mount_err unit) :=
  if skip then mret (Ok tt) else
  r ← call (CombinedOutput "fsck" ["-a"; source]);
  mret (fsck_outcome (r : string * option execerr).2).

(** What is done when the disk does not mount. *)
Definition after_mount_error (readOnly : bool) (source target fstype : string)
    (mkfsOptions mountOptions : list string) (mountErr : oserr) : host (result mount_err unit) :=
  f ← call (GetDiskFormat source);
  match f with
  | Err e => mret (Err (FormatUnknown e))
  | Ok existingFormat =>
    if String.eqb existingFormat ""
    then FormatNewDisk readOnly source fstype target mkfsOptions mountOptions
    else if (len fstype =? 0) || String.eqb fstype existingFormat
    then mret (Err (MountFailed mountErr))
    else if String.eqb existingFormat "unknown data, probably partitions" then
      p ← GetDiskFStypePTtype source;
      let '(fsType, ptType) := match p with Ok x => x | Err _ => ("", "") end in
      if String.eqb fsType "" && String.eqb ptType "atari"
      then FormatNewDisk readOnly source fstype target mkfsOptions mountOptions
      else mret (Err (OtherFilesystem existingFormat))
    else mret (Err (OtherFilesystem existingFormat))
  end.

Definition FormatAndMount (source target fstype : string) (mkfsOptions mountOptions : list string)
    (omitFsCheck : bool) : host (result mount_err unit) :=
  let readOnly := read_only mountOptions in
  let mountOptions := match mountOptions with [] => ["defaults"] | _ => mountOptions end in
  try _ <- check_device source (readOnly || omitFsCheck) ;
  m ← call (MountFs source target fstype mountOptions);
  match m with
  | Ok _ => mret (Ok tt)
  | Err mountErr =>
    after_mount_error readOnly source target fstype mkfsOptions mountOptions mountErr
  end.
