(* ===== verification/MountProps.v ===== *)
(** * Formatting and mounting, call by call

    Which calls [FormatAndMount] may make after which answers ([mounting]), and
    what its success rests on. *)

From S2P Require Import Prelude GoStd Prog Host Mount.

Local Open Scope Z_scope.

(** The obligation on a call of the host: nothing for a call that only reads. *)
Definition host_obl (allows : list (event HostE) → ∀ R, HostE R → Prop)
    (h : list (event HostE)) (R : Type) (o : HostE R) : Prop :=
  modifies o = true → allows h R o.

Abbreviation watched allows := (hist host_ok (host_obl allows)).

Lemma watched_trace {A} allows (p : host A) Q t a :
  wp (watched allows) p Q [] → traces host_ok p t a →
  Q a t ∧ ∀ t1 R (o : HostE R) x t2,
    t = t1 ++ Event o x :: t2 → modifies o = true → allows t1 R o.
Proof.
  intros Hwp Ht. destruct (wp_hist_trace _ _ _ _ _ _ Hwp Ht) as [HQ Hobl].
  split; [done|]. intros t1 R o x t2 Heq. exact (Hobl _ _ _ Heq).
Qed.

Ltac walk_host := walk_with ltac:(cbn [pre hist]; unfold host_obl; cbn [modifies]).

(** ** What the host said of the device *)

(** The device holds no data: it has no format, or it is reported to have
    partitions and [blkid] sees an atari partition table and no file system. *)
Definition blank (source : string) (h : list (event HostE)) : Prop :=
  Event (GetDiskFormat source) (Ok "") ∈ h ∨
  Event (GetDiskFormat source) (Ok "unknown data, probably partitions") ∈ h ∧
  ∃ out err, Event (CombinedOutput "blkid"
                      ["-p"; "-s"; "TYPE"; "-s"; "PTTYPE"; "-o"; "export"; source]) (out, err) ∈ h ∧
             blkid_output out err = Ok ("", "atari").

Definition mount_failed (source target : string) (h : list (event HostE)) : Prop :=
  ∃ fstype options e, Event (MountFs source target fstype options) (Err e) ∈ h.

Lemma mount_failed_snoc source target h ev :
  mount_failed source target h → mount_failed source target (h ++ [ev]).
Proof. intros (fs & os & e & H). unfold mount_failed. eauto with history. Qed.

#[local] Hint Resolve mount_failed_snoc : history.

(** What is mounted: [ext4] unless a type is asked for, with the options asked
    for, [defaults] standing for none. *)
Definition used_fstype (fstype : string) : string := if len fstype =? 0 then "ext4" else fstype.
Definition used_options (options : list string) : list string :=
  match options with [] => ["defaults"] | _ => options end.

(** The calls of [FormatAndMount] that change something, and when. *)
Definition mounting (source target fstype : string) (mkfsOptions options : list string)
    (omitFsCheck : bool) (h : list (event HostE)) (R : Type) (o : HostE R) : Prop :=
  match o with
  | CombinedOutput cmd args =>
    ("ro" ∉ options) ∧
    (cmd = "fsck" ∧ args = ["-a"; source] ∧ omitFsCheck = false ∨
     cmd = "mkfs." +:+ used_fstype fstype ∧
     args = match mkfsOptions with
            | [] => mkfsDefaultArgs (used_fstype fstype) source
            | _ => mkfsOptions ++ [source]
            end ∧
     mount_failed source target h ∧ blank source h)
  | MountFs s t fs os =>
    s = source ∧ t = target ∧ (fs = fstype ∨ fs = used_fstype fstype) ∧ os = used_options options
  | _ => False
  end.

Lemma read_only_spec options : read_only options = false → "ro" ∉ options.
Proof.
  unfold read_only. intros Hro Hin. induction options as [|o options IH]; [by apply not_elem_of_nil in Hin|].
  cbn [existsb] in Hro. apply orb_false_iff in Hro as [Ho Hro].
  apply elem_of_cons in Hin as [<-|Hin]; [|eauto]. done.
Qed.

Section wp.
Context (source target fstype : string).
Context (mkfsOptions options : list string) (omit : bool).

(** A result, and the call that a success ends with. *)
Definition ends_mounted (r : result mount_err unit) (h : list (event HostE)) : Prop :=
  r = Ok tt → ∃ h0 fs, (fs = fstype ∨ fs = used_fstype fstype) ∧
    h = h0 ++ [Event (MountFs source target fs (used_options options)) (Ok tt)].

Lemma wp_FormatNewDisk h :
  mount_failed source target h → blank source h →
  wp (watched (mounting source target fstype mkfsOptions options omit))
    (FormatNewDisk (read_only options) source fstype target mkfsOptions (used_options options))
    ends_mounted h.
Proof.
  intros Hm Hb. unfold FormatNewDisk. walk_host.
  all: unfold ends_mounted; try done.
  - intros _. split; [by apply read_only_spec|right; by repeat split].
  - intros _. split_and!; [done..|by right|done].
  - destruct r0 as [[]|e]; [|done]. intros _. eexists _, _. split; [by right|done].
Qed.

#[local] Opaque FormatNewDisk.

Lemma wp_after_mount_error h e :
  mount_failed source target h →
  wp (watched (mounting source target fstype mkfsOptions options omit))
    (after_mount_error (read_only options) source target fstype mkfsOptions
       (used_options options) e) ends_mounted h.
Proof.
  intros Hm. unfold after_mount_error. walk_host.
  all: try apply wp_FormatNewDisk; unfold ends_mounted; eauto with history; try done.
  - apply String.eqb_eq in Heqb as ->. left. apply in_snoc.
  - apply String.eqb_eq in Heqb1 as ->. apply andb_true_iff in Heqb2 as [Hs Hs0].
    apply String.eqb_eq in Hs as ->, Hs0 as ->. destruct r0 as [out err]. right.
    split; [eauto with history|]. exists out, err. split; [apply in_snoc|].
    simpl in Heqp. destruct (blkid_output out err); congruence.
Qed.

#[local] Opaque after_mount_error.

Lemma wp_FormatAndMount h :
  wp (watched (mounting source target fstype mkfsOptions options omit))
    (FormatAndMount source target fstype mkfsOptions options omit) ends_mounted h.
Proof.
  walk_host.
  all: try apply wp_after_mount_error; unfold ends_mounted, mount_failed;
    eauto with history; try done.
  all: try (intros _; split_and!; solve [auto]).
  all: try (match goal with u : unit |- _ => destruct u end; intros _; eexists _, fstype; by split; [left|]).
  apply orb_false_iff in Heqb as [? ->]. intros _. split; [by apply read_only_spec|by left].
Qed.
End wp.
