(* ===== verification/Node.v ===== *)
(** * Package [rpcserver]: the node server

    Models [pkg/disk/rpcserver/nodeserver.go]: one definition per handler.  A
    handler checks its request, takes the volume's lock and runs a program over
    the host ([HostE]).  [FeatureGates] is the global of types.go. *)

From S2P Require Import Prelude GoStd Csi Common Prog Locking Driver CloudTypes Host Mount.

Local Open Scope Z_scope.
Local Open Scope csi_scope.

Abbreviation node T := (prog (Locked HostE) T).

(** An error of the host, mapped to a status code. *)
Definition host_try {R} (c : codes.code) (o : HostE (result oserr R)) : host (rpc R) :=
  r ← call o;
  mret (match r with Ok x => Ok x | Err _ => Err c end).

(** ** Devices *)

(** [fi.Mode()&os.ModeDevice != 0 && fi.Mode()&os.ModeCharDevice == 0]. *)
Definition is_block_mode (mode : Z) : bool :=
  negb (Z.land mode ModeDevice =? 0) && (Z.land mode ModeCharDevice =? 0).

Definition isBlockDevicePath (volumePath : string) : host (result oserr bool) :=
  r ← call (Stat volumePath);
  mret (match r with Ok mode => Ok (is_block_mode mode) | Err e => Err e end).

Definition checkfsType (fsType : string) : bool :=
  String.eqb fsType "ext4" || String.eqb fsType "xfs" || String.eqb fsType "ext3".

Definition serial_path (dev : string) : string :=
  "/sys/block/" +:+ dev +:+ "/device/block/" +:+ dev +:+ "/serial".

(** The loop over the devices; [devpath] is the path found so far. *)
Fixpoint find_serial (serial devpath : string) (devlist : list string)
    : host (result unit string) :=
  match devlist with
  | [] => mret (if String.eqb devpath "" then Err tt else Ok devpath)
  | dev :: rest =>
    if String.eqb dev "" then find_serial serial devpath rest else
    r ← call (ReadFile (serial_path dev));
    match r with
    | Err _ => find_serial serial devpath rest
    | Ok devserialRaw =>
      if String.eqb (TrimSpace devserialRaw) serial then
        if negb (String.eqb devpath "") then mret (Err tt) else
        find_serial serial ("/dev/" +:+ dev) rest
      else find_serial serial devpath rest
    end
  end.

Definition getDevPathBySerial (serial : string) : host (result unit string) :=
  r ← call (CombinedOutput "lsblk" ["-d"; "-o"; "NAME"; "-n"; "-i"]);
  let '(outputb, err) := (r : string * option execerr) in
  match err with
  | Some _ => mret (Err tt)
  | None => find_serial serial "" (Split (TrimSpace outputb) (ascii_of_nat 10))
  end.

Definition getBlockSizeBytes (devicePath : string) : host (result unit Z) :=
  r ← call (CombinedOutput "blockdev" ["--getsize64"; devicePath]);
  let '(output, err) := (r : string * option execerr) in
  mret (match err with
        | Some _ => Err tt
        | None => match ParseInt (TrimSpace output) with Some n => Ok n | None => Err tt end
        end).

Definition createTargetMountPathIfNotExists (mountPath : string) (isBlockMode : bool)
    : host (result oserr unit) :=
  r ← call (Stat mountPath);
  match r with
  | Ok _ => mret (Ok tt)
  | Err e =>
    reject e when negb (IsNotExist e) ;;
    if isBlockMode then
      try _ <- call (OpenCreate mountPath 488) ;
      call (Close mountPath)
    else call (MkdirAll mountPath 488)
  end.

(** [mnt.MountFlags], once for each gate that enables mount options. *)
Definition gated_flags (g : Globals) (flags : list string) : list string :=
  flat_map (fun item => if String.eqb item FEAT_MOUNTOPT_ENABLE then flags else [])
    (FeatureGates g).

(** [GetVolumeCapability().GetMount()]: the file system type and the flags. *)
Definition GetMount (cap : VolumeCapability) : option (string * list string) :=
  match AccessType_ cap with Some (Mount fs flags) => Some (fs, flags) | _ => None end.

Definition fs_type (mnt : option (string * list string)) : string :=
  match mnt with
  | Some (fs, _) => if negb (String.eqb fs "") then fs else "ext4"
  | None => "ext4"
  end.

Module ns.
Section node.
Context (g : Globals) (d : DiskDriver).

(** ** NodePublishVolume *)

Definition is_mounted (targetPath : string) (isBlockMode : bool) : host (rpc bool) :=
  if isBlockMode then host_try codes.Internal (IsMountPoint targetPath)
  else
    try notMnt <- host_try codes.Internal (IsLikelyNotMountPoint targetPath) ;
    mret (Ok (negb notMnt)).

Definition publish_options (req : NodePublishVolumeRequest) (cap : VolumeCapability) : list string :=
  ["bind"] ++ (if np_Readonly req then ["ro"] else []) ++
  match GetMount cap with
  | Some (_, flags) => if negb (is_block cap) then gated_flags g flags else []
  | None => []
  end.

Definition publish_locked (req : NodePublishVolumeRequest) (cap : VolumeCapability)
    (serial : string) : host (rpc unit) :=
  let targetPath := np_TargetPath req in
  let isBlockMode := is_block cap in
  try stagePath <-
    (if isBlockMode then
       r ← getDevPathBySerial serial;
       mret (match r with Ok p => Ok p | Err _ => Err codes.NotFound end)
     else mret (Ok (np_StagingTargetPath req))) ;
  let fsType := fs_type (GetMount cap) in
  reject codes.InvalidArgument when negb (checkfsType fsType) ;;
  r ← createTargetMountPathIfNotExists targetPath isBlockMode;
  match r with
  | Err _ => mret (Err codes.Internal)
  | Ok _ =>
    try alreadyMounted <- is_mounted targetPath isBlockMode ;
    if (alreadyMounted : bool) then mret (Ok tt) else
    host_try codes.Internal (MountFs stagePath targetPath fsType (publish_options req cap))
  end.

Definition NodePublishVolume (req : NodePublishVolumeRequest) : node (rpc unit) :=
  reject codes.InvalidArgument when len (np_VolumeId req) =? 0 ;;
  reject codes.InvalidArgument when len (np_TargetPath req) =? 0 ;;
  match np_VolumeCapability req with
  | None => mret (Err codes.InvalidArgument)
  | Some cap =>
    reject codes.FailedPrecondition when negb (ValidateVolumeCapability d cap) ;;
    reject codes.FailedPrecondition when len (np_StagingTargetPath req) =? 0 ;;
    match ParseCsiVolId (np_VolumeId req) with
    | Err _ => mret (Err codes.NotFound)
    | Ok (volId, serial) => with_lock volId (lift (publish_locked req cap serial))
    end
  end.

(** ** NodeUnpublishVolume, NodeUnstageVolume *)

(** The key of the lock when the volume id need not parse. *)
Definition lock_key (VolumeId : string) : string :=
  match ParseCsiVolId VolumeId with Ok (volId, _) => volId | Err _ => VolumeId end.

Definition NodeUnpublishVolume (req : NodeUnpublishVolumeRequest) : node (rpc unit) :=
  reject codes.InvalidArgument when len (nu_TargetPath req) =? 0 ;;
  reject codes.InvalidArgument when len (nu_VolumeId req) =? 0 ;;
  with_lock (lock_key (nu_VolumeId req))
    (lift (host_try codes.Internal (CleanupMountPoint (nu_TargetPath req) true))).

Definition NodeUnstageVolume (req : NodeUnstageVolumeRequest) : node (rpc unit) :=
  reject codes.Unimplemented when negb (ValidateNodeServiceRequest d NodeRPC.STAGE_UNSTAGE_VOLUME) ;;
  reject codes.InvalidArgument when len (nt_VolumeId req) =? 0 ;;
  reject codes.InvalidArgument when len (nt_StagingTargetPath req) =? 0 ;;
  with_lock (lock_key (nt_VolumeId req))
    (lift (host_try codes.Internal (CleanupMountPoint (nt_StagingTargetPath req) true))).

(** ** NodeStageVolume *)

(** The staging path is made when it is missing. *)
Definition not_mounted (targetPath : string) : host (rpc bool) :=
  r ← call (IsLikelyNotMountPoint targetPath);
  match r with
  | Ok notMnt => mret (Ok notMnt)
  | Err e =>
    if IsNotExist e then
      try _ <- host_try codes.Internal (MkdirAll targetPath 488) ;
      mret (Ok true)
    else mret (Err codes.Internal)
  end.

(** The file system grows to its device; a failure to find out is ignored. *)
Definition resize_if_needed (devicePath targetPath : string) : host (rpc unit) :=
  r ← call (NeedResize devicePath targetPath);
  match r with
  | Ok true => try _ <- host_try codes.Internal (Resize devicePath targetPath) ; mret (Ok tt)
  | _ => mret (Ok tt)
  end.

(** The device is found, formatted if need be, mounted and grown. *)
Definition stage_device (targetPath fsType serial : string) (flags : list string)
    : host (rpc unit) :=
  r ← getDevPathBySerial serial;
  match r with
  | Err _ => mret (Err codes.NotFound)
  | Ok devicePath =>
    m ← FormatAndMount devicePath targetPath fsType [] (gated_flags g flags) false;
    match m with
    | Err _ => mret (Err codes.Internal)
    | Ok _ => resize_if_needed devicePath targetPath
    end
  end.

Definition stage_locked (req : NodeStageVolumeRequest) (cap : VolumeCapability) (serial : string)
    : host (rpc unit) :=
  let targetPath := ns_StagingTargetPath req in
  match GetMount cap with
  | None => mret (Err codes.InvalidArgument)
  | Some (fs, flags) =>
    let fsType := fs_type (Some (fs, flags)) in
    reject codes.InvalidArgument when negb (checkfsType fsType) ;;
    try notMnt <- not_mounted targetPath ;
    if negb notMnt then mret (Ok tt) else stage_device targetPath fsType serial flags
  end.

Definition NodeStageVolume (req : NodeStageVolumeRequest) : node (rpc unit) :=
  reject codes.Unimplemented when negb (ValidateNodeServiceRequest d NodeRPC.STAGE_UNSTAGE_VOLUME) ;;
  reject codes.InvalidArgument when len (ns_VolumeId req) =? 0 ;;
  reject codes.InvalidArgument when len (ns_StagingTargetPath req) =? 0 ;;
  match ns_VolumeCapability req with
  | None => mret (Err codes.InvalidArgument)
  | Some cap =>
    match ParseCsiVolId (ns_VolumeId req) with
    | Err _ => mret (Err codes.NotFound)
    | Ok (volId, serial) =>
      if is_block cap then mret (Ok tt) else
      with_lock volId (lift (stage_locked req cap serial))
    end
  end.

(** ** NodeExpandVolume *)

Definition expand_locked (req : NodeExpandVolumeRequest) (serial : string) (reqSizeBytes : Z)
    : host (rpc NodeExpandVolumeResponse) :=
  r ← getDevPathBySerial serial;
  match r with
  | Err _ => mret (Err codes.NotFound)
  | Ok devicePath =>
    try ok <- host_try codes.Internal (Resize devicePath (ne_VolumePath req)) ;
    reject codes.Internal when negb ok ;;
    b ← getBlockSizeBytes devicePath;
    match b with
    | Err _ => mret (Err codes.Internal)
    | Ok blkSizeBytes =>
      reject codes.Internal when blkSizeBytes <? reqSizeBytes ;;
      mret (Ok {| ner_CapacityBytes := blkSizeBytes |})
    end
  end.

(** Without a capability, the path tells whether the volume is a block device. *)
Definition expand_block_mode (req : NodeExpandVolumeRequest) : host (rpc bool) :=
  match ne_VolumeCapability req with
  | Some cap => mret (Ok (is_block cap))
  | None =>
    r ← isBlockDevicePath (ne_VolumePath req);
    mret (match r with Ok b => Ok b | Err _ => Err codes.NotFound end)
  end.

Definition NodeExpandVolume (req : NodeExpandVolumeRequest) : node (rpc NodeExpandVolumeResponse) :=
  reject codes.InvalidArgument when len (ne_VolumeId req) =? 0 ;;
  reject codes.InvalidArgument when len (ne_VolumePath req) =? 0 ;;
  try isBlockMode <- lift (expand_block_mode req) ;
  if (isBlockMode : bool) then mret (Ok {| ner_CapacityBytes := 0 |}) else
  match GetRequestSizeBytes (ne_CapacityRange req) with
  | Err _ => mret (Err codes.OutOfRange)
  | Ok reqSizeBytes =>
    match ParseCsiVolId (ne_VolumeId req) with
    | Err _ => mret (Err codes.NotFound)
    | Ok (volId, serial) => with_lock volId (lift (expand_locked req serial reqSizeBytes))
    end
  end.

(** ** NodeGetInfo, NodeGetCapabilities *)

Definition NodeGetInfo : rpc NodeGetInfoResponse :=
  match VmTypeName !! BasicVmType with
  | None => Err codes.InvalidArgument
  | Some vmType =>
    Ok {| ni_NodeId := d_nodeId d; ni_MaxVolumesPerNode := d_maxVolume d;
          ni_AccessibleTopology :=
            <[GetTopologyZoneKey d := d_zoneId d]> {[ GetTopologyVmTypeKey d := vmType ]} |}
  end.

Definition NodeGetCapabilities : list Z := d_nodeCap d.

(** ** NodeGetVolumeStats *)

(** [int64(n * uint64(bsize))]. *)
Definition blocks_bytes (n bsize : Z) : Z := wrap64 (wrapu64 (n * wrapu64 bsize)).

Definition fs_usage (stat : Statfs_t) : VolumeUsage :=
  let totalB := blocks_bytes (Blocks stat) (Bsize stat) in
  let freeB := blocks_bytes (Bfree stat) (Bsize stat) in
  let availB := blocks_bytes (Bavail stat) (Bsize stat) in
  {| Available := availB; Total := totalB; Used := wrap64 (totalB - freeB) |}.

Definition NodeGetVolumeStats (req : NodeGetVolumeStatsRequest) : host (rpc VolumeUsage) :=
  reject codes.InvalidArgument when len (ng_VolumeId req) =? 0 ;;
  reject codes.InvalidArgument when len (ng_VolumePath req) =? 0 ;;
  r ← isBlockDevicePath (ng_VolumePath req);
  match r with
  | Err _ => mret (Err codes.NotFound)
  | Ok true =>
    b ← getBlockSizeBytes (ng_VolumePath req);
    mret (match b with
          | Ok blockSize => Ok {| Available := 0; Total := blockSize; Used := 0 |}
          | Err _ => Err codes.Internal
          end)
  | Ok false =>
    try stat <- host_try codes.Internal (Statfs (ng_VolumePath req)) ;
    mret (Ok (fs_usage stat))
  end.
End node.
End ns.
