(* ===== verification/NodeProps.v ===== *)
(** * The node's handlers, call by call

    The devices that [getDevPathBySerial] finds, which calls of the host each
    handler may make after which answers, and the node server as a [server] of
    concurrent requests. *)

From S2P Require Import Prelude GoStd Csi Common Prog Locking Serve Driver CloudTypes.
From S2P Require Import Host Mount MountProps Node.

Local Open Scope Z_scope.

(** ** The device with a serial *)

(** The devices that [lsblk] lists. *)
Definition listed (output : string) : list string :=
  List.filter (fun dev => negb (String.eqb dev "")) (Split (TrimSpace output) (ascii_of_nat 10)).

(** The devices of a listing, each with what was read of its serial file, that
    have a serial. *)
Definition has_serial (serial : string) (x : string * result oserr string) : bool :=
  match x.2 with
  | Ok raw => String.eqb (TrimSpace raw) serial
  | Err _ => false
  end.

Definition with_serial (serial : string) (reads : list (string * result oserr string)) : list string :=
  fst <$> List.filter (has_serial serial) reads.

Definition read_serial (x : string * result oserr string) : event HostE :=
  Event (ReadFile (serial_path x.1)) x.2.

Definition found_so_far (devpath : string) : list string :=
  if String.eqb devpath "" then [] else [devpath].

(** The search succeeds when it has read the serials of all the devices and one
    has the serial. *)
Definition search_found (serial devpath : string) (devlist : list string)
    (t : list (event HostE)) (path : string) : Prop :=
  ∃ reads, reads.*1 = List.filter (fun dev => negb (String.eqb dev "")) devlist ∧
    t = read_serial <$> reads ∧
    found_so_far devpath ++ (String.append "/dev/" <$> with_serial serial reads) = [path].

Lemma search_found_cons serial devpath dev rest t path :
  dev ≠ "" →
  search_found serial devpath (dev :: rest) t path ↔
  ∃ r t', t = read_serial (dev, r) :: t' ∧
    if has_serial serial (dev, r) then devpath = "" ∧ search_found serial ("/dev/" +:+ dev) rest t' path
    else search_found serial devpath rest t' path.
Proof.
  intros Hdev. unfold search_found. cbn [List.filter].
  destruct (String.eqb_spec dev ""); [done|]. cbn [negb]. split.
  - intros ([|[dev' r] reads] & Hr & -> & Hp); simplify_eq/=.
    exists r, (read_serial <$> reads). split; [done|].
    revert Hp. unfold with_serial, found_so_far. cbn [List.filter].
    destruct (has_serial serial (dev, r)); csimpl; [|by eauto].
    destruct (String.eqb_spec devpath ""); [|done]. eauto.
  - intros (r & t' & -> & H). revert H. unfold with_serial, found_so_far.
    destruct (has_serial serial (dev, r)) eqn:Hm.
    + intros (-> & reads & Hr & -> & Hp). exists ((dev, r) :: reads). csimpl.
      cbn [List.filter]. rewrite Hm, Hr. done.
    + intros (reads & Hr & -> & Hp). exists ((dev, r) :: reads). csimpl.
      cbn [List.filter]. rewrite Hm, Hr. done.
Qed.

Lemma find_serial_Ok serial devpath devlist t path :
  traces host_ok (find_serial serial devpath devlist) t (Ok path) ↔
  search_found serial devpath devlist t path.
Proof.
  revert devpath t. induction devlist as [|dev rest IH]; intros devpath t.
  - unfold search_found, found_so_far. simpl. destruct (String.eqb_spec devpath "") as [->|Hne]; split.
    + by intros [_ ?].
    + intros (reads & Hr & _ & Hp). apply fmap_nil_inv in Hr as ->. done.
    + intros [-> [= <-]]. by exists [].
    + intros (reads & Hr & -> & Hp). apply fmap_nil_inv in Hr as ->. simpl in Hp. by simplify_eq.
  - cbn [find_serial]. destruct (String.eqb_spec dev "") as [->|Hne]; [apply IH|].
    rewrite search_found_cons by done. apply exist_proper. intros r. apply exist_proper. intros t'.
    apply and_iff_compat_l. unfold has_serial. destruct r as [raw|e]; simpl; [|rewrite <-IH; tauto].
    destruct (String.eqb (TrimSpace raw) serial); rewrite <-IH; [|tauto].
    destruct (String.eqb_spec devpath "") as [->|]; simpl; [tauto|].
    split; [intros (_ & _ & ?)|intros [? _]]; done.
Qed.

Lemma getDevPathBySerial_Ok serial t path :
  traces host_ok (getDevPathBySerial serial) t (Ok path) ↔
  ∃ output reads dev, reads.*1 = listed output ∧ with_serial serial reads = [dev] ∧
    path = "/dev/" +:+ dev ∧
    t = Event (CombinedOutput "lsblk" ["-d"; "-o"; "NAME"; "-n"; "-i"]) (output, None) ::
        (read_serial <$> reads).
Proof.
  unfold getDevPathBySerial. simpl. split.
  - intros ([output [err|]] & t' & -> & _ & Ht); [by destruct Ht|].
    apply find_serial_Ok in Ht as (reads & Hr & -> & Hp). simpl in Hp.
    destruct (with_serial serial reads) as [|dev [|]] eqn:Hd; simplify_eq/=.
    exists output, reads, dev. eauto.
  - intros (output & reads & dev & Hr & Hd & -> & ->).
    exists (output, None), (read_serial <$> reads). split_and!; [done..|].
    apply find_serial_Ok. exists reads. split_and!; [done..|]. simpl. by rewrite Hd.
Qed.

(** The device was found in the history: the devices were listed, all their
    serials were read, and it is the only one with this serial. *)
Definition serial_search (serial path : string) (t : list (event HostE)) : Prop :=
  ∃ output reads dev, reads.*1 = listed output ∧ with_serial serial reads = [dev] ∧
    path = "/dev/" +:+ dev ∧
    t = Event (CombinedOutput "lsblk" ["-d"; "-o"; "NAME"; "-n"; "-i"]) (output, None) ::
        (read_serial <$> reads).

Definition located (serial path : string) (h : list (event HostE)) : Prop :=
  ∃ h0 t h1, h = h0 ++ t ++ h1 ∧ serial_search serial path t.

Lemma located_app serial path h t : located serial path h → located serial path (h ++ t).
Proof. intros (h0 & t0 & h1 & -> & Ht). exists h0, t0, (h1 ++ t). by rewrite <-!app_assoc. Qed.

Lemma located_after serial path h t : located serial path h → located serial path (t ++ h).
Proof. intros (h0 & t0 & h1 & -> & Ht). exists (t ++ h0), t0, h1. by rewrite <-!app_assoc. Qed.

Lemma located_last serial path h t :
  traces host_ok (getDevPathBySerial serial) t (Ok path) → located serial path (h ++ t).
Proof. intros Ht%getDevPathBySerial_Ok. exists h, t, []. by rewrite app_nil_r. Qed.

#[export] Hint Resolve located_app : history.

(** Programs that only read. *)
Abbreviation reads_only p := (all_calls (fun _ o => modifies o = false) p).

Lemma reads_find_serial serial devpath devlist : reads_only (find_serial serial devpath devlist).
Proof.
  revert devpath. induction devlist as [|dev rest IH]; intros devpath; [done|]. cbn [find_serial].
  destruct (String.eqb dev ""); [done|]. split; [done|]. intros [raw|e] _; simpl; [|apply IH].
  destruct (String.eqb (TrimSpace raw) serial); [|apply IH].
  destruct (negb (String.eqb devpath "")); [done|apply IH].
Qed.

Lemma reads_getDevPathBySerial serial : reads_only (getDevPathBySerial serial).
Proof.
  split; [done|]. intros [output [err|]] _; [done|]. apply reads_find_serial.
Qed.

Lemma reads_getBlockSizeBytes path : reads_only (getBlockSizeBytes path).
Proof. split; [done|]. by intros [output err] _. Qed.

(** The number of mounts. *)
Definition is_mount {R} (o : HostE R) : bool := match o with MountFs _ _ _ _ => true | _ => false end.
Definition mount_count (h : list (event HostE)) : nat :=
  length (List.filter (fun ev => is_mount (ev_call ev)) h).

Lemma mount_count_app h t : mount_count (h ++ t) = (mount_count h + mount_count t)%nat.
Proof. unfold mount_count. by rewrite filter_app, length_app. Qed.

Ltac counts :=
  rewrite ?mount_count_app; repeat match goal with H : mount_count _ = _ |- _ => rewrite H; clear H end;
  done.

Lemma mount_count_reads {A} (p : host A) t a :
  reads_only p → traces host_ok p t a → mount_count t = 0%nat.
Proof.
  intros Hp Ht. pose proof (all_calls_traces _ _ _ _ _ Hp Ht) as Hall. clear Ht.
  unfold mount_count. induction Hall as [|[R o x] t Ho _ IH]; [done|].
  cbn in *. destruct o; cbn in *; (done || exact IH).
Qed.

Lemma wp_reads {A} allows (p : host A) Q h :
  reads_only p → (∀ t a, traces host_ok p t a → Q a (h ++ t)) → wp (watched allows) p Q h.
Proof.
  intros Hp. apply wp_hist_traces. eapply all_calls_mono; [|exact Hp].
  intros R o Ho h'. unfold host_obl. by rewrite Ho.
Qed.

Lemma wp_getDevPathBySerial allows serial h :
  wp (watched allows) (getDevPathBySerial serial)
    (fun r h' => (∃ t, h' = h ++ t ∧ mount_count t = 0%nat) ∧
       ∀ path, r = Ok path → located serial path h') h.
Proof.
  apply wp_reads; [apply reads_getDevPathBySerial|]. intros t r Ht. split.
  - exists t. split; [done|]. eapply mount_count_reads; [apply reads_getDevPathBySerial|done].
  - intros path ->. by apply located_last.
Qed.

Ltac host_conditions :=
  conditions_with ltac:(idtac; match goal with
    | H : IsNotExist ?e = true |- _ => destruct e; [|done]
    | u : unit |- _ => destruct u
    | H : ∀ path, Ok _ = Ok path → _ |- _ => specialize (H _ eq_refl)
    end).

#[local] Opaque getDevPathBySerial FormatAndMount.

(** ** What a request asks to mount *)

(** The request's flags, once for each feature gate that enables mount options:
    none when the gate is off, the flags when it is given once. *)
Definition flags_asked (g : Globals) (flags : list string) : list string :=
  concat (repeat flags (count_occ String.string_dec (FeatureGates g) "enable_mount_opt")).

(** The file system of a mount capability; ext4 when it names none. *)
Definition fs_named (fs : string) : string := if String.eqb fs "" then "ext4" else fs.

(** The file system and the flags of a capability. *)
Definition mount_asked (g : Globals) (cap : VolumeCapability) : string * list string :=
  match AccessType_ cap with
  | Some (Mount fs flags) => (fs_named fs, flags_asked g flags)
  | _ => ("ext4", [])
  end.

Lemma gated_flags_asked g flags : gated_flags g flags = flags_asked g flags.
Proof.
  unfold gated_flags, flags_asked. induction (FeatureGates g) as [|item l IH]; [done|].
  cbn [flat_map count_occ]. rewrite IH.
  destruct (String.eqb_spec item FEAT_MOUNTOPT_ENABLE) as [->|Hne],
    (String.string_dec _ "enable_mount_opt") as [|Hne']; done.
Qed.

Lemma flags_asked_gate g flags :
  ("enable_mount_opt" ∉ FeatureGates g → flags_asked g flags = []) ∧
  (FeatureGates g = ["enable_mount_opt"] → flags_asked g flags = flags).
Proof.
  unfold flags_asked. split.
  - intros Hg. rewrite list_elem_of_In in Hg.
    by rewrite (proj1 (count_occ_not_In String.string_dec _ _) Hg).
  - intros ->. apply app_nil_r.
Qed.

Lemma GetMount_asked g cap :
  fs_type (GetMount cap) = (mount_asked g cap).1 ∧
  match GetMount cap with Some (_, flags) => gated_flags g flags | None => [] end = (mount_asked g cap).2.
Proof.
  unfold GetMount, mount_asked, fs_type, fs_named. destruct (AccessType_ cap) as [[|fs flags]|]; try done.
  rewrite gated_flags_asked. by destruct (String.eqb fs "").
Qed.

Lemma GetMount_Some cap fs flags :
  GetMount cap = Some (fs, flags) ↔ AccessType_ cap = Some (Mount fs flags).
Proof. unfold GetMount. destruct (AccessType_ cap) as [[]|]; naive_solver. Qed.

Lemma is_block_Some cap : is_block cap = true ↔ AccessType_ cap = Some Block.
Proof. unfold is_block. destruct (AccessType_ cap) as [[]|]; naive_solver. Qed.

Lemma checkfsType_elem fs : checkfsType fs = true ↔ fs ∈ ["ext3"; "ext4"; "xfs"].
Proof.
  unfold checkfsType. rewrite !orb_true_iff, !String.eqb_eq, !elem_of_cons, elem_of_nil. tauto.
Qed.

(** The device and the options of a publish. *)
Definition publish_source (req : NodePublishVolumeRequest) (cap : VolumeCapability)
    (serial source : string) (h : list (event HostE)) : Prop :=
  if is_block cap then located serial source h else source = np_StagingTargetPath req.

(** What the mount point check of a publish said. *)
Definition mount_state (target : string) (block mounted : bool) : event HostE :=
  if block then Event (IsMountPoint target) (Ok mounted)
  else Event (IsLikelyNotMountPoint target) (Ok (negb mounted)).

Definition bind_options (g : Globals) (req : NodePublishVolumeRequest) (cap : VolumeCapability)
    : list string :=
  "bind" :: (if np_Readonly req then ["ro"] else []) ++ (mount_asked g cap).2.

Definition node_publish_allows (g : Globals) (req : NodePublishVolumeRequest) (cap : VolumeCapability)
    (serial : string) (h : list (event HostE)) (R : Type) (o : HostE R) : Prop :=
  let target := np_TargetPath req in
  (mount_asked g cap).1 ∈ ["ext3"; "ext4"; "xfs"] ∧
  match o with
  | MountFs s t fs os =>
    publish_source req cap serial s h ∧ t = target ∧ fs = (mount_asked g cap).1 ∧
    os = bind_options g req cap ∧ mount_state target (is_block cap) false ∈ h ∧
    mount_count h = 0%nat
  | MkdirAll p _ => p = target ∧ is_block cap = false ∧ Event (Stat target) (Err ErrNotExist) ∈ h
  | OpenCreate p _ => p = target ∧ is_block cap = true ∧ Event (Stat target) (Err ErrNotExist) ∈ h
  | _ => False
  end.

Definition published (g : Globals) (req : NodePublishVolumeRequest) (cap : VolumeCapability)
    (serial : string) (t : list (event HostE)) : Prop :=
  let target := np_TargetPath req in
  (mount_state target (is_block cap) true ∈ t ∧ mount_count t = 0%nat) ∨
  (mount_count t = 1%nat ∧ ∃ source, publish_source req cap serial source t ∧
     Event (MountFs source target (mount_asked g cap).1 (bind_options g req cap)) (Ok tt) ∈ t).

Lemma publish_options_asked g req cap : ns.publish_options g req cap = bind_options g req cap.
Proof.
  unfold ns.publish_options, bind_options. rewrite <-(proj2 (GetMount_asked g cap)).
  unfold is_block, GetMount. by destruct (AccessType_ cap) as [[]|].
Qed.

Lemma wp_node_publish g req cap serial :
  wp (watched (node_publish_allows g req cap serial)) (ns.publish_locked g req cap serial)
    (fun r t => r = Ok tt → published g req cap serial t) [].
Proof.
  unfold ns.publish_locked, node_publish_allows, published, publish_source, mount_state.
  rewrite publish_options_asked, (proj1 (GetMount_asked g cap)).
  destruct (is_block cap) eqn:Hb; walk_host.
  1: eapply wp_mono; [|apply wp_getDevPathBySerial]; intros r h' [(t & -> & Hcount) Hloc].
  all: walk_host; try done; host_conditions; try done.
  all: try match goal with H : checkfsType _ = true |- _ => apply checkfsType_elem in H end.
  all: intros Hr; host_conditions; split_and?; eauto 10 with history; try done.
  all: try solve [counts].
  all: first
    [ left; split; [solve [eauto 10 with history]|solve [counts]]
    | right; split; [solve [counts]|eexists; split; [|apply in_snoc]; solve [eauto 10 with history]] ].
Qed.

(** ** NodeStageVolume *)

Definition unmounted (target : string) (h : list (event HostE)) : Prop :=
  Event (IsLikelyNotMountPoint target) (Ok true) ∈ h ∨
  Event (IsLikelyNotMountPoint target) (Err ErrNotExist) ∈ h.

(** The volume is mounted at the staging path from the device with its serial,
    with the file system and the options asked for. *)
Definition staged (g : Globals) (target fs serial device : string) (flags : list string)
    (h : list (event HostE)) : Prop :=
  located serial device h ∧
  Event (MountFs device target fs (used_options (flags_asked g flags))) (Ok tt) ∈ h.

Definition stage_allows (g : Globals) (req : NodeStageVolumeRequest) (serial : string)
    (fs : string) (flags : list string) (h : list (event HostE)) (R : Type) (o : HostE R) : Prop :=
  let target := ns_StagingTargetPath req in
  fs ∈ ["ext3"; "ext4"; "xfs"] ∧
  match o with
  | MkdirAll p _ => p = target ∧ Event (IsLikelyNotMountPoint target) (Err ErrNotExist) ∈ h
  | Resize device p =>
    p = target ∧ staged g target fs serial device flags h ∧
    Event (NeedResize device target) (Ok true) ∈ h
  | _ => unmounted target h ∧ ∃ device, located serial device h ∧
         mounting device target fs [] (flags_asked g flags) false h R o
  end.

Lemma unmounted_app target h t : unmounted target h → unmounted target (h ++ t).
Proof. unfold unmounted. rewrite !elem_of_app. tauto. Qed.

Lemma staged_app g target fs serial device flags h t :
  staged g target fs serial device flags h → staged g target fs serial device flags (h ++ t).
Proof. intros [Hl Hm]. split; [eauto with history|]. apply elem_of_app. by left. Qed.

#[local] Hint Resolve unmounted_app staged_app : history.

Lemma checked_fs_used fs : checkfsType fs = true → used_fstype fs = fs.
Proof.
  unfold used_fstype. destruct (Z.eqb_spec (len fs) 0) as [Hl|]; [|done].
  apply len_0 in Hl as ->. done.
Qed.

Lemma wp_stage_mount g req serial fs flags device h :
  let target := ns_StagingTargetPath req in
  checkfsType fs = true → unmounted target h → located serial device h →
  wp (watched (stage_allows g req serial fs flags))
    (FormatAndMount device target fs [] (flags_asked g flags) false)
    (fun m h' => m = Ok tt → staged g target fs serial device flags h') h.
Proof.
  intros target Hfs Hun Hloc.
  eapply wp_hist_grow; [| |apply wp_FormatAndMount].
  - intros t R o Ho Hmod. specialize (Ho Hmod). split; [by apply checkfsType_elem|].
    destruct o; try done; (split; [by apply unmounted_app|]; exists device;
      split; [by apply located_app|done]).
  - intros m t Hm Hok. destruct (Hm Hok) as (h0 & fs' & Hfs' & Heq).
    split; [by apply located_app|]. rewrite Heq. apply elem_of_app. right.
    rewrite (checked_fs_used _ Hfs) in Hfs'. destruct Hfs' as [->| ->]; apply list_elem_of_here.
Qed.

Lemma wp_stage_device g req serial fs flags h :
  let target := ns_StagingTargetPath req in
  checkfsType fs = true → unmounted target h →
  wp (watched (stage_allows g req serial fs flags)) (ns.stage_device g target fs serial flags)
    (fun r h' => r = Ok tt → ∃ device, staged g target fs serial device flags h') h.
Proof.
  intros target Hfs Hun. walk_host.
  eapply wp_mono; [|apply wp_getDevPathBySerial]. intros r h' [(t & -> & _) Hloc].
  rewrite gated_flags_asked. walk_host; [|done].
  eapply wp_mono; [|apply wp_stage_mount; eauto with history]. intros m h' Hm.
  walk_host; host_conditions; try done; specialize (Hm eq_refl);
    intros Hr; host_conditions; eauto with history; try done.
  split; [by apply checkfsType_elem|]. split_and!; eauto with history.
Qed.

#[local] Opaque ns.stage_device.

Lemma wp_stage g req cap serial fs flags :
  AccessType_ cap = Some (Mount fs flags) →
  wp (watched (stage_allows g req serial (fs_named fs) flags)) (ns.stage_locked g req cap serial)
    (fun r t => r = Ok tt →
       Event (IsLikelyNotMountPoint (ns_StagingTargetPath req)) (Ok false) ∈ t ∨
       ∃ device, staged g (ns_StagingTargetPath req) (fs_named fs) serial device flags t)
    [].
Proof.
  intros Hmnt. unfold ns.stage_locked. rewrite (proj2 (GetMount_Some _ _ _) Hmnt).
  assert (Hfs : fs_type (Some (fs, flags)) = fs_named fs) 
    by (unfold fs_type, fs_named; by destruct (String.eqb fs "")).
  rewrite Hfs. walk_host; try done; host_conditions; try done.
  - intros _. left. apply in_snoc.
  - eapply wp_mono; [|apply wp_stage_device; [done|left; apply in_snoc]]. auto.
  - intros _. split; [by apply checkfsType_elem|]. split; [done|]. apply in_snoc.
  - eapply wp_mono; [|apply wp_stage_device; [done|right; eauto with history]]. auto.
Qed.

(** ** NodeExpandVolume *)

Definition node_expand_allows (req : NodeExpandVolumeRequest) (serial : string)
    (h : list (event HostE)) (R : Type) (o : HostE R) : Prop :=
  match o with
  | Resize device p => p = ne_VolumePath req ∧ located serial device h
  | _ => False
  end.

Lemma node_expand_allows_after req serial h t R (o : HostE R) :
  node_expand_allows req serial h R o → node_expand_allows req serial (t ++ h) R o.
Proof. destruct o; try done. intros [-> Hl]. split; [done|]. by apply located_after. Qed.

(** The file system grew, and the device is as large as what is reported, which
    is at least what was asked for. *)
Definition grown (req : NodeExpandVolumeRequest) (serial : string) (size n : Z)
    (t : list (event HostE)) : Prop :=
  size <= n ∧ ∃ device output,
    located serial device t ∧ Event (Resize device (ne_VolumePath req)) (Ok true) ∈ t ∧
    Event (CombinedOutput "blockdev" ["--getsize64"; device]) (output, None) ∈ t ∧
    ParseInt (TrimSpace output) = Some n.

Lemma wp_node_expand req serial size h :
  wp (watched (node_expand_allows req serial)) (ns.expand_locked req serial size)
    (fun r t => ∀ resp, r = Ok resp → grown req serial size (ner_CapacityBytes resp) t) h.
Proof.
  unfold ns.expand_locked. walk_host.
  eapply wp_mono; [|apply wp_getDevPathBySerial]. intros r h' [(t & -> & _) Hloc].
  walk_host; try done; host_conditions; try done.
  destruct o; [done|]. destruct (ParseInt (TrimSpace s)) as [n|] eqn:Hn; simplify_eq.
  intros resp [= <-]. split; [simpl; lia|]. exists t0, s. split_and!; eauto with history.
Qed.

Lemma reads_expand_block_mode req : reads_only (ns.expand_block_mode req).
Proof. unfold all_calls. walk_with ltac:(reflexivity); done. Qed.

Lemma reads_NodeGetVolumeStats req : reads_only (ns.NodeGetVolumeStats req).
Proof.
  unfold all_calls. walk_with ltac:(reflexivity); done.
Qed.

(** ** The node as a server of concurrent requests *)

Inductive node_request : Type :=
| ReqNodePublish (r : NodePublishVolumeRequest)
| ReqNodeUnpublish (r : NodeUnpublishVolumeRequest)
| ReqNodeStage (r : NodeStageVolumeRequest)
| ReqNodeUnstage (r : NodeUnstageVolumeRequest)
| ReqNodeExpand (r : NodeExpandVolumeRequest)
| ReqNodeStats (r : NodeGetVolumeStatsRequest)
| ReqNodeInfo.

Inductive node_response : Type :=
| NodeEmpty
| NodeExpanded (r : NodeExpandVolumeResponse)
| NodeStats (u : VolumeUsage)
| NodeInfo (i : NodeGetInfoResponse).

Definition node_respond {A} (f : A → node_response) (p : node (rpc A)) : node (rpc node_response) :=
  r ← p; mret (match r with Ok x => Ok (f x) | Err c => Err c end).

(** The registered node service: a request to its handler. *)
Definition node_handle (g : Globals) (d : DiskDriver) (q : node_request) : node (rpc node_response) :=
  match q with
  | ReqNodePublish r => node_respond (fun _ => NodeEmpty) (ns.NodePublishVolume g d r)
  | ReqNodeUnpublish r => node_respond (fun _ => NodeEmpty) (ns.NodeUnpublishVolume r)
  | ReqNodeStage r => node_respond (fun _ => NodeEmpty) (ns.NodeStageVolume g d r)
  | ReqNodeUnstage r => node_respond (fun _ => NodeEmpty) (ns.NodeUnstageVolume d r)
  | ReqNodeExpand r => node_respond NodeExpanded (ns.NodeExpandVolume r)
  | ReqNodeStats r => node_respond NodeStats (lift (ns.NodeGetVolumeStats r))
  | ReqNodeInfo => node_respond NodeInfo (mret (ns.NodeGetInfo d))
  end.

(** The volume id of a request, and the volume, as its lock names it. *)
Definition node_volume_id (q : node_request) : string :=
  match q with
  | ReqNodePublish r => np_VolumeId r
  | ReqNodeUnpublish r => nu_VolumeId r
  | ReqNodeStage r => ns_VolumeId r
  | ReqNodeUnstage r => nt_VolumeId r
  | ReqNodeExpand r => ne_VolumeId r
  | ReqNodeStats r => ng_VolumeId r
  | ReqNodeInfo => ""
  end.

Definition node_volume (q : node_request) : string := ns.lock_key (node_volume_id q).

(** A call that changes the host is part of the work on the request's volume. *)
Definition node_scope (q : node_request) (R : Type) (o : HostE R) : list string :=
  if modifies o then [node_volume q] else [].

Definition node_server (g : Globals) (d : DiskDriver) : server :=
  mkServer node_request (rpc node_response) HostE host_ok node_scope (node_handle g d).

Lemma balanced_lock_lift {A} q volId (p : host (rpc A)) :
  node_volume q = volId → balanced (node_scope q) host_ok (with_lock volId (lift p)) ∅.
Proof.
  intros Hq. apply balanced_with_lock. intros _. apply balanced_lift, all_calls_any.
  intros R o. unfold node_scope. destruct (modifies o); [|apply covered_nil].
  rewrite Hq. apply covered_cons; [held|apply covered_nil].
Qed.

Lemma balanced_reads {A} q (p : host A) :
  reads_only p → balanced (node_scope q) host_ok (lift p) ∅.
Proof.
  intros Hp. apply balanced_lift. eapply all_calls_mono; [|exact Hp].
  intros R o Ho. unfold node_scope. rewrite Ho. apply covered_nil.
Qed.

Lemma node_key id volId serial :
  ParseCsiVolId id = Ok (volId, serial) → ns.lock_key id = volId.
Proof. unfold ns.lock_key. by intros ->. Qed.

Ltac node_balance :=
  repeat lazymatch goal with
    | |- ∀ _, _ => intros ?
    | |- balanced _ _ (mret _) _ => apply balanced_ret
    | |- balanced _ _ (with_lock _ (lift _)) _ =>
      apply balanced_lock_lift; simpl; eauto using node_key
    | |- balanced _ _ (lift _) _ =>
      apply balanced_reads; auto using reads_expand_block_mode, reads_NodeGetVolumeStats
    | |- balanced _ _ (_ ≫= _) _ => apply balanced_bind
    | |- balanced _ _ (match ?x with _ => _ end) _ => destruct x eqn:?
    | |- balanced _ _ ?p _ => let f := head_of p in progress unfold f
    end.

#[export] Instance node_disciplined g d : Disciplined (node_server g d).
Proof.
  intros q. change (balanced (node_scope q) host_ok (node_handle g d q) ∅). node_balance.
Qed.
