(* ===== verification/HostSim.v ===== *)
(** * A concrete host

    A small node: disks with serials and formats, mounts and paths.  It is no
    part of the driver: the examples of the node's properties run the handlers
    against it. *)

From S2P Require Import Prelude GoStd Csi Common Prog Locking Serve Driver CloudTypes.
From S2P Require Import Host Mount Node NodeProps Ctrl Controller System Sim.

Local Open Scope Z_scope.

Record disk : Type := mkDisk {
  dk_name : string;
  dk_serial : string;
  dk_format : string;
  (** in bytes, as [blockdev] prints it *)
  dk_size : string
}.

Record hostw : Type := mkHost {
  h_disks : list disk;
  (** sources and targets *)
  h_mounts : list (string * string);
  h_paths : list string
}.

Definition newline : string := String (ascii_of_nat 10) "".

Definition dev_path (k : disk) : string := "/dev/" +:+ dk_name k.

Definition find_disk (p : string) (w : hostw) : option disk :=
  List.find (fun k => String.eqb (dev_path k) p) (h_disks w).

Definition mem (p : string) (l : list string) : bool := existsb (String.eqb p) l.

Definition host_exists (p : string) (w : hostw) : bool :=
  mem p (h_paths w) || negb (is_nil (find_disk p w)).

Definition add_path (p : string) (w : hostw) : hostw :=
  mkHost (h_disks w) (h_mounts w) (p :: h_paths w).

Definition mounted (p : string) (w : hostw) : bool := mem p (h_mounts w).*2.

(** Mounting a disk needs its format to be the type asked for. *)
Definition can_mount (source fs : string) (w : hostw) : bool :=
  match find_disk source w with
  | Some k => String.eqb (dk_format k) fs
  | None => mem source (h_paths w)
  end.

Definition format_disk (p fs : string) (w : hostw) : hostw :=
  mkHost ((fun k => if String.eqb (dev_path k) p
                    then mkDisk (dk_name k) (dk_serial k) fs (dk_size k) else k) <$> h_disks w)
    (h_mounts w) (h_paths w).

Definition serial_of (p : string) (w : hostw) : option string :=
  dk_serial <$> List.find (fun k => String.eqb (serial_path (dk_name k)) p) (h_disks w).

Definition command (cmd : string) (args : list string) (w : hostw)
    : (string * option execerr) * hostw :=
  if String.eqb cmd "lsblk" then
    ((String.concat "" ((fun k => dk_name k +:+ newline) <$> h_disks w), None), w)
  else if String.eqb cmd "blockdev" then
    match head (reverse args) ≫= fun p => find_disk p w with
    | Some k => ((dk_size k +:+ newline, None), w)
    | None => (("", Some (ExitError 1)), w)
    end
  else if HasPrefix cmd "mkfs." then
    match head (reverse args) with
    | Some p => (("", None), format_disk p (String.substring 5 (String.length cmd) cmd) w)
    | None => (("", Some (ExitError 1)), w)
    end
  else (("", None), w).

Definition host_env : env HostE hostw := fun R o =>
  match o in HostE R return hostw → R * hostw with
  | Stat p => fun w =>
      (if host_exists p w
       then Ok (if is_nil (find_disk p w) then 0 else ModeDevice) else Err ErrNotExist, w)
  | MkdirAll p _ | OpenCreate p _ => fun w => (Ok tt, add_path p w)
  | Close _ => fun w => (Ok tt, w)
  | Open p => fun w => (if host_exists p w then Ok tt else Err ErrNotExist, w)
  | Readdir p n => fun w =>
      (match take (Z.to_nat n) (filter (fun q => HasPrefix q (p +:+ "/")) (h_paths w)) with
       | [] => Err EOF
       | names => Ok names
       end, w)
  | ReadFile p => fun w =>
      (match serial_of p w with Some s => Ok (s +:+ newline) | None => Err ErrNotExist end, w)
  | Statfs _ => fun w => (Ok {| Blocks := 1000; Bfree := 600; Bavail := 500; Bsize := 4096 |}, w)
  | CombinedOutput cmd args => command cmd args
  | MountFs s t fs _ => fun w =>
      if can_mount s fs w
      then (Ok tt, mkHost (h_disks w) ((s, t) :: h_mounts w) (h_paths w)) else (Err ErrOther, w)
  | IsLikelyNotMountPoint p => fun w =>
      (if host_exists p w then Ok (negb (mounted p w)) else Err ErrNotExist, w)
  | IsMountPoint p => fun w => (Ok (mounted p w), w)
  | CleanupMountPoint p _ => fun w =>
      (Ok tt, mkHost (h_disks w) (filter (fun m => m.2 ≠ p) (h_mounts w))
                (filter (fun q => q ≠ p) (h_paths w)))
  | GetDiskFormat p => fun w =>
      (match find_disk p w with Some k => Ok (dk_format k) | None => Err ErrOther end, w)
  | NeedResize _ _ | Resize _ _ => fun w => (Ok true, w)
  end.

Lemma host_env_ok R (o : HostE R) w : host_ok R o (host_env R o w).1.
Proof. destruct o; by try (split_and!; split; vm_compute). Qed.

Definition node_env : env (Locked HostE) (ResourceLocks * hostw) := locked_env host_env.

Lemma node_env_ok R (e : Locked HostE R) s : locked_ok host_ok R e (node_env R e s).1.
Proof.
  destruct e as [R o|R o]; [done|]. simpl. pose proof (host_env_ok R o s.2) as H.
  by destruct (host_env R o s.2).
Qed.

(** ** The example's node *)

Module NodeExample.
Definition staging : string := "/var/staging".
Definition target : string := "/var/target".
(** Two disks: the example volume's, not formatted, and another. *)
Definition host0 : hostw :=
  mkHost [mkDisk "vda" "system" "ext4" "10737418240";
          mkDisk "vdb" Example.serial "" "21474836480"] [] [].
Definition filesystem (readonly : bool) : VolumeCapability :=
  {| AccessMode_ := Some AccessMode.SINGLE_NODE_WRITER;
     AccessType_ := Some (Mount "ext4" (if readonly then ["ro"] else [])) |}.
Definition gates : Globals :=
  {| FeatureGates := [FEAT_MOUNTOPT_ENABLE]; DefaultZone := ""; DefaultResourceGroup := "";
     MixDriver := false |}.
Definition stage_request : NodeStageVolumeRequest :=
  {| ns_VolumeId := Example.csiId; ns_StagingTargetPath := staging;
     ns_VolumeCapability := Some (filesystem false) |}.
Definition publish_request : NodePublishVolumeRequest :=
  {| np_VolumeId := Example.csiId; np_StagingTargetPath := staging; np_TargetPath := target;
     np_VolumeCapability := Some (filesystem false); np_Readonly := true |}.
Definition expand_request : NodeExpandVolumeRequest :=
  {| ne_VolumeId := Example.csiId; ne_VolumePath := target;
     ne_CapacityRange := Some {| RequiredBytes := 21474836480; LimitBytes := 0 |};
     ne_VolumeCapability := Some (filesystem false) |}.
(** The disk staged. *)
Definition host1 : hostw :=
  (run node_env (ns.NodeStageVolume gates Example.driver stage_request)
     (NewResourceLocks, host0)).2.2.
End NodeExample.

Lemma example_node_trace {A} (p : node A) w :
  traces (locked_ok host_ok) p (run_log node_env p (NewResourceLocks, w))
    (run node_env p (NewResourceLocks, w)).1.
Proof. apply run_log_traces, node_env_ok. Qed.

Lemma example_host_trace {A} (p : host A) w :
  traces host_ok p (run_log host_env p w) (run host_env p w).1.
Proof. apply run_log_traces, host_env_ok. Qed.
