(* ===== verification/NodeSpec.v ===== *)
(** * Properties of the node server and of formatting

    Each theorem is about every trace of a handler against any host: what it
    does to the host after which answers, and what its response rests on.
    [inner t] are the calls of the host in a handler's trace. *)

From S2P Require Import Prelude GoStd Csi Common Prog Locking Serve Driver CloudTypes.
From S2P Require Import Cloud Ctrl Controller CtrlProps System Sim.
From S2P Require Import Host Mount MountProps Node NodeProps HostSim.

Local Open Scope Z_scope.

(** ** Handlers, from their locked parts *)

Abbreviation node_ok := (locked_ok host_ok).

(** Every call of the host that changes something was allowed when it was made. *)
Definition allowed (allows : list (event HostE) → ∀ R, HostE R → Prop) (t : list (event HostE)) : Prop :=
  ∀ h1 R (o : HostE R) x h2, t = h1 ++ Event o x :: h2 → modifies o = true → allows h1 R o.

Lemma allowed_nil allows : allowed allows [].
Proof. by intros [|??] R o x h2. Qed.

Lemma allowed_mono (allows allows' : list (event HostE) → ∀ R, HostE R → Prop) t :
  (∀ h R o, allows h R o → allows' h R o) → allowed allows t → allowed allows' t.
Proof. unfold allowed. eauto. Qed.

Lemma locked_trace {A} allows volId (p : host (rpc A)) Q t r :
  wp (watched allows) p Q [] → traces node_ok (with_lock volId (lift p)) t r →
  (inner t = [] ∧ r = Err codes.Aborted ∨ Q r (inner t)) ∧ allowed allows (inner t).
Proof.
  intros Hwp Ht. apply traces_with_lock in Ht as [[-> ->]|(t' & -> & Ht)].
  - split; [by left|apply allowed_nil].
  - change (inner (_ :: ?l)) with (inner l).
    rewrite inner_app, inner_outer, app_nil_r.
    destruct (watched_trace _ _ _ _ _ Hwp Ht) as [HQ Hall]. split; [by right|exact Hall].
Qed.

Lemma returned_trace {A} (a : A) t r : traces node_ok (mret a) t r → t = [] ∧ r = a.
Proof. done. Qed.

(** Walk through the checks of a handler. *)
Ltac through_checks Ht :=
  repeat match type of Ht with
    | traces _ (mret _) _ _ =>
      apply returned_trace in Ht as [-> ->]; try (split; [apply allowed_nil|done])
    | traces _ (match ?x with _ => _ end) _ _ => destruct x eqn:?
    end.

(** ** Formatting and mounting *)

(** C16: [FormatAndMount] does not destroy data.  It changes nothing but the
    device and the mount point it is given; it formats the device only when the
    volume was not asked for read-only, the device failed to mount, and was then
    seen to hold neither a file system nor a partition table other than an atari
    one (the [blank] of a false detection); it checks the device only for a
    volume that is not read-only; every mount has the options asked for
    ([defaults] standing for none); and a success ends with a successful mount. *)
Theorem FormatAndMount_safe source target fstype mkfsOptions options omit t r :
  traces host_ok (FormatAndMount source target fstype mkfsOptions options omit) t r →
  allowed (mounting source target fstype mkfsOptions options omit) t ∧
  ends_mounted source target fstype options r t.
Proof.
  intros Ht. destruct (watched_trace _ _ _ _ _ (wp_FormatAndMount source target fstype
    mkfsOptions options omit []) Ht) as [HQ Hall]. by split.
Qed.

Lemma FormatAndMount_safe_witness :
  let p := FormatAndMount "/dev/vdb" "/mnt" "ext4" [] ["noatime"] false in
  let t := run_log host_env p NodeExample.host0 in
  (run host_env p NodeExample.host0).1 = Ok tt ∧
  mounting "/dev/vdb" "/mnt" "ext4" [] ["noatime"] false (take 3 t) _
    (CombinedOutput "mkfs.ext4" ["-F"; "-m0"; "-E"; "nodiscard"; "/dev/vdb"]).
Proof.
  intros p t. split; [vm_compute; reflexivity|].
  apply (proj1 (FormatAndMount_safe "/dev/vdb" "/mnt" "ext4" [] ["noatime"] false t _
    (example_host_trace p NodeExample.host0)) (take 3 t) _ _ ("", None) (drop 4 t));
    [vm_compute; reflexivity|reflexivity].
Defined.

(** ** Staging and publishing *)

(** C17: [NodeStageVolume] works on the device whose serial is in the volume id
    and on no other, and mounts it at the staging path only when nothing is
    mounted there, formatting it only as [FormatAndMount] may; it makes the path
    only when it is missing and grows the file system only when it needs it.  It
    mounts the file system of the capability (ext4 when it names none, and only
    ext3, ext4 or xfs) with the capability's flags when the feature gate
    [enable_mount_opt] is given ([flags_asked]: once for each time it is given, none
    when it is not), [defaults] standing for no flags.  It succeeds only when
    something was already mounted there, when that device is now mounted there with
    that file system and those options, or, with no call at all, for a block
    volume. *)
Theorem NodeStageVolume_safe (g : Globals) (d : DiskDriver) (req : NodeStageVolumeRequest) t r :
  traces node_ok (ns.NodeStageVolume g d req) t r →
  allowed (fun h R o => ∃ volId serial cap fs flags,
      ParseCsiVolId (ns_VolumeId req) = Ok (volId, serial) ∧
      ns_VolumeCapability req = Some cap ∧ AccessType_ cap = Some (Mount fs flags) ∧
      stage_allows g req serial (fs_named fs) flags h R o) (inner t) ∧
  (r = Ok tt → ∃ volId serial cap,
     ParseCsiVolId (ns_VolumeId req) = Ok (volId, serial) ∧ ns_VolumeCapability req = Some cap ∧
     (AccessType_ cap = Some Block ∧ inner t = [] ∨
      Event (IsLikelyNotMountPoint (ns_StagingTargetPath req)) (Ok false) ∈ inner t ∨
      ∃ fs flags device, AccessType_ cap = Some (Mount fs flags) ∧
        staged g (ns_StagingTargetPath req) (fs_named fs) serial device flags (inner t))).
Proof.
  unfold ns.NodeStageVolume. intros Ht. through_checks Ht.
  - split; [apply allowed_nil|]. intros _. eexists _, _, _.
    split_and!; [done..|]. left. by rewrite <-is_block_Some.
  - destruct (GetMount v) as [[fs flags]|] eqn:Hmnt.
    + pose proof (proj1 (GetMount_Some _ _ _) Hmnt) as Hcap.
      destruct (locked_trace _ _ _ _ _ _ (wp_stage g req v s0 fs flags Hcap) Ht) as [HQ Hall].
      split; [eapply allowed_mono; [|exact Hall]; intros; eexists _, _, _, _, _; eauto|].
      intros ->. eexists _, _, _. split_and!; [done..|]. right.
      destruct HQ as [[_ ?]|HQ]; [done|]. destruct (HQ eq_refl) as [?|[device ?]]; [by left|].
      right. eexists _, _, _. eauto.
    + assert (Hwp : wp (watched (fun _ _ _ => False)) (ns.stage_locked g req v s0)
        (fun r _ => r ≠ Ok tt) []) by (unfold ns.stage_locked; by rewrite Hmnt).
      destruct (locked_trace _ _ _ _ _ _ Hwp Ht) as [HQ Hall].
      split; [by eapply allowed_mono; [|exact Hall]|]. intros ->. by destruct HQ as [[_ ?]|?].
Qed.

Definition example_stage : node (rpc unit) :=
  ns.NodeStageVolume NodeExample.gates Example.driver NodeExample.stage_request.

Lemma NodeStageVolume_safe_witness :
  let t := run_log node_env example_stage (NewResourceLocks, NodeExample.host0) in
  (run node_env example_stage (NewResourceLocks, NodeExample.host0)).1 = Ok tt ∧
  ∃ volId serial cap,
    ParseCsiVolId (ns_VolumeId NodeExample.stage_request) = Ok (volId, serial) ∧
    ns_VolumeCapability NodeExample.stage_request = Some cap ∧
    (AccessType_ cap = Some Block ∧ inner t = [] ∨
     Event (IsLikelyNotMountPoint "/var/staging") (Ok false) ∈ inner t ∨
     ∃ fs flags device, AccessType_ cap = Some (Mount fs flags) ∧
       staged NodeExample.gates "/var/staging" (fs_named fs) serial device flags (inner t)).
Proof.
  intros t. split; [vm_compute; reflexivity|].
  apply (proj2 (NodeStageVolume_safe NodeExample.gates Example.driver NodeExample.stage_request t _
    (example_node_trace example_stage NodeExample.host0))).
  vm_compute. reflexivity.
Defined.

(** C22: [NodePublishVolume] makes at most one mount, a bind mount at the target
    path, only when nothing is mounted there: of the staging path, or, for a block
    volume, of the device whose serial is in the volume id.  Its options are
    exactly [bind], then [ro] when the request is read-only, then, for a file
    system volume, the capability's flags once for each time the feature gate
    [enable_mount_opt] is given.  It makes the target (a directory, or a file for a
    block volume) only when it is missing.  It succeeds only when the target was
    already mounted, with no mount made, or is now mounted by that one mount. *)
Theorem NodePublishVolume_safe (g : Globals) (d : DiskDriver) (req : NodePublishVolumeRequest) t r :
  traces node_ok (ns.NodePublishVolume g d req) t r →
  allowed (fun h R o => ∃ volId serial cap,
      ParseCsiVolId (np_VolumeId req) = Ok (volId, serial) ∧
      np_VolumeCapability req = Some cap ∧ GetMode cap ∈ d_volumeCap d ∧
      node_publish_allows g req cap serial h R o) (inner t) ∧
  (r = Ok tt → ∃ volId serial cap,
     ParseCsiVolId (np_VolumeId req) = Ok (volId, serial) ∧ np_VolumeCapability req = Some cap ∧
     published g req cap serial (inner t)).
Proof.
  unfold ns.NodePublishVolume. intros Ht. through_checks Ht.
  apply negb_false_iff, existsb_eqb_elem in Heqb1.
  destruct (locked_trace _ _ _ _ _ _ (wp_node_publish g req _ _) Ht) as [HQ Hall].
  split; [eapply allowed_mono; [|exact Hall]; intros; eexists _, _, _; eauto|].
  intros ->. eexists _, _, _. split_and!; [done..|].
  destruct HQ as [[_ ?]|HQ]; [done|]. by apply HQ.
Qed.

Definition example_publish : node (rpc unit) :=
  ns.NodePublishVolume NodeExample.gates Example.driver NodeExample.publish_request.

Lemma NodePublishVolume_safe_witness :
  let t := run_log node_env example_publish (NewResourceLocks, NodeExample.host1) in
  (run node_env example_publish (NewResourceLocks, NodeExample.host1)).1 = Ok tt ∧
  ∃ volId serial cap,
    ParseCsiVolId (np_VolumeId NodeExample.publish_request) = Ok (volId, serial) ∧
    np_VolumeCapability NodeExample.publish_request = Some cap ∧
    published NodeExample.gates NodeExample.publish_request cap serial (inner t).
Proof.
  intros t. split; [vm_compute; reflexivity|].
  apply (proj2 (NodePublishVolume_safe NodeExample.gates Example.driver NodeExample.publish_request t _
    (example_node_trace example_publish NodeExample.host1))).
  vm_compute. reflexivity.
Defined.

(** ** Cleaning up *)

(** C29: [NodeUnpublishVolume] and [NodeUnstageVolume] undo a mount whatever the
    volume id is, malformed ids included: when the id and the path are not empty
    (and, for unstaging, the driver can stage), their executions are exactly these:
    the lock (of the disk in the id, or of the whole id when it is malformed) is held
    and they answer Aborted, or they take it, clean the path up once and release
    it, and fail only when the clean-up fails. *)
Theorem cleanup_ignores_volume_id (d : DiskDriver) (id path : string) t r :
  id ≠ "" → path ≠ "" → NodeRPC.STAGE_UNSTAGE_VOLUME ∈ d_nodeCap d →
  let key := match ParseCsiVolId id with Ok (volId, _) => volId | Err _ => id end in
  let outcome :=
    t = [Event (OnLocks (TryAcquireE key)) false] ∧ r = Err codes.Aborted ∨
    ∃ x, t = [Event (OnLocks (TryAcquireE key)) true;
              Event (Other (CleanupMountPoint path true)) x; Event (OnLocks (ReleaseE key)) tt] ∧
         r = match x with Ok _ => Ok tt | Err _ => Err codes.Internal end in
  (traces node_ok (ns.NodeUnpublishVolume {| nu_VolumeId := id; nu_TargetPath := path |}) t r ↔ outcome) ∧
  (traces node_ok (ns.NodeUnstageVolume d {| nt_VolumeId := id; nt_StagingTargetPath := path |}) t r ↔
   outcome).
Proof.
  intros Hid Hpath Hcap key outcome.
  assert (Hempty : ∀ s : string, s ≠ "" → (len s =? 0) = false)
    by (intros s Hs; apply Z.eqb_neq; by rewrite len_0).
  assert (Hlock : traces node_ok
    (with_lock key (lift (host_try codes.Internal (CleanupMountPoint path true)))) t r ↔ outcome).
  { rewrite traces_with_lock. unfold outcome. apply or_iff_compat_l. split.
    - intros (t' & -> & x & t2 & -> & _ & -> & ->). exists x. split; [done|].
      destruct x as [[]|]; done.
    - intros (x & -> & ->). exists [Event (CleanupMountPoint path true) x]. split; [done|].
      exists x, []. split_and!; [done..|]. destruct x as [[]|]; done. }
  unfold ns.NodeUnpublishVolume, ns.NodeUnstageVolume. fold (ns.lock_key id) in key. simpl.
  apply existsb_eqb_elem in Hcap. unfold ValidateNodeServiceRequest.
  rewrite !Hempty by done. split; [exact Hlock|]. by rewrite Hcap.
Qed.

Lemma cleanup_ignores_volume_id_witness :
  traces node_ok (ns.NodeUnpublishVolume {| nu_VolumeId := "not-a-disk"; nu_TargetPath := "/t" |})
    [Event (OnLocks (TryAcquireE "not-a-disk")) true;
     Event (Other (CleanupMountPoint "/t" true)) (Ok tt);
     Event (OnLocks (ReleaseE "not-a-disk")) tt] (Ok tt).
Proof.
  apply (proj1 (cleanup_ignores_volume_id Example.driver "not-a-disk" "/t" _ _ ltac:(discriminate)
    ltac:(discriminate) ltac:(vm_compute; apply list_elem_of_here))).
  right. exists (Ok tt). split; reflexivity.
Defined.

(** ** Devices *)

(** C31: [getDevPathBySerial] succeeds exactly when it has read the serial of every
    device that [lsblk] lists and one device alone has the serial asked for, with
    that device's path; a serial that cannot be read is not that of the volume. *)
Theorem getDevPathBySerial_unique (serial : string) t path :
  traces host_ok (getDevPathBySerial serial) t (Ok path) ↔
  ∃ output reads dev,
    reads.*1 = listed output ∧ with_serial serial reads = [dev] ∧ path = "/dev/" +:+ dev ∧
    t = Event (CombinedOutput "lsblk" ["-d"; "-o"; "NAME"; "-n"; "-i"]) (output, None) ::
        (read_serial <$> reads).
Proof. apply getDevPathBySerial_Ok. Qed.

(** ** Expansion *)

(** A read before the lock changes nothing. *)
Lemma allowed_after_reads {A} allows (p : host A) a t1 t2 :
  reads_only p → traces host_ok p t1 a →
  (∀ h R o, allows h R o → allows (t1 ++ h) R o) →
  allowed allows t2 → allowed allows (t1 ++ t2).
Proof.
  intros Hp Ht Hmono H2 h1 R o x h2 Heq Ho.
  apply (all_calls_traces _ _ _ _ _ Hp) in Ht. rewrite list.Forall_forall in Ht.
  destruct (app_eq_inv _ _ _ _ Heq) as [([|ev k] & Hk & Hev)|(k & -> & ->)].
  - rewrite app_nil_r in Hk. subst t1. rewrite <-(app_nil_r h1).
    apply Hmono, (H2 [] _ _ x h2); [by rewrite Hev|done].
  - injection Hev as <- ->. specialize (Ht (Event o x)). simpl in Ht. rewrite Ht in Ho; [done|].
    rewrite Hk. apply elem_of_app. right. apply list_elem_of_here.
  - by eapply Hmono, H2.
Qed.

Lemma expand_block_mode_true req t :
  traces host_ok (ns.expand_block_mode req) t (Ok true) →
  (is_block <$> ne_VolumeCapability req = Some true ∨
   ∃ mode, Event (Stat (ne_VolumePath req)) (Ok mode) ∈ t ∧ is_block_mode mode = true).
Proof.
  unfold ns.expand_block_mode. destruct (ne_VolumeCapability req) as [cap|]; simpl.
  - intros [_ [= ->]]. by left.
  - intros ([mode|e] & t' & -> & _ & -> & [=]). right. exists mode. split; [|done].
    apply list_elem_of_here.
Qed.

Lemma grown_after req serial size n t1 t2 :
  grown req serial size n t2 → grown req serial size n (t1 ++ t2).
Proof.
  intros (Hn & dev & out & Hl & Hr & Hb & Hp). split; [done|]. exists dev, out.
  rewrite !elem_of_app. split_and!; auto. by apply located_after.
Qed.

(** [NodeExpandVolume] grows the file system of the device whose serial is in
    the volume id, at the volume's path, and changes nothing else.  It succeeds
    either for a block volume, with no change to the host, or when the file system
    has grown and the device has the capacity it reports, which is at least the one
    asked for. *)
Theorem NodeExpandVolume_grows (req : NodeExpandVolumeRequest) t r :
  traces node_ok (ns.NodeExpandVolume req) t r →
  allowed (fun h R o => ∃ volId serial, ParseCsiVolId (ne_VolumeId req) = Ok (volId, serial) ∧
             node_expand_allows req serial h R o) (inner t) ∧
  (∀ resp, r = Ok resp →
     allowed (fun _ _ _ => False) (inner t) ∧
       (is_block <$> ne_VolumeCapability req = Some true ∨
        ∃ mode, Event (Stat (ne_VolumePath req)) (Ok mode) ∈ inner t ∧ is_block_mode mode = true) ∨
     ∃ volId serial size, ParseCsiVolId (ne_VolumeId req) = Ok (volId, serial) ∧
       GetRequestSizeBytes (ne_CapacityRange req) = Ok size ∧
       grown req serial size (ner_CapacityBytes resp) (inner t)).
Proof.
  unfold ns.NodeExpandVolume. intros Ht. through_checks Ht.
  apply traces_bind in Ht as (t1 & t2 & m & -> & (t1' & -> & Hm)%traces_lift & Ht).
  rewrite inner_app, inner_outer.
  assert (Hread : ∀ allows, (∀ h R o, allows h R o → allows (t1' ++ h) R o) →
    allowed allows (inner t2) → allowed allows (t1' ++ inner t2))
    by (intros; by eapply allowed_after_reads; [apply reads_expand_block_mode|..]).
  assert (Hexp : ∀ h R (o : HostE R),
    (∃ volId serial, ParseCsiVolId (ne_VolumeId req) = Ok (volId, serial) ∧
       node_expand_allows req serial h R o) →
    ∃ volId serial, ParseCsiVolId (ne_VolumeId req) = Ok (volId, serial) ∧
       node_expand_allows req serial (t1' ++ h) R o)
    by (intros h R o (? & ? & ? & ?); eauto using node_expand_allows_after).
  destruct m as [[]|e]; through_checks Ht;
    try (split; [apply Hread; [exact Hexp|apply allowed_nil]|]; try done).
  - intros resp _. left. split; [apply Hread; [done|apply allowed_nil]|].
    cbn [inner omap list_omap]. rewrite app_nil_r. by apply expand_block_mode_true.
  - destruct (locked_trace _ _ _ _ _ _ (wp_node_expand req _ _ []) Ht) as [HQ Hall].
    split; [apply Hread; [exact Hexp|]; eapply allowed_mono; [|exact Hall]; eauto|].
    intros resp ->. right. destruct HQ as [[_ ?]|HQ]; [done|].
    eexists _, _, _. split_and!; [done..|]. apply grown_after. by apply HQ.
Qed.

Definition example_expand : node (rpc NodeExpandVolumeResponse) :=
  ns.NodeExpandVolume NodeExample.expand_request.

Lemma NodeExpandVolume_grows_witness :
  let t := run_log node_env example_expand (NewResourceLocks, NodeExample.host1) in
  (run node_env example_expand (NewResourceLocks, NodeExample.host1)).1 =
    Ok {| ner_CapacityBytes := 21474836480 |} ∧
  (allowed (fun _ _ _ => False) (inner t) ∧
     (is_block <$> ne_VolumeCapability NodeExample.expand_request = Some true ∨
      ∃ mode, Event (Stat NodeExample.target) (Ok mode) ∈ inner t ∧ is_block_mode mode = true) ∨
   ∃ volId serial size,
     ParseCsiVolId (ne_VolumeId NodeExample.expand_request) = Ok (volId, serial) ∧
     GetRequestSizeBytes (ne_CapacityRange NodeExample.expand_request) = Ok size ∧
     grown NodeExample.expand_request serial size 21474836480 (inner t)).
Proof.
  intros t. split; [vm_compute; reflexivity|].
  apply (proj2 (NodeExpandVolume_grows NodeExample.expand_request t _
    (example_node_trace example_expand NodeExample.host1)) {| ner_CapacityBytes := 21474836480 |}).
  vm_compute. reflexivity.
Defined.

(** ** Where the node is *)

Lemma NodeGetInfo_Ok d :
  ns.NodeGetInfo d =
  Ok {| ni_NodeId := d_nodeId d; ni_MaxVolumesPerNode := d_maxVolume d;
        ni_AccessibleTopology := disk_segments d (d_zoneId d) |}.
Proof.
  unfold disk_segments. rewrite <-insert_empty, <-insert_insert_ne; [|apply not_eq_sym, topology_keys_differ].
  by rewrite insert_empty.
Qed.

(** C35: The node registers exactly the topology of the disks it can use: the one
    that [NodeGetInfo] reports is among those of a disk if and only if the disk has
    a valid type and is in the node's zone, and a volume asked for on this node is
    placed in the node's zone, in whatever order Go ranges over the segments. *)
Theorem node_topology_agrees (d : DiskDriver) (info : NodeGetInfoResponse) :
  ns.NodeGetInfo d = Ok info →
  ni_NodeId info = d_nodeId d ∧ ni_MaxVolumesPerNode info = d_maxVolume d ∧
  (∀ v, ni_AccessibleTopology info ∈ GetVolumeTopology d (Some v) ↔
     VolumeType_IsValid (ZecVolume_Type v) = true ∧ ZecVolume_Zone v = d_zoneId d) ∧
  (∀ requisite preferred t r,
     traces ctrl_ok (PickTopology d (Some
       {| Requisite := requisite; Preferred := ni_AccessibleTopology info :: preferred |})) t r →
     r = Ok (Some (mkTopology (d_zoneId d) BasicVmType))).
Proof.
  rewrite NodeGetInfo_Ok. intros [= <-]. split_and!; [done..| |].
  - intros v. destruct (VolumeType_IsValid (ZecVolume_Type v)) eqn:Hv.
    + rewrite (GetVolumeTopology_valid d v Hv), list_elem_of_singleton. split.
      * intros Hseg. split; [done|]. apply (f_equal (lookup (GetTopologyZoneKey d))) in Hseg.
        unfold disk_segments in Hseg. simpl in Hseg.
        rewrite !lookup_insert_ne, !lookup_singleton_eq in Hseg by apply topology_keys_differ.
        congruence.
      * by intros [_ ->].
    + unfold GetVolumeTopology. rewrite Hv. split; [by intros ?%not_elem_of_nil|by intros [? _]].
  - intros requisite preferred t r (order & t1 & -> & Hok & Ht). destruct Ht as [_ ->].
    by rewrite (pick_disk_segments d (d_zoneId d)).
Qed.

Lemma node_topology_agrees_witness :
  ∃ info, ns.NodeGetInfo Example.driver = Ok info ∧
    ni_AccessibleTopology info ∈
      GetVolumeTopology Example.driver
        (Some (volume_of_disk (Example.disk DiskStatusAvailable "" 20))).
Proof.
  eexists. split; [reflexivity|].
  destruct (node_topology_agrees Example.driver _ eq_refl) as (_ & _ & Htopo & _).
  apply Htopo. split; reflexivity.
Defined.

(** ** Statistics *)

Lemma allowed_reads {A} allows (p : host A) t a :
  reads_only p → traces host_ok p t a → allowed allows t.
Proof.
  intros Hp Ht h1 R o x h2 -> Ho. apply (all_calls_traces _ _ _ _ _ Hp) in Ht.
  rewrite list.Forall_forall in Ht. specialize (Ht (Event o x)). simpl in Ht.
  rewrite Ht in Ho; [done|]. apply elem_of_app. right. apply list_elem_of_here.
Qed.

(** The product of two non-negative 64-bit numbers, when it fits. *)
Lemma blocks_bytes_exact n bsize :
  0 <= n → 0 <= bsize <= MaxInt64 → n * bsize <= MaxInt64 → ns.blocks_bytes n bsize = n * bsize.
Proof.
  unfold ns.blocks_bytes, wrapu64, MaxInt64. intros.
  rewrite (Z.mod_small bsize), Z.mod_small by nia. apply wrap64_id. unfold is_int64, MaxInt64. nia.
Qed.

Lemma fs_usage_exact stat :
  Statfs_wf stat → 0 <= Bsize stat → Blocks stat * Bsize stat <= MaxInt64 →
  Bavail stat <= Bfree stat <= Blocks stat →
  ns.fs_usage stat =
  {| Available := Bavail stat * Bsize stat; Total := Blocks stat * Bsize stat;
     Used := (Blocks stat - Bfree stat) * Bsize stat |}.
Proof.
  intros (Hb & Hf & Ha & Hs) Hpos Hmax Hle. unfold ns.fs_usage, is_uint64, is_int64 in *.
  rewrite !blocks_bytes_exact by nia. f_equal. rewrite wrap64_id by (unfold is_int64; nia). lia.
Qed.

Definition statfs_answer (ev : event HostE) : option Statfs_t :=
  match ev_call ev in HostE R return R → option Statfs_t with
  | Statfs _ => fun r => match r with Ok s => Some s | Err _ => None end
  | _ => fun _ => None
  end (ev_answer ev).

(** The answer of [statfs] is the one the figures are made from. *)
Lemma wp_stats req :
  wp (watched (fun _ _ _ => False)) (ns.NodeGetVolumeStats req)
    (fun r t => ∀ usage stat, r = Ok usage → stat ∈ omap statfs_answer t →
       Statfs_wf stat ∧ usage = ns.fs_usage stat) [].
Proof.
  walk_host; try done; intros usage stat Hr; try done; csimpl;
    rewrite ?elem_of_nil; try done.
  destruct r0 as [s|]; simplify_eq/=. rewrite list_elem_of_singleton. by intros ->.
Qed.

(** C36: [NodeGetVolumeStats] changes nothing on the host.  Its figures for a file
    system are those of [statfs], without overflow, when the file system's size in
    bytes fits an [int64]: the total, what is available, and as used what is not
    free; the used and the available bytes fit in the total. *)
Theorem NodeGetVolumeStats_exact (req : NodeGetVolumeStatsRequest) t r :
  traces host_ok (ns.NodeGetVolumeStats req) t r →
  allowed (fun _ _ _ => False) t ∧
  (∀ usage stat, r = Ok usage → Event (Statfs (ng_VolumePath req)) (Ok stat) ∈ t →
     0 <= Bsize stat → Blocks stat * Bsize stat <= MaxInt64 →
     Bavail stat <= Bfree stat <= Blocks stat →
     usage = {| Available := Bavail stat * Bsize stat; Total := Blocks stat * Bsize stat;
                Used := (Blocks stat - Bfree stat) * Bsize stat |} ∧
     0 <= Used usage ∧ 0 <= Available usage ∧ Used usage + Available usage <= Total usage).
Proof.
  intros Ht. split; [by eapply allowed_reads, Ht; apply reads_NodeGetVolumeStats|].
  intros usage stat -> Hin Hpos Hmax Hle.
  assert (Heq : Statfs_wf stat ∧ usage = ns.fs_usage stat).
  { apply (proj1 (watched_trace _ _ _ _ _ (wp_stats req) Ht)); [done|].
    apply list_elem_of_omap. by eexists. }
  destruct Heq as [Hwf ->]. pose proof Hwf as (Hb & Hf & Ha & _).
  rewrite fs_usage_exact by done. unfold is_uint64 in *. simpl. split; [done|]. nia.
Qed.

Lemma NodeGetVolumeStats_exact_witness :
  let req := {| ng_VolumeId := Example.csiId; ng_VolumePath := NodeExample.staging |} in
  let stat := {| Blocks := 1000; Bfree := 600; Bavail := 500; Bsize := 4096 |} in
  let usage := {| Available := 2048000; Total := 4096000; Used := 1638400 |} in
  (run host_env (ns.NodeGetVolumeStats req) NodeExample.host1).1 = Ok usage ∧
  usage = {| Available := Bavail stat * Bsize stat; Total := Blocks stat * Bsize stat;
             Used := (Blocks stat - Bfree stat) * Bsize stat |}.
Proof.
  intros req stat usage. split; [vm_compute; reflexivity|].
  refine (proj1 (proj2 (NodeGetVolumeStats_exact req _ _
    (example_host_trace (ns.NodeGetVolumeStats req) NodeExample.host1)) usage stat _ _ _ _ _)).
  - vm_compute. reflexivity.
  - vm_compute. apply list_elem_of_further, list_elem_of_here.
  - vm_compute. discriminate.
  - vm_compute. discriminate.
  - vm_compute. split; discriminate.
Defined.

(** ** Concurrency *)

(** C26: The node works on a volume in one request at a time.  In every execution
    of the node server, each call that changes the host is made by a request that
    holds the lock of its volume, which no other request holds at that time; two
    requests never have such calls in flight for one volume; and no lock leaks. *)
Theorem node_work_is_exclusive (g : Globals) (d : DiskDriver) (s : system (node_server g d)) :
  served (node_server g d) s →
  (∀ l1 i R (o : HostE R) x l2 q p,
     log s = l1 ++ (i, Event (Other o) x) :: l2 → pool s !! i = Some (q, p) → modifies o = true →
     ∀ j, node_volume q ∈ held_by j l1 ↔ j = i) ∧
  (∀ i j q1 q2 R1 R2 (o1 : HostE R1) (o2 : HostE R2) k1 k2,
     pool s !! i = Some (q1, Vis (Other o1) k1) → pool s !! j = Some (q2, Vis (Other o2) k2) →
     modifies o1 = true → modifies o2 = true → node_volume q1 = node_volume q2 → i = j) ∧
  ((∀ i q p, pool s !! i = Some (q, p) → ∃ a, p = Ret a) → locks (table s) = ∅).
Proof.
  intros Hs. assert (Hscope : ∀ q R (o : HostE R), modifies o = true →
    node_volume q ∈ sv_scope (node_server g d) q R o)
    by (intros q R o Ho; simpl; unfold node_scope; rewrite Ho; apply list_elem_of_here).
  split_and!; [| |by apply (served_released _ s Hs)].
  - intros l1 i R o x l2 q p Heq Hi Ho.
    exact (proj1 (served_exclusive _ s _ Hs) _ _ _ _ _ _ _ _ _ Heq Hi eq_refl (Hscope _ _ _ Ho)).
  - intros i j q1 q2 R1 R2 o1 o2 k1 k2 Hi Hj H1 H2 Heq.
    refine (proj2 (served_exclusive _ s _ Hs) _ _ _ _ _ _ _ _ _ _ Hi Hj (Hscope _ _ _ H1) _).
    rewrite Heq. by apply Hscope.
Qed.

Definition example_node : server := node_server NodeExample.gates Example.driver.

Lemma node_work_is_exclusive_witness :
  let s := served_alone example_node host_env (ReqNodeStage NodeExample.stage_request)
             NodeExample.host0 in
  ∃ l1 l2, log s = l1 ++ (0%nat, Event (Other (Resize "/dev/vdb" NodeExample.staging)) (Ok true)) :: l2 ∧
    Example.diskId ∈ held_by 0 l1 ∧ Example.diskId ∉ held_by 1 l1.
Proof.
  intros s. exists (take 12 (log s)), (drop 13 (log s)).
  assert (Hlog : log s = take 12 (log s) ++
    (0%nat, Event (Other (Resize "/dev/vdb" NodeExample.staging)) (Ok true)) :: drop 13 (log s))
    by (vm_compute; reflexivity).
  assert (Hpool : ∃ p, pool s !! 0%nat = Some (ReqNodeStage NodeExample.stage_request, p))
    by (eexists; vm_compute; reflexivity).
  destruct Hpool as [p Hpool].
  pose proof (proj1 (node_work_is_exclusive NodeExample.gates Example.driver s
    (served_alone_served example_node host_env host_env_ok _ _)) _ _ _ _ _ _ _ _ Hlog Hpool eq_refl)
    as Hheld.
  change (node_volume _) with Example.diskId in Hheld.
  split; [exact Hlog|]. split; [by apply Hheld|]. by intros ?%Hheld.
Defined.

(** ** What formatting and mounting achieve on a working host *)

Section outcome.
Context {W : Type} (hd : env HostE W) (fmt : W → string → string) (device : string).

(** A host on which [fmt w p] is the format of the disk at [p]: the mounter
    reports it, a disk mounts exactly as what it is formatted as, [mkfs] formats the
    disk that is its last argument, and nothing else changes a format. *)
Record working_host : Prop := {
  probe_reports w :
    (hd _ (GetDiskFormat device) w).1 = Ok (fmt w device) ∧
    fmt (hd _ (GetDiskFormat device) w).2 device = fmt w device;
  mount_needs_format w target fs os : fs ≠ "" →
    ((hd _ (MountFs device target fs os) w).1 = Ok tt ↔ fmt w device = fs) ∧
    fmt (hd _ (MountFs device target fs os) w).2 device = fmt w device;
  mkfs_formats w fs args :
    (hd _ (CombinedOutput ("mkfs." +:+ fs) (args ++ [device])) w).1.2 = None ∧
    fmt (hd _ (CombinedOutput ("mkfs." +:+ fs) (args ++ [device])) w).2 device = fs;
  fsck_repairs w :
    (hd _ (CombinedOutput "fsck" ["-a"; device]) w).1.2 ≠ Some (ExitError 4) ∧
    fmt (hd _ (CombinedOutput "fsck" ["-a"; device]) w).2 device = fmt w device
}.
Context (Hhost : working_host).

Lemma run_check_device skip w :
  ∃ w1, run hd (check_device device skip) w = (Ok tt, w1) ∧ fmt w1 device = fmt w device.
Proof.
  unfold check_device. destruct skip; [by exists w|]. simpl.
  destruct (fsck_repairs Hhost w) as [Hf Hsame].
  destruct (hd _ (CombinedOutput "fsck" ["-a"; device]) w) as [[out err] w1]. exists w1. simpl in *.
  split; [|done]. unfold fsck_outcome. destruct err as [[| |]|]; try done.
  destruct (Z.eqb_spec ExitStatus 4) as [->|]; [by destruct Hf|done].
Qed.

Lemma mkfs_args fs : checkfsType fs = true → ∃ args, mkfsDefaultArgs fs device = args ++ [device].
Proof.
  unfold checkfsType, mkfsDefaultArgs. intros [[?|?]%orb_true_iff|?]%orb_true_iff; 
    repeat match goal with H : String.eqb _ _ = true |- _ => apply String.eqb_eq in H as -> end; simpl.
  - by exists ["-F"; "-m0"; "-E"; "nodiscard"].
  - by exists ["-f"; "-K"].
  - by exists ["-F"; "-m0"; "-E"; "nodiscard"].
Qed.

Lemma run_FormatNewDisk target fs options w :
  checkfsType fs = true →
  ∃ w1, run hd (FormatNewDisk false device fs target [] options) w = (Ok tt, w1) ∧
        fmt w1 device = fs.
Proof.
  intros Hfs. unfold FormatNewDisk.
  assert (Hne : fs ≠ "") by (by intros ->).
  destruct (Z.eqb_spec (len fs) 0) as [Hl|_]; [by apply len_0 in Hl|].
  destruct (mkfs_args fs Hfs) as [args ->]. cbv zeta. unfold mbind, call. cbn [prog_bind run].
  destruct (mkfs_formats Hhost w fs args) as [Herr Hfmt].
  destruct (hd _ (CombinedOutput ("mkfs." +:+ fs) (args ++ [device])) w) as [[out err] w1].
  cbn [fst snd] in *. subst err. unfold mbind, call. cbn [prog_bind run].
  destruct (mount_needs_format Hhost w1 target fs options Hne) as [Hm Hsame].
  destruct (hd _ (MountFs device target fs options) w1) as [m w2]. cbn [fst snd] in *.
  exists w2. rewrite (proj2 Hm Hfmt). split; [done|]. by rewrite Hsame.
Qed.

(** The three cases of a device. *)
Lemma run_FormatAndMount target fs options omit w :
  checkfsType fs = true → fmt w device ≠ "unknown data, probably partitions" →
  let '(r, w') := run hd (FormatAndMount device target fs [] options omit) w in
  if String.eqb (fmt w device) fs then r = Ok tt ∧ fmt w' device = fs
  else if String.eqb (fmt w device) "" then
    if read_only options then r = Err UnformattedReadOnly ∧ fmt w' device = ""
    else r = Ok tt ∧ fmt w' device = fs
  else r = Err (OtherFilesystem (fmt w device)) ∧ fmt w' device = fmt w device.
Proof.
  intros Hfs Hun. assert (Hne : fs ≠ "") by (by intros ->).
  unfold FormatAndMount. rewrite run_bind.
  destruct (run_check_device (read_only options || omit) w) as (w1 & -> & H1). rewrite <-H1 in *.
  clear H1 w. simpl. set (os := match options with [] => _ | _ => _ end).
  destruct (mount_needs_format Hhost w1 target fs os Hne) as [Hm H2].
  destruct (hd _ (MountFs device target fs os) w1) as [m w2]. simpl in *.
  destruct (String.eqb_spec (fmt w1 device) fs) as [Heq|Hneq].
  { rewrite (proj2 Hm Heq). simpl. by rewrite H2. }
  destruct m as [[]|e]; [by destruct Hneq; apply Hm|]. rewrite <-H2 in *. clear H2 Hm.
  unfold after_mount_error. simpl. destruct (probe_reports Hhost w2) as [Hp H3].
  destruct (hd _ (GetDiskFormat device) w2) as [p w3]. simpl in *. rewrite Hp. rewrite <-H3 in *.
  clear H3 Hp p. destruct (String.eqb_spec (fmt w3 device) "") as [He|He].
  - unfold os. destruct (read_only options); [simpl; by rewrite He|].
    destruct (run_FormatNewDisk target fs os w3 Hfs) as (w4 & Hrun & Hfmt).
    unfold os in Hrun. by rewrite Hrun.
  - destruct (Z.eqb_spec (len fs) 0) as [Hl|_]; [by apply len_0 in Hl|]. simpl.
    destruct (String.eqb_spec fs (fmt w3 device)); [done|].
    destruct (String.eqb_spec (fmt w3 device) "unknown data, probably partitions"); [done|]. done.
Qed.
End outcome.

(** On a working host, [FormatAndMount] mounts a disk that has the file system
    asked for, formats and mounts one that has none unless it was asked for
    read-only, and refuses every other one; the disk keeps its format in all cases
    but the second.  (A disk reported as "unknown data, probably partitions" is the
    case that [FormatAndMount_safe] treats.) *)
Theorem FormatAndMount_outcome {W} (hd : env HostE W) (fmt : W → string → string)
    (device target fs : string) (options : list string) (omit : bool) (w : W) :
  working_host hd fmt device → checkfsType fs = true →
  fmt w device ≠ "unknown data, probably partitions" →
  let '(r, w') := run hd (FormatAndMount device target fs [] options omit) w in
  if String.eqb (fmt w device) fs then r = Ok tt ∧ fmt w' device = fs
  else if String.eqb (fmt w device) "" then
    if read_only options then r = Err UnformattedReadOnly ∧ fmt w' device = ""
    else r = Ok tt ∧ fmt w' device = fs
  else r = Err (OtherFilesystem (fmt w device)) ∧ fmt w' device = fmt w device.
Proof.
  intros Hh Hf Hu. exact (run_FormatAndMount hd fmt device Hh target fs options omit w Hf Hu).
Qed.

(** A host of one disk, whose state is the disk's format. *)
Definition one_disk : env HostE string := fun R o =>
  match o in HostE R return string → R * string with
  | GetDiskFormat _ => fun f => (Ok f, f)
  | MountFs _ _ fs _ => fun f => (if String.eqb f fs then Ok tt else Err ErrOther, f)
  | CombinedOutput cmd _ => fun f =>
      (("", None), match cmd with
                   | String "m" (String "k" (String "f" (String "s" (String "." fs)))) => fs
                   | _ => f
                   end)
  | o => fun f => ((host_env _ o NodeExample.host0).1, f)
  end.

Lemma one_disk_works device : working_host one_disk (fun f _ => f) device.
Proof.
  split; try done. intros f target fs os Hfs. simpl. split; [|done].
  by destruct (String.eqb_spec f fs).
Qed.

Lemma FormatAndMount_outcome_witness :
  let '(r, f) := run one_disk (FormatAndMount "/dev/vdb" "/mnt" "xfs" [] [] false) "" in
  r = Ok tt ∧ f = "xfs".
Proof.
  exact (FormatAndMount_outcome one_disk (fun f _ => f) "/dev/vdb" "/mnt" "xfs" [] false ""
    (one_disk_works "/dev/vdb") eq_refl ltac:(discriminate)).
Defined.
