(* ===== verification/NodeVol.v ===== *)
(** * A volume on its node, and the abstract node service

    What the node server keeps of a volume is on the host: whether its disk is
    formatted, and what is mounted where.  [nodevol] is that state for one volume;
    [host_api] says what the calls of the host do to it and may answer, errors
    included; [node_results] is the specification of the node service: the answers
    that each request may get with what it then has made of the volume, and
    [node_left] what it may leave when it fails. *)

From S2P Require Import Prelude GoStd Csi Common Prog Locking Machine Driver CloudTypes.
From S2P Require Import Host Mount MountProps Node NodeProps.

Local Open Scope Z_scope.

(** ** The state *)

(** What is seen under a mount point: the file system on a device, or the file or
    directory that was bound there. *)
Inductive contents : Set := Filesystem (device : string) | File (path : string).

Record mount : Set := mkMount {
  m_shows : contents;
  m_type : string;
  m_options : list string
}.

Record nodevol : Type := mkNodevol {
  (** as [GetDiskFormat] tells it *)
  nv_format : string;
  (** the file system and partition table types that [blkid] finds *)
  nv_table : string * string;
  (** the file system fills the device *)
  nv_full : bool;
  nv_mounts : gmap string mount
}.

Definition unknown_data : string := "unknown data, probably partitions".

Definition has_filesystem (s : nodevol) : bool :=
  negb (String.eqb (nv_format s) "" || String.eqb (nv_format s) unknown_data).

(** Nothing is lost when the device is formatted. *)
Definition formattable (s : nodevol) : bool :=
  String.eqb (nv_format s) "" ||
  String.eqb (nv_format s) unknown_data &&
  (String.eqb (nv_table s).1 "" && String.eqb (nv_table s).2 "atari").

Definition with_mounts (ms : gmap string mount) (s : nodevol) : nodevol :=
  mkNodevol (nv_format s) (nv_table s) (nv_full s) ms.

Definition formatted (fs : string) (s : nodevol) : nodevol :=
  mkNodevol fs (fs, "") true (nv_mounts s).

Definition filled (s : nodevol) : nodevol :=
  mkNodevol (nv_format s) (nv_table s) true (nv_mounts s).

Definition unmount (p : string) (s : nodevol) : nodevol := with_mounts (delete p (nv_mounts s)) s.

Definition is_bind (options : list string) : bool := existsb (String.eqb "bind") options.

(** A bind mount shows what its source shows. *)
Definition shown (s : nodevol) (source : string) (options : list string) : contents :=
  if is_bind options
  then match nv_mounts s !! source with Some m => m_shows m | None => File source end
  else Filesystem source.

Definition mounted_as (source target fs : string) (options : list string) (s : nodevol) : nodevol :=
  with_mounts (<[target := mkMount (shown s source options) fs options]> (nv_mounts s)) s.

(** What the driver may see of a mount point: a directory that is bound on the same
    file system need not be recognized by [IsLikelyNotMountPoint]. *)
Definition seen_mounted (exact : bool) (s : nodevol) (p : string) : list bool :=
  match nv_mounts s !! p with
  | None => [false]
  | Some m =>
    if exact then [true] else
    match m_shows m with Filesystem _ => [true] | File _ => [true; false] end
  end.

(** ** The host *)

Section host.
(** The volume's disk: its serial, its device and its size; the paths that belong to
    the volume. *)
Context (serial device : string) (size : Z) (paths : gset string).

(** The type of file system that a command makes. *)
Definition mkfs_type (cmd : string) : option string :=
  if HasPrefix cmd "mkfs." then Some (String.substring 5 (String.length cmd - 5) cmd) else None.

(** The commands have the device as their last argument. *)
Definition on_device (args : list string) : bool :=
  match list.last args with Some p => String.eqb p device | None => false end.

Definition command_does (cmd : string) (args : list string) (out : string) (err : option execerr)
    (s s' : nodevol) : Prop :=
  if on_device args then
    match mkfs_type cmd with
    | Some fs => match err with
                 | None => s' = formatted fs s
                 | Some _ => nv_mounts s' = nv_mounts s
                 end
    | None =>
      s' = s ∧
      (cmd = "blkid" → ∀ x, blkid_output out err = Ok x → x = nv_table s) ∧
      (cmd = "blockdev" → ∀ n, err = None → ParseInt (TrimSpace out) = Some n → n = size)
    end
  else s' = s.

(** What [os.Stat] says of a path of the volume. *)
Definition block_seen (s : nodevol) (p : string) : list bool :=
  match nv_mounts s !! p with
  | Some m => match m_shows m with
              | Filesystem _ => [false]
              | File q => if String.eqb q device then [true] else [true; false]
              end
  | None => [true; false]
  end.

Definition mount_does (source target fs : string) (options : list string) (r : result oserr unit)
    (s s' : nodevol) : Prop :=
  match r with
  | Ok _ =>
    (is_bind options = false → source = device → has_filesystem s = true) ∧
    s' = mounted_as source target fs options s
  | Err _ =>
    s' = s ∨
    is_bind options = true ∧ ∃ os,
      s' = with_mounts (<[target := mkMount (shown s source options) fs os]> (nv_mounts s)) s
  end.

(** Calls on other paths and other devices leave the volume alone. *)
Definition host_api : machine HostE nodevol := fun R o s r s' =>
  match o in HostE R return R → Prop with
  | ReadFile p => fun r => s' = s ∧
      ∀ dev raw, p = serial_path dev → r = Ok raw →
        (TrimSpace raw = serial ↔ "/dev/" +:+ dev = device)
  | CombinedOutput cmd args => fun r => command_does cmd args r.1 r.2 s s'
  | Stat p => fun r => s' = s ∧
      (p ∈ paths → ∀ mode, r = Ok mode → is_block_mode mode ∈ block_seen s p)
  | MountFs source target fs options => fun r =>
      if decide (target ∈ paths) then mount_does source target fs options r s s' else s' = s
  | IsLikelyNotMountPoint p => fun r => s' = s ∧
      (p ∈ paths → match r with
                   | Ok b => negb b ∈ seen_mounted false s p
                   | Err e => e = ErrNotExist → nv_mounts s !! p = None
                   end)
  | IsMountPoint p => fun r => s' = s ∧ (p ∈ paths → ∀ b, r = Ok b → b ∈ seen_mounted true s p)
  | CleanupMountPoint p _ => fun r =>
      if decide (p ∈ paths)
      then match r with Ok _ => s' = unmount p s | Err _ => s' = s ∨ s' = unmount p s end
      else s' = s
  | GetDiskFormat p => fun r => s' = s ∧ (p = device → ∀ f, r = Ok f → f = nv_format s)
  | NeedResize p _ => fun r => s' = s ∧ (p = device → ∀ b, r = Ok b → b = negb (nv_full s))
  | Resize p _ => fun r =>
      if String.eqb p device
      then match r with Ok true => s' = filled s | _ => s' = s ∨ s' = filled s end
      else s' = s
  | _ => fun _ => s' = s
  end r.
End host.

(** ** The abstract node service *)

Section service.
Context (g : Globals) (device : string) (size : Z).

(** The device mounted at the staging path: as it is, or after it is formatted; a file
    system that does not fill its device may have grown. *)
Definition stage_mount (target fs : string) (flags : list string) (s : nodevol) : list nodevol :=
  let options := gated_flags g flags in
  let os := used_options options in
  let mount s := let s1 := mounted_as device target fs os s in [s1; filled s1] in
  (if is_bind os || has_filesystem s then mount s else []) ++
  (if formattable s && negb (read_only options) then mount (formatted fs s) else []).

Definition stage_results (target fs : string) (flags : list string) (s : nodevol) : list nodevol :=
  flat_map (fun mounted : bool => if mounted then [s] else stage_mount target fs flags s)
    (seen_mounted false s target).

Definition publish_results (req : NodePublishVolumeRequest) (cap : VolumeCapability) (s : nodevol)
    : list nodevol :=
  let source := if is_block cap then device else np_StagingTargetPath req in
  flat_map (fun mounted : bool =>
      if mounted then [s]
      else [mounted_as source (np_TargetPath req) (fs_type (GetMount cap))
              (ns.publish_options g req cap) s])
    (seen_mounted (is_block cap) s (np_TargetPath req)).

Definition expand_results (req : NodeExpandVolumeRequest) (s : nodevol)
    : list (node_response * nodevol) :=
  let block := match ne_VolumeCapability req with
               | Some cap => [is_block cap]
               | None => block_seen device s (ne_VolumePath req)
               end in
  flat_map (fun b : bool =>
      if b then [(NodeExpanded {| ner_CapacityBytes := 0 |}, s)] else
      match GetRequestSizeBytes (ne_CapacityRange req) with
      | Ok wanted =>
        if wanted <=? size then [(NodeExpanded {| ner_CapacityBytes := size |}, filled s)] else []
      | Err _ => []
      end) block.

Definition done_with (s : nodevol) : node_response * nodevol := (NodeEmpty, s).

(** What a request about the volume may be answered, and has then made of it. *)
Definition node_results (q : node_request) (s : nodevol) : list (node_response * nodevol) :=
  match q with
  | ReqNodeStage r =>
    match ns_VolumeCapability r with
    | None => []
    | Some cap =>
      if is_block cap then [done_with s] else
      match GetMount cap with
      | None => []
      | Some (fs, flags) =>
        done_with <$> stage_results (ns_StagingTargetPath r) (fs_type (Some (fs, flags))) flags s
      end
    end
  | ReqNodePublish r =>
    match np_VolumeCapability r with
    | None => []
    | Some cap => done_with <$> publish_results r cap s
    end
  | ReqNodeUnpublish r => [done_with (unmount (nu_TargetPath r) s)]
  | ReqNodeUnstage r => [done_with (unmount (nt_StagingTargetPath r) s)]
  | ReqNodeExpand r => expand_results r s
  | _ => []
  end.

(** What a failed mount may leave: nothing, or the mount without its options. *)
Definition mount_left (source target : string) (options : list string) (s s' : nodevol) : Prop :=
  nv_mounts s' = nv_mounts s ∨
  ∃ fs os, nv_mounts s' = <[target := mkMount (shown s source options) fs os]> (nv_mounts s).

Definition same_data (s s' : nodevol) : Prop :=
  nv_format s' = nv_format s ∧ nv_table s' = nv_table s.

(** What a request that fails may have made of the volume: its data is only lost
    when there was none, and only its own mount point is touched. *)
Definition node_left (q : node_request) (s s' : nodevol) : Prop :=
  s' = s ∨
  match q with
  | ReqNodeStage r =>
    ∃ cap fs flags, ns_VolumeCapability r = Some cap ∧ GetMount cap = Some (fs, flags) ∧
      mount_left device (ns_StagingTargetPath r) (used_options (gated_flags g flags)) s s' ∧
      (same_data s s' ∨ formattable s = true ∧ read_only (gated_flags g flags) = false)
  | ReqNodePublish r =>
    ∃ cap, np_VolumeCapability r = Some cap ∧
      mount_left (if is_block cap then device else np_StagingTargetPath r) (np_TargetPath r)
        ["bind"] s s' ∧ s' = with_mounts (nv_mounts s') s
  | ReqNodeUnpublish r => s' = unmount (nu_TargetPath r) s
  | ReqNodeUnstage r => s' = unmount (nt_StagingTargetPath r) s
  | ReqNodeExpand _ => s' = filled s
  | _ => False
  end.

Definition node_outcome (q : node_request) (s : nodevol) (r : rpc node_response) (s' : nodevol)
    : Prop :=
  match r with
  | Ok x => (x, s') ∈ node_results q s
  | Err _ => node_left q s s'
  end.
End service.
