(* ===== verification/NodeRefine.v ===== *)
(** * The node server refines the abstract node service

    The handlers of [Node.v] on a host that obeys [host_api], each against
    [node_outcome] of [NodeVol.v]; and, for the requests about other volumes, that
    they leave the volume alone. *)

From S2P Require Import Prelude GoStd Csi Common Prog Locking Machine Bracket Driver CloudTypes.
From S2P Require Import Host Mount MountProps Node NodeProps NodeVol.

Local Open Scope Z_scope.
Local Open Scope csi_scope.

Section refine.
Context (serial device : string) (size : Z) (paths : gset string).

Abbreviation M := (host_api serial device size paths).
Abbreviation leaves_alone p Q := (gentle M (=) p Q).

(** ** Programs that read *)

Lemma gentle_host {R} (o : HostE R) {A} (k : R → host A) (P : R → Prop) Q :
  (∀ s r s', M R o s r s' → s = s' ∧ P r) → (∀ r, P r → leaves_alone (k r) Q) →
  leaves_alone (r ← call o; k r) Q.
Proof. intros Ho Hk. eapply gentle_bind; [by apply gentle_call, Ho|exact Hk]. Qed.

(** A device that was found by its serial is the volume's just if the serial is. *)
Definition finds (x p : string) : Prop := x = serial ↔ p = device.

Lemma gentle_find_serial x devpath devs :
  (devpath = "" ∨ finds x devpath) →
  leaves_alone (find_serial x devpath devs) (fun r => ∀ p, r = Ok p → finds x p).
Proof.
  revert devpath. induction devs as [|dev devs IH]; intros devpath Hd; cbn [find_serial].
  - destruct (String.eqb_spec devpath "") as [|Hne]; [done|]. intros p [= <-]. by destruct Hd.
  - destruct (String.eqb dev ""); [by apply IH|].
    apply (gentle_host _ _ (fun r => ∀ raw, r = Ok raw →
      TrimSpace raw = serial ↔ "/dev/" +:+ dev = device)).
    { intros s r s' [-> H]. split; [done|]. intros raw Hr. by apply H. }
    intros [raw|e] Hr; [|by apply IH].
    destruct (String.eqb_spec (TrimSpace raw) x) as [<-|]; [|by apply IH].
    destruct (negb (String.eqb devpath "")); [done|]. apply IH. right. by apply Hr.
Qed.

Lemma gentle_getDevPathBySerial x :
  leaves_alone (getDevPathBySerial x) (fun r => ∀ p, r = Ok p → finds x p).
Proof.
  unfold getDevPathBySerial. apply (gentle_host _ _ (fun _ => True)).
  - intros s r s' H. split; [|done]. unfold host_api, command_does in H.
    change (mkfs_type "lsblk") with (@None string) in H.
    destruct (on_device _ _); [by destruct H as [-> _]|by subst].
  - intros [out [err|]] _; [done|]. apply gentle_find_serial. by left.
Qed.

Lemma sat_getDevPathBySerial s :
  sat M (getDevPathBySerial serial) s (fun r s' => s' = s ∧ ∀ p, r = Ok p → p = device).
Proof.
  eapply sat_mono; [apply (gentle_sat _ (=)); [apply _|apply gentle_getDevPathBySerial]|].
  intros r s' [-> H]. split; [done|]. intros p Hp. by apply (H p Hp).
Qed.

(** ** Formatting *)

(** Stepping through a program: a call of the host, whose effect is in the context. *)
Lemma sat_host {R} (o : HostE R) {A} (k : R → host A) s Q :
  (∀ r s', M R o s r s' → sat M (k r) s' Q) → sat M (r ← call o; k r) s Q.
Proof. intros H. apply sat_bind, sat_call. exact H. Qed.

Lemma substring_whole s : String.substring 0 (String.length s) s = s.
Proof. induction s as [|c s IH]; [done|]. cbn. by rewrite IH. Qed.

Lemma mkfs_type_of fs : mkfs_type ("mkfs." +:+ fs) = Some fs.
Proof.
  unfold mkfs_type, HasPrefix. cbn.
  replace (String.prefix "" fs) with true by (by destruct fs).
  cbn. by rewrite Nat.sub_0_r, substring_whole.
Qed.

Lemma on_device_last args : list.last args = Some device → on_device device args = true.
Proof. unfold on_device. intros ->. apply String.eqb_refl. Qed.

Lemma mkfs_args_last fs :
  checkfsType fs = true → on_device device (mkfsDefaultArgs fs device) = true.
Proof.
  unfold checkfsType, mkfsDefaultArgs. intros [[H|H]%orb_true_iff|H]%orb_true_iff;
    apply String.eqb_eq in H as ->; cbn; apply String.eqb_refl.
Qed.

Lemma checked_nonempty fs : checkfsType fs = true → (len fs =? 0) = false.
Proof. destruct (Z.eqb_spec (len fs) 0) as [Hl|]; [|done]. by apply len_0 in Hl as ->. Qed.

Section mount.
Context (target fs : string) (os : list string).
Context (Htarget : target ∈ paths) (Hdevice : target ≠ device) (Hfs : checkfsType fs = true).

(** The volume, or the volume with what a failed bind left at the mount point. *)
Definition bound_over (s s1 : nodevol) : Prop :=
  s1 = s ∨ is_bind os = true ∧ ∃ fs' os',
    s1 = with_mounts (<[target := mkMount (shown s device os) fs' os']> (nv_mounts s)) s.

Lemma bound_over_data s s1 : bound_over s s1 →
  nv_format s1 = nv_format s ∧ nv_table s1 = nv_table s ∧ mount_left device target os s s1.
Proof.
  intros [->|(_ & fs' & os' & ->)]; (split_and!; [done..|]); [by left|right]. by exists fs', os'.
Qed.

Lemma shown_formatted s f : shown (formatted f s) device os = shown s device os.
Proof. done. Qed.

Lemma shown_over s s1 : bound_over s s1 → shown s1 device os = shown s device os.
Proof.
  intros [->|(_ & fs' & os' & ->)]; [done|]. unfold shown. cbn.
  by rewrite lookup_insert_ne.
Qed.

Lemma mounted_over s s1 f :
  bound_over s s1 → mounted_as device target fs os (formatted f s1)
                  = mounted_as device target fs os (formatted f s).
Proof.
  intros Hb. unfold mounted_as. rewrite !shown_formatted, (shown_over _ _ Hb).
  destruct Hb as [->|(_ & fs' & os' & ->)]; [done|]. unfold with_mounts, formatted. cbn.
  by rewrite insert_insert_eq.
Qed.

(** The mount of the device. *)
Lemma mount_device s r s' :
  M _ (MountFs device target fs os) s r s' →
  match r with
  | Ok _ => s' = mounted_as device target fs os s ∧ (is_bind os || has_filesystem s) = true
  | Err _ => bound_over s s'
  end.
Proof.
  cbn [host_api]. rewrite decide_True by done. unfold mount_does, bound_over.
  destruct r as [[]|e].
  - intros [Hm ->]. split; [done|]. destruct (is_bind os); [done|]. by apply Hm.
  - intros [->|(Hb & os' & ->)]; [by left|right]. split; [done|]. by exists fs, os'.
Qed.

(** What formatting and mounting make of the volume, and what a failure leaves. *)
Definition mount_outcome (ro : bool) (s : nodevol) (r : result mount_err unit) (s' : nodevol) : Prop :=
  match r with
  | Ok _ =>
    s' = mounted_as device target fs os s ∧ (is_bind os || has_filesystem s) = true ∨
    s' = mounted_as device target fs os (formatted fs s) ∧ formattable s && negb ro = true
  | Err _ =>
    mount_left device target os s s' ∧ (same_data s s' ∨ formattable s = true ∧ ro = false)
  end.

Lemma sat_FormatNewDisk ro s s1 :
  bound_over s s1 → formattable s = true →
  sat M (FormatNewDisk ro device fs target [] os) s1 (mount_outcome ro s).
Proof.
  intros Hb Hf. destruct (bound_over_data s s1 Hb) as (Hfm & Htb & Hleft).
  unfold FormatNewDisk. destruct ro; [apply sat_ret; split; [done|by left]|].
  rewrite (checked_nonempty _ Hfs). apply sat_host. intros [out err] s2 H2.
  cbn [host_api fst snd] in H2. unfold command_does in H2.
  rewrite (mkfs_args_last _ Hfs), mkfs_type_of in H2. destruct err as [e|]; cbn [snd].
  { apply sat_ret. split; [|by right]. unfold mount_left. by rewrite H2. }
  subst s2. apply sat_host. intros r s2 H2%mount_device.
  destruct r as [[]|e]; apply sat_ret.
  - destruct H2 as [-> _]. right. rewrite Hf. split; [by apply mounted_over|done].
  - split; [|by right]. destruct (bound_over_data _ _ H2) as (_ & _ & [Hl|(f' & o' & Hl)]).
    + unfold mount_left. rewrite Hl. exact Hleft.
    + right. exists f', o'. rewrite Hl, shown_formatted, (shown_over _ _ Hb).
      destruct Hb as [->|(_ & ? & ? & ->)]; [done|]. cbn. by rewrite insert_insert_eq.
Qed.

Lemma formattable_over s s1 : bound_over s s1 → formattable s1 = formattable s.
Proof. intros Hb. unfold formattable. by destruct (bound_over_data _ _ Hb) as (-> & -> & _). Qed.

(** A command that only reads the volume. *)
Lemma sat_blkid s (Q : result unit (string * string) → nodevol → Prop) :
  (∀ r, (∀ x, r = Ok x → x = nv_table s) → Q r s) → sat M (GetDiskFStypePTtype device) s Q.
Proof.
  intros HQ. unfold GetDiskFStypePTtype. apply sat_host. intros [out err] s' H.
  cbn [host_api fst snd] in H. unfold command_does in H.
  rewrite on_device_last in H by done.
  change (mkfs_type "blkid") with (@None string) in H. destruct H as (-> & Hb & _).
  apply sat_ret, HQ. intros x Hx. by apply Hb.
Qed.

Lemma sat_after_mount_error ro e s s1 :
  bound_over s s1 →
  sat M (after_mount_error ro device target fs [] os e) s1 (mount_outcome ro s).
Proof.
  intros Hb. destruct (bound_over_data s s1 Hb) as (Hfm & Htb & Hleft).
  assert (Hsame : ∀ e', mount_outcome ro s (Err e') s1) by (by split; [|left]).
  unfold after_mount_error. apply sat_host. intros [f|e'] s2 [-> Hf]; [|by apply sat_ret].
  rewrite (Hf eq_refl f eq_refl), Hfm. clear Hf.
  destruct (String.eqb (nv_format s) "") eqn:Hempty.
  { apply sat_FormatNewDisk; [done|]. unfold formattable. by rewrite Hempty. }
  destruct (_ || _); [by apply sat_ret|].
  destruct (String.eqb (nv_format s) "unknown data, probably partitions") eqn:Hunknown;
    [|by apply sat_ret].
  apply sat_bind, sat_blkid. intros r Hr. destruct r as [[a b]|]; [|by apply sat_ret].
  specialize (Hr _ eq_refl). rewrite Htb in Hr.
  destruct (String.eqb a "" && String.eqb b "atari") eqn:Hblank; [|by apply sat_ret].
  apply sat_FormatNewDisk; [done|]. unfold formattable. rewrite <-Hr.
  change unknown_data with "unknown data, probably partitions". rewrite Hunknown. cbn [fst snd].
  by rewrite Hblank, orb_true_r.
Qed.
End mount.

#[local] Opaque after_mount_error.

(** The check changes nothing of what is kept here. *)
Lemma sat_check_device skip s : sat M (check_device device skip) s (fun _ s' => s' = s).
Proof.
  unfold check_device. destruct skip; [by apply sat_ret|].
  apply sat_host. intros [out err] s' H. cbn [host_api fst snd] in H. unfold command_does in H.
  rewrite on_device_last in H by done. change (mkfs_type "fsck") with (@None string) in H.
  destruct H as [-> _]. by apply sat_ret.
Qed.

Lemma sat_FormatAndMount target fs options omit s :
  target ∈ paths → target ≠ device → checkfsType fs = true →
  sat M (FormatAndMount device target fs [] options omit) s
    (mount_outcome target fs (used_options options) (read_only options) s).
Proof.
  intros Ht Hd Hfs. unfold FormatAndMount. eapply sat_bind_mono; [apply sat_check_device|].
  intros [[]|e] s1 ->; [|by apply sat_ret; split; left].
  apply sat_host. change (match options with [] => _ | _ => _ end) with (used_options options).
  intros r s2 H2%mount_device; [|done]. destruct r as [[]|e].
  - apply sat_ret. by left.
  - by apply sat_after_mount_error.
Qed.

#[local] Opaque FormatAndMount getDevPathBySerial.

(** ** Staging *)

Lemma sat_resize_if_needed target s :
  sat M (ns.resize_if_needed device target) s
    (fun r s' => s' = s ∨ s' = filled s).
Proof.
  unfold ns.resize_if_needed. apply sat_host. intros [[]|e] s1 [-> _]; [|by apply sat_ret; left..].
  unfold host_try. apply sat_bind. eapply sat_bind_mono.
  - apply (sat_call _ _ _ (fun r s' => s' = s ∨ s' = filled s)). intros r s'. cbn [host_api].
    rewrite String.eqb_refl. destruct r as [[]|]; [by right|done..].
  - intros r s' Hs'. apply sat_ret. by destruct r; apply sat_ret.
Qed.

Lemma sat_stage_device g target fs flags s :
  target ∈ paths → target ≠ device → checkfsType fs = true →
  sat M (ns.stage_device g target fs serial flags) s (fun r s' =>
    match r with
    | Ok _ => s' ∈ stage_mount g device target fs flags s
    | Err _ =>
      s' = s ∨
      mount_left device target (used_options (gated_flags g flags)) s s' ∧
      (same_data s s' ∨ formattable s = true ∧ read_only (gated_flags g flags) = false)
    end).
Proof.
  intros Ht Hd Hfs. unfold ns.stage_device.
  eapply sat_bind_mono; [apply sat_getDevPathBySerial|].
  intros [p|] s1 [-> Hp]; [|by apply sat_ret; left]. rewrite (Hp p eq_refl).
  eapply sat_bind_mono; [by apply sat_FormatAndMount|].
  intros [[]|e] s2 H2; [|by apply sat_ret; right].
  eapply sat_mono; [apply sat_resize_if_needed|]. cbv beta. intros r s3 H3.
  unfold stage_mount. set (os := used_options _) in *. set (ro := read_only _) in *.
  destruct r as [[]|e].
  - apply elem_of_app. destruct H2 as [[-> ->]|[-> ->]]; [left|right];
      (destruct H3 as [->| ->]; [apply list_elem_of_here|]);
      apply list_elem_of_further, list_elem_of_here.
  - right. destruct H2 as [[-> _]|[-> [Hf Hro]%andb_true_iff]]; split.
    + right. exists fs, os. by destruct H3 as [->| ->].
    + left. by destruct H3 as [->| ->].
    + right. exists fs, os. by destruct H3 as [->| ->].
    + right. by apply negb_true_iff in Hro.
Qed.

(** ** The mount points *)

Lemma sat_not_mounted target s :
  target ∈ paths →
  sat M (ns.not_mounted target) s (fun r s' => s' = s ∧
    ∀ b, r = Ok b → negb b ∈ seen_mounted false s target).
Proof.
  intros Ht. unfold ns.not_mounted. apply sat_host. intros r s1 [-> Hr]. specialize (Hr Ht).
  destruct r as [b|[]]; cbn [IsNotExist].
  - apply sat_ret. split; [done|]. by intros ? [= <-].
  - unfold host_try. apply sat_bind. eapply sat_bind_mono.
    + apply (sat_call _ _ _ (fun _ s' => s' = s)). by intros.
    + intros r s' ->. apply sat_ret. destruct r; apply sat_ret; (split; [done|]); [|done].
      intros b [= <-]. unfold seen_mounted. rewrite Hr by done. apply list_elem_of_here.
  - by apply sat_ret.
Qed.

Lemma sat_is_mounted target block s :
  target ∈ paths →
  sat M (ns.is_mounted target block) s (fun r s' => s' = s ∧
    ∀ b, r = Ok b → b ∈ seen_mounted block s target).
Proof.
  intros Ht. unfold ns.is_mounted, host_try. destruct block.
  - apply sat_host. intros r s1 [-> Hr]. apply sat_ret. split; [done|].
    intros b Hb. apply Hr; [done|]. destruct r; congruence.
  - apply sat_bind, sat_host. intros r s1 [-> Hr]. apply sat_ret. specialize (Hr Ht).
    destruct r as [b|e]; apply sat_ret; (split; [done|]); [|done]. by intros ? [= <-].
Qed.

Lemma sat_create_target target block s (Q : result oserr unit → nodevol → Prop) :
  (∀ r, Q r s) → sat M (createTargetMountPathIfNotExists target block) s Q.
Proof.
  intros HQ. unfold createTargetMountPathIfNotExists. apply sat_host. intros [m|e] s1 [-> _];
    [by apply sat_ret|].
  destruct (negb _); [by apply sat_ret|]. destruct block.
  - apply sat_host. intros r s2 H2. change (s2 = s) in H2. subst s2.
    destruct r; [|by apply sat_ret]. apply sat_call. intros r s2 H2. change (s2 = s) in H2. by subst s2.
  - apply sat_call. intros r s2 H2. change (s2 = s) in H2. by subst s2.
Qed.

(** ** The handlers *)

Context (g : Globals) (d : DiskDriver) (Hdevice : device ∉ paths).

Abbreviation outcome := (node_outcome g device size).

#[local] Opaque getDevPathBySerial ns.stage_device.

Lemma paths_device p : p ∈ paths → p ≠ device.
Proof. by intros Hp ->. Qed.

Lemma unchanged q s (e : codes.code) : outcome q s (Err e) s.
Proof. by left. Qed.

Lemma elem_of_seen {A} (b : bool) l (x y : A) (f : list A) :
  b ∈ l → x ∈ (if b then [y] else f) → x ∈ flat_map (fun b : bool => if b then [y] else f) l.
Proof. intros Hb Hx. apply list_elem_of_In, in_flat_map. exists b. by rewrite <-!list_elem_of_In. Qed.

Lemma sat_stage r cap s :
  ns_StagingTargetPath r ∈ paths → ns_VolumeCapability r = Some cap → is_block cap = false →
  sat M (ns.stage_locked g r cap serial) s (fun x s' =>
    outcome (ReqNodeStage r) s (match x with Ok _ => Ok NodeEmpty | Err c => Err c end) s').
Proof.
  intros Ht Hcap Hblock. unfold ns.stage_locked.
  destruct (GetMount cap) as [[fs flags]|] eqn:Hmnt; [|by apply sat_ret, unchanged].
  destruct (checkfsType (fs_type (Some (fs, flags)))) eqn:Hfs; cbn [negb];
    [|by apply sat_ret, unchanged].
  eapply sat_bind_mono; [by apply sat_not_mounted|].
  intros [notMnt|e] s1 [-> Hm]; [|by apply sat_ret, unchanged]. specialize (Hm _ eq_refl).
  destruct notMnt; cbn [negb] in *.
  - eapply sat_mono; [apply sat_stage_device; auto using paths_device|].
    intros [[]|e] s' H; cbn [node_outcome node_results node_left].
    + rewrite Hcap, Hblock, Hmnt. apply list_elem_of_fmap. exists s'. split; [done|].
      by eapply elem_of_seen.
    + destruct H as [->|(Hl & Hd)]; [by left|right]. by exists cap, fs, flags.
  - apply sat_ret. cbn [node_outcome node_results]. rewrite Hcap, Hblock, Hmnt.
    apply list_elem_of_fmap. exists s. split; [done|].
    eapply elem_of_seen; [exact Hm|apply list_elem_of_here].
Qed.

Lemma is_bind_publish r cap : is_bind (ns.publish_options g r cap) = true.
Proof. done. Qed.

Lemma mount_publish r cap source s x s' :
  np_TargetPath r ∈ paths → source = (if is_block cap then device else np_StagingTargetPath r) →
  np_VolumeCapability r = Some cap →
  M _ (MountFs source (np_TargetPath r) (fs_type (GetMount cap)) (ns.publish_options g r cap)) s x s' →
  match x with
  | Ok _ => s' = mounted_as source (np_TargetPath r) (fs_type (GetMount cap))
                   (ns.publish_options g r cap) s
  | Err _ => node_left g device (ReqNodePublish r) s s'
  end.
Proof.
  intros Ht -> Hcap. cbn [host_api]. rewrite decide_True by done. unfold mount_does.
  destruct x as [[]|e]; [by intros [_ ->]|]. intros [->|(_ & os & ->)]; [by left|right].
  exists cap. split; [done|]. split; [|done]. right. by exists (fs_type (GetMount cap)), os.
Qed.

Lemma sat_node_publish r cap s :
  np_TargetPath r ∈ paths → np_VolumeCapability r = Some cap →
  sat M (ns.publish_locked g r cap serial) s (fun x s' =>
    outcome (ReqNodePublish r) s (match x with Ok _ => Ok NodeEmpty | Err c => Err c end) s').
Proof.
  intros Ht Hcap. unfold ns.publish_locked.
  eapply (sat_bind_mono _ _ _ _ (fun x s' => s' = s ∧ ∀ p, x = Ok p →
    p = (if is_block cap then device else np_StagingTargetPath r))).
  { destruct (is_block cap); [|by apply sat_ret; split; [|intros ? [= <-]]].
    eapply sat_bind_mono; [apply sat_getDevPathBySerial|]. intros x s1 [-> Hx]. apply sat_ret.
    split; [done|]. intros p. destruct x as [p'|]; [|done]. intros [= <-]. by apply Hx. }
  intros [source|e] s1 [-> Hsource]; [|by apply sat_ret, unchanged].
  specialize (Hsource _ eq_refl). destruct (negb _); [by apply sat_ret, unchanged|].
  eapply sat_bind_mono; [apply (sat_create_target _ _ _ (fun _ s' => s' = s)); done|].
  intros [[]|e] s1 ->; [|by apply sat_ret, unchanged].
  eapply sat_bind_mono; [by apply sat_is_mounted|].
  intros [b|e] s1 [-> Hb]; [|by apply sat_ret, unchanged]. specialize (Hb _ eq_refl).
  assert (Hresult : ∀ s', s' ∈ (if b then [s] else [mounted_as source (np_TargetPath r)
      (fs_type (GetMount cap)) (ns.publish_options g r cap) s]) →
    outcome (ReqNodePublish r) s (Ok NodeEmpty) s').
  { intros s' Hs'. cbn [node_outcome node_results]. rewrite Hcap. apply list_elem_of_fmap.
    exists s'. split; [done|]. unfold publish_results. rewrite <-Hsource. by eapply elem_of_seen. }
  destruct b; [apply sat_ret, Hresult, list_elem_of_here|].
  unfold host_try. apply sat_host. intros x s' Hx. apply sat_ret.
  apply mount_publish in Hx; [|done..]. destruct x as [[]|e]; [|done].
  subst s'. apply Hresult, list_elem_of_here.
Qed.

Lemma sat_cleanup p s :
  p ∈ paths →
  sat M (host_try codes.Internal (CleanupMountPoint p true)) s (fun x s' =>
    match x with Ok _ => s' = unmount p s | Err _ => s' = s ∨ s' = unmount p s end).
Proof.
  intros Hp. apply sat_host. intros x s' H. cbn [host_api] in H. rewrite decide_True in H by done.
  apply sat_ret. by destruct x.
Qed.

(** ** Expansion *)

Lemma sat_getBlockSizeBytes s :
  sat M (getBlockSizeBytes device) s (fun r s' => s' = s ∧ ∀ n, r = Ok n → n = size).
Proof.
  unfold getBlockSizeBytes. apply sat_host. intros [out err] s' H. cbn [host_api fst snd] in H.
  unfold command_does in H. rewrite on_device_last in H by done.
  change (mkfs_type "blockdev") with (@None string) in H. destruct H as (-> & _ & Hb).
  apply sat_ret. split; [done|]. intros n. destruct err; [done|].
  destruct (ParseInt _) as [m|] eqn:Hm; [|done]. intros [= <-]. by apply Hb.
Qed.

Lemma sat_expand_block_mode r s :
  ne_VolumePath r ∈ paths →
  sat M (ns.expand_block_mode r) s (fun x s' => s' = s ∧ ∀ b, x = Ok b →
    b ∈ match ne_VolumeCapability r with
        | Some cap => [is_block cap]
        | None => block_seen device s (ne_VolumePath r)
        end).
Proof.
  intros Hp. unfold ns.expand_block_mode. destruct (ne_VolumeCapability r) as [cap|].
  { apply sat_ret. split; [done|]. intros b [= <-]. apply list_elem_of_here. }
  unfold isBlockDevicePath. apply sat_bind, sat_host. intros x s1 [-> Hx]. apply sat_ret, sat_ret.
  split; [done|]. intros b. destruct x as [mode|]; [|done]. intros [= <-]. by apply Hx.
Qed.

Lemma sat_expand_locked r wanted s :
  sat M (ns.expand_locked r serial wanted) s (fun x s' =>
    match x with
    | Ok y => (wanted <=? size) = true ∧ ner_CapacityBytes y = size ∧ s' = filled s
    | Err _ => s' = s ∨ s' = filled s
    end).
Proof.
  unfold ns.expand_locked. eapply sat_bind_mono; [apply sat_getDevPathBySerial|].
  intros [p|] s1 [-> Hp]; [|by apply sat_ret; left]. rewrite (Hp p eq_refl).
  unfold host_try. apply sat_bind, sat_host. intros x s1 Hx. apply sat_ret.
  cbn [host_api] in Hx. rewrite String.eqb_refl in Hx.
  destruct x as [[]|e]; cbn [negb]; [|by apply sat_ret..]. subst s1.
  eapply sat_bind_mono; [apply sat_getBlockSizeBytes|].
  intros [n|] s1 [-> Hn]; [|by apply sat_ret; right]. rewrite (Hn n eq_refl).
  destruct (Z.ltb_spec size wanted); apply sat_ret; [by right|].
  split; [|done]. by apply Z.leb_le.
Qed.
End refine.
