(* ===== verification/NodeSerial.v ===== *)
(** * The node server against the abstract node service

    The whole handlers, locks included: a request about the volume is a step of the
    abstract service ([NodeVol.v]), a request about another volume leaves it alone;
    and the node server as an instance of [Bracket.v], whose concurrent requests are
    serialized with their answers, failures included. *)

From S2P Require Import Prelude GoStd Csi Common Prog Locking Machine Serve Bracket Driver CloudTypes.
From S2P Require Import Host Mount MountProps Node NodeProps NodeVol NodeRefine.

Local Open Scope Z_scope.
Local Open Scope csi_scope.

(** ** What a request is about *)

(** The paths of a request, on the host. *)
Definition node_paths (q : node_request) : list string :=
  match q with
  | ReqNodePublish r => [np_TargetPath r; np_StagingTargetPath r]
  | ReqNodeUnpublish r => [nu_TargetPath r]
  | ReqNodeStage r => [ns_StagingTargetPath r]
  | ReqNodeUnstage r => [nt_StagingTargetPath r]
  | ReqNodeExpand r => [ne_VolumePath r]
  | ReqNodeStats r => [ng_VolumePath r]
  | ReqNodeInfo => []
  end.

(** The paths of the volume [v] are named in its requests and in no other's; so is
    its serial. *)
Record well_addressed (v serial : string) (paths : gset string) (q : node_request) : Prop := {
  addr_paths p : p ∈ node_paths q → p ∈ paths ↔ node_volume q = v;
  addr_serial u x : ParseCsiVolId (node_volume_id q) = Ok (u, x) → x = serial ↔ u = v
}.

(** The requests that work on the host: the others only read, or are about a block
    volume, which is not staged and has no file system to grow. *)
Definition works (q : node_request) : bool :=
  match q with
  | ReqNodePublish _ | ReqNodeUnpublish _ | ReqNodeUnstage _ => true
  | ReqNodeStage r => negb (from_option is_block false (ns_VolumeCapability r))
  | ReqNodeExpand r => negb (from_option is_block false (ne_VolumeCapability r))
  | ReqNodeStats _ | ReqNodeInfo => false
  end.

(** What the request [q], answered by [r], does to the volume [v]. *)
Definition node_step (g : Globals) (v device : string) (size : Z) (q : node_request) (s : nodevol)
    (r : rpc node_response) (s' : nodevol) : Prop :=
  match q with
  | ReqNodeStats _ | ReqNodeInfo => s' = s
  | _ => if decide (node_volume q = v) then node_outcome g device size q s r s' else s' = s
  end.

Section node.
Context (g : Globals) (d : DiskDriver) (v serial device : string) (size : Z) (paths : gset string).
Context (Hdevice : device ∉ paths).

Abbreviation hostm := (host_api serial device size paths).
Abbreviation M := (locked_machine hostm).
Abbreviation addressed := (well_addressed v serial paths).
Abbreviation outcome := (node_outcome g device size).

(** ** Requests about the volume *)

Lemma sat_node_respond {A} (f : A → node_response) (p : node (rpc A)) s Q :
  sat M p s (fun x s' => Q (match x with Ok y => Ok (f y) | Err c => Err c end) s') →
  sat M (node_respond f p) s Q.
Proof. intros Hp. eapply sat_bind_mono; [exact Hp|]. intros x s' Hx. by apply sat_ret. Qed.

(** The handler of a request about [v] has the volume's serial. *)
Lemma addressed_serial q u x :
  addressed q → node_volume q = v → ParseCsiVolId (node_volume_id q) = Ok (u, x) →
  u = v ∧ x = serial.
Proof.
  intros Ha Hv Hp. assert (u = v) as -> by (rewrite <-Hv; symmetry; by eapply node_key).
  split; [done|]. by apply (addr_serial _ _ _ _ Ha v x).
Qed.

Lemma addressed_in q p : addressed q → node_volume q = v → p ∈ node_paths q → p ∈ paths.
Proof. intros Ha Hv Hp. by apply (addr_paths _ _ _ _ Ha). Qed.

Ltac rejected := apply sat_ret; cbn beta iota; apply (unchanged _ _ _).

Lemma sat_NodePublishVolume r s :
  addressed (ReqNodePublish r) → node_volume (ReqNodePublish r) = v →
  sat M (node_handle g d (ReqNodePublish r)) s (outcome (ReqNodePublish r) s).
Proof.
  intros Ha Hv. apply sat_node_respond. unfold ns.NodePublishVolume.
  destruct (_ =? 0); [rejected|]. destruct (_ =? 0); [rejected|].
  destruct (np_VolumeCapability r) as [cap|] eqn:Hcap; [|rejected].
  destruct (negb _); [rejected|]. destruct (_ =? 0); [rejected|].
  destruct (ParseCsiVolId (np_VolumeId r)) as [[u x]|] eqn:Hid; [|rejected].
  destruct (addressed_serial _ u x Ha Hv Hid) as [-> ->].
  apply sat_with_lock; [by apply unchanged|]. apply sat_lift, sat_node_publish; [|done].
  eapply addressed_in; [done..|]. apply list_elem_of_here.
Qed.

Lemma sat_NodeStageVolume r s :
  addressed (ReqNodeStage r) → node_volume (ReqNodeStage r) = v →
  sat M (node_handle g d (ReqNodeStage r)) s (outcome (ReqNodeStage r) s).
Proof.
  intros Ha Hv. apply sat_node_respond. unfold ns.NodeStageVolume.
  destruct (negb _); [rejected|]. destruct (_ =? 0); [rejected|]. destruct (_ =? 0); [rejected|].
  destruct (ns_VolumeCapability r) as [cap|] eqn:Hcap; [|rejected].
  destruct (ParseCsiVolId (ns_VolumeId r)) as [[u x]|] eqn:Hid; [|rejected].
  destruct (addressed_serial _ u x Ha Hv Hid) as [-> ->].
  destruct (is_block cap) eqn:Hblock.
  { apply sat_ret. cbn. rewrite Hcap, Hblock. apply list_elem_of_here. }
  apply sat_with_lock; [by apply unchanged|]. apply sat_lift, sat_stage; [done| |done..].
  eapply addressed_in; [done..|]. apply list_elem_of_here.
Qed.

Lemma sat_node_cleanup q p s :
  addressed q → node_volume q = v → node_paths q = [p] →
  (∀ s' : nodevol, outcome q s (Ok NodeEmpty) (unmount p s)) →
  (∀ s' e, s' = s ∨ s' = unmount p s → outcome q s (Err e) s') →
  sat M (with_lock v (lift (host_try codes.Internal (CleanupMountPoint p true)))) s
    (fun x s' => outcome q s (match x with Ok _ => Ok NodeEmpty | Err c => Err c end) s').
Proof.
  intros Ha Hv Hp Hok Herr. apply sat_with_lock; [by apply unchanged|]. apply sat_lift.
  eapply sat_mono; [apply sat_cleanup; eapply addressed_in; [done..|];
    rewrite Hp; apply list_elem_of_here|].
  intros [u|e] s' Hs'; [|by apply Herr]. subst s'. by apply Hok.
Qed.

Lemma sat_NodeUnpublishVolume r s :
  addressed (ReqNodeUnpublish r) → node_volume (ReqNodeUnpublish r) = v →
  sat M (node_handle g d (ReqNodeUnpublish r)) s (outcome (ReqNodeUnpublish r) s).
Proof.
  intros Ha Hv. apply sat_node_respond. unfold ns.NodeUnpublishVolume.
  destruct (_ =? 0); [rejected|]. destruct (_ =? 0); [rejected|].
  change (ns.lock_key (nu_VolumeId r)) with (node_volume (ReqNodeUnpublish r)). rewrite Hv.
  apply sat_node_cleanup; [done..| |done]. intros _. apply list_elem_of_here.
Qed.

Lemma sat_NodeUnstageVolume r s :
  addressed (ReqNodeUnstage r) → node_volume (ReqNodeUnstage r) = v →
  sat M (node_handle g d (ReqNodeUnstage r)) s (outcome (ReqNodeUnstage r) s).
Proof.
  intros Ha Hv. apply sat_node_respond. unfold ns.NodeUnstageVolume.
  destruct (negb _); [rejected|]. destruct (_ =? 0); [rejected|]. destruct (_ =? 0); [rejected|].
  change (ns.lock_key (nt_VolumeId r)) with (node_volume (ReqNodeUnstage r)). rewrite Hv.
  apply sat_node_cleanup; [done..| |done]. intros _. apply list_elem_of_here.
Qed.

Lemma sat_NodeExpandVolume r s :
  addressed (ReqNodeExpand r) → node_volume (ReqNodeExpand r) = v →
  sat M (node_handle g d (ReqNodeExpand r)) s (outcome (ReqNodeExpand r) s).
Proof.
  intros Ha Hv. apply sat_node_respond. unfold ns.NodeExpandVolume.
  destruct (_ =? 0); [rejected|]. destruct (_ =? 0); [rejected|].
  eapply sat_bind_mono; [apply sat_lift, sat_expand_block_mode; eapply addressed_in; [done..|];
    apply list_elem_of_here|].
  intros [b|e] s1 [-> Hb]; [|rejected]. specialize (Hb _ eq_refl).
  assert (Hresult : ∀ x, x ∈ (if b then [(NodeExpanded {| ner_CapacityBytes := 0 |}, s)] else
      match GetRequestSizeBytes (ne_CapacityRange r) with
      | Ok wanted =>
        if wanted <=? size then [(NodeExpanded {| ner_CapacityBytes := size |}, filled s)] else []
      | Err _ => []
      end) → x ∈ node_results g device size (ReqNodeExpand r) s).
  { intros x Hx. apply list_elem_of_In, in_flat_map. exists b. by rewrite <-!list_elem_of_In. }
  destruct b; [apply sat_ret, Hresult, list_elem_of_here|].
  destruct (GetRequestSizeBytes _) as [wanted|]; [|rejected].
  destruct (ParseCsiVolId (ne_VolumeId r)) as [[u x]|] eqn:Hid; [|rejected].
  destruct (addressed_serial _ u x Ha Hv Hid) as [-> ->].
  apply sat_with_lock; [by apply unchanged|]. apply sat_lift.
  eapply sat_mono; [apply sat_expand_locked|]. intros [[n]|e] s' Hs'; [|exact Hs'].
  destruct Hs' as (Hw & Hn & ->). cbn in Hn. subst n. apply Hresult. rewrite Hw.
  apply list_elem_of_here.
Qed.

(** ** Requests that leave the volume alone *)

(** Whatever the state is. *)
Abbreviation spares p := (gentle M (=) p (fun _ => True)).

Lemma gentle_lift {A} (p : host A) Q : gentle hostm (=) p Q → gentle M (=) (lift p) Q.
Proof.
  unfold gentle. induction p as [a|R e k IH]; [done|]. intros [He Hk]. split; [exact He|].
  intros r Hr. by apply IH, Hk.
Qed.

Lemma gentle_with_lock {A} id (p : host (rpc A)) Q :
  gentle hostm (=) p Q → spares (with_lock id (lift p)).
Proof.
  intros Hp. apply (gentle_bind _ _ _ _ (fun _ => True)); [by apply gentle_call|].
  intros [] _; cbn [negb]; [|done]. eapply gentle_bind; [by apply gentle_lift|].
  intros r _. apply (gentle_bind _ _ _ _ (fun _ => True)); [by apply gentle_call|done].
Qed.

(** The calls that leave the volume alone. *)
Definition calm_host (R : Type) (o : HostE R) : Prop :=
  match o with
  | MountFs _ target _ _ => target ∉ paths
  | CleanupMountPoint p _ => p ∉ paths
  | Resize p _ => p ≠ device
  | CombinedOutput cmd args => on_device device args = false ∨ mkfs_type cmd = None
  | _ => True
  end.

Lemma calm_host_spares R (o : HostE R) s r s' : calm_host R o → hostm R o s r s' → s = s'.
Proof.
  destruct o; cbn [host_api calm_host]; intros Ho HM;
    rewrite ?decide_False in HM by done; try done; try (by destruct HM as [-> _]).
  - unfold command_does in HM. destruct Ho as [Ho|Ho]; rewrite Ho in HM; [done|].
    destruct (on_device _ _); [by destruct HM as [-> _]|done].
  - apply String.eqb_neq in Ho. by rewrite Ho in HM.
Qed.

Lemma calm_gentle {A} (p : host A) :
  all_calls calm_host p → gentle hostm (=) p (fun _ => True).
Proof. apply all_calls_gentle. exact calm_host_spares. Qed.

Lemma reads_calm {A} (p : host A) : reads_only p → all_calls calm_host p.
Proof.
  apply all_calls_mono. intros R o Ho. destruct o; try done. right. cbn in Ho.
  apply negb_false_iff in Ho. by apply orb_true_iff in Ho as [[Ho|Ho]%orb_true_iff|Ho];
    apply String.eqb_eq in Ho as ->.
Qed.

Lemma other_device source fs :
  source ≠ device → on_device device (mkfsDefaultArgs fs source) = false.
Proof.
  intros Hs%String.eqb_neq. unfold mkfsDefaultArgs.
  destruct (_ || _); [exact Hs|]. by destruct (String.eqb fs "xfs").
Qed.

Ltac calmly :=
  repeat lazymatch goal with
    | |- ∀ _, _ => intros ?
    | |- all_calls _ (Ret _) => apply all_calls_ret
    | |- all_calls _ (mret _) => apply all_calls_ret
    | |- all_calls _ (call _) => apply all_calls_call; cbn [calm_host];
        first [done | by right | left; by apply String.eqb_neq | left; by apply other_device | idtac]
    | |- all_calls _ (_ ≫= _) => apply all_calls_bind
    | |- all_calls _ (let _ := _ in _) => cbv zeta
    | |- all_calls _ (match ?x with _ => _ end) => destruct x
    | |- all_calls _ ?p => let f := head_of p in progress unfold f
    end.

Lemma calm_FormatAndMount source target fs options omit :
  source ≠ device → target ∉ paths →
  all_calls calm_host (FormatAndMount source target fs [] options omit).
Proof. intros Hs Ht. calmly. Qed.

#[local] Opaque FormatAndMount getDevPathBySerial.

(** A device found by another serial is another device. *)
Lemma gentle_other_device {A} x (k : result unit string → host A) :
  x ≠ serial →
  (∀ e, gentle hostm (=) (k (Err e)) (fun _ => True)) →
  (∀ p, p ≠ device → gentle hostm (=) (k (Ok p)) (fun _ => True)) →
  gentle hostm (=) (getDevPathBySerial x ≫= k) (fun _ => True).
Proof.
  intros Hx Herr Hok. eapply gentle_bind; [apply gentle_getDevPathBySerial|].
  intros [p|e] Hp; [|apply Herr]. apply Hok. intros ->. apply Hx. by apply (Hp device).
Qed.

Lemma gentle_publish_other r cap x :
  np_TargetPath r ∉ paths → x ≠ serial →
  gentle hostm (=) (ns.publish_locked g r cap x) (fun _ => True).
Proof.
  intros Ht Hx. unfold ns.publish_locked. apply (gentle_bind _ _ _ _ (fun _ => True)).
  - destruct (is_block cap); [|done]. by apply gentle_other_device.
  - intros y _. apply calm_gentle. calmly.
Qed.

Lemma gentle_stage_other r cap x :
  ns_StagingTargetPath r ∉ paths → x ≠ serial →
  gentle hostm (=) (ns.stage_locked g r cap x) (fun _ => True).
Proof.
  intros Ht Hx. unfold ns.stage_locked. destruct (GetMount cap) as [[fs flags]|]; [|done].
  destruct (negb _); [done|]. apply (gentle_bind _ _ _ _ (fun _ => True)).
  { apply calm_gentle. calmly. }
  intros [[]|e] _; cbn [negb]; [|done..]. unfold ns.stage_device.
  apply gentle_other_device; [done..|]. intros p Hp. apply calm_gentle.
  apply all_calls_bind; [by apply calm_FormatAndMount|]. calmly.
Qed.

Lemma gentle_expand_other r x wanted :
  x ≠ serial → gentle hostm (=) (ns.expand_locked r x wanted) (fun _ => True).
Proof.
  intros Hx. unfold ns.expand_locked. apply gentle_other_device; [done..|].
  intros p Hp. apply calm_gentle. calmly.
Qed.

#[local] Opaque ns.publish_locked ns.stage_locked ns.expand_locked ns.NodeGetVolumeStats.

Lemma other_path q p : addressed q → node_volume q ≠ v → p ∈ node_paths q → p ∉ paths.
Proof. intros Ha Hv Hp Hin. by apply Hv, (addr_paths _ _ _ _ Ha p). Qed.

Lemma other_serial q u x :
  addressed q → node_volume q ≠ v → ParseCsiVolId (node_volume_id q) = Ok (u, x) → x ≠ serial.
Proof.
  intros Ha Hv Hp ->. apply Hv. rewrite <-(proj1 (addr_serial _ _ _ _ Ha u serial Hp) eq_refl).
  by eapply node_key.
Qed.

Lemma gentle_respond {A} (f : A → node_response) (p : node (rpc A)) :
  spares p → spares (node_respond f p).
Proof. intros Hp. by eapply gentle_bind. Qed.

(** The requests that do not work on the volume: those of other volumes, those that
    only read, and those that have nothing to do for a block volume. *)
Ltac gently_through :=
  repeat lazymatch goal with
    | |- ∀ _, _ => intros ?
    | |- spares (mret _) => exact I
    | |- spares (with_lock _ (lift _)) => eapply gentle_with_lock
    | |- spares (lift _) => apply gentle_lift, calm_gentle, reads_calm;
        first [apply reads_expand_block_mode | apply reads_NodeGetVolumeStats]
    | |- spares (_ ≫= _) => apply (gentle_bind _ _ _ _ (fun _ => True))
    | |- spares (match ?x with _ => _ end) => destruct x eqn:?
    end.

Lemma spares_other q : addressed q → node_volume q ≠ v → spares (node_handle g d q).
Proof.
  intros Ha Hv. pose proof (fun p => other_path q p Ha Hv) as Hp.
  pose proof (fun u x => other_serial q u x Ha Hv) as Hx.
  destruct q; cbn [node_handle node_paths node_volume_id] in *; apply gentle_respond.
  - unfold ns.NodePublishVolume. gently_through. apply gentle_publish_other; [|by eapply Hx].
    apply Hp, list_elem_of_here.
  - unfold ns.NodeUnpublishVolume. gently_through. apply calm_gentle. calmly.
    apply Hp, list_elem_of_here.
  - unfold ns.NodeStageVolume. gently_through. apply gentle_stage_other; [|by eapply Hx].
    apply Hp, list_elem_of_here.
  - unfold ns.NodeUnstageVolume. gently_through. apply calm_gentle. calmly.
    apply Hp, list_elem_of_here.
  - unfold ns.NodeExpandVolume. gently_through. apply gentle_expand_other. by eapply Hx.
  - gently_through.
  - done.
Qed.

Lemma spares_idle q : works q = false → spares (node_handle g d q).
Proof.
  destruct q; cbn [works node_handle]; intros Hq; try done; apply gentle_respond.
  - unfold ns.NodeStageVolume. destruct (ns_VolumeCapability r) as [cap|]; [|by gently_through].
    cbn in Hq. apply negb_false_iff in Hq. rewrite Hq. by gently_through.
  - unfold ns.NodeExpandVolume. destruct (ne_VolumeCapability r) as [cap|] eqn:Hcap; [|done].
    destruct (_ =? 0); [done|]. destruct (_ =? 0); [done|].
    unfold ns.expand_block_mode. rewrite Hcap. cbn in Hq. apply negb_false_iff in Hq.
    change (lift (mret (Ok (is_block cap)))) with (Ret (E:=Locked HostE) (Ok (E:=codes.code) (is_block cap))).
    by rewrite prog_bind_ret, Hq.
  - gently_through.
Qed.

(** ** One request *)

Lemma gentle_stays {A} (p : node A) s (Q : A → nodevol → Prop) :
  spares p → (∀ a, Q a s) → sat M p s Q.
Proof.
  intros Hp HQ. eapply sat_mono; [apply (gentle_sat _ (=)); [apply _|exact Hp]|].
  intros a s' [<- _]. apply HQ.
Qed.

Lemma sat_node_handle q s :
  addressed q → sat M (node_handle g d q) s (node_step g v device size q s).
Proof.
  intros Ha. destruct (decide (node_volume q = v)) as [Hv|Hv].
  - eapply (sat_mono _ _ _ (fun r s' => match q with
      | ReqNodeStats _ | ReqNodeInfo => s' = s
      | _ => outcome q s r s'
      end)).
    + destruct q; auto using sat_NodePublishVolume, sat_NodeUnpublishVolume, sat_NodeStageVolume,
        sat_NodeUnstageVolume, sat_NodeExpandVolume; apply gentle_stays; auto using spares_idle.
    + intros r s' Hr. unfold node_step. by destruct q; rewrite ?(decide_True _ _ Hv).
  - apply gentle_stays; [by apply spares_other|]. intros a.
    unfold node_step. by destruct q; rewrite ?(decide_False _ _ Hv).
Qed.

(** ** Concurrent requests *)

(** An expansion comes with the capability of the volume. *)
Definition admitted (q : node_request) : Prop :=
  addressed q ∧ match q with ReqNodeExpand r => ne_VolumeCapability r ≠ None | _ => True end.

Definition mine (q : node_request) : Prop := node_volume q = v ∧ works q = true.

#[export] Instance mine_dec q : Decision (mine q).
Proof. unfold mine. apply _. Qed.

Lemma harmless_others q : admitted q → ¬ mine q → spares (node_handle g d q).
Proof.
  intros [Ha _] Hm. destruct (decide (node_volume q = v)) as [Hv|Hv]; [|by apply spares_other].
  apply spares_idle, not_true_iff_false. intros Hw. by apply Hm.
Qed.

Lemma bracketed_node_respond {A} (f : A → node_response) (p : node (rpc A)) :
  bracketed v is_ok p → bracketed v is_ok (node_respond f p).
Proof.
  destruct p as [[x|e]|R e k]; [done..|]. destruct e as [R o|R o]; [|done].
  destruct o as [id|id]; [|done]. intros (-> & ([x|c] & Hc & ?) & Hk); [done|]. split; [done|]. split.
  - exists (Err c). split; [|done].
    change ((x ← k false; mret (match x with Ok x => Ok (f x) | Err e => Err e end))
      = Ret (Err c)). by rewrite Hc.
  - apply (section_map v); [exact Hk|]. intros [x|e]; eauto.
Qed.

Lemma handle_in_bracket q : admitted q → mine q → bracketed v is_ok (node_handle g d q).
Proof.
  intros [_ Hcap] [Hv Hw].
  assert (Hkey : ∀ u x, ParseCsiVolId (node_volume_id q) = Ok (u, x) → u = v)
    by (intros u x Hp; rewrite <-Hv; symmetry; by eapply node_key).
  assert (Hlift : ∀ A (p : host (rpc A)), bracketed v is_ok (with_lock v (lift p)))
    by (intros; apply bracketed_with_lock, spares_lock_lift).
  destruct q; cbn [works] in Hw; try done; cbn [node_handle node_volume_id] in *;
    apply bracketed_node_respond.
  - unfold ns.NodePublishVolume. repeat case_match; try done. by rewrite (Hkey _ _ ltac:(done)).
  - unfold ns.NodeUnpublishVolume. repeat case_match; try done. unfold node_volume in Hv. cbn in Hv.
    by rewrite Hv.
  - unfold ns.NodeStageVolume. destruct (ns_VolumeCapability r) as [cap|]; cbn in Hw;
      [apply negb_true_iff in Hw; rewrite Hw|]; repeat case_match; try done.
    by rewrite (Hkey _ _ ltac:(done)).
  - unfold ns.NodeUnstageVolume. repeat case_match; try done. unfold node_volume in Hv. cbn in Hv.
    by rewrite Hv.
  - unfold ns.NodeExpandVolume. destruct (ne_VolumeCapability r) as [cap|] eqn:Hc; [|done].
    destruct (_ =? 0); [done|]. destruct (_ =? 0); [done|].
    unfold ns.expand_block_mode. rewrite Hc. cbn in Hw. apply negb_true_iff in Hw.
    change (lift (mret (Ok (is_block cap)))) with (Ret (E:=Locked HostE) (Ok (E:=codes.code) (is_block cap))).
    rewrite prog_bind_ret, Hw. repeat case_match; try done. by rewrite (Hkey _ _ ltac:(done)).
Qed.

Lemma handle_outcome q y r s :
  admitted q → mine q → True → exec M (node_handle g d q) y r s → outcome q y r s.
Proof.
  intros [Ha _] [Hv Hw] _ Hexec. pose proof (sat_node_handle q y Ha r s Hexec) as H.
  destruct q; unfold node_step in H; rewrite ?(decide_True _ _ Hv) in H; done.
Qed.

(** The requests that have had the lock of the volume and have returned are, in the
    order of their releases, a run of the abstract service, answer by answer. *)
Lemma node_serializes (σ : system (node_server g d)) x s :
  served (node_server g d) σ → follows M (log σ) x s →
  (∀ i q p, pool σ !! i = Some (q, p) → admitted q) →
  ∃ os : list (nat * node_request), os.*1 `sublist_of` released v (log σ) ∧ NoDup os.*1 ∧
    (∀ i q, (i, q) ∈ os ↔
       i ∈ released v (log σ) ∧ mine q ∧ ∃ r, pool σ !! i = Some (q, Ret r)) ∧
    (∀ i q a, pool σ !! i = Some (q, Ret (Ok a)) → mine q → (i, q) ∈ os) ∧
    ∃ y, took (node_server g d) outcome (pool σ) os x y ∧ (v ∉ locks (table σ) → s = y).
Proof.
  intros Hs Hfol Had.
  pose proof (served_serialized (node_server g d) is_ok M (=) (fun _ => True)
    (fun _ _ _ _ => I) (fun _ _ _ _ _ => iff_refl _)
    (fun R o s r s2 s3 HM (Hd : s2 = s3) => ex_intro _ s (conj eq_refl
       (match Hd in _ = z return M R (Other o) s r z with eq_refl => HM end)))
    v admitted mine _ outcome (fun _ => True) handle_in_bracket
    handle_outcome (fun _ _ _ _ _ _ _ => I)
    (fun q y y1 r s _ Hd => match Hd in _ = z return outcome q z r s → outcome q y r s with
                            | eq_refl => fun H => H end) harmless_others σ x s I Hs Had) as H.
  destruct H as (Hnd & Hos & Hearly & y & Hrun & Hend); [done|done|].
  exists (order (node_server g d) mine _ (pool σ) (released v (log σ))).
  split; [apply (order_sublist (node_server g d))|]. split_and!; [exact Hnd|exact Hos| |].
  2: { exists y. split; [done|]. intros Hl. symmetry. by apply Hend. }
  intros i q a Hi Hm. apply Hos. split_and!; [|done|by exists (Ok a)].
  destruct (decide (i ∈ released v (log σ))) as [|Hn]; [done|]. by specialize (Hearly i q _ Hi Hm Hn).
Qed.

(** ** Requests one after the other *)

Lemma serve_node_step {W} (hd : env HostE W) (volume_of : W → nodevol) q (s : ResourceLocks * W) :
  obeys hd volume_of hostm → addressed q →
  let '(r, s') := run (locked_env hd) (node_handle g d q) s in
  node_step g v device size q (volume_of s.2) r (volume_of s'.2).
Proof.
  intros Hhd Ha. pose proof (run_exec _ _ _ (node_handle g d q) s (obeys_locked_env _ _ _ Hhd)) as H.
  apply sat_node_handle in H; [|done]. by destruct (run _ _ _).
Qed.
End node.

Fixpoint serve_node {W} (g : Globals) (d : DiskDriver) (hd : env HostE W) (qs : list node_request)
    (s : ResourceLocks * W) : list (rpc node_response) * (ResourceLocks * W) :=
  match qs with
  | [] => ([], s)
  | q :: qs =>
    let '(r, s1) := run (locked_env hd) (node_handle g d q) s in
    let '(rs, s2) := serve_node g d hd qs s1 in (r :: rs, s2)
  end.
