(* ===== verification/NodeComplete.v ===== *)
(** * The node server completes its requests

    On a host that does what it can ([healthy_host]) and with the volume's lock free,
    the node server answers a valid request with success whenever the volume can be
    served: a staging needs the file system that is asked for, or a disk that may be
    formatted; an expansion a device that is large enough. *)

From S2P Require Import Prelude GoStd Csi Common Prog Locking Machine Serve Bracket Driver CloudTypes.
From S2P Require Import Host Mount MountProps Node NodeProps NodeVol NodeRefine NodeSerial.

Local Open Scope Z_scope.
Local Open Scope csi_scope.

(** The volume, and the paths that are there. *)
Abbreviation hoststate := (nodevol * gset string)%type.

Section complete.
Context (serial device : string) (size : Z) (paths : gset string).

(** ** The host *)

(** The calls that a request for the volume relies on are answered. *)
Definition keeps_up (R : Type) (o : HostE R) (s : nodevol) : R → Prop :=
  match o in HostE R return R → Prop with
  | Stat _ => fun r => r = Err ErrNotExist ∨ is_ok r = true
  | MkdirAll _ _ | OpenCreate _ _ | Close _ | CleanupMountPoint _ _ => fun r => is_ok r = true
  | ReadFile p => fun r =>
      ∀ dev, p = serial_path dev → "/dev/" +:+ dev = device → is_ok r = true
  | CombinedOutput cmd args => fun r =>
      (cmd = "lsblk" → r.2 = None ∧ NoDup (listed r.1) ∧
         ∃ dev, dev ∈ listed r.1 ∧ "/dev/" +:+ dev = device) ∧
      (cmd = "fsck" → r.2 ≠ Some (ExitError 4)) ∧
      (on_device device args = true →
         (∀ fs, mkfs_type cmd = Some fs → checkfsType fs = true → r.2 = None) ∧
         (cmd = "blkid" → formattable s = true → nv_format s = unknown_data →
            is_ok (blkid_output r.1 r.2) = true) ∧
         (cmd = "blockdev" → r.2 = None ∧ ParseInt (TrimSpace r.1) ≠ None))
  | MountFs source target fs os => fun r =>
      target ∈ paths →
      is_bind os = true ∨ source = device ∧ nv_format s = fs ∧ checkfsType fs = true →
      is_ok r = true
  | IsMountPoint _ => fun r => is_ok r = true
  | GetDiskFormat p => fun r => p = device → is_ok r = true
  | Resize p _ => fun r => p = device → r = Ok true
  | _ => fun _ => True
  end.

(** The paths that are there. *)
Definition exists_up (R : Type) (o : HostE R) (there there' : gset string) : R → Prop :=
  match o in HostE R return R → Prop with
  | Stat p => fun r => there' = there ∧ (is_ok r = true → p ∈ there)
  | MkdirAll p _ | OpenCreate p _ => fun _ => p ∈ there'
  | Close _ => fun _ => there' = there
  | IsLikelyNotMountPoint p => fun r =>
      (r = Err ErrNotExist ∨ is_ok r = true) ∧ (p ∈ there → is_ok r = true)
  | _ => fun _ => True
  end.

Definition healthy_host : machine HostE hoststate := fun R o x r x' =>
  host_api serial device size paths R o x.1 r x'.1 ∧ keeps_up R o x.1 r ∧ exists_up R o x.2 x'.2 r.

Abbreviation M := healthy_host.

Lemma sat_up {R} (o : HostE R) {A} (k : R → host A) s ex Q :
  (∀ r s' ex', host_api serial device size paths R o s r s' → keeps_up R o s r →
     exists_up R o ex ex' r → sat M (k r) (s', ex') Q) →
  sat M (r ← call o; k r) (s, ex) Q.
Proof. intros H. apply sat_bind, sat_call. intros r [s' ex'] (HM & Hup & Hex). by apply H. Qed.

Abbreviation succeeds p x := (sat M p x (fun r _ => is_ok r = true)).
(** Without a change of the volume. *)
Abbreviation finds_out p s ex φ := (sat M p (s, ex) (fun r x' => x'.1 = s ∧ φ r)).

(** ** The device is found *)

Abbreviation ours dev := ("/dev/" +:+ dev = device).

Lemma ours_inj dev dev' : ours dev → ours dev' → dev = dev'.
Proof. intros <- H. by injection H. Qed.

Lemma sat_find_serial devpath devs s ex :
  let names := List.filter (fun dev => negb (String.eqb dev "")) devs in
  NoDup names →
  devpath = "" ∧ (∃ dev, dev ∈ names ∧ ours dev) ∨
  devpath = device ∧ devpath ≠ "" ∧ (∀ dev, dev ∈ names → ¬ ours dev) →
  finds_out (find_serial serial devpath devs) s ex (fun r => r = Ok device).
Proof.
  cbv zeta. revert devpath ex. induction devs as [|dev devs IH]; intros devpath ex; cbn [List.filter find_serial].
  - intros _ [[-> (dev & Hin & _)]|(-> & Hne & _)]; [by apply elem_of_nil in Hin|].
    apply String.eqb_neq in Hne. rewrite Hne. by apply sat_ret.
  - destruct (String.eqb_spec dev "") as [|Hne]; cbn [negb]; [by apply IH|].
    intros [Hnin Hnd]%list.NoDup_cons Hpath. apply sat_up. intros r s1 ex1 [-> Hr] Hup _.
    assert (Hskip : ¬ ours dev →
      finds_out (find_serial serial devpath devs) s ex1 (fun r => r = Ok device)).
    { intros Hno. apply IH; [done|]. destruct Hpath as [[-> (dev' & Hin & Hd)]|(-> & Hd & Hall)].
      - left. split; [done|]. exists dev'. split; [|done].
        apply elem_of_cons in Hin as [->|]; [by destruct Hno|done].
      - right. split_and!; [done..|]. intros dev' Hin. apply Hall. by right. }
    destruct r as [raw|e].
    + destruct (String.eqb_spec (TrimSpace raw) serial) as [Ht|Ht].
      * assert (ours dev) as Hours by (by apply (Hr dev raw)).
        destruct Hpath as [[-> _]|(-> & _ & Hall)]; [|by destruct (Hall dev (list_elem_of_here _ _))].
        cbn [negb String.eqb]. apply IH; [done|]. right. split_and!; [done..|].
        intros dev' Hin Hd. by rewrite (ours_inj dev dev') in Hnin.
      * apply Hskip. intros Hours. apply Ht. by apply (Hr dev raw).
    + apply Hskip. intros Hours. by specialize (Hup dev eq_refl Hours).
Qed.

Lemma sat_found s ex : finds_out (getDevPathBySerial serial) s ex (fun r => r = Ok device).
Proof.
  unfold getDevPathBySerial. apply sat_up. intros [out err] s1 ex1 H Hup _.
  destruct Hup as (Hls & _). destruct (Hls eq_refl) as (Herr & Hnd & Hdev). cbn in Herr. subst err.
  cbn [host_api fst snd] in H. unfold command_does in H.
  change (mkfs_type "lsblk") with (@None string) in H.
  assert (s1 = s) as -> by (destruct (on_device _ _); [by destruct H|done]).
  apply sat_find_serial; [exact Hnd|]. by left.
Qed.

(** ** Formatting *)

(** The device has the file system, or none and may be formatted. *)
Definition stageable (fs : string) (flags : list string) (s : nodevol) : bool :=
  String.eqb (nv_format s) fs || formattable s && negb (read_only flags).

Section mount.
Context (target fs : string) (os : list string).
Context (Htarget : target ∈ paths) (Hdevice : target ≠ device) (Hfs : checkfsType fs = true).

Lemma ok_FormatNewDisk s ex : succeeds (FormatNewDisk false device fs target [] os) (s, ex).
Proof.
  unfold FormatNewDisk. rewrite (checked_nonempty _ Hfs). apply sat_up. intros [out err] s1 ex1 H Hup _.
  destruct Hup as (_ & _ & Hup). destruct (Hup (mkfs_args_last _ _ Hfs)) as (Hmk & _).
  specialize (Hmk fs (mkfs_type_of fs) Hfs). cbn [snd] in *. subst err.
  cbn [host_api fst snd] in H. unfold command_does in H.
  rewrite (mkfs_args_last _ _ Hfs), mkfs_type_of in H. subst s1.
  apply sat_up. intros r s2 ex2 _ Hup2 _. specialize (Hup2 Htarget (or_intror (conj eq_refl (conj eq_refl Hfs)))).
  destruct r; [by apply sat_ret|done].
Qed.

Lemma ok_after_mount_error e s ex :
  formattable s = true → succeeds (after_mount_error false device target fs [] os e) (s, ex).
Proof.
  intros Hf. unfold after_mount_error. apply sat_up. intros r s1 ex1 [-> Hr] Hup _.
  specialize (Hup eq_refl). destruct r as [f|]; [|done]. rewrite (Hr eq_refl f eq_refl).
  pose proof Hf as Hf'. unfold formattable in Hf. destruct (String.eqb (nv_format s) "") eqn:Hempty.
  { apply ok_FormatNewDisk. }
  apply andb_true_iff in Hf as [Hu Hb]. rewrite (checked_nonempty _ Hfs). cbn [orb].
  change unknown_data with "unknown data, probably partitions" in Hu. rewrite Hu.
  apply String.eqb_eq in Hu as Hu'. rewrite Hu'.
  destruct (String.eqb_spec fs "unknown data, probably partitions") as [->|_]; [done|].
  unfold GetDiskFStypePTtype. apply sat_bind, sat_up. intros [out err] s2 ex2 H Hup2 _.
  destruct Hup2 as (_ & _ & Hup2). cbn [host_api fst snd] in H. unfold command_does in H.
  rewrite on_device_last in * by done. change (mkfs_type "blkid") with (@None string) in H.
  destruct H as (-> & Hblk & _). destruct (Hup2 eq_refl) as (_ & Hok & _).
  apply sat_ret. cbn [fst snd] in *. specialize (Hok eq_refl Hf' Hu').
  destruct (blkid_output out err) as [x|] eqn:Hx; [|done]. rewrite (Hblk eq_refl x eq_refl) in *.
  destruct (nv_table s) as [a b]. cbn [fst snd] in Hb. rewrite Hb. apply ok_FormatNewDisk.
Qed.
End mount.

Lemma ok_check_device skip s ex : finds_out (check_device device skip) s ex (fun r => is_ok r = true).
Proof.
  unfold check_device. destruct skip; [by apply sat_ret|]. apply sat_up. intros [out err] s' ex' H Hup _.
  destruct Hup as (_ & Hf & _). specialize (Hf eq_refl). cbn [host_api fst snd] in *.
  unfold command_does in H. rewrite on_device_last in H by done.
  change (mkfs_type "fsck") with (@None string) in H. destruct H as [-> _]. apply sat_ret.
  split; [done|]. unfold fsck_outcome. destruct err as [[| |]|]; try done.
  destruct (Z.eqb_spec ExitStatus 4) as [->|]; [by destruct Hf|done].
Qed.

#[local] Opaque after_mount_error.

Lemma ok_FormatAndMount target fs flags omit s ex :
  target ∈ paths → target ≠ device → checkfsType fs = true → stageable fs flags s = true →
  succeeds (FormatAndMount device target fs [] flags omit) (s, ex).
Proof.
  intros Ht Hd Hfs Hs. unfold FormatAndMount. eapply sat_bind_mono; [apply ok_check_device|].
  intros [[]|] [s1 ex1] [H Hok]; [|done]. cbn in H. subst s1. apply sat_up.
  change (match flags with [] => _ | _ => _ end) with (used_options flags).
  intros r s2 ex2 Hm Hup _. destruct r as [[]|e]; [by apply sat_ret|].
  apply (mount_device _ _ size paths) in Hm; [|done]. apply orb_true_iff in Hs as [Hs|Hs].
  - apply String.eqb_eq in Hs. by specialize (Hup Ht (or_intror (conj eq_refl (conj Hs Hfs)))).
  - apply andb_true_iff in Hs as [Hf Hro%negb_true_iff]. rewrite Hro.
    apply ok_after_mount_error; [done..|]. by rewrite (formattable_over device target _ s s2 Hm).
Qed.

#[local] Opaque FormatAndMount getDevPathBySerial.

(** ** The handlers under their locks *)

Context (g : Globals) (d : DiskDriver) (v : string) (Hdevice : device ∉ paths).

Definition filesystem_mounted (s : nodevol) (p : string) : bool :=
  match nv_mounts s !! p with
  | Some m => match m_shows m with Filesystem _ => true | File _ => false end
  | None => false
  end.

Lemma ok_resize_if_needed target x : succeeds (ns.resize_if_needed device target) x.
Proof.
  destruct x as [s ex]. unfold ns.resize_if_needed. apply sat_up. intros [[]|] s1 ex1 _ _ _; [|by apply sat_ret..].
  unfold host_try. apply sat_bind, sat_up. intros r s2 ex2 _ Hup _. rewrite (Hup eq_refl).
  apply sat_ret. cbn beta iota. by apply sat_ret.
Qed.

Lemma ok_stage_device target fs flags s ex :
  target ∈ paths → checkfsType fs = true → stageable fs (gated_flags g flags) s = true →
  succeeds (ns.stage_device g target fs serial flags) (s, ex).
Proof.
  intros Ht Hfs Hs. unfold ns.stage_device. eapply sat_bind_mono; [apply sat_found|].
  intros r [s1 ex1] [H ->]. cbn in H. subst s1. eapply sat_bind_mono;
    [apply ok_FormatAndMount; [done|by eapply paths_device|done..]|].
  intros [[]|] s2 Hok; [|done]. apply ok_resize_if_needed.
Qed.

Lemma ok_not_mounted target s ex :
  target ∈ paths →
  finds_out (ns.not_mounted target) s ex (fun r => ∃ b, r = Ok b ∧
    (b = true → filesystem_mounted s target = false)).
Proof.
  intros Ht. unfold ns.not_mounted. apply sat_up. intros r s1 ex1 [-> Hr] _ [Hup _].
  specialize (Hr Ht). unfold filesystem_mounted. destruct Hup as [->|Hup].
  - cbn [IsNotExist]. unfold host_try. apply sat_bind, sat_up. intros r s2 ex2 H2 Hup2 _.
    change (s2 = s) in H2. subst s2. destruct r as [[]|]; [|done]. apply sat_ret, sat_ret.
    split; [done|]. exists true. split; [done|]. by rewrite Hr.
  - destruct r as [b|]; [|done]. apply sat_ret. split; [done|]. exists b. split; [done|]. intros ->.
    revert Hr. unfold seen_mounted. destruct (nv_mounts s !! target) as [m|]; [|done].
    destruct (m_shows m); [|done]. by intros ?%list_elem_of_singleton.
Qed.

Lemma ok_stage r cap fs flags s ex :
  ns_StagingTargetPath r ∈ paths → GetMount cap = Some (fs, flags) →
  checkfsType (fs_type (Some (fs, flags))) = true →
  filesystem_mounted s (ns_StagingTargetPath r) ||
    stageable (fs_type (Some (fs, flags))) (gated_flags g flags) s = true →
  succeeds (ns.stage_locked g r cap serial) (s, ex).
Proof.
  intros Ht Hmnt Hfs Hs. unfold ns.stage_locked. rewrite Hmnt, Hfs. cbn [negb].
  eapply sat_bind_mono; [by apply ok_not_mounted|]. intros x [s1 ex1] (H & b & -> & Hb).
  cbn in H. subst s1. destruct b; cbn [negb]; [|by apply sat_ret].
  rewrite Hb in Hs by done. by apply ok_stage_device.
Qed.

(** The target is there once it is made. *)
Lemma ok_create_target target block s ex :
  sat M (createTargetMountPathIfNotExists target block) (s, ex)
    (fun r x' => is_ok r = true ∧ target ∈ x'.2).
Proof.
  unfold createTargetMountPathIfNotExists. apply sat_up. intros r s1 ex1 _ Hup [-> Hex].
  destruct r as [m|e]; [apply sat_ret; auto|]. destruct Hup as [[= ->]|]; [|done].
  cbn [IsNotExist negb]. destruct block.
  - apply sat_up. intros [[]|] s2 ex2 _ Hok Hin; [|done].
    apply sat_call. by intros r [s3 ex3] (_ & Hok3 & ->).
  - apply sat_call. by intros r [s3 ex3] (_ & Hok3 & Hin).
Qed.

Lemma ok_is_mounted target block s ex :
  target ∈ ex → succeeds (ns.is_mounted target block) (s, ex).
Proof.
  intros Ht. unfold ns.is_mounted, host_try. destruct block.
  - apply sat_up. intros [b|] s1 ex1 _ Hup _; [|done]. by apply sat_ret.
  - apply sat_bind, sat_up. intros [b|] s1 ex1 _ _ [_ Hex]; [|by specialize (Hex Ht)].
    apply sat_ret. by apply sat_ret.
Qed.

Lemma ok_publish r cap s ex :
  np_TargetPath r ∈ paths → checkfsType (fs_type (GetMount cap)) = true →
  succeeds (ns.publish_locked g r cap serial) (s, ex).
Proof.
  intros Ht Hfs. unfold ns.publish_locked.
  eapply (sat_bind_mono _ _ _ _ (fun r _ => is_ok r = true)).
  { destruct (is_block cap); [|by apply sat_ret]. eapply sat_bind_mono; [apply sat_found|].
    intros x x1 [_ ->]. by apply sat_ret. }
  intros [source|] [s1 ex1] Hok; [|done]. clear Hok. rewrite Hfs. cbn [negb].
  eapply sat_bind_mono; [apply ok_create_target|]. intros [[]|] [s2 ex2] [Hok Hin]; [|done].
  eapply sat_bind_mono; [by apply ok_is_mounted|]. intros [[]|] [s3 ex3] Hok3; [by apply sat_ret| |done].
  unfold host_try. apply sat_up. intros x s4 ex4 _ Hup _.
  specialize (Hup Ht (or_introl eq_refl)). destruct x; [by apply sat_ret|done].
Qed.

Lemma ok_cleanup p s ex : succeeds (host_try codes.Internal (CleanupMountPoint p true)) (s, ex).
Proof. apply sat_up. intros [[]|] s1 ex1 _ Hup _; [by apply sat_ret|done]. Qed.

Lemma ok_expand r wanted s ex :
  (wanted <=? size) = true → succeeds (ns.expand_locked r serial wanted) (s, ex).
Proof.
  intros Hw%Z.leb_le. unfold ns.expand_locked. eapply sat_bind_mono; [apply sat_found|].
  intros x [s1 ex1] [_ ->]. unfold host_try. apply sat_bind, sat_up. intros y s2 ex2 _ Hup _.
  rewrite (Hup eq_refl). apply sat_ret. cbn [negb].
  unfold getBlockSizeBytes. apply sat_bind, sat_up. intros [out err] s3 ex3 H Hup3 _.
  destruct Hup3 as (_ & _ & Hup3). cbn [host_api fst snd] in H. unfold command_does in H.
  rewrite on_device_last in * by done. change (mkfs_type "blockdev") with (@None string) in H.
  destruct H as (-> & _ & Hb). destruct (Hup3 eq_refl) as (_ & _ & Hbd).
  destruct (Hbd eq_refl) as [Herr Hp]. cbn [fst snd] in *. subst err. apply sat_ret.
  destruct (ParseInt (TrimSpace out)) as [n|] eqn:Hn; [|done].
  rewrite (Hb eq_refl n eq_refl eq_refl). destruct (Z.ltb_spec size wanted); [lia|]. by apply sat_ret.
Qed.

#[local] Opaque ns.publish_locked ns.stage_locked ns.expand_locked.

(** ** Valid requests *)

(** What the handlers check of a request before they look at the host. *)
Definition valid_node (q : node_request) : bool :=
  match q with
  | ReqNodePublish r =>
    negb (String.eqb (np_TargetPath r) "") && negb (String.eqb (np_StagingTargetPath r) "") &&
    is_ok (ParseCsiVolId (np_VolumeId r)) &&
    match np_VolumeCapability r with
    | Some cap => ValidateVolumeCapability d cap && checkfsType (fs_type (GetMount cap))
    | None => false
    end
  | ReqNodeUnpublish r =>
    negb (String.eqb (nu_TargetPath r) "") && negb (String.eqb (nu_VolumeId r) "")
  | ReqNodeStage r =>
    ValidateNodeServiceRequest d NodeRPC.STAGE_UNSTAGE_VOLUME &&
    negb (String.eqb (ns_StagingTargetPath r) "") && is_ok (ParseCsiVolId (ns_VolumeId r)) &&
    match ns_VolumeCapability r with
    | Some cap => is_block cap || match GetMount cap with
                                  | Some m => checkfsType (fs_type (Some m))
                                  | None => false
                                  end
    | None => false
    end
  | ReqNodeUnstage r =>
    ValidateNodeServiceRequest d NodeRPC.STAGE_UNSTAGE_VOLUME &&
    negb (String.eqb (nt_StagingTargetPath r) "") && negb (String.eqb (nt_VolumeId r) "")
  | ReqNodeExpand r =>
    negb (String.eqb (ne_VolumePath r) "") && is_ok (ParseCsiVolId (ne_VolumeId r)) &&
    negb (is_nil (ne_VolumeCapability r)) && is_ok (GetRequestSizeBytes (ne_CapacityRange r))
  | _ => false
  end.

(** What the volume must be for the request. *)
Definition servable (q : node_request) (s : nodevol) : bool :=
  match q with
  | ReqNodeStage r =>
    match ns_VolumeCapability r ≫= GetMount with
    | Some (fs, flags) =>
      filesystem_mounted s (ns_StagingTargetPath r) ||
      stageable (fs_type (Some (fs, flags))) (gated_flags g flags) s
    | None => true
    end
  | ReqNodeExpand r =>
    from_option is_block false (ne_VolumeCapability r) ||
    match GetRequestSizeBytes (ne_CapacityRange r) with
    | Ok wanted => wanted <=? size
    | Err _ => false
    end
  | _ => true
  end.

(** ** The handlers *)

Abbreviation P := (with_locks lock_table (on_snd M)).
Abbreviation answered_ok t := (fun (r : rpc _) (y : ResourceLocks * hoststate) => y.1 = t ∧ is_ok r = true).

Lemma ok_respond {A} (f : A → node_response) (p : node (rpc A)) t x :
  sat P p (t, x) (answered_ok t) → sat P (node_respond f p) (t, x) (answered_ok t).
Proof.
  intros Hp. eapply sat_bind_mono; [exact Hp|]. intros [a|e] y [Hy Hok]; [|done]. by apply sat_ret.
Qed.

Lemma ok_with_lock {A} (p : host (rpc A)) t x :
  v ∉ locks t → succeeds p x → sat P (with_lock v (lift p)) (t, x) (answered_ok t).
Proof.
  intros Hv Hp. apply (sat_with_free_lock _ v _ t x (fun r _ => is_ok r = true)); [done|].
  intros t1 _. by apply (sat_lift_beside M p t1 x (fun r _ => is_ok r = true)).
Qed.

Lemma nonempty s : negb (String.eqb s "") = true → (len s =? 0) = false.
Proof.
  intros Hs%negb_true_iff%String.eqb_neq. apply Z.eqb_neq. by rewrite len_0.
Qed.

Lemma parsed_id id u x : ParseCsiVolId id = Ok (u, x) → (len id =? 0) = false.
Proof.
  intros Hp. destruct (Z.eqb_spec (len id) 0) as [Hl|]; [|done]. apply len_0 in Hl as ->. done.
Qed.

Lemma ok_handle q t s ex :
  well_addressed v serial paths q → node_volume q = v → v ∉ locks t →
  valid_node q = true → servable q s = true →
  sat P (node_handle g d q) (t, (s, ex)) (answered_ok t).
Proof.
  intros Ha Hv Hl Hvalid Hs.
  pose proof (fun u x => addressed_serial v serial paths q u x Ha Hv) as Hserial.
  pose proof (fun p => addressed_in v serial paths q p Ha Hv) as Hin.
  destruct q; cbn [valid_node] in Hvalid; try done;
    repeat (apply andb_true_iff in Hvalid as [Hvalid ?]); cbn [node_handle node_volume_id node_paths] in *;
    apply ok_respond.
  - unfold ns.NodePublishVolume. destruct (ParseCsiVolId (np_VolumeId r)) as [[u x]|] eqn:Hid; [|done].
    destruct (Hserial u x eq_refl) as [-> ->]. rewrite (parsed_id _ _ _ Hid), !nonempty by done.
    destruct (np_VolumeCapability r) as [cap|]; [|done].
    match goal with H : _ && _ = true |- _ => apply andb_true_iff in H as [Hcap Hfs] end.
    rewrite Hcap. cbn [negb]. apply ok_with_lock; [done|].
    apply ok_publish; [apply Hin, list_elem_of_here|done].
  - unfold ns.NodeUnpublishVolume. rewrite !nonempty by done.
    unfold node_volume in Hv. cbn in Hv. rewrite Hv. apply ok_with_lock; [done|apply ok_cleanup].
  - unfold ns.NodeStageVolume. destruct (ParseCsiVolId (ns_VolumeId r)) as [[u x]|] eqn:Hid; [|done].
    destruct (Hserial u x eq_refl) as [-> ->]. rewrite (parsed_id _ _ _ Hid), !nonempty by done.
    rewrite Hvalid. cbn [negb]. cbn [servable] in Hs.
    destruct (ns_VolumeCapability r) as [cap|]; [|done]. cbn [mbind option_bind] in Hs.
    destruct (is_block cap); [by apply sat_ret|]. cbn [orb] in *.
    destruct (GetMount cap) as [[fs flags]|] eqn:Hmnt; [|done].
    apply ok_with_lock; [done|]. eapply ok_stage; [apply Hin, list_elem_of_here|done..].
  - unfold ns.NodeUnstageVolume. rewrite Hvalid, !nonempty by done. cbn [negb].
    unfold node_volume in Hv. cbn in Hv. rewrite Hv. apply ok_with_lock; [done|apply ok_cleanup].
  - unfold ns.NodeExpandVolume. destruct (ParseCsiVolId (ne_VolumeId r)) as [[u x]|] eqn:Hid; [|done].
    destruct (Hserial u x eq_refl) as [-> ->]. rewrite (parsed_id _ _ _ Hid), !nonempty by done.
    cbn [servable] in Hs. unfold ns.expand_block_mode.
    destruct (ne_VolumeCapability r) as [cap|]; [|done]. cbn [from_option] in Hs.
    change (lift (mret (Ok (is_block cap)))) with (Ret (E:=Locked HostE) (Ok (E:=codes.code) (is_block cap))).
    rewrite prog_bind_ret. destruct (is_block cap); [by apply sat_ret|]. cbn [orb] in Hs.
    destruct (GetRequestSizeBytes _) as [wanted|]; [|done].
    apply ok_with_lock; [done|]. by apply ok_expand.
Qed.

(** ** The node *)

(** A healthy host obeys [host_api]. *)
Lemma obeys_healthy {W} (hd : env HostE W) (state_of : W → hoststate) :
  obeys hd state_of M → obeys hd (fun w => (state_of w).1) (host_api serial device size paths).
Proof. intros Hhd R o w. by destruct (Hhd R o w). Qed.

Lemma node_completes {W} (hd : env HostE W) (state_of : W → hoststate) q (s : ResourceLocks * W) :
  obeys hd state_of M →
  well_addressed v serial paths q → node_volume q = v → v ∉ locks s.1 →
  valid_node q = true → servable q (state_of s.2).1 = true →
  let '(r, s') := run (locked_env hd) (node_handle g d q) s in
  is_ok r = true ∧ s'.1 = s.1 ∧
  node_outcome g device size q (state_of s.2).1 r (state_of s'.2).1.
Proof.
  intros Hhd Ha Hv Hl Hvalid Hs.
  pose proof (run_exec _ _ _ (node_handle g d q) s (obeys_lock_table _ _ _ Hhd)) as Hexec.
  pose proof (run_exec _ _ _ (node_handle g d q) s
    (obeys_locked_env _ _ _ (obeys_healthy _ _ Hhd))) as Hspec.
  cbn beta in Hexec, Hspec. destruct (state_of s.2) as [x ex]. cbn [fst snd] in *.
  apply (ok_handle q s.1 x ex) in Hexec as [Ht Hok]; [|done..].
  apply (sat_node_handle g d v serial device size paths Hdevice q x Ha) in Hspec.
  destruct (run _ _ _) as [r s']. cbn [fst snd] in *. split_and!; [done..|].
  unfold node_step in Hspec. destruct q; try done; by rewrite (decide_True _ _ Hv) in Hspec.
Qed.
End complete.
