(* ===== verification/NodeLife.v ===== *)
(** * A volume's life on its node

    The kubelet's calls for a pod that starts and for one that ends, and what they
    come to: whatever the host does, when they are all answered without an error;
    and on a host that keeps up they are. *)

From S2P Require Import Prelude GoStd Csi Common Prog Locking Machine Serve Bracket Driver CloudTypes.
From S2P Require Import Host Mount MountProps Node NodeProps NodeVol NodeRefine NodeSerial NodeComplete.

Local Open Scope Z_scope.
Local Open Scope csi_scope.

Section life.
Context (id staging target : string) (cap : VolumeCapability) (readonly : bool).

(** The kubelet's calls for a pod that starts, and for a pod that ends. *)
Definition pod_stage : node_request :=
  ReqNodeStage {| ns_VolumeId := id; ns_StagingTargetPath := staging; ns_VolumeCapability := Some cap |}.

Definition pod_starts : list node_request :=
  [pod_stage;
   ReqNodePublish {| np_VolumeId := id; np_StagingTargetPath := staging; np_TargetPath := target;
                     np_VolumeCapability := Some cap; np_Readonly := readonly |}].

Definition pod_ends : list node_request :=
  [ReqNodeUnpublish {| nu_VolumeId := id; nu_TargetPath := target |};
   ReqNodeUnstage {| nt_VolumeId := id; nt_StagingTargetPath := staging |}].

Context (g : Globals) (device : string) (size : Z) (fs : string) (flags : list string).
Context (Hcap : AccessType_ cap = Some (Mount fs flags)).
Context (Hbind : is_bind (gated_flags g flags) = false).

(** The data after a staging: as it was, or a new file system where there was none. *)
Definition kept_or_new (s s' : nodevol) : Prop :=
  has_filesystem s = true ∧ same_data s s' ∨
  formattable s = true ∧ nv_format s' = fs_type (Some (fs, flags)).

Lemma is_bind_used : is_bind (used_options (gated_flags g flags)) = false.
Proof. unfold used_options. by destruct (gated_flags g flags). Qed.

Lemma elem_of_pair {A} (x y z : A) : x ∈ [y; z] → x = y ∨ x = z.
Proof. by intros [->|[->|H%elem_of_nil]%elem_of_cons]%elem_of_cons; auto. Qed.

Lemma staged_fresh r a s s' :
  ns_VolumeCapability r = Some cap → nv_mounts s !! ns_StagingTargetPath r = None →
  node_outcome g device size (ReqNodeStage r) s (Ok a) s' →
  ∃ m, m_shows m = Filesystem device ∧
       nv_mounts s' = <[ns_StagingTargetPath r := m]> (nv_mounts s) ∧ kept_or_new s s'.
Proof.
  intros Hr Hm. cbn [node_outcome node_results]. rewrite Hr. unfold is_block, GetMount. rewrite Hcap.
  intros (s1 & [= -> ->] & Hin)%list_elem_of_fmap. revert Hin.
  unfold stage_results, seen_mounted. rewrite Hm. cbn [flat_map]. rewrite app_nil_r.
  unfold stage_mount, kept_or_new, mounted_as, shown. rewrite is_bind_used. cbn [orb].
  intros [Hin|Hin]%elem_of_app.
  - destruct (has_filesystem s); [|by apply elem_of_nil in Hin].
    by apply elem_of_pair in Hin as [->| ->]; (eexists; split; [|split; [reflexivity|by left]]).
  - destruct (formattable s && _) eqn:Hf; [|by apply elem_of_nil in Hin].
    apply andb_true_iff in Hf as [Hf _].
    by apply elem_of_pair in Hin as [->| ->]; (eexists; split; [|split; [reflexivity|by right]]).
Qed.

Lemma published_fresh r a s s' m :
  np_VolumeCapability r = Some cap → nv_mounts s !! np_TargetPath r = None →
  nv_mounts s !! np_StagingTargetPath r = Some m →
  node_outcome g device size (ReqNodePublish r) s (Ok a) s' →
  ∃ m', m_shows m' = m_shows m ∧ m_options m' = ns.publish_options g r cap ∧
        s' = with_mounts (<[np_TargetPath r := m']> (nv_mounts s)) s.
Proof.
  intros Hr Hm Hs. cbn [node_outcome node_results]. rewrite Hr. intros (s1 & [= -> ->] & Hin)%list_elem_of_fmap. revert Hin.
  assert (Hb : is_block cap = false) by (unfold is_block; by rewrite Hcap).
  unfold publish_results, seen_mounted. rewrite Hb, Hm. cbn [flat_map]. rewrite app_nil_r.
  intros ->%list_elem_of_singleton. unfold mounted_as, shown.
  change (is_bind (ns.publish_options g r cap)) with true. rewrite Hs. eexists.
  by split; [|split; [|reflexivity]].
Qed.

(** ** The four calls *)

Context {W : Type} (hd : env HostE W) (d : DiskDriver) (v serial : string) (paths : gset string).
Context (volume_of : W → nodevol) (Hhd : obeys hd volume_of (host_api serial device size paths)).
Context (Hdevice : device ∉ paths) (Hid : ParseCsiVolId id = Ok (v, serial)).
Context (Hstaging : staging ∈ paths) (Htarget : target ∈ paths) (Hne : staging ≠ target).

Lemma pod_request q :
  q ∈ pod_starts ++ pod_ends → node_volume q = v ∧ well_addressed v serial paths q.
Proof.
  clear Hcap Hbind Hne Hhd volume_of.
  unfold pod_starts, pod_ends, pod_stage. intros Hq. assert (Hkey : node_volume_id q = id ∧ ∀ p, p ∈ node_paths q → p ∈ paths).
  { repeat (apply elem_of_cons in Hq as [->|Hq]; [split; [done|]; cbn [node_paths]; intros p Hp;
      repeat (apply elem_of_cons in Hp as [->|Hp]; [done|]); by apply elem_of_nil in Hp|]).
    by apply elem_of_nil in Hq. }
  destruct Hkey as [Hkey Hpaths]. assert (Hv : node_volume q = v) by (unfold node_volume; rewrite Hkey; by eapply node_key).
  split; [done|]. split; [by intros p Hp; split; auto|]. intros u x. rewrite Hkey, Hid. by intros [= <- <-].
Qed.

Lemma served_outcome q (s : ResourceLocks * W) :
  q ∈ pod_starts ++ pod_ends →
  let '(r, s') := run (locked_env hd) (node_handle g d q) s in
  node_outcome g device size q (volume_of s.2) r (volume_of s'.2).
Proof.
  intros Hq. destruct (pod_request q Hq) as [Hv Ha]. unfold pod_starts, pod_ends, pod_stage in Hq.
  pose proof (serve_node_step g d v serial device size paths Hdevice hd volume_of q s Hhd Ha) as H.
  destruct (run _ _ _) as [r s']. unfold node_step in H.
  by repeat (apply elem_of_cons in Hq as [->|Hq]; [by rewrite (decide_True _ _ Hv) in H|]);
    apply elem_of_nil in Hq.
Qed.

Ltac next_request Hserve s H :=
  match goal with
  | |- context [run _ (node_handle g d ?q) s] =>
    pose proof (Hserve q s ltac:(set_solver)) as H;
    let r := fresh "r" in let y := fresh "y" in
    destruct (run _ (node_handle g d q) s) as [r y]
  end.

Lemma life_on_node (s : ResourceLocks * W) :
  let x := volume_of s.2 in
  nv_mounts x !! staging = None → nv_mounts x !! target = None →
  let '(rs, s1) := serve_node g d hd pod_starts s in
  let '(rs', s2) := serve_node g d hd pod_ends s1 in
  Forall (fun r => is_ok r = true) (rs ++ rs') →
  (∃ m, nv_mounts (volume_of s1.2) !! target = Some m ∧ m_shows m = Filesystem device ∧
        (readonly = true → "ro" ∈ m_options m)) ∧
  kept_or_new x (volume_of s1.2) ∧
  volume_of s2.2 = with_mounts (nv_mounts x) (volume_of s1.2).
Proof.
  cbv zeta. intros Hs Ht. unfold pod_starts, pod_ends, pod_stage. cbn [serve_node].
  pose proof (fun q => served_outcome q) as Hserve. unfold pod_starts, pod_ends, pod_stage in Hserve. cbn [app] in Hserve.
  next_request Hserve s H1. next_request Hserve y H2. next_request Hserve y0 H3.
  next_request Hserve y1 H4.
  cbn [app]. clear Hserve. rewrite !list.Forall_cons. intros (Hok1 & Hok2 & Hok3 & Hok4 & _).
  destruct r as [a1|], r0 as [a2|], r1 as [a3|], r2 as [a4|]; try done.
  apply staged_fresh in H1 as (m & Hm & Hx1 & Hdata); [|done..]. cbn [ns_StagingTargetPath] in *.
  apply (published_fresh _ _ _ _ m) in H2 as (m' & Hm' & Ho & Hx2); [|done|..];
    cbn [np_TargetPath np_StagingTargetPath] in *;
    [|by rewrite Hx1, lookup_insert_ne|by rewrite Hx1, lookup_insert_eq].
  cbn in H3, H4. apply list_elem_of_singleton in H3 as [= -> Hx3].
  apply list_elem_of_singleton in H4 as [= -> Hx4].
  split_and!.
  - exists m'. rewrite Hx2. cbn. rewrite lookup_insert_eq. split_and!; [done|congruence|].
    rewrite Ho. intros ->. cbn. apply list_elem_of_further, list_elem_of_here.
  - rewrite Hx2. unfold kept_or_new, same_data in *. by cbn.
  - rewrite Hx4, Hx3, Hx2. unfold unmount, with_mounts. cbn. f_equal.
    rewrite Hx1, delete_insert_id, delete_insert_id; [done|done|by rewrite lookup_insert_ne].
Qed.

(** ** On a host that keeps up *)

Context (state_of : W → hoststate).
Context (Hup : obeys hd state_of (healthy_host serial device size paths)).

Lemma pod_served q (s : ResourceLocks * W) :
  q ∈ pod_starts ++ pod_ends → v ∉ locks s.1 →
  valid_node d q = true → servable size g q (state_of s.2).1 = true →
  let '(r, s') := run (locked_env hd) (node_handle g d q) s in is_ok r = true ∧ s'.1 = s.1.
Proof.
  clear Hcap Hbind Hne Hhd volume_of.
  intros Hq Hl Hvalid Hs. destruct (pod_request q Hq) as [Hv Ha].
  pose proof (node_completes serial device size paths g d v Hdevice hd state_of q s Hup Ha Hv Hl Hvalid Hs)
    as H. destruct (run _ _ _) as [r s']. by destruct H as (? & ? & _).
Qed.

Ltac next_served Hstep s Hs r y Hok Hy :=
  match goal with
  | |- context [run _ (node_handle g d ?q) s] =>
    pose proof (Hstep q s ltac:(set_solver) Hs eq_refl) as Hok;
    destruct (run _ (node_handle g d q) s) as [r y]; destruct Hok as [Hok Hy]
  end.

Lemma pods_succeed (s : ResourceLocks * W) :
  v ∉ locks s.1 → (∀ q, q ∈ pod_starts ++ pod_ends → valid_node d q = true) →
  servable size g pod_stage (state_of s.2).1 = true →
  let '(rs, s1) := serve_node g d hd pod_starts s in
  let '(rs', s2) := serve_node g d hd pod_ends s1 in
  Forall (fun r => is_ok r = true) (rs ++ rs') ∧ s1.1 = s.1 ∧ s2.1 = s.1.
Proof.
  clear Hcap Hbind Hne Hhd volume_of.
  intros Hl Hvalid Hs. pose proof (fun q (y : ResourceLocks * W) Hq => pod_served q y Hq) as Hserve.
  unfold pod_starts, pod_ends in *. cbn [serve_node app] in *.
  assert (Hstep : ∀ q (y : ResourceLocks * W), q ∈ pod_starts ++ pod_ends → y.1 = s.1 →
    servable size g q (state_of y.2).1 = true →
    let '(r, y') := run (locked_env hd) (node_handle g d q) y in is_ok r = true ∧ y'.1 = s.1).
  { intros q y Hq Hy Hq'. specialize (Hserve q y Hq). rewrite Hy in Hserve. by apply Hserve; auto. }
  clear Hserve.
  pose proof (Hstep pod_stage s ltac:(set_solver) eq_refl Hs) as H1. destruct (run _ _ s) as [r1 y1].
  destruct H1 as [Hok1 Hy1]. clear Hs.
  next_served Hstep y1 Hy1 r2 y2 Hok2 Hy2. next_served Hstep y2 Hy2 r3 y3 Hok3 Hy3.
  next_served Hstep y3 Hy3 r4 y4 Hok4 Hy4.
  split_and!; [by repeat constructor|done..].
Qed.
End life.
