(* ===== verification/VolHost.v ===== *)
(** * A concrete host of one volume

    A host that keeps up, with the volume's disk as its only disk: the instance of
    [host_api] and of [healthy_host] in the examples.  It is no part of the driver. *)

From S2P Require Import Prelude GoStd Csi Common Prog Locking Machine Serve Driver CloudTypes.
From S2P Require Import Host Mount Node NodeProps NodeVol NodeRefine NodeComplete.

Local Open Scope Z_scope.

Section vol_host.
Context (serial name : string) (size : string) (bytes : Z) (paths : gset string).

Definition vol_device : string := "/dev/" +:+ name.

Definition line (s : string) : string := s +:+ String (ascii_of_nat 10) "".

Context (Hserial : TrimSpace (line serial) = serial).
Context (Hlisted : listed (line name) = [name]).
Context (Hsize : ParseInt (TrimSpace (line size)) = Some bytes).

Definition on_volume (f : nodevol → nodevol) (x : hoststate) : hoststate := (f x.1, x.2).
Definition add_there (p : string) (x : hoststate) : hoststate := (x.1, {[p]} ∪ x.2).

Definition mode_of (s : nodevol) (p : string) : Z :=
  match nv_mounts s !! p with
  | Some m => match m_shows m with
              | File q => if String.eqb q vol_device then ModeDevice else 0
              | Filesystem _ => 0
              end
  | None => 0
  end.

Definition vol_command (cmd : string) (args : list string) (x : hoststate)
    : (string * option execerr) * hoststate :=
  if String.eqb cmd "lsblk" then ((line name, None), x) else
  if on_device vol_device args then
    match mkfs_type cmd with
    | Some fs => (("", None), on_volume (formatted fs) x)
    | None =>
      if String.eqb cmd "blkid" then
        if formattable x.1 && String.eqb (nv_format x.1) unknown_data
        then ((line "PTTYPE=atari", None), x) else (("", Some ExecOther), x)
      else if String.eqb cmd "blockdev" then ((line size, None), x) else (("", None), x)
    end
  else (("", None), x).

Definition mounts_there (source fs : string) (options : list string) (s : nodevol) : bool :=
  is_bind options || negb (String.eqb source vol_device)
  || String.eqb (nv_format s) fs && has_filesystem s.

Definition vol_host : env HostE hoststate := fun R o =>
  match o in HostE R return hoststate → R * hoststate with
  | Stat p => fun x => (if decide (p ∈ x.2) then Ok (mode_of x.1 p) else Err ErrNotExist, x)
  | MkdirAll p _ | OpenCreate p _ => fun x => (Ok tt, add_there p x)
  | Close _ => fun x => (Ok tt, x)
  | Open _ => fun x => (Ok tt, x)
  | Readdir _ _ => fun x => (Err EOF, x)
  | ReadFile p => fun x =>
      (if String.eqb p (serial_path name) then Ok (line serial) else Err ErrNotExist, x)
  | Statfs _ => fun x => (Err ErrOther, x)
  | CombinedOutput cmd args => vol_command cmd args
  | MountFs source target fs options => fun x =>
      if decide (target ∈ paths) then
        if mounts_there source fs options x.1
        then (Ok tt, on_volume (mounted_as source target fs options) x) else (Err ErrOther, x)
      else (Ok tt, x)
  | IsLikelyNotMountPoint p => fun x =>
      (match nv_mounts x.1 !! p with
       | Some _ => Ok false
       | None => if decide (p ∈ x.2) then Ok true else Err ErrNotExist
       end, x)
  | IsMountPoint p => fun x => (Ok (negb (is_nil (nv_mounts x.1 !! p))), x)
  | CleanupMountPoint p _ => fun x =>
      (Ok tt, if decide (p ∈ paths) then (unmount p x.1, x.2 ∖ {[p]}) else x)
  | GetDiskFormat _ => fun x => (Ok (nv_format x.1), x)
  | NeedResize _ _ => fun x => (Ok (negb (nv_full x.1)), x)
  | Resize p _ => fun x =>
      (Ok true, if String.eqb p vol_device then on_volume filled x else x)
  end.

Abbreviation M := (healthy_host serial vol_device bytes paths).

Lemma serial_path_inj a b : serial_path a = serial_path b → a = b.
Proof.
  unfold serial_path. intros H.
  assert (Happ : ∀ x y s t : string, String.length x = String.length y →
    x +:+ s = y +:+ t → x = y).
  { induction x as [|c x IH]; intros [|c' y] s t; cbn; intros Hl; try done.
    intros [= -> He]. f_equal. eapply IH; [lia|exact He]. }
  assert (Hlen : String.length a = String.length b).
  { apply (f_equal String.length) in H. rewrite !length_append in H. cbn in H. lia. }
  injection H as H. by eapply Happ.
Qed.

Lemma vol_command_healthy cmd args x :
  M _ (CombinedOutput cmd args) x (vol_command cmd args x).1 (vol_command cmd args x).2.
Proof.
  unfold healthy_host. cbn [host_api keeps_up exists_up]. unfold vol_command, command_does.
  destruct (String.eqb_spec cmd "lsblk") as [->|Hls].
  { cbn [fst snd]. change (mkfs_type "lsblk") with (@None string). split_and!; try done.
    - by destruct (on_device _ _).
    - intros _. rewrite Hlisted. split_and!; [done|apply list.NoDup_singleton|].
      exists name. split; [apply list_elem_of_here|done]. }
  destruct (on_device vol_device args) eqn:Hdev; cbn [fst snd].
  2: { by split_and!. }
  destruct (mkfs_type cmd) as [fs|] eqn:Hmk; cbn [fst snd on_volume].
  { split_and!; try done; intros _. split_and!; [done|intros -> ; discriminate Hmk..]. }
  destruct (String.eqb_spec cmd "blkid") as [->|Hblk].
  - destruct (formattable x.1 && _) eqn:Hf; cbn [fst snd].
    + apply andb_true_iff in Hf as [Hf Hu%String.eqb_eq].
      assert (Hout : blkid_output (line "PTTYPE=atari") None = Ok ("", "atari")) by done.
      unfold formattable in Hf. rewrite Hu in Hf. cbn [String.eqb] in Hf.
      assert (Ht : nv_table x.1 = ("", "atari")).
      { change (String.eqb unknown_data "") with false in Hf. rewrite String.eqb_refl in Hf. cbn in Hf.
        apply andb_true_iff in Hf as [Ha Hb]. apply String.eqb_eq in Ha, Hb.
        destruct (nv_table x.1); cbn in *; congruence. }
      rewrite Ht. split_and!; try done. intros _ y Hy. rewrite Hout in Hy. congruence.
    + split_and!; try done. intros _. split_and!; try done. intros _ Hf' Hu.
      rewrite Hf', Hu in Hf. by rewrite String.eqb_refl in Hf.
  - destruct (String.eqb_spec cmd "blockdev") as [->|Hbd]; cbn [fst snd].
    + split_and!; try done; [by intros _ n _ Hn; congruence|].
      intros _. split_and!; try done. intros _. by rewrite Hsize.
    + by split_and!.
Qed.

Lemma vol_stat_healthy p x :
  M _ (Stat p) x (vol_host _ (Stat p) x).1 (vol_host _ (Stat p) x).2.
Proof.
  unfold healthy_host. cbn [host_api keeps_up exists_up vol_host fst snd].
  destruct (decide (p ∈ x.2)); (split_and!; [done| |by auto|done|done]); [|done].
  intros _ mode [= <-]. unfold mode_of, block_seen. destruct (nv_mounts x.1 !! p) as [m|].
  - destruct (m_shows m) as [dev|q]; [apply list_elem_of_here|].
    destruct (String.eqb q vol_device); [apply list_elem_of_here|].
    apply list_elem_of_further, list_elem_of_here.
  - apply list_elem_of_further, list_elem_of_here.
Qed.

Lemma vol_mount_healthy source target fs options x :
  let o := MountFs source target fs options in M _ o x (vol_host _ o x).1 (vol_host _ o x).2.
Proof.
  cbv zeta. unfold healthy_host. cbn [host_api keeps_up exists_up vol_host].
  destruct (decide (target ∈ paths)); [|by split_and!].
  destruct (mounts_there source fs options x.1) eqn:Hm; cbn [fst snd on_volume].
  - split_and!; [|done..]. split; [|done]. intros Hb ->. unfold mounts_there in Hm.
    rewrite Hb, String.eqb_refl in Hm. cbn [orb negb] in Hm. by apply andb_true_iff in Hm as [_ ?].
  - split_and!; [by left| |done]. intros _ [Hb|(-> & Hf & Hfs)]; unfold mounts_there in Hm.
    + by rewrite Hb in Hm.
    + rewrite Hf, !String.eqb_refl in Hm.
      assert (Hhas : has_filesystem x.1 = true).
      { unfold has_filesystem. rewrite Hf. revert Hfs. unfold checkfsType.
        intros [[?|?]%orb_true_iff|?]%orb_true_iff;
          by match goal with H : String.eqb _ _ = true |- _ => apply String.eqb_eq in H as -> end. }
      rewrite Hhas in Hm. by destruct (is_bind options).
Qed.

Lemma vol_mount_point_healthy p x :
  (let o := IsLikelyNotMountPoint p in M _ o x (vol_host _ o x).1 (vol_host _ o x).2) ∧
  (let o := IsMountPoint p in M _ o x (vol_host _ o x).1 (vol_host _ o x).2).
Proof.
  cbv zeta. unfold healthy_host. cbn [host_api keeps_up exists_up vol_host fst snd].
  unfold seen_mounted. split.
  - destruct (nv_mounts x.1 !! p) as [m|].
    + split_and!; [done| |done|by right|done]. intros _. cbn [negb].
      destruct (m_shows m); apply list_elem_of_here.
    + destruct (decide (p ∈ x.2)); split_and!; try done; [|by right|by left].
      intros _. apply list_elem_of_here.
  - split_and!; try done. intros _ b [= <-].
    destruct (nv_mounts x.1 !! p); apply list_elem_of_here.
Qed.

Lemma vol_host_healthy : obeys vol_host id M.
Proof.
  intros R o x. unfold id. destruct o;
    first [ apply vol_stat_healthy | apply vol_command_healthy | apply vol_mount_healthy
          | apply vol_mount_point_healthy | idtac ];
    unfold healthy_host; cbn [host_api keeps_up exists_up vol_host fst snd];
    try (split_and!; (done || set_solver)).
  - destruct (String.eqb_spec path (serial_path name)) as [->|Hne].
    + split_and!; try done. intros dev raw Hp%serial_path_inj [= <-]. subst dev.
      split; [done|]. by rewrite Hserial.
    + split_and!; try done. intros dev -> Hd. destruct Hne. by injection Hd as ->.
  - destruct (decide (path ∈ paths)); by split_and!.
  - destruct (String.eqb _ _); by split_and!.
Qed.
End vol_host.
