(* ===== verification/NodeRefineSpec.v ===== *)
(** * What the node's refinement says

    The node server against the abstract node service of [NodeVol.v]: one request,
    concurrent requests, requests that must succeed, and a volume's life on its node;
    with the host of [VolHost.v] as their instance. *)

From S2P Require Import Prelude GoStd Csi Common Prog Locking Machine Serve Bracket Overlap Driver.
From S2P Require Import CloudTypes Cloud Ctrl Controller System Sim.
From S2P Require Import Host Mount MountProps Node NodeProps HostSim NodeVol NodeRefine NodeSerial.
From S2P Require Import NodeSpec NodeComplete NodeLife VolHost.

Local Open Scope Z_scope.

(** ** The example *)

Definition vol_paths : gset string := {[ NodeExample.staging; NodeExample.target ]}.
Definition example_host : env HostE hoststate :=
  vol_host Example.serial "vdb" "21474836480" vol_paths.
Abbreviation example_api := (host_api Example.serial "/dev/vdb" 21474836480 vol_paths).
(** A disk without a file system, and nothing mounted. *)
Definition blank_volume : nodevol := mkNodevol "" ("", "") false ∅.
Definition blank_state : ResourceLocks * hoststate := (NewResourceLocks, (blank_volume, ∅)).

Lemma example_host_healthy :
  obeys example_host id (healthy_host Example.serial "/dev/vdb" 21474836480 vol_paths).
Proof. apply vol_host_healthy; vm_compute; reflexivity. Qed.

Lemma example_host_obeys : obeys example_host fst example_api.
Proof. exact (obeys_healthy _ _ _ _ example_host id example_host_healthy). Qed.

Lemma device_no_path : "/dev/vdb" ∉ vol_paths.
Proof. apply (bool_decide_unpack _). vm_compute. exact I. Qed.

Lemma example_addressed q :
  node_volume_id q = Example.csiId → (∀ p, p ∈ node_paths q → p ∈ vol_paths) →
  well_addressed Example.diskId Example.serial vol_paths q.
Proof.
  intros Hid Hp. assert (Hparse : ParseCsiVolId Example.csiId = Ok (Example.diskId, Example.serial))
    by (vm_compute; reflexivity).
  split.
  - intros p Hin. split; [|by auto]. intros _. unfold node_volume. rewrite Hid. by eapply node_key.
  - intros u x. rewrite Hid, Hparse. by intros [= <- <-].
Qed.

Definition stage_q : node_request := ReqNodeStage NodeExample.stage_request.
Definition node_publish_q : node_request := ReqNodePublish NodeExample.publish_request.
Definition unpublish_q : node_request :=
  ReqNodeUnpublish {| nu_VolumeId := Example.csiId; nu_TargetPath := NodeExample.target |}.
Definition unstage_q : node_request :=
  ReqNodeUnstage {| nt_VolumeId := Example.csiId; nt_StagingTargetPath := NodeExample.staging |}.

Ltac in_paths := intros p Hp; repeat (apply elem_of_cons in Hp as [->|Hp];
  [apply (bool_decide_unpack _); vm_compute; exact I|]); by apply elem_of_nil in Hp.

Lemma stage_addressed : well_addressed Example.diskId Example.serial vol_paths stage_q.
Proof. apply example_addressed; [done|in_paths]. Qed.
Lemma publish_addressed : well_addressed Example.diskId Example.serial vol_paths node_publish_q.
Proof. apply example_addressed; [done|in_paths]. Qed.
Lemma unpublish_addressed : well_addressed Example.diskId Example.serial vol_paths unpublish_q.
Proof. apply example_addressed; [done|in_paths]. Qed.
Lemma unstage_addressed : well_addressed Example.diskId Example.serial vol_paths unstage_q.
Proof. apply example_addressed; [done|in_paths]. Qed.

(** ** One request *)

(** C8: The node server refines the abstract node service.  On a host whose calls do
    to the volume what [host_api] says, errors at any point included, a request that
    is served to its end does to its volume what [node_step] says: answered without
    an error, one of the results of the abstract service with that answer (staged
    on the device with the volume's serial, formatted only when it held nothing,
    published, unmounted, or grown); answered with an error, no more than its own
    mount point and no data lost; and a request about another volume, or one that
    only reads, leaves the volume alone. *)
Theorem node_refines_service {W} (g : Globals) (d : DiskDriver) (v serial device : string) (size : Z)
    (paths : gset string) (hd : env HostE W) (volume_of : W → nodevol) (q : node_request)
    (s : ResourceLocks * W) :
  obeys hd volume_of (host_api serial device size paths) → device ∉ paths →
  well_addressed v serial paths q →
  let '(r, s') := run (locked_env hd) (node_handle g d q) s in
  node_step g v device size q (volume_of s.2) r (volume_of s'.2).
Proof. intros. by eapply serve_node_step. Qed.

(** A blank disk is formatted and mounted. *)
Lemma node_refines_service_witness :
  let '(r, s') := run (locked_env example_host) (node_handle NodeExample.gates Example.driver stage_q)
    blank_state in
  r = Ok NodeEmpty ∧ nv_format s'.2.1 = "ext4" ∧
  (NodeEmpty, s'.2.1) ∈ node_results NodeExample.gates "/dev/vdb" 21474836480 stage_q blank_volume.
Proof.
  pose proof (node_refines_service NodeExample.gates Example.driver Example.diskId Example.serial
    "/dev/vdb" 21474836480 vol_paths example_host fst stage_q blank_state example_host_obeys
    device_no_path stage_addressed) as H.
  assert (Hr : (run (locked_env example_host) (node_handle NodeExample.gates Example.driver stage_q)
    blank_state).1 = Ok NodeEmpty) by (vm_compute; reflexivity).
  assert (Hf : nv_format (run (locked_env example_host)
    (node_handle NodeExample.gates Example.driver stage_q) blank_state).2.2.1 = "ext4")
    by (vm_compute; reflexivity).
  destruct (run _ _ _) as [r s']. cbn [fst snd] in *. subst r. split_and!; [done..|].
  unfold node_step, stage_q in H. rewrite decide_True in H by (vm_compute; reflexivity). exact H.
Defined.

(** C10: Valid requests of the node succeed.  On a host that keeps up
    ([healthy_host]: it lists the disk, its commands and mounts do what they can),
    with the volume's lock free, a valid request is answered without an error
    whenever the volume can be served ([servable]: for a staging, the disk has the
    file system asked for or may be formatted; for an expansion, the device is large
    enough), has then made of it what the abstract service says, and leaves the
    lock table as it was. *)
Theorem node_requests_succeed {W} (g : Globals) (d : DiskDriver) (v serial device : string) (size : Z)
    (paths : gset string) (hd : env HostE W) (state_of : W → hoststate) (q : node_request)
    (s : ResourceLocks * W) :
  obeys hd state_of (healthy_host serial device size paths) → device ∉ paths →
  well_addressed v serial paths q → node_volume q = v → v ∉ locks s.1 →
  valid_node d q = true → servable size g q (state_of s.2).1 = true →
  let '(r, s') := run (locked_env hd) (node_handle g d q) s in
  is_ok r = true ∧ s'.1 = s.1 ∧
  node_outcome g device size q (state_of s.2).1 r (state_of s'.2).1.
Proof. intros. by eapply node_completes. Qed.

Lemma node_requests_succeed_witness :
  let '(r, s') := run (locked_env example_host) (node_handle NodeExample.gates Example.driver stage_q)
    blank_state in
  is_ok r = true ∧ s'.1 = NewResourceLocks.
Proof.
  pose proof (node_requests_succeed NodeExample.gates Example.driver Example.diskId Example.serial
    "/dev/vdb" 21474836480 vol_paths example_host id stage_q blank_state example_host_healthy
    device_no_path stage_addressed ltac:(vm_compute; reflexivity) (not_elem_of_empty _)
    ltac:(vm_compute; reflexivity) ltac:(vm_compute; reflexivity)) as H.
  destruct (run _ _ _) as [r s']. by destruct H as (? & ? & _).
Defined.

(** ** A volume's life on its node *)

(** C11: A volume's life on its node.  The calls for a pod that starts (stage, publish)
    and for one that ends (unpublish, unstage), all answered without an error, on a
    node where nothing was mounted at the two paths: in between, the target shows
    the file system on the device whose serial is in the volume id, read-only if
    asked for; the disk has kept its data, or has got a file system of the type
    asked for where it had none; and in the end nothing is mounted that was not
    before, with the data as they were in between. *)
Theorem volume_life_on_node {W} (id staging target : string) (cap : VolumeCapability)
    (readonly : bool) (g : Globals) (device : string) (size : Z) (fs : string) (flags : list string)
    (hd : env HostE W) (d : DiskDriver) (v serial : string) (paths : gset string)
    (volume_of : W → nodevol) (s : ResourceLocks * W) :
  AccessType_ cap = Some (Mount fs flags) → is_bind (gated_flags g flags) = false →
  obeys hd volume_of (host_api serial device size paths) → device ∉ paths →
  ParseCsiVolId id = Ok (v, serial) → staging ∈ paths → target ∈ paths → staging ≠ target →
  let x := volume_of s.2 in
  nv_mounts x !! staging = None → nv_mounts x !! target = None →
  let '(rs, s1) := serve_node g d hd (pod_starts id staging target cap readonly) s in
  let '(rs', s2) := serve_node g d hd (pod_ends id staging target) s1 in
  Forall (fun r => is_ok r = true) (rs ++ rs') →
  (∃ m, nv_mounts (volume_of s1.2) !! target = Some m ∧ m_shows m = Filesystem device ∧
        (readonly = true → "ro" ∈ m_options m)) ∧
  kept_or_new fs flags x (volume_of s1.2) ∧
  volume_of s2.2 = with_mounts (nv_mounts x) (volume_of s1.2).
Proof. intros. by eapply life_on_node. Qed.

Lemma volume_life_on_node_witness :
  let '(rs, s1) := serve_node NodeExample.gates Example.driver example_host
    (pod_starts Example.csiId NodeExample.staging NodeExample.target (NodeExample.filesystem false) true)
    blank_state in
  rs = [Ok NodeEmpty; Ok NodeEmpty] ∧
  ∃ m, nv_mounts s1.2.1 !! NodeExample.target = Some m ∧ m_shows m = Filesystem "/dev/vdb" ∧
       (true = true → "ro" ∈ m_options m).
Proof.
  pose proof (volume_life_on_node Example.csiId NodeExample.staging NodeExample.target
    (NodeExample.filesystem false) true NodeExample.gates "/dev/vdb" 21474836480 "ext4" [] example_host
    Example.driver Example.diskId Example.serial vol_paths fst blank_state eq_refl eq_refl
    example_host_obeys device_no_path ltac:(vm_compute; reflexivity)
    ltac:(apply (bool_decide_unpack _); vm_compute; exact I)
    ltac:(apply (bool_decide_unpack _); vm_compute; exact I) ltac:(done) eq_refl eq_refl) as H.
  assert (H1 : (serve_node NodeExample.gates Example.driver example_host
    (pod_starts Example.csiId NodeExample.staging NodeExample.target (NodeExample.filesystem false) true)
    blank_state).1 = [Ok NodeEmpty; Ok NodeEmpty]) by (vm_compute; reflexivity).
  assert (H2 : Forall (fun r => is_ok r = true) (serve_node NodeExample.gates Example.driver example_host
    (pod_ends Example.csiId NodeExample.staging NodeExample.target)
    (serve_node NodeExample.gates Example.driver example_host
      (pod_starts Example.csiId NodeExample.staging NodeExample.target (NodeExample.filesystem false) true)
      blank_state).2).1) by (vm_compute; repeat constructor).
  destruct (serve_node _ _ _ (pod_starts _ _ _ _ _) _) as [rs s1]. cbn [fst snd] in *. subst rs.
  split; [done|]. destruct (serve_node _ _ _ (pod_ends _ _ _) _) as [rs' s2]. cbn [fst snd] in *.
  apply H. by repeat constructor.
Defined.

(** ** Concurrent requests *)

(** C9: Concurrent requests of the node are serialized, answer by answer.  Any number
    of requests, interleaved in any order at every call, on a host that does to the
    volume what [host_api] says along the execution's log: the requests that work on
    the volume and have had its lock and returned are, in the order in which they
    released it, a run of the abstract service in which each has its own answer,
    those that failed included; every one that succeeded is among them; and when
    nobody holds the lock the volume is in the state at the end of that run.
    (The requests of a volume name its own paths, and expansions come with the
    volume's capability.) *)
Theorem node_requests_serialize (g : Globals) (d : DiskDriver) (v serial device : string) (size : Z)
    (paths : gset string) (σ : system (node_server g d)) (x s : nodevol) :
  device ∉ paths → served (node_server g d) σ →
  follows (locked_machine (host_api serial device size paths)) (log σ) x s →
  (∀ i q p, pool σ !! i = Some (q, p) → admitted v serial paths q) →
  ∃ os : list (nat * node_request), os.*1 `sublist_of` released v (log σ) ∧ NoDup os.*1 ∧
    (∀ i q, (i, q) ∈ os ↔
       i ∈ released v (log σ) ∧ mine v q ∧ ∃ r, pool σ !! i = Some (q, Ret r)) ∧
    (∀ i q a, pool σ !! i = Some (q, Ret (Ok a)) → mine v q → (i, q) ∈ os) ∧
    ∃ y, took (node_server g d) (node_outcome g device size) (pool σ) os x y ∧
      (v ∉ locks (table σ) → s = y).
Proof. intros Hd Hs Hfol Had. by eapply node_serializes. Qed.

(** A staging has the lock, an unstaging is refused it. *)
Abbreviation node_overlap :=
  (overlap_end example_node example_host (blank_volume, ∅) Example.diskId stage_q unstage_q).

Lemma example_host_fine R (o : HostE R) x : host_ok R o (example_host R o x).1.
Proof. by destruct o. Qed.

Lemma begins_stage : begins_locked example_node Example.diskId stage_q.
Proof. eexists. reflexivity. Qed.
Lemma begins_unstage : begins_locked example_node Example.diskId unstage_q.
Proof. eexists. reflexivity. Qed.

Lemma node_overlap_pool i q p :
  pool node_overlap !! i = Some (q, p) →
  i = 0%nat ∧ q = stage_q ∨ i = 1%nat ∧ q = unstage_q.
Proof.
  intros Hi. apply (overlap_pool example_node example_host _ Example.diskId stage_q unstage_q i q p)
    in Hi. naive_solver.
Qed.

Lemma stage_run :
  (overlap_run example_node example_host (blank_volume, ∅) Example.diskId stage_q).1 = Ok NodeEmpty.
Proof. vm_compute. reflexivity. Qed.

Lemma node_requests_serialize_witness :
  pool node_overlap !! 1%nat = Some (unstage_q, Ret (Err codes.Aborted)) ∧
  ∃ os : list (nat * node_request), ∃ y : nodevol,
    (0%nat, stage_q) ∈ os ∧ nv_format y = "ext4" ∧
    took example_node (node_outcome NodeExample.gates "/dev/vdb" 21474836480) (pool node_overlap) os
      blank_volume y.
Proof.
  split; [exact (overlap_pool_1 example_node example_host _ Example.diskId stage_q unstage_q)|].
  assert (Had : ∀ i q p, pool node_overlap !! i = Some (q, p) →
    admitted Example.diskId Example.serial vol_paths q).
  { intros i q p [(_ & ->)|(_ & ->)]%node_overlap_pool; (split; [|done]);
      [exact stage_addressed|exact unstage_addressed]. }
  destruct (node_requests_serialize NodeExample.gates Example.driver Example.diskId Example.serial
    "/dev/vdb" 21474836480 vol_paths node_overlap blank_volume _ device_no_path
    (overlap_end_served example_node example_host _ example_host_fine _ _ _ begins_stage begins_unstage)
    (overlap_follows example_node example_host _ _ _ _ _ fst example_host_obeys) Had)
    as (os & _ & _ & _ & Hok & y & Hrun & Hend).
  exists os, y. split_and!.
  - apply (Hok 0%nat stage_q NodeEmpty).
    + etrans; [exact (overlap_pool_0 example_node example_host _ Example.diskId stage_q unstage_q)|].
      by rewrite stage_run.
    + split; vm_compute; reflexivity.
  - rewrite <-Hend; [vm_compute; reflexivity|].
    apply (bool_decide_unpack _). vm_compute. exact I.
  - exact Hrun.
Defined.

(** ** A publication that is tried again *)

(** The host of the example on a bad day: a bind mount is made, and its remount with
    the options fails. *)
Definition remount_fails : env HostE hoststate := fun R o =>
  match o in HostE R return hoststate → R * hoststate with
  | MountFs source target fs options => fun x =>
      if is_bind options && bool_decide (target ∈ vol_paths)
      then (Err ErrOther, on_volume (fun s => with_mounts
              (<[target := mkMount (shown s source options) fs ["bind"]]> (nv_mounts s)) s) x)
      else example_host _ (MountFs source target fs options) x
  | o => example_host _ o
  end.

Lemma remount_fails_obeys : obeys remount_fails fst example_api.
Proof.
  intros R o x. destruct o; try (apply example_host_obeys). cbn [remount_fails].
  destruct (is_bind options && _) eqn:Hb; [|apply example_host_obeys].
  apply andb_true_iff in Hb as [Hb Hp%bool_decide_eq_true]. cbn [host_api fst snd on_volume].
  rewrite decide_True by done. right. split; [done|]. by exists ["bind"].
Qed.

(** The example volume, staged. *)
Definition staged_state : ResourceLocks * hoststate :=
  (run (locked_env example_host) (node_handle NodeExample.gates Example.driver stage_q) blank_state).2.

(** A read-only publication whose remount fails is answered with an error, and the
    next one, which finds the target mounted, with success: the target is left
    mounted without [ro]. *)
Lemma readonly_retry_stays_writable :
  np_Readonly NodeExample.publish_request = true ∧ obeys remount_fails fst example_api ∧
  let '(rs, s) := serve_node NodeExample.gates Example.driver remount_fails
    [node_publish_q; node_publish_q] staged_state in
  rs = [Err codes.Internal; Ok NodeEmpty] ∧
  m_options <$> nv_mounts s.2.1 !! NodeExample.target = Some ["bind"].
Proof. split; [done|]. split; [exact remount_fails_obeys|]. vm_compute. split; reflexivity. Qed.
