(* ===== verification/Life.v ===== *)
(** * A volume's life

    The controller and the node server at work on one world: the cloud of the disk
    and the node's host, which shows the disk's device while the disk is attached to
    the node.  [life] is what the cluster asks for over a volume's life, each call
    with the volume id that the creation returned. *)

From S2P Require Import Prelude GoStd Csi Common Prog Locking Machine Serve Bracket Driver ZecApi.
From S2P Require Import CloudTypes Cloud Ctrl Controller CtrlProps System WellFormed.
From S2P Require Import Disk CmRefine VolumeSpec VolumeRefine DiskSim Naming Prompt Creating Complete.
From S2P Require Import CreateComplete Host Mount MountProps Node NodeProps NodeVol NodeRefine.
From S2P Require Import NodeSerial NodeComplete NodeLife.

Local Open Scope Z_scope.
Local Open Scope csi_scope.

(** ** The world *)

(** The node's host, and the cloud. *)
Abbreviation wstate := (hoststate * pstate)%type.

Definition attached (vm : string) (x : pstate) : Prop :=
  ∃ k, x.1 = Some k ∧ k_task k = None ∧ k_instance k = vm.

(** The calls of the cloud leave the host alone. *)
Definition cloud_side (machines : gset string) (n v serial : string) (snaps : gset string) : machine CloudE wstate :=
  on_snd (creating_api machines n v serial snaps).

(** The calls of the host leave the cloud alone; they do what they can while the
    disk is attached to the node's machine. *)
Definition node_side (vm serial device : string) (size : Z) (paths : gset string)
    : machine HostE wstate := fun R o x r x' =>
  x'.2 = x.2 ∧ (attached vm x.2 → healthy_host serial device size paths R o x.1 r x'.1).

(** ** The life *)

(** The lock tables of the controller and of the node, and the world. *)
Record cluster (W : Type) : Type := mkCluster {
  c_locks : ResourceLocks;
  n_locks : ResourceLocks;
  c_world : W
}.
Arguments mkCluster {W}.
Arguments c_locks {W}.
Arguments n_locks {W}.
Arguments c_world {W}.

(** The volume, the answers that came after its creation, the cluster while the pod
    runs and the cluster in the end. *)
Record life_result (W : Type) : Type := mkLife {
  l_volume : Volume;
  l_answered : list bool;
  l_running : cluster W;
  l_ended : cluster W
}.
Arguments mkLife {W}.
Arguments l_volume {W}.
Arguments l_answered {W}.
Arguments l_running {W}.
Arguments l_ended {W}.

Section life.
Context (g : Globals) (dc dn : DiskDriver) (cm : zecCloudManager).
Context {W : Type} (hc : env CloudE W) (rt : ∀ R, RtE R → R) (hn : env HostE W).

Definition controller_serves (q : request) (s : cluster W) : rpc response * cluster W :=
  let '(r, y) := serve_request g dc (zec_impl cm) hc rt q (c_locks s, c_world s) in
  (r, mkCluster y.1 (n_locks s) y.2).

Definition node_serves (qs : list node_request) (s : cluster W)
    : list (rpc node_response) * cluster W :=
  let '(rs, y) := serve_node g dn hn qs (n_locks s, c_world s) in
  (rs, mkCluster (c_locks s) y.1 y.2).

Definition publish_of (id vm : string) (cap : VolumeCapability) : request :=
  ReqPublish {| cp_VolumeId := id; cp_NodeId := vm; cp_VolumeCapability := Some cap; cp_Readonly := false |}.
Definition unpublish_of (id vm : string) : request := ReqUnpublish {| cu_VolumeId := id; cu_NodeId := vm |}.
Definition delete_of (id : string) : request := ReqDeleteVolume {| dv_VolumeId := id |}.

(** The volume is created, attached, staged and published for a pod; when the pod has
    ended it is unpublished, unstaged, detached and deleted. *)
Definition life (q : CreateVolumeRequest) (vm staging target : string) (cap : VolumeCapability)
    (readonly : bool) (s : cluster W) : option (life_result W) :=
  let '(r0, s0) := controller_serves (ReqCreateVolume q) s in
  match r0 with
  | Ok (RespVolume vol) =>
    let id := VolumeId vol in
    let '(r1, s1) := controller_serves (publish_of id vm cap) s0 in
    let '(rs, s2) := node_serves (pod_starts id staging target cap readonly) s1 in
    let '(rs', s3) := node_serves (pod_ends id staging target) s2 in
    let '(r4, s4) := controller_serves (unpublish_of id vm) s3 in
    let '(r5, s5) := controller_serves (delete_of id) s4 in
    Some (mkLife vol (is_ok r1 :: (is_ok <$> rs ++ rs') ++ [is_ok r4; is_ok r5]) s2 s5)
  | _ => None
  end.

(** ** The controller's part *)

Context (machines : gset string) (n v serial : string) (snaps : gset string) (state_of : W → wstate).
Context (Hcm : zecClient cm = true) (Hcloud : obeys hc state_of (cloud_side machines n v serial snaps)).
Context (Hrt : ∀ R (o : RtE R), rt_ok R o (rt R o)).

Lemma cloud_obeys : obeys hc (fun w => (state_of w).2) (creating_api machines n v serial snaps).
Proof. intros R o w. by destruct (Hcloud R o w). Qed.

(** The controller does nothing to the host. *)
Lemma controller_spares_host q (s : ResourceLocks * W) :
  (state_of (serve_request g dc (zec_impl cm) hc rt q s).2.2).1 = (state_of s.2).1.
Proof.
  assert (Hstill : obeys hc (fun w => (state_of w).1) still) by (intros R o w; by destruct (Hcloud R o w)).
  pose proof (run_exec _ _ _ (sv_serve (controller g dc (zec_impl cm)) q) s
    (obeys_tables _ _ rt _ Hstill Hrt)) as Hexec.
  apply (exec_refines _ still snd) in Hexec; [by apply exec_still in Hexec|].
  intros R [R' o|R' [R'' o|R'' o]] y r y'; cbn; [by intros [_ ->]|by intros [_ ->]|by intros [_ ->]].
Qed.

Lemma controller_creates q req ps (s : cluster W) :
  n = cv_Name q → v ≠ "" → serial ≠ "" → creation_plan g dc q = Some (req, ps) →
  clear_keys (cv_Parameters q) → int64_range q →
  from_option (.∈ snaps) True (cdr_SnapshotId req) →
  n ∉ locks (c_locks s) → from_option (.∉ locks (c_locks s)) True (cdr_SnapshotId req) →
  (state_of (c_world s)).2.1 = None →
  let '(r, s') := controller_serves (ReqCreateVolume q) s in
  r = Ok (RespVolume (planned_volume dc q v serial req ps)) ∧
  c_locks s' = c_locks s ∧ n_locks s' = n_locks s ∧
  (state_of (c_world s')).1 = (state_of (c_world s)).1 ∧
  (state_of (c_world s')).2.1 = Some (new_disk req).
Proof.
  intros Hn Hv Hs Hplan Hkeys Hrange Hsnap Hfree Hlock Hx. unfold controller_serves.
  pose proof (serve_creation g dc cm Hcm hc rt machines n v serial snaps _ cloud_obeys Hrt q req ps
    (c_locks s, c_world s)) as H.
  pose proof (controller_spares_host (ReqCreateVolume q) (c_locks s, c_world s)) as Hhost.
  cbn [fst snd] in *. rewrite Hx in H. specialize (H Hn Hv Hs Hplan Hkeys Hrange Hsnap Hfree Hlock I I).
  destruct (serve_request _ _ _ _ _ _ _) as [r [t w]].
  destruct H as (Ht & r1 & -> & Hw & ->). cbn in *. by split_and!.
Qed.

(** Another request that the abstract service can serve. *)
Lemma controller_completes q (s : cluster W) x' :
  valid dc q = true → runs machines q → about q = Some v → v ∉ locks (c_locks s) →
  at_rest (state_of (c_world s)).2.1 → sized (state_of (c_world s)).2.1 →
  csi_apply q (state_of (c_world s)).2.1 = Some x' →
  let '(r, s') := controller_serves q s in
  is_ok r = true ∧ c_locks s' = c_locks s ∧ n_locks s' = n_locks s ∧
  (state_of (c_world s')).1 = (state_of (c_world s)).1 ∧ (state_of (c_world s')).2.1 = x'.
Proof.
  intros Hvalid Hruns Hv Hlock Hx Hsized Happly. unfold controller_serves.
  pose proof (serve_request_completes g dc cm Hcm hc rt machines v _
    (obeys_stronger _ _ _ _ (creating_prompt machines n v serial snaps) cloud_obeys) Hrt q
    (c_locks s, c_world s) x' Hvalid Hruns Hv Hx Hsized Hlock Happly) as H.
  pose proof (controller_spares_host q (c_locks s, c_world s)) as Hhost.
  destruct (serve_request _ _ _ _ _ _ _) as [r [t w]]. destruct H as (? & ? & ?). cbn in *. by split_and!.
Qed.

(** ** The node's part *)

Context (vm staging target device : string) (size : Z) (paths : gset string).
Context (Hhost : obeys hn state_of (node_side vm serial device size paths)).

Section restricted.
Context (x : pstate).

(** The worlds in which the cloud is at [x]. *)
Abbreviation world_at := {w : W | (state_of w).2 = x}.

Lemma host_keeps_cloud R (o : HostE R) w : (state_of w).2 = x → (state_of (hn R o w).2).2 = x.
Proof. intros <-. apply (Hhost R o w). Qed.

Definition restricted : env HostE world_at := fun R o w =>
  ((hn R o (proj1_sig w)).1, (hn R o (proj1_sig w)).2 ↾ host_keeps_cloud R o (proj1_sig w) (proj2_sig w)).

Lemma restricted_healthy :
  attached vm x →
  obeys restricted (fun w => (state_of (proj1_sig w)).1) (healthy_host serial device size paths).
Proof.
  intros Hx R o [w Hw]. destruct (Hhost R o w) as [_ H]. cbn. apply H. by rewrite Hw.
Qed.

Lemma serve_node_restricted qs t (w : world_at) :
  serve_node g dn hn qs (t, proj1_sig w) =
  ((serve_node g dn restricted qs (t, w)).1,
   ((serve_node g dn restricted qs (t, w)).2.1, proj1_sig (serve_node g dn restricted qs (t, w)).2.2)).
Proof.
  revert t w. induction qs as [|q qs IH]; intros t w; [done|]. cbn [serve_node].
  pose proof (run_map (locked_env restricted) (locked_env hn) (fun y => (y.1, proj1_sig y.2))
    (node_handle g dn q) (t, w)) as Hrun. cbn [fst snd] in Hrun. rewrite Hrun.
  - destruct (run _ _ (t, w)) as [r [t1 w1]]. cbn [fst snd]. rewrite IH.
    by destruct (serve_node g dn restricted qs (t1, w1)) as [rs [t2 w2]].
  - intros R [R' o|R' o] [t1 w1]; cbn; [by destruct (lock_exec t1 o)|].
    by destruct (hn _ o (proj1_sig w1)).
Qed.
End restricted.

Context (id fs : string) (flags : list string) (cap : VolumeCapability) (readonly : bool).
Context (Hcap : AccessType_ cap = Some (Mount fs flags)) (Hbind : is_bind (gated_flags g flags) = false).
Context (Hdevice : device ∉ paths) (Hid : ParseCsiVolId id = Ok (v, serial)).
Context (Hstaging : staging ∈ paths) (Htarget : target ∈ paths) (Hne : staging ≠ target).

Abbreviation volume_of w := (state_of w).1.1.

Lemma node_phase (s : cluster W) :
  attached vm (state_of (c_world s)).2 → v ∉ locks (n_locks s) →
  (∀ q, q ∈ pod_starts id staging target cap readonly ++ pod_ends id staging target →
     valid_node dn q = true) →
  servable size g (pod_stage id staging cap) (volume_of (c_world s)) = true →
  nv_mounts (volume_of (c_world s)) !! staging = None →
  nv_mounts (volume_of (c_world s)) !! target = None →
  let '(rs, s1) := node_serves (pod_starts id staging target cap readonly) s in
  let '(rs', s2) := node_serves (pod_ends id staging target) s1 in
  Forall (fun r => is_ok r = true) (rs ++ rs') ∧
  (c_locks s2 = c_locks s ∧ n_locks s2 = n_locks s ∧
   (state_of (c_world s1)).2 = (state_of (c_world s)).2 ∧
   (state_of (c_world s2)).2 = (state_of (c_world s)).2) ∧
  (∃ m, nv_mounts (volume_of (c_world s1)) !! target = Some m ∧ m_shows m = Filesystem device ∧
        (readonly = true → "ro" ∈ m_options m)) ∧
  kept_or_new fs flags (volume_of (c_world s)) (volume_of (c_world s1)) ∧
  volume_of (c_world s2) =
    with_mounts (nv_mounts (volume_of (c_world s))) (volume_of (c_world s1)).
Proof.
  destruct s as [lc ln w]. cbn [c_locks n_locks c_world]. intros Hx Hl Hvalid Hs Hm1 Hm2.
  set (x := (state_of w).2) in *. pose (w0 := exist (fun w1 => (state_of w1).2 = x) w eq_refl).
  pose proof (restricted_healthy x Hx) as Hup.
  pose proof (pods_succeed id staging target cap readonly g device size (restricted x) dn v serial paths
    Hdevice Hid Hstaging Htarget _ Hup (ln, w0) Hl Hvalid Hs) as Hok.
  pose proof (life_on_node id staging target cap readonly g device size fs flags Hcap Hbind
    (restricted x) dn v serial paths _ (obeys_healthy _ _ _ _ _ _ Hup) Hdevice Hid Hstaging Htarget Hne
    (ln, w0) Hm1 Hm2) as Hlife.
  unfold node_serves. cbn [c_locks n_locks c_world].
  change w with (proj1_sig w0) at 1. rewrite serve_node_restricted.
  destruct (serve_node g dn (restricted x) (pod_starts _ _ _ _ _) _) as [rs [t1 w1]].
  cbn [fst snd c_locks n_locks c_world]. rewrite serve_node_restricted.
  destruct (serve_node g dn (restricted x) (pod_ends _ _ _) _) as [rs' [t2 w2]].
  cbn [fst snd c_locks n_locks c_world] in *. destruct Hok as (Hok & _ & Ht2).
  split; [done|]. split; [|by apply Hlife].
  split_and!; [done|done|exact (proj2_sig w1)|exact (proj2_sig w2)].
Qed.

(** ** All of it *)

Lemma sized_disk k : size_wf (k_size k) → sized (Some k).
Proof. intros Hk k' [= <-]. unfold size_wf in Hk. rewrite GibToByte_small; gib. Qed.

Lemma volume_ids : id = GenCsiVolId v serial ∧ v ≠ "" ∧ serial ≠ "" ∧ disk_id id = Some v.
Proof.
  unfold disk_id. rewrite Hid. apply ParseCsiVolId_Ok in Hid as (Heq & _ & Hv & Hs).
  split_and!; [done|by intros ->|by intros ->|done].
Qed.

Lemma life_succeeds q req ps (s : cluster W) :
  n = cv_Name q → creation_plan g dc q = Some (req, ps) →
  clear_keys (cv_Parameters q) → int64_range q →
  from_option (.∈ snaps) True (cdr_SnapshotId req) →
  vm ∈ machines → valid dc (publish_of id vm cap) = true → valid dc (unpublish_of id vm) = true →
  valid dc (delete_of id) = true →
  (∀ r, r ∈ pod_starts id staging target cap readonly ++ pod_ends id staging target →
     valid_node dn r = true) →
  n ∉ locks (c_locks s) → v ∉ locks (c_locks s) → v ∉ locks (n_locks s) →
  from_option (.∉ locks (c_locks s)) True (cdr_SnapshotId req) →
  (state_of (c_world s)).2.1 = None →
  servable size g (pod_stage id staging cap) (volume_of (c_world s)) = true →
  nv_mounts (volume_of (c_world s)) !! staging = None →
  nv_mounts (volume_of (c_world s)) !! target = None →
  ∃ l, life q vm staging target cap readonly s = Some l ∧
    l_volume l = planned_volume dc q v serial req ps ∧
    Forall (fun ok => ok = true) (l_answered l) ∧
    (state_of (c_world (l_running l))).2.1 = Some (with_instance vm (new_disk req)) ∧
    (∃ m, nv_mounts (volume_of (c_world (l_running l))) !! target = Some m ∧
          m_shows m = Filesystem device ∧ (readonly = true → "ro" ∈ m_options m)) ∧
    kept_or_new fs flags (volume_of (c_world s)) (volume_of (c_world (l_running l))) ∧
    (state_of (c_world (l_ended l))).2.1 = None ∧
    volume_of (c_world (l_ended l)) =
      with_mounts (nv_mounts (volume_of (c_world s))) (volume_of (c_world (l_running l))) ∧
    c_locks (l_ended l) = c_locks s ∧ n_locks (l_ended l) = n_locks s.
Proof.
  intros Hn Hplan Hkeys Hrange Hsnap Hruns Hpub Hunpub Hdel Hpods Hfree Hvfree Hnfree Hlock Hx Hs Hm1 Hm2.
  destruct volume_ids as (Heq & Hv & Hse & Habout).
  pose proof (plan_size g dc q req ps Hplan (plan_moderate g dc q req ps Hplan Hrange)) as Hsize.
  assert (Hvm : vm ≠ "").
  { cbn in Hpub. apply andb_true_iff in Hpub as [[[_ Hnode]%andb_true_iff _]%andb_true_iff _].
    by apply negb_true_iff, String.eqb_neq in Hnode. }
  unfold life.
  pose proof (controller_creates q req ps s Hn Hv Hse Hplan Hkeys Hrange Hsnap Hfree Hlock Hx) as H0.
  destruct (controller_serves (ReqCreateVolume q) s) as [r0 s0].
  destruct H0 as (-> & Hc0 & Hn0 & Hh0 & Hd0). cbn [VolumeId planned_volume]. rewrite <-Heq.
  pose proof (controller_completes (publish_of id vm cap) s0 (Some (with_instance vm (new_disk req))) Hpub
    Hruns Habout) as H1. rewrite Hd0, Hc0 in H1.
  specialize (H1 Hvfree eq_refl (sized_disk (new_disk req) Hsize)).
  destruct (controller_serves (publish_of id vm cap) s0) as [r1 s1].
  destruct H1 as (Hok1 & Hc1 & Hn1 & Hh1 & Hd1); [cbn; by destruct vm|].
  pose proof (node_phase s1) as H2. rewrite Hn1, Hn0, Hh1, Hh0 in H2.
  destruct (node_serves (pod_starts _ _ _ _ _) s1) as [rs s2].
  destruct (node_serves (pod_ends _ _ _) s2) as [rs' s3].
  destruct H2 as (Hok2 & (Hc3 & Hn3 & Hd2 & Hd3) & Hrun & Hdata & Hend); [by eexists|done..|].
  pose proof (controller_completes (unpublish_of id vm) s3 (Some (new_disk req)) Hunpub I Habout) as H4.
  rewrite Hd3, Hd1, Hc3, Hc1 in H4.
  specialize (H4 Hvfree eq_refl (sized_disk (with_instance vm (new_disk req)) Hsize)).
  destruct (controller_serves (unpublish_of id vm) s3) as [r4 s4].
  destruct H4 as (Hok4 & Hc4 & Hn4 & Hh4 & Hd4); [cbn; by rewrite String.eqb_refl|].
  pose proof (controller_completes (delete_of id) s4 None Hdel I Habout) as H5.
  rewrite Hd4, Hc4 in H5. specialize (H5 Hvfree eq_refl (sized_disk (new_disk req) Hsize) eq_refl).
  destruct (controller_serves (delete_of id) s4) as [r5 s5].
  destruct H5 as (Hok5 & Hc5 & Hn5 & Hh5 & Hd5).
  eexists. split; [reflexivity|]. cbn [l_volume l_answered l_running l_ended].
  split_and!; [done| |by rewrite Hd2, Hd1|done|done|done| |congruence|congruence].
  - constructor; [done|]. apply Forall_app. split; [by apply Forall_fmap|]. by repeat constructor.
  - by rewrite Hh5, Hh4, Hend.
Qed.
End life.
