(* ===== verification/LifeSpec.v ===== *)
(** * Creations, and a volume's life

    What a cluster relies on: a valid creation succeeds and can be repeated, and the
    volume it returns lives its life through the controller and the node. *)

From S2P Require Import Prelude GoStd GoTime Csi Common Prog Locking Machine Serve Bracket Driver ZecApi.
From S2P Require Import CloudTypes Cloud Ctrl Controller CtrlProps System Sim SystemProps WellFormed.
From S2P Require Import Disk CmRefine VolumeSpec VolumeRefine DiskSim Naming Prompt Creating Complete.
From S2P Require Import CreateComplete Waiting Snap SnapComplete Host Mount MountProps Node NodeProps HostSim NodeVol NodeRefine.
From S2P Require Import NodeSerial NodeComplete NodeLife VolHost NodeRefineSpec Life.

Local Open Scope Z_scope.

(** ** The example *)

(** A file system of 20 GiB. *)
Definition example_creation : CreateVolumeRequest :=
  {| cv_Name := "pvc-1";
     cv_CapacityRange := Some {| RequiredBytes := 21474836480; LimitBytes := 0 |};
     cv_VolumeCapabilities := Some [NodeExample.filesystem false];
     cv_Parameters := cv_Parameters Example.create_request;
     cv_VolumeContentSource := None; cv_AccessibilityRequirements := None |}.

Definition creation_made : CreateDisksRequest :=
  {| cdr_DiskName := "pvc-1"; cdr_DiskSize := 20; cdr_ZoneId := "asia-a"; cdr_DiskAmount := 1;
     cdr_ResourceGroupId := "group"; cdr_DiskCategory := StandardNvmeName; cdr_SnapshotId := None;
     cdr_BurstingEnabled := false |}.

Lemma example_plan :
  creation_plan Example.globals Example.driver example_creation =
  Some (creation_made, cv_Parameters Example.create_request).
Proof. vm_compute. reflexivity. Qed.

Lemma example_keys : clear_keys (cv_Parameters Example.create_request).
Proof.
  intros k1 k2. unfold Example.create_request. cbn [cv_Parameters].
  rewrite !dom_insert, !dom_singleton. set_unfold.
  intros [-> | ->] [-> | ->]; (done || by vm_compute).
Qed.

Lemma example_range : int64_range example_creation.
Proof. intros r [= <-]. by vm_compute. Qed.

Definition example_creating : env CloudE pstate := creating_cloud "pvc-1" Example.diskId Example.serial 7.

(** ** Creations *)

(** C6: Valid creations succeed, and can be repeated.  On a cloud that creates
    ([creating_api]: it accepts the disk and has made it before the driver's timer
    fires, with an id and a serial number that are not empty, its searches show it,
    and the snapshots [snaps] are usable), with the
    locks of the name and of the source snapshot free, take a [CreateVolume] request,
    for an empty volume or from one of these snapshots, that is valid: the fields of
    its capacity range are [int64]s, no two keys of its parameters are the same up
    to case, and [creation_plan] gives the disk it asks for, which it does not when
    a check of the handler fails, when there is no zone, when the source has the
    volume's own name, or when the size required overflows as it is rounded up.
    The request makes exactly the disk of its plan where there is none of the name,
    at rest in the end, and is answered with the planned volume.  Where such a disk
    is there already, at rest, the request changes nothing and has the same answer,
    whatever the orders of Go's maps, unless it names the topologies it accepts and
    the disk's is not literally among them (AlreadyExists).  The lock table is as
    before. *)
Theorem creations_succeed (g : Globals) (d : DiskDriver) (cm : zecCloudManager) {W}
    (hd : env CloudE W) (rt : ∀ R, RtE R → R) (machines : gset string) (v serial : string)
    (snaps : gset string)
    (state_of : W → pstate) (q : CreateVolumeRequest) (req : CreateDisksRequest) (ps : gostrmap)
    (s : ResourceLocks * W) :
  zecClient cm = true → obeys hd state_of (creating_api machines (cv_Name q) v serial snaps) →
  (∀ R (o : RtE R), rt_ok R o (rt R o)) → v ≠ "" → serial ≠ "" →
  creation_plan g d q = Some (req, ps) → clear_keys (cv_Parameters q) → int64_range q →
  from_option (.∈ snaps) True (cdr_SnapshotId req) →
  cv_Name q ∉ locks s.1 → from_option (.∉ locks s.1) True (cdr_SnapshotId req) →
  at_rest (state_of s.2).1 → from_option (made_by req) True (state_of s.2).1 →
  let '(r, s') := serve_request g d (zec_impl cm) hd rt (ReqCreateVolume q) s in
  s'.1 = s.1 ∧
  (state_of s'.2).1 = Some (default (new_disk req) (state_of s.2).1) ∧
  r = if is_nil (state_of s.2).1 || room_for d (cdr_ZoneId req) (cv_AccessibilityRequirements q)
      then Ok (RespVolume (planned_volume d q v serial req ps)) else Err codes.AlreadyExists.
Proof.
  intros Hcm Hcloud Hrt Hv Hs Hplan Hkeys Hrange Hsnap Hfree Hlock Hx Hmade.
  pose proof (serve_creation g d cm Hcm hd rt machines (cv_Name q) v serial snaps state_of Hcloud Hrt q req ps s
    eq_refl Hv Hs Hplan Hkeys Hrange Hsnap Hfree Hlock Hx Hmade) as H.
  destruct (serve_request _ _ _ _ _ _ _) as [r s']. destruct H as (Ht & r1 & -> & Hr).
  split; [done|]. destruct (state_of s.2).1 as [k|]; destruct Hr as [-> ->]; (split; [done|]); [|done].
  cbn [is_nil orb]. by destruct (room_for _ _ _).
Qed.

Definition create_again (q : CreateVolumeRequest) (x : pstate) : rpc response * pstate :=
  let '(r, s') := serve_request Example.globals Example.driver (zec_impl example_manager)
    example_creating rt_env (ReqCreateVolume q) (NewResourceLocks, x) in (r, s'.2).

(** The request, and the request again. *)
Lemma creations_succeed_witness :
  let vol := planned_volume Example.driver example_creation Example.diskId Example.serial creation_made
               (cv_Parameters Example.create_request) in
  (create_again example_creation (None, 0%nat)).1 = Ok (RespVolume vol) ∧
  (create_again example_creation (None, 0%nat)).2.1 = Some (new_disk creation_made) ∧
  (create_again example_creation (Some (new_disk creation_made), 0%nat)).1 = Ok (RespVolume vol) ∧
  VolumeId vol = Example.csiId.
Proof.
  cbv zeta. assert (Hlock : "pvc-1" ∉ locks NewResourceLocks) by (apply not_elem_of_empty).
  pose proof (fun x => creations_succeed Example.globals Example.driver example_manager example_creating
    rt_env ∅ Example.diskId Example.serial ∅ id example_creation creation_made
    (cv_Parameters Example.create_request) (NewResourceLocks, x) eq_refl
    (creating_cloud_obeys "pvc-1" Example.diskId Example.serial 7 ∅ ∅) rt_env_ok ltac:(done) ltac:(done)
    example_plan example_keys example_range I Hlock I) as H.
  pose proof (H (None, 0%nat) I I) as H1.
  pose proof (H (Some (new_disk creation_made), 0%nat) eq_refl ltac:(by repeat split)) as H2.
  unfold create_again. destruct (serve_request _ _ _ _ _ _ (_, (None, _))) as [r1 s1].
  destruct (serve_request _ _ _ _ _ _ _) as [r2 s2].
  destruct H1 as (_ & Hs1 & ->), H2 as (_ & _ & ->). by split_and!.
Defined.

(** The zone alone, as a storage class may name it. *)
Definition zone_only_creation : CreateVolumeRequest :=
  {| cv_Name := "pvc-1"; cv_CapacityRange := cv_CapacityRange example_creation;
     cv_VolumeCapabilities := cv_VolumeCapabilities example_creation;
     cv_Parameters := cv_Parameters example_creation; cv_VolumeContentSource := None;
     cv_AccessibilityRequirements :=
       let zone := {[ GetTopologyZoneKey Example.driver := "asia-a" ]} in
       Some {| Requisite := [zone]; Preferred := [zone] |} |}.

(** Its disk is made; the same request again is refused. *)
Lemma zone_only_retry_refused :
  let '(r1, x) := create_again zone_only_creation (None, 0%nat) in
  let '(r2, y) := create_again zone_only_creation x in
  is_ok r1 = true ∧ x.1 = Some (new_disk creation_made) ∧ r2 = Err codes.AlreadyExists ∧ y.1 = x.1.
Proof. vm_compute. by repeat split. Qed.

(** ** A volume's life *)

(** C5: A volume lives its life.  The controller and the node server work on one
    world: a cloud that creates and says that the node's machine is running, and the
    node's host, which does what it can while the disk is attached to that machine
    (and is not relied on otherwise).  The creation is valid, as for
    [creations_succeed]: a plan, with an [int64] range and no two parameter keys the
    same up to case; there is no disk of the name; its id and serial are of the
    lengths that a volume id needs; a source snapshot is usable.  The pod wants a file
    system of the volume on the node, with flags that do not themselves ask for a
    bind mount, at two different paths where nothing is mounted, neither of them the
    device; the device has that file system already, or has none and may be formatted
    (its flags not read-only).  The requests pass the checks of the handlers, and
    nobody holds the locks of the name, the snapshot and the disk.  Then [life] asks
    for the volume, its attachment, its staging and publication, and for the reverse
    when the pod has ended, every call with the volume id that the creation returned,
    and all of it succeeds: while the pod runs the disk is attached to its machine and
    the target shows the file system on the disk's device (read-only if asked for),
    which holds the data it held, or a new file system where there was none; in the
    end the disk is gone, nothing is mounted that was not before, and both lock tables
    are as they were. *)
Theorem volume_lives_its_life (g : Globals) (dc dn : DiskDriver) (cm : zecCloudManager) {W}
    (hc : env CloudE W) (rt : ∀ R, RtE R → R) (hn : env HostE W) (machines : gset string)
    (v serial : string) (snaps : gset string) (state_of : W → wstate) (vm staging target device : string) (size : Z)
    (paths : gset string) (fs : string) (flags : list string) (cap : VolumeCapability)
    (readonly : bool) (q : CreateVolumeRequest) (req : CreateDisksRequest) (ps : gostrmap)
    (s : cluster W) :
  let id := GenCsiVolId v serial in
  let volume_of (s : cluster W) := (state_of (c_world s)).1.1 in
  let disk_of (s : cluster W) := (state_of (c_world s)).2.1 in
  (* the cloud and the host *)
  zecClient cm = true → obeys hc state_of (cloud_side machines (cv_Name q) v serial snaps) →
  (∀ R (o : RtE R), rt_ok R o (rt R o)) → vm ∈ machines →
  obeys hn state_of (node_side vm serial device size paths) → device ∉ paths →
  ParseCsiVolId id = Ok (v, serial) →
  (* the creation *)
  creation_plan g dc q = Some (req, ps) → clear_keys (cv_Parameters q) → int64_range q →
  from_option (.∈ snaps) True (cdr_SnapshotId req) →
  (* the other calls *)
  AccessType_ cap = Some (Mount fs flags) → is_bind (gated_flags g flags) = false →
  staging ∈ paths → target ∈ paths → staging ≠ target →
  valid dc (publish_of id vm cap) = true → valid dc (unpublish_of id vm) = true →
  valid dc (delete_of id) = true →
  (∀ r, r ∈ pod_starts id staging target cap readonly ++ pod_ends id staging target →
     valid_node dn r = true) →
  (* the locks are free, there is no disk, and the node can have the volume *)
  cv_Name q ∉ locks (c_locks s) → v ∉ locks (c_locks s) → v ∉ locks (n_locks s) →
  from_option (.∉ locks (c_locks s)) True (cdr_SnapshotId req) →
  disk_of s = None → servable size g (pod_stage id staging cap) (volume_of s) = true →
  nv_mounts (volume_of s) !! staging = None → nv_mounts (volume_of s) !! target = None →
  ∃ l, life g dc dn cm hc rt hn q vm staging target cap readonly s = Some l ∧
    l_volume l = planned_volume dc q v serial req ps ∧
    Forall (fun ok => ok = true) (l_answered l) ∧
    disk_of (l_running l) = Some (with_instance vm (new_disk req)) ∧
    (∃ m, nv_mounts (volume_of (l_running l)) !! target = Some m ∧
          m_shows m = Filesystem device ∧ (readonly = true → "ro" ∈ m_options m)) ∧
    kept_or_new fs flags (volume_of s) (volume_of (l_running l)) ∧
    disk_of (l_ended l) = None ∧
    volume_of (l_ended l) = with_mounts (nv_mounts (volume_of s)) (volume_of (l_running l)) ∧
    c_locks (l_ended l) = c_locks s ∧ n_locks (l_ended l) = n_locks s.
Proof. intros. by eapply life_succeeds. Qed.

(** The example's cloud and host in one world. *)
Definition world_cloud : env CloudE wstate := fun R o w =>
  let '(r, x) := example_creating R o w.2 in (r, (w.1, x)).
Definition world_host : env HostE wstate := fun R o w =>
  let '(r, h) := example_host R o w.1 in (r, (h, w.2)).

Lemma world_cloud_obeys : obeys world_cloud id (cloud_side {["vm-1"]} "pvc-1" Example.diskId Example.serial ∅).
Proof.
  intros R o [h x]. pose proof (creating_cloud_obeys "pvc-1" Example.diskId Example.serial 7 {["vm-1"]} ∅ R o x) as H.
  unfold world_cloud, example_creating. cbn [snd]. by destruct (creating_cloud _ _ _ _ _ _ _).
Qed.

Lemma world_host_obeys :
  obeys world_host id (node_side "vm-1" Example.serial "/dev/vdb" 21474836480 vol_paths).
Proof.
  intros R o [h x]. pose proof (example_host_healthy R o h) as H.
  unfold world_host. cbn [fst]. destruct (example_host R o h) as [r h']. by split.
Qed.

Lemma life_plan :
  creation_plan NodeExample.gates Example.driver example_creation =
  Some (creation_made, cv_Parameters Example.create_request).
Proof. vm_compute. reflexivity. Qed.

Lemma volume_lives_its_life_witness :
  let s := mkCluster NewResourceLocks NewResourceLocks ((blank_volume, ∅), (None, 0%nat)) in
  ∃ l, life NodeExample.gates Example.driver Example.driver example_manager world_cloud rt_env world_host
         example_creation "vm-1" NodeExample.staging NodeExample.target (NodeExample.filesystem false)
         true s = Some l ∧
    VolumeId (l_volume l) = Example.csiId ∧
    (c_world (l_running l)).2.1 = Some (with_instance "vm-1" (new_disk creation_made)) ∧
    (c_world (l_ended l)).2.1 = None ∧ nv_mounts (c_world (l_ended l)).1.1 = ∅.
Proof.
  cbv zeta.
  destruct (volume_lives_its_life NodeExample.gates Example.driver Example.driver example_manager
    world_cloud rt_env world_host {["vm-1"]} Example.diskId Example.serial ∅ id "vm-1" NodeExample.staging
    NodeExample.target "/dev/vdb" 21474836480 vol_paths "ext4" [] (NodeExample.filesystem false) true
    example_creation creation_made (cv_Parameters Example.create_request)
    (mkCluster NewResourceLocks NewResourceLocks ((blank_volume, ∅), (None, 0%nat))))
    as (l & Hl & Hvol & _ & Hrun & _ & _ & Hend & Hm & _);
    [reflexivity|exact world_cloud_obeys|exact rt_env_ok|exact (proj2 (elem_of_singleton _ _) eq_refl)|exact world_host_obeys|exact device_no_path
    |vm_compute; reflexivity|exact life_plan|exact example_keys|exact example_range|exact I
    |reflexivity|vm_compute; reflexivity|apply (bool_decide_unpack _); vm_compute; exact I
    |apply (bool_decide_unpack _); vm_compute; exact I|discriminate|vm_compute; reflexivity
    |vm_compute; reflexivity|vm_compute; reflexivity| |apply not_elem_of_empty|apply not_elem_of_empty
    |apply not_elem_of_empty|exact I|reflexivity|vm_compute; reflexivity|reflexivity|reflexivity|].
  - unfold pod_starts, pod_ends. intros r Hr. cbn [app] in Hr.
    repeat (apply elem_of_cons in Hr as [->|Hr]; [vm_compute; reflexivity|]). by apply elem_of_nil in Hr.
  - exists l. split; [exact Hl|]. rewrite Hvol. split_and!; [vm_compute; reflexivity|exact Hrun|exact Hend|exact (f_equal nv_mounts Hm)].
Defined.

(** ** Snapshots *)

(** C13: Valid snapshot requests succeed, and can be repeated.  On a cloud that keeps up
    ([snap_api]: it shows the disk, which allows snapshots, makes or removes the one
    snapshot of the name when asked to, and has done it before the driver's timer
    fires), with the lock of its source free, a valid [CreateSnapshot] request makes
    the snapshot where there is none and waits until it is usable; where it is there,
    or still being made, the request changes nothing and describes it, ready when it
    is: its id, its disk, its time and the disk's size.  [DeleteSnapshot], with the
    lock of the snapshot free, succeeds, and leaves none, whether it was there or
    not.  The lock table is as before. *)
Theorem snapshot_requests_succeed (g : Globals) (d : DiskDriver) (cm : zecCloudManager) {W}
    (hd : env CloudE W) (rt : ∀ R, RtE R → R) (v x : string) (size : Z) (zone group u raw : string)
    (ts : Timestamp) (state_of : W → sstate) (q : CreateSnapshotRequest) (s : ResourceLocks * W) :
  zecClient cm = true → obeys hd state_of (snap_api (cs_Name q) v size zone group u raw) →
  (∀ R (o : RtE R), rt_ok R o (rt R o)) → u ≠ "" → parseSnapCreationTime raw = mret ts →
  valid_snapshot d q = true → ParseCsiVolId (cs_SourceVolumeId q) = Ok (v, x) →
  v ∉ locks s.1 → u ∉ locks s.1 →
  (let '(r, s') := serve_request g d (zec_impl cm) hd rt (ReqCreateSnapshot q) s in
   s'.1 = s.1 ∧
   match (state_of s.2).1 with
   | Absent => (state_of s'.2).1 = Ready ∧ r = Ok (RespSnapshot (snapshot_in v size u ts Ready))
   | Making | Ready => state_of s'.2 = spoll (state_of s.2) ∧
       r = Ok (RespSnapshot (snapshot_in v size u ts (state_of s'.2).1))
   | Dropping => True
   end) ∧
  ((state_of s.2).1 = Ready ∨ (state_of s.2).1 = Absent →
   let '(r, s') := serve_request g d (zec_impl cm) hd rt (ReqDeleteSnapshot {| ds_SnapshotId := u |}) s in
   s'.1 = s.1 ∧ r = Ok RespEmpty ∧ (state_of s'.2).1 = Absent).
Proof.
  intros Hcm Hcloud Hrt Hu Hts Hvalid Hid Hvfree Hufree.
  pose proof Hvalid as [[Hcap Hname%negb_true_iff%String.eqb_neq]%andb_true_iff _]%andb_true_iff.
  assert (Hv : v ≠ "") by (apply ParseCsiVolId_Ok in Hid as (_ & _ & Hlen & _); by intros ->).
  split; [|by apply (serve_snapshot_deletion g d cm Hcm hd rt (cs_Name q) v size zone group u raw)].
  pose proof (serve_snapshot g d cm Hcm hd rt (cs_Name q) v size zone group u raw ts state_of Hcloud Hrt
    Hname Hv Hu q x s eq_refl Hts Hvalid Hid Hvfree) as H.
  destruct (serve_request _ _ _ _ _ _ _) as [r s']. destruct H as (Ht & r1 & -> & Hr). split; [done|].
  unfold snapshot_answer in Hr. destruct (state_of s.2).1; try done; by destruct Hr as [? ->].
Qed.

Definition snapshot_q : CreateSnapshotRequest :=
  {| cs_Name := "backup"; cs_SourceVolumeId := Example.csiId; cs_Parameters := ∅ |}.
Definition example_snaps : env CloudE sstate :=
  snap_cloud "backup" Example.diskId 20 "asia-a" "group" "snap-1" "1740787199" 7.
Definition serve_snap (q : request) (y : sstate) : rpc response * sstate :=
  let '(r, s') := serve_request Example.globals Example.driver (zec_impl example_manager)
    example_snaps rt_env q (NewResourceLocks, y) in (r, s'.2).

(** It is made, and found being made; and it is removed. *)
Lemma snapshot_requests_succeed_witness :
  let made := snapshot_in Example.diskId 20 "snap-1" (Unix 1740787199) in
  let drop := ReqDeleteSnapshot {| ds_SnapshotId := "snap-1" |} in
  (serve_snap (ReqCreateSnapshot snapshot_q) (Absent, 0%nat)).1 = Ok (RespSnapshot (made Ready)) ∧
  (serve_snap (ReqCreateSnapshot snapshot_q) (Absent, 0%nat)).2.1 = Ready ∧
  (serve_snap (ReqCreateSnapshot snapshot_q) (Making, 3%nat)).1 = Ok (RespSnapshot (made Making)) ∧
  (serve_snap drop (Ready, 0%nat)).1 = Ok RespEmpty ∧
  (serve_snap drop (Ready, 0%nat)).2.1 = Absent.
Proof.
  cbv zeta. pose proof (fun y => snapshot_requests_succeed Example.globals Example.driver example_manager
    example_snaps rt_env Example.diskId Example.serial 20 "asia-a" "group" "snap-1" "1740787199"
    (Unix 1740787199) id snapshot_q (NewResourceLocks, y) eq_refl
    (snap_cloud_obeys "backup" Example.diskId 20 "asia-a" "group" "snap-1" "1740787199" 7) rt_env_ok
    ltac:(done) ltac:(vm_compute; reflexivity) ltac:(vm_compute; reflexivity)
    ltac:(vm_compute; reflexivity) (not_elem_of_empty _) (not_elem_of_empty _)) as H.
  destruct (H (Absent, 0%nat)) as [H1 _], (H (Making, 3%nat)) as [H2 _], (H (Ready, 0%nat)) as [_ H3].
  specialize (H3 (or_introl eq_refl)). unfold serve_snap.
  destruct (serve_request _ _ _ _ _ _ (_, (Absent, _))) as [r1 s1].
  destruct (serve_request _ _ _ _ _ _ (_, (Making, _))) as [r2 s2].
  destruct (serve_request _ _ _ _ _ _ (_, (Ready, _))) as [r3 s3].
  cbn [fst snd] in *. destruct H1 as (_ & Hs1 & ->), H2 as (_ & Hs2 & ->), H3 as (_ & -> & Hs3).
  unfold id in *. rewrite Hs2. by split_and!.
Defined.
