(* ===== verification/LiveSpec.v ===== *)
(** * Requests are completed

    The liveness of the controller: what it achieves on a cloud that keeps up,
    and that no schedule of concurrent requests keeps one from returning. *)

From S2P Require Import Prelude GoStd Csi Common Prog Locking Serve Driver ZecApi CloudTypes.
From S2P Require Import Host HostSim Node NodeProps NodeSpec.
From S2P Require Import Machine Cloud Ctrl Controller System Sim SystemProps Disk VolumeSpec.
From S2P Require Import VolumeRefine DiskSim RefineSpec Prompt Complete Liveness Locks CloudProps.

Local Open Scope Z_scope.

(** ** A request alone *)

(** C4: Valid requests succeed.  On a cloud that accepts the changes it can make and
    has done them before the driver's timer fires ([prompt_api]), a valid deletion,
    publication to a running machine (one of [machines], which the cloud says are
    running), unpublication or expansion that the abstract service can serve, made
    while nobody holds the lock of its disk, and while the disk, whose size in bytes
    fits [int64], has no task, is answered without an error; the disk is then exactly
    what the abstract service makes of it, and the lock table is as before.  The same
    request again is answered without an error too, and changes nothing. *)
Theorem valid_requests_succeed (g : Globals) (d : DiskDriver) (cm : zecCloudManager) {W}
    (hd : env CloudE W) (rt : ∀ R, RtE R → R) (machines : gset string) (v : string)
    (state_of : W → pstate) (q : request) (s : ResourceLocks * W) (x' : option disk) :
  zecClient cm = true → obeys hd state_of (prompt_api machines v) → (∀ R (o : RtE R), rt_ok R o (rt R o)) →
  valid d q = true → runs machines q → about q = Some v → v ∉ locks s.1 →
  at_rest (state_of s.2).1 → sized (state_of s.2).1 →
  csi_apply q (state_of s.2).1 = Some x' →
  let '(r, s1) := serve_request g d (zec_impl cm) hd rt q s in
  let '(r', s2) := serve_request g d (zec_impl cm) hd rt q s1 in
  (is_ok r = true ∧ (state_of s1.2).1 = x' ∧ s1.1 = s.1) ∧
  (is_ok r' = true ∧ (state_of s2.2).1 = x' ∧ s2.1 = s.1).
Proof.
  intros Hcm Hcloud Hrt Hvalid Hruns Hv Hlock Hx Hsized Happly.
  pose proof (serve_request_completes g d cm Hcm hd rt machines v state_of Hcloud Hrt q) as Hserve.
  pose proof (Hserve s x' Hvalid Hruns Hv Hx Hsized Hlock Happly) as H.
  destruct (serve_request _ _ _ _ _ q s) as [r s1]. destruct H as (Hr & Hx1 & Hs1).
  pose proof (Hserve s1 x' Hvalid Hruns Hv) as H. rewrite Hx1, Hs1 in H.
  destruct (serve_request _ _ _ _ _ q s1) as [r' s2]. split; [done|].
  apply H; [by eapply csi_apply_rest|by eapply csi_apply_sized|done|by eapply csi_apply_again].
Qed.

Definition slow_serve (q : request) (x : pstate) : rpc response * pstate :=
  let '(r, s') := serve_request Example.globals Example.driver (zec_impl example_manager)
    (slow_cloud Example.diskId Example.serial 7) rt_env q (NewResourceLocks, x) in (r, s'.2).

(** A deletion: two releases, each of seven polls; and an attachment to a running
    machine. *)
Lemma valid_requests_succeed_witness :
  let y := slow_serve (ReqDeleteVolume {| dv_VolumeId := Example.csiId |}) (Some (example_disk ""), 0%nat) in
  let z := slow_serve (ReqPublish Example.publish_request) (Some (example_disk ""), 0%nat) in
  (is_ok y.1 = true ∧ y.2.1 = None) ∧
  (is_ok z.1 = true ∧ z.2.1 = Some (with_instance "vm-1" (example_disk ""))).
Proof.
  cbv zeta.
  assert (Hsized : sized (Some (example_disk ""))) by (intros k [= <-]; vm_compute; discriminate).
  assert (Hlock : Example.diskId ∉ locks NewResourceLocks) by (apply not_elem_of_empty).
  pose proof (fun q x' Hvalid Hruns Hq => valid_requests_succeed Example.globals Example.driver example_manager
    (slow_cloud Example.diskId Example.serial 7) rt_env {["vm-1"]} Example.diskId id q
    (NewResourceLocks, (Some (example_disk ""), 0%nat)) x' eq_refl
    (slow_cloud_prompt {["vm-1"]} Example.diskId Example.serial 7) rt_env_ok Hvalid Hruns Hq Hlock
    eq_refl Hsized) as H.
  pose proof (H (ReqDeleteVolume {| dv_VolumeId := Example.csiId |}) None eq_refl I eq_refl eq_refl) as H1.
  pose proof (H (ReqPublish Example.publish_request) (Some (with_instance "vm-1" (example_disk "")))
    eq_refl (proj2 (elem_of_singleton _ _) eq_refl) eq_refl eq_refl) as H2.
  unfold slow_serve. destruct (serve_request _ _ _ _ _ (ReqDeleteVolume _) (_, _)) as [r s'].
  destruct (serve_request _ _ _ _ _ (ReqPublish _) (_, _)) as [rp sp].
  destruct (serve_request _ _ _ _ _ _ s') as [? ?], (serve_request _ _ _ _ _ _ sp) as [? ?].
  destruct H1 as [(Hr & Hx & _) _], H2 as [(Hrp & Hxp & _) _]. by split.
Defined.

(** ** Requests together *)

#[export] Instance controller_answering g d impl : Answering (controller g d impl).
Proof. intros R o. exists (back_env R o Example.cloud0).1. apply back_env_ok. Qed.

#[export] Instance node_answering g d : Answering (node_server g d).
Proof. intros R o. exists (host_env R o NodeExample.host0).1. apply host_env_ok. Qed.

(** Every request of the controller returns.  In every reachable state of the
    controller a request that has not returned can make its next step, whatever
    the others have locked; and every schedule of the requests that have been
    started, each call being answered, comes to an end, in which all of them have
    returned and the lock table is empty. *)
Theorem controller_requests_return (g : Globals) (d : DiskDriver)
    (impl : ∀ R, CmE R → prog CloudE R) `{!CloudDiscipline impl}
    (s : system (controller g d impl)) :
  served (controller g d impl) s →
  (∀ i q p, pool s !! i = Some (q, p) → (∀ a, p ≠ Ret a) →
     ∃ s' p', work (controller g d impl) s s' ∧ answered p p' ∧
              pool s' = <[i := (q, p')]> (pool s)) ∧
  eventually (work (controller g d impl))
    (fun s' => served (controller g d impl) s' ∧ dom (pool s') = dom (pool s) ∧
               all_returned (controller g d impl) s' ∧ locks (table s') = ∅) s.
Proof.
  intros Hs. split; [|by apply served_returns; [apply _..|]].
  intros i q p Hi Hp. destruct (never_blocked _ s i q p Hi) as [[a ->]|H]; [by destruct (Hp a)|done].
Qed.

(** Two requests for one disk, just started. *)
Definition example_race : system example_controller :=
  mkSystem NewResourceLocks
    (<[1%nat := (ReqDeleteVolume {| dv_VolumeId := Example.csiId |},
             sv_serve example_controller (ReqDeleteVolume {| dv_VolumeId := Example.csiId |}))]>
     {[ 0%nat := (ReqPublish Example.publish_request,
              sv_serve example_controller (ReqPublish Example.publish_request)) ]}) [].

Lemma example_race_served : served example_controller example_race.
Proof.
  eapply rtc_l; [by apply (step_start example_controller 0%nat (ReqPublish Example.publish_request))|].
  eapply rtc_l; [by apply (step_start example_controller 1%nat
    (ReqDeleteVolume {| dv_VolumeId := Example.csiId |}))|]. reflexivity.
Qed.

Lemma controller_requests_return_witness :
  ∃ s', rtc (work example_controller) example_race s' ∧
    all_returned example_controller s' ∧ locks (table s') = ∅.
Proof.
  pose proof (controller_requests_return Example.globals Example.driver (zec_impl example_manager)
    example_race example_race_served) as [_ Hev].
  apply eventually_reaches in Hev as (s' & Hsteps & _ & _ & Hall & Hl). by exists s'.
Defined.

(** Every request of the node returns, as the controller's do: none is
    blocked, every schedule ends with all of them returned, and then no volume is
    locked. *)
Theorem node_requests_return (g : Globals) (d : DiskDriver) (s : system (node_server g d)) :
  served (node_server g d) s →
  (∀ i q p, pool s !! i = Some (q, p) → (∀ a, p ≠ Ret a) →
     ∃ s' p', work (node_server g d) s s' ∧ answered p p' ∧ pool s' = <[i := (q, p')]> (pool s)) ∧
  eventually (work (node_server g d))
    (fun s' => served (node_server g d) s' ∧ dom (pool s') = dom (pool s) ∧
               all_returned (node_server g d) s' ∧ locks (table s') = ∅) s.
Proof.
  intros Hs. split; [|by apply served_returns; [apply _..|]].
  intros i q p Hi Hp. destruct (never_blocked _ s i q p Hi) as [[a ->]|H]; [by destruct (Hp a)|done].
Qed.

(** A stage request, just started. *)
Definition example_node_start : system example_node :=
  mkSystem NewResourceLocks
    {[ 0%nat := (ReqNodeStage NodeExample.stage_request,
                 sv_serve example_node (ReqNodeStage NodeExample.stage_request)) ]} [].

Lemma node_requests_return_witness :
  ∃ s', rtc (work example_node) example_node_start s' ∧
    all_returned example_node s' ∧ locks (table s') = ∅.
Proof.
  assert (Hs : served example_node example_node_start).
  { apply rtc_once. by apply (step_start example_node 0%nat (ReqNodeStage NodeExample.stage_request)). }
  pose proof (node_requests_return NodeExample.gates Example.driver example_node_start Hs) as [_ Hev].
  apply eventually_reaches in Hev as (s' & Hsteps & _ & _ & Hall & Hl). by exists s'.
Defined.
