(* ===== verification/Startup.v ===== *)
(** * Starting the driver

    Models the environment readers of [pkg/common/common.go], the identity
    server ([identityserver.go]), [ParseEndpoint] and [serve] of [server.go],
    [Run] of [run.go] and [cmd/main.go].  Flag parsing, gRPC and the sockets are
    outside; [klog.Fatal] ends the program, as an error here. *)

From S2P Require Import Prelude GoStd Csi Common Prog Driver CloudTypes Cloud Host.

Local Open Scope Z_scope.
Local Open Scope csi_scope.

(** ** Constants (types.go) *)

Definition ZECVMID_LEN : Z := 19.
Definition Version : string := "v1.2.0".
Definition DefaultProvisionName : string := "disk.csi.zenlayer.com".
Definition NodeDriverType : string := "node".
Definition ControllerDriverType : string := "controller".
Definition ZEC_PLATFORM : string := "Zenlayer Elastic Compute".
Definition ZEC_SYS_VENDOR_PATH : string := "/sys/class/dmi/id/sys_vendor".
Definition ZEC_PRODUCT_FAMILY_PATH : string := "/sys/class/dmi/id/product_family".
Definition ZEC_PRODUCT_SERIAL_PATH : string := "/sys/class/dmi/id/product_serial".

Definition newline_byte : ascii := ascii_of_nat 10.

(** ** The environment (common.go) *)

Definition read_file (path : string) : host (result unit string) :=
  r ← call (ReadFile path);
  mret (match r with Ok s => Ok s | Err _ => Err tt end).

(** A command that must be there. *)
Definition check_command (cmd : string) : host (result unit unit) :=
  r ← call (CombinedOutput cmd ["-V"]);
  mret (match (r : string * option execerr).2 with None => Ok tt | Some _ => Err tt end).

Definition VerifyEnv : host (result unit string) :=
  try zec_platform <- read_file ZEC_SYS_VENDOR_PATH ;
  let platform := RemoveAll zec_platform newline_byte in
  reject tt when negb (String.eqb platform ZEC_PLATFORM) ;;
  try _ <- check_command "blockdev" ;
  try _ <- check_command "lsblk" ;
  mret (Ok platform).

Definition GetZecEnv : host (result unit (string * string)) :=
  try zec_vm_id <- read_file ZEC_PRODUCT_SERIAL_PATH ;
  let vmid := RemoveAll zec_vm_id newline_byte in
  reject tt when negb (len vmid =? ZECVMID_LEN) ;;
  try zec_vm_zone <- read_file ZEC_PRODUCT_FAMILY_PATH ;
  let vm_zone := RemoveAll zec_vm_zone newline_byte in
  reject tt when len vm_zone =? 0 ;;
  mret (Ok (vmid, vm_zone)).

Definition GetZecSecret (akpath skpath : string) : host (result unit (string * string)) :=
  try zec_ak <- read_file akpath ;
  try zec_pw <- read_file skpath ;
  mret (Ok (TrimSpace zec_ak, TrimSpace zec_pw)).

(** ** The identity server *)

Module ids.
Definition Probe : prog CmE bool :=
  controller ← call IsController;
  if negb (controller : bool) then mret true else
  r ← call GetZoneList;
  mret (match r with Ok _ => true | Err _ => false end).

Definition GetPluginCapabilities (d : DiskDriver) : list PluginCapability := d_pluginCap d.

Definition GetPluginInfo (d : DiskDriver) : rpc (string * string) :=
  if String.eqb (d_name d) "" then Err codes.InvalidArgument else
  if String.eqb (d_version d) "" then Err codes.InvalidArgument else
  Ok (d_name d, d_version d).
End ids.

(** ** The gRPC server *)

(** [strings.SplitN(s, sep, 2)]: the part before the first [sep], and the rest. *)
Fixpoint SplitN2 (s sep : string) : string * option string :=
  if HasPrefix s sep then ("", Some (String.substring (String.length sep) (String.length s) s)) else
  match s with
  | EmptyString => ("", None)
  | String c s' => let '(before, rest) := SplitN2 s' sep in (String c before, rest)
  end.

(** The second part exists: the lower-cased endpoint has the separator. *)
Definition ParseEndpoint (ep : string) : result unit (string * string) :=
  if HasPrefix (ToLower ep) "unix://" || HasPrefix (ToLower ep) "tcp://" then
    match SplitN2 ep "://" with
    | (proto, Some addr) => if negb (String.eqb addr "") then Ok (proto, addr) else Err tt
    | (_, None) => Err tt
    end
  else Err tt.

(** The services a driver registers. *)
Record Servers : Set := {
  IdentityServer : bool;
  ControllerServer : bool;
  NodeServer : bool
}.

Definition Run_servers (g : Globals) (driverType : string) : Servers :=
  if String.eqb driverType ControllerDriverType
  then {| IdentityServer := true; ControllerServer := true; NodeServer := MixDriver g |}
  else {| IdentityServer := true; ControllerServer := false; NodeServer := true |}.

Inductive ServeE : Type → Type :=
| RemovePath (path : string) : ServeE (result oserr unit)
| Listen (proto addr : string) : ServeE (result unit unit)
| ServeGRPC (services : Servers) : ServeE unit.

Definition serve (endpoint : string) (servers : Servers) : prog ServeE (result unit unit) :=
  match ParseEndpoint endpoint with
  | Err e => mret (Err e)
  | Ok (proto, addr) =>
    try addr <-
      (if String.eqb proto "unix" then
         let addr := "/" +:+ addr in
         r ← call (RemovePath addr);
         mret (match r with
               | Ok _ => Ok addr
               | Err e => if IsNotExist e then Ok addr else Err tt
               end)
       else mret (Ok addr)) ;
    try _ <- call (Listen proto addr) ;
    _ ← call (ServeGRPC servers);
    mret (Ok tt)
  end.

(** ** main.go *)

(** [maskSecret]: the last four bytes of a longer secret. *)
Definition maskSecret (s : string) : string :=
  let tail := 4 in
  if len s <=? tail then "****"
  else "****" +:+ String.substring (Z.to_nat (len s - tail)) (Z.to_nat tail) s.

Record flags : Type := {
  driverName : string;
  endpoint : string;
  maxVolume : Z;
  secretpathAK : string;
  secretpathPW : string;
  driverType : string;
  mixDriver : bool;
  featureGates : string;
  defaultZone : string;
  defaultResourceGroup : string
}.

Inductive StartE : Type → Type :=
| StHost {R : Type} (o : HostE R) : StartE R
| StCloud {R : Type} (o : CmE R) : StartE R
| Sleep (seconds : Z) : StartE unit.

Abbreviation start T := (prog StartE T).

Definition on_host {A} (p : host A) : start A := interp (fun R o => call (StHost o)) p.

(** The globals of types.go, from the flags. *)
Definition parse_globals (f : flags) : Globals :=
  {| FeatureGates := if negb (String.eqb (featureGates f) "") then Split (featureGates f) ","%char else [];
     DefaultZone := defaultZone f; DefaultResourceGroup := defaultResourceGroup f;
     MixDriver := mixDriver f |}.

(** The zone and the group are set together or not at all. *)
Definition defaults_agree (g : Globals) : bool :=
  if negb (String.eqb (DefaultZone g) "") then negb (String.eqb (DefaultResourceGroup g) "")
  else String.eqb (DefaultResourceGroup g) "".

(** The probe loop, with [tries] left: [trycount] is [6 - tries]. *)
Fixpoint probe_loop (tries : nat) : start bool :=
  match tries with
  | O => mret false
  | S tries =>
    r ← call (StCloud Probe);
    match r with
    | Ok _ => mret true
    | Err _ => _ ← call (Sleep 3); probe_loop tries
    end
  end.

Definition probe_tries : nat := 6.

(** What [rpcserver.Run] is started with. *)
Record running : Type := {
  r_globals : Globals;
  r_driver : DiskDriver;
  r_cloud : zecCloudManager;
  r_endpoint : string;
  r_servers : Servers
}.

Section main.
Context (NewClient : string → string → result unit bool).

(** The secrets, the cloud manager and, for a controller, the probe of the cloud. *)
Definition start_cloud (f : flags) : start (result unit zecCloudManager) :=
  let controller := String.eqb (driverType f) ControllerDriverType in
  try secret <- (if controller then on_host (GetZecSecret (secretpathAK f) (secretpathPW f))
                 else mret (Ok ("", ""))) ;
  match NewZecCloudManager NewClient secret.1 secret.2 (driverType f) with
  | Err e => mret (Err e)
  | Ok cm =>
    ready ← (if controller then probe_loop probe_tries else mret true);
    reject tt when negb ready ;;
    mret (Ok cm)
  end.

Definition main (f : flags) : start (result unit running) :=
  reject tt when negb (String.eqb (driverType f) NodeDriverType) &&
                 negb (String.eqb (driverType f) ControllerDriverType) ;;
  let g := parse_globals f in
  reject tt when negb (defaults_agree g) ;;
  try zec_platform <- on_host VerifyEnv ;
  try env <- on_host GetZecEnv ;
  try cm <- start_cloud f ;
  mret (Ok {| r_globals := g;
              r_driver := InitDiskDriver GetDiskDriver (Some
                {| in_Name := driverName f; in_Version := Version;
                   in_NodeId := fst env; in_ZoneId := snd env; in_MaxVolume := maxVolume f;
                   in_VolumeCap := DefaultVolumeAccessModeType;
                   in_ControllerCap := DefaultControllerServiceCapability;
                   in_NodeCap := DefaultNodeServiceCapability;
                   in_PluginCap := DefaultPluginCapability |});
              r_cloud := cm; r_endpoint := endpoint f;
              r_servers := Run_servers g (driverType f) |}).
End main.
