(* ===== verification/StartupSpec.v ===== *)
(** * Properties of the start of the driver

    What must hold before the driver serves anything, whatever the host and the
    cloud answer, and who touches the credentials and the cloud. *)

From S2P Require Import Prelude GoStd Csi Common Prog Driver CloudTypes Cloud Sim.
From S2P Require Import Host HostSim Startup.

Local Open Scope Z_scope.

Definition start_ok : answers StartE := fun R e =>
  match e in StartE R return R → Prop with
  | StHost o => host_ok _ o
  | _ => fun _ => True
  end.

Definition is_cloud (ev : event StartE) : bool :=
  match ev_call ev with StCloud _ => true | _ => false end.

(** The obligation of the start: what each kind of driver may read and call. *)
Definition start_obl (f : flags) (h : list (event StartE)) (R : Type) (e : StartE R) : Prop :=
  match e with
  | StHost (ReadFile path) =>
    path = "/sys/class/dmi/id/sys_vendor" ∨ path = "/sys/class/dmi/id/product_serial" ∨
    path = "/sys/class/dmi/id/product_family" ∨
    driverType f = "controller" ∧ (path = secretpathAK f ∨ path = secretpathPW f)
  | StHost (CombinedOutput cmd args) => (cmd = "blockdev" ∨ cmd = "lsblk") ∧ args = ["-V"]
  | StHost _ => False
  | StCloud Probe => driverType f = "controller"
  | StCloud _ => False
  | Sleep s => s = 3
  end.

(** A file that was read, without its line ends. *)
Definition file_is (path content : string) (h : list (event StartE)) : Prop :=
  ∃ raw, Event (StHost (ReadFile path)) (Ok raw) ∈ h ∧ RemoveAll raw newline_byte = content.

(** A command that answered without an error. *)
Definition command_found (cmd : string) (h : list (event StartE)) : Prop :=
  ∃ output, Event (StHost (CombinedOutput cmd ["-V"])) (output, None) ∈ h.

(** What a driver that starts is started with. *)
Definition starts_with (f : flags) (cfg : running) (t : list (event StartE)) : Prop :=
  let d := r_driver cfg in
  (driverType f = "node" ∨ driverType f = "controller") ∧
  DefaultZone (r_globals cfg) = defaultZone f ∧
  DefaultResourceGroup (r_globals cfg) = defaultResourceGroup f ∧
  (defaultZone f = "" ↔ defaultResourceGroup f = "") ∧
  file_is "/sys/class/dmi/id/sys_vendor" "Zenlayer Elastic Compute" t ∧
  command_found "blockdev" t ∧ command_found "lsblk" t ∧
  file_is "/sys/class/dmi/id/product_serial" (d_nodeId d) t ∧ len (d_nodeId d) = 19 ∧
  file_is "/sys/class/dmi/id/product_family" (d_zoneId d) t ∧ d_zoneId d ≠ "" ∧
  Iscontroller (r_cloud cfg) = zecClient (r_cloud cfg) ∧
  if Iscontroller (r_cloud cfg)
  then driverType f = "controller" ∧ Event (StCloud Probe) (Ok tt) ∈ t ∧
       r_servers cfg = {| IdentityServer := true; ControllerServer := true; NodeServer := mixDriver f |}
  else driverType f = "node" ∧
       r_servers cfg = {| IdentityServer := true; ControllerServer := false; NodeServer := true |}.

Lemma NewZecCloudManager_Ok NewClient ak pw dt cm :
  NewZecCloudManager NewClient ak pw dt = Ok cm →
  let controller := negb (String.eqb dt "node") in
  Iscontroller cm = controller ∧ zecClient cm = controller.
Proof.
  unfold NewZecCloudManager. destruct (String.eqb dt "node"); [by intros [= <-]|].
  destruct (NewClient ak pw) as [[]|]; [|done..]. by intros [= <-].
Qed.

(** The probes: at most [n], and a success ends with one that succeeded. *)
Lemma wp_probe_loop f n h :
  driverType f = ControllerDriverType →
  wp (hist start_ok (start_obl f)) (probe_loop n)
    (fun b h' => ∃ t, h' = h ++ t ∧ (length (List.filter is_cloud t) <= n)%nat ∧
       (b = true → Event (StCloud Probe) (Ok tt) ∈ t)) h.
Proof.
  intros Hf. revert h. induction n as [|n IH]; intros h; cbn [probe_loop].
  - exists []. rewrite app_nil_r. by split_and!.
  - apply wp_bind, wp_call; [exact Hf|]. intros [[]|e] _; cbn [next hist].
    + exists [Event (StCloud Probe) (Ok tt)]. split_and!; [done|simpl; lia|].
      intros _. apply list_elem_of_here.
    + apply wp_bind, wp_call; [done|]. intros [] _. cbn [next hist].
      eapply wp_mono; [|apply IH]. intros b h' (t & -> & Hn & Hb).
      exists (Event (StCloud Probe) (Err e) :: Event (Sleep 3) tt :: t).
      split_and!; [by rewrite <-!app_assoc|simpl; lia|]. intros ?.
      by apply list_elem_of_further, list_elem_of_further, Hb.
Qed.

(** The reads of the host, in the history of the start. *)
Definition reading (f : flags) : protocol HostE (list (event StartE)) :=
  Protocol (fun R h o => start_obl f h R (StHost o)) (fun R _ o r => host_ok R o r)
    (fun R h o r => h ++ [Event (StHost o) r]).

Lemma wp_on_host {A} f (p : host A) Q h :
  wp (reading f) p Q h → wp (hist start_ok (start_obl f)) (on_host p) Q h.
Proof.
  unfold on_host. apply wp_interp. clear. intros R o h Ho. split; [exact Ho|]. by intros r Hr.
Qed.

(** More was read, and the cloud was not called. *)
Definition only_read (h h' : list (event StartE)) : Prop :=
  ∃ t, h' = h ++ t ∧ List.filter is_cloud t = [].

Lemma only_read_refl h : only_read h h.
Proof. exists []. by rewrite app_nil_r. Qed.

Lemma only_read_snoc h h' R (o : HostE R) r :
  only_read h h' → only_read h (h' ++ [Event (StHost o) r]).
Proof.
  intros (t & -> & Ht). exists (t ++ [Event (StHost o) r]). split; [by rewrite app_assoc|].
  by rewrite List.filter_app, Ht.
Qed.

#[local] Hint Resolve only_read_refl only_read_snoc : history.

Ltac walk_start := walk_with ltac:(cbn [pre reading start_obl]).

Ltac read_case :=
  walk_start; cbn [next reading];
  conditions_with ltac:(idtac; match goal with
    | H : (len _ =? ZECVMID_LEN) = true |- _ => apply Z.eqb_eq in H
    | H : (len _ =? 0) = false |- _ => rewrite Z.eqb_neq, len_0 in H
    end);
  try solve [auto 10]; (split; [by eauto 10 with history|]); intros ? ?; simplify_eq/=;
  eauto 10 with history.

Lemma wp_VerifyEnv f h :
  wp (reading f) VerifyEnv
    (fun r h' => only_read h h' ∧ ∀ p, r = Ok p →
       file_is ZEC_SYS_VENDOR_PATH ZEC_PLATFORM h' ∧
       command_found "blockdev" h' ∧ command_found "lsblk" h') h.
Proof.
  unfold file_is, command_found. read_case.
  repeat match goal with x : string * option execerr |- _ => destruct x as [? [|]] end; simplify_eq/=.
  split_and!; eauto 10 with history.
Qed.

Lemma wp_GetZecEnv f h :
  wp (reading f) GetZecEnv
    (fun r h' => only_read h h' ∧ ∀ p, r = Ok p →
       file_is ZEC_PRODUCT_SERIAL_PATH p.1 h' ∧ len p.1 = ZECVMID_LEN ∧
       file_is ZEC_PRODUCT_FAMILY_PATH p.2 h' ∧ p.2 ≠ "") h.
Proof. unfold file_is. read_case. Qed.

Lemma wp_GetZecSecret f h :
  driverType f = ControllerDriverType →
  wp (reading f) (GetZecSecret (secretpathAK f) (secretpathPW f))
    (fun r h' => only_read h h') h.
Proof. intros Hf. walk_start; cbn [next reading]; eauto 10 with history. Qed.

Lemma file_is_app path content h t : file_is path content h → file_is path content (h ++ t).
Proof. intros (raw & Hin & Hc). exists raw. split; [|done]. apply elem_of_app. by left. Qed.

Lemma command_found_app cmd h t : command_found cmd h → command_found cmd (h ++ t).
Proof. intros (out & Hin). exists out. apply elem_of_app. by left. Qed.

Lemma defaults_agree_true g :
  defaults_agree g = true → (DefaultZone g = "" ↔ DefaultResourceGroup g = "").
Proof.
  unfold defaults_agree. destruct (String.eqb_spec (DefaultZone g) ""),
    (String.eqb_spec (DefaultResourceGroup g) ""); naive_solver.
Qed.

#[local] Opaque on_host probe_loop.

(** The cloud is called at most six times. *)
Definition cloud_calls (t : list (event StartE)) : nat := length (List.filter is_cloud t).

Lemma cloud_calls_app h t : cloud_calls (h ++ t) = (cloud_calls h + cloud_calls t)%nat.
Proof. unfold cloud_calls. by rewrite List.filter_app, length_app. Qed.

Lemma only_read_calls h h' : only_read h h' → cloud_calls h' = cloud_calls h.
Proof.
  intros (t & -> & Ht). rewrite cloud_calls_app. unfold cloud_calls. rewrite Ht. simpl. lia.
Qed.

(** What the cloud manager is, once the driver may start. *)
Definition cloud_ready (f : flags) (cm : zecCloudManager) (t : list (event StartE)) : Prop :=
  Iscontroller cm = zecClient cm ∧
  if Iscontroller cm then driverType f = ControllerDriverType ∧ Event (StCloud Probe) (Ok tt) ∈ t
  else driverType f = NodeDriverType.

Lemma wp_start_cloud NewClient f h :
  driverType f = NodeDriverType ∨ driverType f = ControllerDriverType →
  wp (hist start_ok (start_obl f)) (start_cloud NewClient f)
    (fun r h' => (∃ t, h' = h ++ t) ∧ (cloud_calls h' <= cloud_calls h + probe_tries)%nat ∧
       ∀ cm, r = Ok cm → cloud_ready f cm h') h.
Proof.
  intros Hf. unfold start_cloud. destruct (String.eqb_spec (driverType f) ControllerDriverType) as [Hc|Hc].
  - apply wp_bind. eapply wp_mono; [|by apply wp_on_host, wp_GetZecSecret].
    intros secret h1 H1. pose proof (only_read_calls _ _ H1) as Hcalls. destruct H1 as (t1 & -> & _).
    destruct secret as [[ak pw]|e]; [|walk_start; split_and!; [eauto|lia|done]].
    destruct (NewZecCloudManager NewClient _ _ _) as [cm|e] eqn:Hcm;
      [|walk_start; split_and!; [eauto|lia|done]].
    rewrite Hc in Hcm. apply NewZecCloudManager_Ok in Hcm as [Hic Hcl].
    apply wp_bind. eapply wp_mono; [|by apply wp_probe_loop].
    intros b h2 (t2 & -> & Hn & Hb). change (length _) with (cloud_calls t2) in Hn.
    assert (Hle : (cloud_calls ((h ++ t1) ++ t2) <= cloud_calls h + probe_tries)%nat)
      by (rewrite cloud_calls_app; lia).
    destruct b; cbn [negb]; walk_start; (split; [by rewrite <-app_assoc; eauto|split; [exact Hle|]]);
      [|done].
    intros cm' [= <-]. unfold cloud_ready. rewrite Hic, Hcl. split; [done|]. simpl.
    split; [done|]. apply elem_of_app. right. by apply Hb.
  - destruct Hf as [Hf|Hf]; [|done]. unfold mret, prog_ret, mbind. cbn [prog_bind fst snd].
    assert (Hh : ∃ t, h = h ++ t) by (exists []; by rewrite app_nil_r).
    destruct (NewZecCloudManager NewClient _ _ _) as [cm0|e] eqn:Heqr; [|by split_and!; [|lia|]].
    cbn [prog_bind negb wp]. split_and!; [done|lia|].
    intros cm [= <-]. rewrite Hf in *. apply NewZecCloudManager_Ok in Heqr as [Hic Hcl].
    unfold cloud_ready. by rewrite Hic, Hcl.
Qed.

#[local] Opaque start_cloud VerifyEnv GetZecEnv.

Lemma wp_main NewClient f :
  wp (hist start_ok (start_obl f)) (main NewClient f)
    (fun r t => (cloud_calls t <= probe_tries)%nat ∧ ∀ cfg, r = Ok cfg → starts_with f cfg t) [].
Proof.
  assert (Hzero : cloud_calls [] = 0%nat) by done.
  unfold main. walk_start; try (split; [rewrite Hzero; apply Nat.le_0_l|done]).
  eapply wp_mono; [|apply wp_on_host, wp_VerifyEnv]. intros platform h1 [H1 Hplat].
  rewrite <-(only_read_calls _ _ H1) in Hzero.
  destruct platform as [platform|]; walk_start; [|split; [rewrite Hzero; apply Nat.le_0_l|done]].
  destruct (Hplat _ eq_refl) as (Hvendor & Hblockdev & Hlsblk).
  eapply wp_mono; [|apply wp_on_host, wp_GetZecEnv]. intros env h2 [H2 Henv].
  rewrite <-(only_read_calls _ _ H2) in Hzero.
  destruct env as [[vmid zone]|]; walk_start; [|split; [rewrite Hzero; apply Nat.le_0_l|done]].
  destruct (Henv _ eq_refl) as (Hid & Hlen & Hzone & Hne).
  assert (Hf : driverType f = NodeDriverType ∨ driverType f = ControllerDriverType)
    by (apply andb_false_iff in Heqb as [H%negb_false_iff|H%negb_false_iff];
        apply String.eqb_eq in H; auto).
  eapply wp_mono; [|by apply wp_start_cloud]. intros cm h3 ([t ->] & Hn & Hcm).
  rewrite Hzero in Hn. destruct cm as [cm|]; walk_start; [|done].
  destruct (Hcm _ eq_refl) as [Hic Hready]. split; [done|]. intros cfg [= <-].
  apply negb_false_iff, defaults_agree_true in Heqb0. destruct H2 as (t2 & -> & _).
  unfold starts_with. cbn [r_driver r_globals r_cloud r_servers d_nodeId d_zoneId].
  split_and!; auto using file_is_app, command_found_app. destruct (Iscontroller cm); [destruct Hready as [Ht Hp]|];
    unfold Run_servers; rewrite ?Ht, ?Hready; by split_and!.
Qed.

(** C32: The driver starts only where it can work.  It serves only after it has seen
    the cloud's platform, an instance id of 19 bytes and a zone, and after
    [blockdev] and [lsblk] have answered without an error; the default zone and
    group are the flags', set together or not at all; a controller has a cloud client
    and a successful probe, after at most six; a node reads no secret file, makes no
    call of the cloud and has no client; and each registers the services of its
    kind, a controller those of a node only when it is mixed. *)
Theorem main_starts (NewClient : string → string → result unit bool) (f : flags) t r :
  traces start_ok (main NewClient f) t r →
  (∀ t1 R (e : StartE R) x t2, t = t1 ++ Event e x :: t2 → start_obl f t1 R e) ∧
  (cloud_calls t <= 6)%nat ∧ (∀ cfg, r = Ok cfg → starts_with f cfg t).
Proof.
  intros Ht. destruct (wp_hist_trace _ _ _ _ _ _ (wp_main NewClient f) Ht) as [HQ Hobl].
  split; [|done]. intros t1 R e x t2 Heq. exact (Hobl _ _ _ Heq).
Qed.

(** A host of the platform, and the example's cloud. *)
Definition start_env : env StartE world := fun R e =>
  match e in StartE R return world → R * world with
  | StHost o => fun w =>
    (match o in HostE R return R with
     | ReadFile path => Ok (if String.eqb path ZEC_SYS_VENDOR_PATH then ZEC_PLATFORM
                            else if String.eqb path ZEC_PRODUCT_SERIAL_PATH then "1455441132925494374"
                            else "asia-a" +:+ String newline_byte "")
     | CombinedOutput _ _ => ("", None)
     | o => (host_env _ o NodeExample.host0).1
     end, w)
  | StCloud o => run cloud_env (zec_impl {| zecClient := true; Iscontroller := true |} _ o)
  | Sleep _ => fun w => (tt, w)
  end.

Lemma start_env_ok R (e : StartE R) w : start_ok R e (start_env R e w).1.
Proof. destruct e as [R o|R o|]; [|done..]. by destruct o. Qed.

Definition example_flags : flags :=
  {| driverName := "disk.csi.zenlayer.com"; endpoint := "unix://csi/csi.sock"; maxVolume := 9;
     secretpathAK := "/ak"; secretpathPW := "/pw"; driverType := ControllerDriverType;
     mixDriver := true; featureGates := "enable_mount_opt"; defaultZone := "";
     defaultResourceGroup := "" |}.

Lemma main_starts_witness :
  let p := main (fun _ _ => Ok true) example_flags in
  let t := run_log start_env p Example.cloud0 in
  ∃ cfg, (run start_env p Example.cloud0).1 = Ok cfg ∧ starts_with example_flags cfg t ∧
         d_zoneId (r_driver cfg) = "asia-a".
Proof.
  intros p t. eexists. split; [vm_compute; reflexivity|]. split; [|reflexivity].
  apply (proj2 (proj2 (main_starts (fun _ _ => Ok true) example_flags t _
    (run_log_traces start_ok start_env p Example.cloud0 start_env_ok)))).
  vm_compute. reflexivity.
Defined.

(** ** Endpoints *)

(** The scheme is matched in any case and kept as written, so only the lower-case
    one is taken for a socket whose stale file has to be removed. *)
Lemma upper_case_scheme_keeps_socket (servers : Servers) t r :
  ParseEndpoint "UNIX://csi/csi.sock" = Ok ("UNIX", "csi/csi.sock") ∧
  (traces (fun _ _ _ => True) (serve "unix://csi/csi.sock" servers) t r →
   ∃ x t', t = Event (RemovePath "/csi/csi.sock") x :: t') ∧
  (traces (fun _ _ _ => True) (serve "UNIX://csi/csi.sock" servers) t r →
   ∃ x t', t = Event (Listen "UNIX" "csi/csi.sock") x :: t').
Proof.
  split_and!; [reflexivity| |]; intros (x & t' & -> & _); eauto.
Qed.
