(* ===== verification/Server.v ===== *)
(** * The life of the gRPC server

    [nonBlockingGRPCServer] of [pkg/disk/rpcserver/server.go]: [Start] runs
    [serve] ([Startup.v]) in a goroutine of its own and counts it in a
    [WaitGroup]; [Wait], [Stop] and [ForceStop] are calls of the main goroutine,
    [logGRPC] the interceptor of each RPC.  The goroutines interleave in any
    order: [sv_step] is one step of one of them. *)

From S2P Require Import Prelude GoStd Csi Prog Host Startup.

Local Open Scope Z_scope.

(** ** The interceptor *)

Inductive KlogE (E : Type → Type) : Type → Type :=
| V (level : Z) (line : string) : KlogE E unit
| Errorf (line : string) : KlogE E unit
| Handling {R : Type} (o : E R) : KlogE E R.
Arguments V {E} _ _.
Arguments Errorf {E} _.
Arguments Handling {E R} _.

(** [StripSecrets] is of csi-lib-utils; a message is given by its text. *)
Section logGRPC.
Context {E : Type → Type} {Req Resp : Type}.
Context (StripSecrets : Req + Resp → string) (error_text : codes.code → string).

Definition logGRPC (FullMethod : string) (req : Req) (handler : Req → prog E (rpc Resp))
    : prog (KlogE E) (rpc Resp) :=
  _ ← call (V 3 ("GRPC call [" +:+ FullMethod +:+ "]"));
  _ ← call (V 5 ("GRPC request [" +:+ StripSecrets (inl req) +:+ "]"));
  resp ← interp (fun R o => call (Handling o)) (handler req);
  _ ← match resp with
      | Err err => call (Errorf ("GRPC error [" +:+ error_text err +:+ "]"))
      | Ok resp => call (V 5 ("GRPC response [" +:+ StripSecrets (inr resp) +:+ "]"))
      end;
  mret resp.
End logGRPC.

(** ** The server *)

(** A goroutine that runs [serve]: before [server.Serve], inside it, or at its end. *)
Inductive routine : Type :=
| Running (p : prog ServeE (result unit unit))
| Serving (k : unit → prog ServeE (result unit unit)).

Record nonBlockingGRPCServer : Type := mkServerState {
  (** the counter of the [WaitGroup] *)
  wg : Z;
  (** [s.server], set by [serve]; whether it still serves *)
  server : option bool;
  routines : gmap nat routine;
  (** the process has ended: [klog.Fatal], or a panic *)
  exited : bool
}.

Definition NewNonBlockingGRPCServer : nonBlockingGRPCServer :=
  mkServerState 0 None ∅ false.

(** [s.wg.Add(1); go s.serve(endpoint, servers)], in a new goroutine [i]. *)
Definition Start (endpoint : string) (servers : Servers) (i : nat) (s : nonBlockingGRPCServer)
    : nonBlockingGRPCServer :=
  mkServerState (wg s + 1) (server s) (<[i := Running (serve endpoint servers)]> (routines s)) (exited s).

(** [s.wg.Wait()] returns when the counter is zero. *)
Definition Wait_returns (s : nonBlockingGRPCServer) : Prop := exited s = false ∧ wg s = 0.

(** [GracefulStop] and [Stop] of a server; both are methods of a nil pointer, and
    panic, before [serve] has set it. *)
Definition Stop (s : nonBlockingGRPCServer) : nonBlockingGRPCServer :=
  match server s with
  | Some _ => mkServerState (wg s) (Some false) (routines s) (exited s)
  | None => mkServerState (wg s) None (routines s) true
  end.

Definition ForceStop (s : nonBlockingGRPCServer) : nonBlockingGRPCServer := Stop s.

Definition set_routine (i : nat) (r : routine) (s : nonBlockingGRPCServer) : nonBlockingGRPCServer :=
  mkServerState (wg s) (server s) (<[i := r]> (routines s)) (exited s).

(** The calls of [serve] that come before [server.Serve]. *)
Definition before_serving {R} (e : ServeE R) : bool :=
  match e with ServeGRPC _ => false | RemovePath _ | Listen _ _ => true end.

(** One step of a goroutine, or a call by the main one. *)
Inductive sv_step : nonBlockingGRPCServer → nonBlockingGRPCServer → Prop :=
| sv_start endpoint servers i s :
    exited s = false → routines s !! i = None → sv_step s (Start endpoint servers i s)
| sv_stop s : exited s = false → sv_step s (Stop s)
| sv_forcestop s : exited s = false → sv_step s (ForceStop s)
(** a call of [serve] before [server.Serve] is answered *)
| sv_call i R (e : ServeE R) k r s :
    exited s = false → routines s !! i = Some (Running (Vis e k)) →
    before_serving e = true →
    sv_step s (set_routine i (Running (k r)) s)
(** [grpc.NewServer], the registrations, and [server.Serve] *)
| sv_serve i servers k s :
    exited s = false → routines s !! i = Some (Running (Vis (ServeGRPC servers) k)) →
    sv_step s (mkServerState (wg s) (Some true) (<[i := Serving k]> (routines s)) (exited s))
(** [server.Serve] returns: stopped, or with an error *)
| sv_return i k s :
    exited s = false → routines s !! i = Some (Serving k) →
    sv_step s (set_routine i (Running (k tt)) s)
(** [klog.Fatal] in [serve] *)
| sv_fatal i s :
    exited s = false → routines s !! i = Some (Running (Ret (Err tt))) →
    sv_step s (mkServerState (wg s) (server s) (routines s) true)
(** [serve] returns, and its goroutine is gone *)
| sv_end i s :
    exited s = false → routines s !! i = Some (Running (Ret (Ok tt))) →
    sv_step s (mkServerState (wg s) (server s) (delete i (routines s)) (exited s)).

(** [Run] from its [Start] on. *)
Definition running_server (endpoint : string) (servers : Servers) : nonBlockingGRPCServer → Prop :=
  rtc sv_step (Start endpoint servers 0 NewNonBlockingGRPCServer).

(** ** Properties *)

(** The counter is never decreased. *)
Lemma sv_step_wg s s' : sv_step s s' → wg s <= wg s'.
Proof. intros []; cbn; try done; try lia; unfold ForceStop, Stop; by destruct (server s0). Qed.

(** C33: The server never stops waiting.  Once [Start] has been called, [Wait] does
    not return, in no interleaving and whatever becomes of the server: nothing
    calls [Done], so [Run] returns in no case, not even when [Serve] has failed or
    the server was stopped; the process goes on without a server until it is
    killed, or ends by [klog.Fatal] or a panic. *)
Theorem Wait_never_returns (endpoint : string) (servers : Servers) (s : nonBlockingGRPCServer) :
  running_server endpoint servers s → ¬ Wait_returns s.
Proof.
  intros Hs [_ Hwg]. assert (Hpos : 1 <= wg s); [|lia].
  unfold running_server in Hs. remember (Start _ _ _ _) as s0 eqn:Hs0.
  assert (H0 : 1 <= wg s0) by (by subst). clear Hs0 Hwg.
  induction Hs as [s|s1 s2 s3 Hstep _ IH]; [done|]. apply IH.
  apply sv_step_wg in Hstep. lia.
Qed.

(** [unix://csi.sock], a stale socket removed, listened on, served, and the server
    stopped: the goroutine has ended, and the counter is still 1. *)
Lemma Wait_never_returns_witness :
  let servers := {| IdentityServer := true; ControllerServer := true; NodeServer := false |} in
  let s := mkServerState 1 (Some false) ∅ false in
  running_server "unix://csi.sock" servers s ∧ ¬ Wait_returns s.
Proof.
  cbv zeta.
  assert (H : running_server "unix://csi.sock"
    {| IdentityServer := true; ControllerServer := true; NodeServer := false |}
    (mkServerState 1 (Some false) ∅ false)).
  { eapply rtc_l; [eapply (sv_call 0%nat _ _ _ (Ok tt)); reflexivity|].
    eapply rtc_l; [eapply (sv_call 0%nat _ _ _ (Ok tt)); reflexivity|].
    eapply rtc_l; [eapply (sv_serve 0%nat); reflexivity|].
    eapply rtc_l; [eapply sv_stop; reflexivity|].
    eapply rtc_l; [eapply (sv_return 0%nat); reflexivity|].
    eapply rtc_l; [eapply (sv_end 0%nat); reflexivity|].
    apply rtc_refl. }
  split; [exact H|]. exact (Wait_never_returns _ _ _ H).
Defined.
